(* ===== verification/_CoqProject ===== *)
-Q . S2P
Prelude.v
GoRuntime.v
Storage.v
MemoryStore.v
MemoryStoreProofs.v
SQLiteStore.v
SQLiteStoreProofs.v
KmipLib.v
CryptoLib.v
Http.v
Testbed.v
DashAuth.v
Connections.v
AuditLog.v
Handler.v
Requests.v
Lifecycle.v
HandlerSpec.v
HandlerProofs.v
RequestProofs.v
RequestTheorems.v
ProtocolTheorems.v
ObjectTheorems.v
StoreTheorems.v
AuditTheorems.v
Server.v
ServerTheorems.v
Interference.v
InterferenceTheorems.v
RateLimiter.v
RestAPI.v
RestProofs.v
Assets.v
DashAuthTheorems.v
RestTheorems.v
AssetTheorems.v
DevCerts.v
Startup.v
StartupTheorems.v
