(* ===== verification/Prelude.v ===== *)
(** * Open KMIP Server: a verification library

    The program is a key-management server in Go (src/): clients speak the KMIP
    protocol over TLS, operators use a REST API and a dashboard; both work on one key
    store.  This development models the server, from the flags of its command line to
    the rows of its tables, and proves what it must not get wrong: the lifecycle of
    keys, the refusals, authentication, the storage backends, the audit trail.

    ** The parts of the program and their models

    - Prelude (this file): results, panics, the state monad of every model, its [wp]
      calculus, early-return notations, loops, a few lemmas on lists and maps.
    - GoRuntime: what the Go language and standard library contribute (integer
      wrap-around, [make], [fmt] verbs, time), and the class [Runtime] of the world
      outside: clock, random source, UUIDs, map iteration order.
    - Storage: src/internal/storage/types.go, and the abstract vault with one
      postcondition per operation of the [Storage] interface, collected in the class
      [StorageSpec] against which all clients are proved.
    - MemoryStore, MemoryStoreProofs: src/internal/storage/memory.go over an explicit
      heap of record pointers and byte buffers, and the proof that it implements the
      vault.
    - SQLiteStore, SQLiteStoreProofs: src/internal/storage/sqlite.go as atomic statements
      over two tables, with a driver that may fail, and the same proof.
    - KmipLib, CryptoLib: the kmip-go package and the cryptographic primitives, which
      are outside the repository: classes of operations with their documented laws.
    - Http: requests and responses of net/http, JSON trees and struct decoding, string
      functions, hex and base64 with their round trips.
    - Testbed: concrete instances of the parameters, so the laws are consistent and
      the witnesses of the theorems run.
    - Connections: src/internal/kmip/connections.go.  AuditLog: src/internal/audit/audit.go,
      producers and writer as separate steps.
    - Handler: the operation handlers of src/internal/kmip/handler.go and the dispatch;
      Requests: processBatchItem, the audit entry of an item, HandleRequest.
    - Lifecycle: the state machine of a managed object and the evolutions of a vault.
    - HandlerSpec, HandlerProofs: the meaning of each KMIP operation on the vault, and
      that the handlers implement it over any backend; RequestProofs: the same for
      batches and whole requests.
    - Server: the accept loop and the life of a connection of
      src/internal/kmip/server.go.
    - DashAuth: src/internal/dashauth/dashauth.go, sessions, logins and the decision of
      RequireAPIAuth.  RateLimiter: the token buckets of src/internal/api/api.go, in
      float64.
    - RestAPI: the rest of src/internal/api/api.go: routes, middleware and every handler,
      over the same store, audit logger and tracker as the KMIP side; RestProofs: what no
      endpoint can break, a panic included.
    - Assets: src/internal/storage/assets.go over the asset tables, and the SQLite store
      paired with them.
    - DevCerts: src/internal/devcerts/devcerts.go over a map of files.  Startup:
      src/cmd/open-kmip/main.go, NewServer and NewSQLiteStore: from the flags to the
      running server.
    - Interference: the handlers with the store calls of other clients at every point
      between theirs (InterferenceTheorems).
    - RequestTheorems, ProtocolTheorems, ObjectTheorems, StoreTheorems, AuditTheorems,
      ServerTheorems, DashAuthTheorems, RestTheorems, AssetTheorems, StartupTheorems: the
      properties, each with a witness on the Testbed.

    A handler is a function of the monad [M W S A]: [W] is the world outside the
    program, [S] the state the component owns.  The handler object of Requests owns the
    store, the audit logger and the connection tracker, and runs actions of each part
    with [zoom].  The API object of RestAPI holds such a handler object next to its
    authenticator and rate limiter: the two interfaces share it.  One request runs at a
    time: [serve] is a sequence of KMIP requests, [run_server] one of both kinds.  Interference puts the store calls of
    other clients between those of a request.

    ** What the theorems show

    - The lifecycle (C1 to C6, C18): a KMIP request never panics and means what the KMIP
      semantics says; over any sequence of requests objects follow the lifecycle and
      compromise is irreversible over KMIP; Archive and Recover can never succeed.  With
      store calls of other clients in between, identities and destruction stay (C5), but
      an Activate can undo a Revoke (C6).
    - Both interfaces (C3, C8): together they keep every object's identity, the finality
      of destruction, and the typing of the vault.
    - Authentication (C7, C11 to C13, C30, C32): no protected endpoint without the key or
      a live session; how long sessions last; the limits on guesses and requests; a
      production start asks for client certificates and a key.
    - Storage (C9, C10, C26, C27, C31): both backends implement the vault, and what each
      promises beyond it; the asset tables implement an inventory.
    - Operations (C14 to C17, C23 to C25, C28, C29): the transition table, what Get
      discloses, the cryptographic round trips, key pairs and key derivation; what REST
      discloses and activates.
    - Protocol and connections (C19 to C22, C38 to C40): refusals, Query, the audit trail
      of an item; connections, framing, the accept limit.
    - The audit log (C34 to C37): the queue under any interleaving, that a queued entry
      is written, shutdown, queries.  Development certificates: C33.

    ** Bounds and fuel

    [Server.serve_messages] takes the number of messages it may serve; its theorems
    hold for every number.  [AuditLog.writer] takes the number of its iterations; Close
    gives it one more than the queue holds, which is enough (C36).  Lengths and integer
    fields are [Z] with their machine width made explicit where the code converts
    ([int32], [int64]); allocation with a negative length panics ([go_make]).

    ** What is not modelled

    Data races: the in-memory store hands out pointers to its records, which handlers
    read without its mutex (Interference reads a record at the Get); REST requests under
    interleaved store calls; the TLS and HTTP layers below a connection and a request; what the
    process does between a fatal error and its end; logging to the console; the
    embedded dashboard page, which only its file server reads. *)

From Stdlib Require Import ZArith Lia.
From stdpp Require Export base tactics list gmap strings pretty.
From Stdlib.Strings Require Byte.

(** Go slices of bytes, as values. *)
Abbreviation bytes := (list Byte.byte).

(** ** Results and outcomes

    [result A] is Go's pair [(T, error)]: exactly one side is meaningful at every
    return of the modelled code.  [outcome A] is how a call ends: it returns, or it
    panics. *)
Inductive result (A : Type) : Type :=
| Val (a : A)
| Err (e : string).
Arguments Val {A} a.
Arguments Err {A} e.

Inductive outcome (A : Type) : Type :=
| Ok (a : A)
| Panic (msg : string).
Arguments Ok {A} a.
Arguments Panic {A} msg.

#[global] Instance result_fmap : FMap result :=
  λ A B f r, match r with Val a => Val (f a) | Err e => Err e end.

(** ** The state and panic monad

    [W] is the world outside the program (clock, randomness, drivers), [S] the state
    the component owns. *)
Definition M (W S A : Type) : Type := W * S → outcome A * (W * S).

#[global] Instance M_ret {W S} : MRet (M W S) := λ A a σ, (Ok a, σ).
#[global] Instance M_bind {W S} : MBind (M W S) :=
  λ A B k m σ,
    match m σ with
    | (Ok a, σ') => k a σ'
    | (Panic e, σ') => (Panic e, σ')
    end.

Definition get_state {W S} : M W S S := λ σ, (Ok σ.2, σ).
Definition put_state {W S} (s : S) : M W S unit := λ σ, (Ok tt, (σ.1, s)).
Definition go_panic {W S A} (msg : string) : M W S A := λ σ, (Panic msg, σ).
Definition world {W S A} (f : W → A * W) : M W S A :=
  λ σ, let '(a, w') := f σ.1 in (Ok a, (w', σ.2)).
Definition from_outcome {W S A} (o : outcome A) : M W S A := λ σ, (o, σ).

(** Running an action on a part of a larger state. *)
Definition zoom {W S T A} (get : T → S) (put : S → T → T) (m : M W S A) : M W T A :=
  λ σ, let '(r, (w', s')) := m (σ.1, get σ.2) in (r, (w', put s' σ.2)).

Declare Scope go_scope.
Delimit Scope go_scope with go.

(** Early returns: [some x := e else r ;; k] is the code's
    [if x == nil { return r }], [require c else r ;; k] is
    [if !c { return r }], [val x := e else err => r ;; k] is
    [if err != nil { return r }]. *)
Notation "'some' x ':=' e 'else' r ';;' k" :=
  (match e with Some x => k | None => r end)
  (at level 10, x pattern, e at level 100, r at level 99, k at level 200) : go_scope.
Notation "'require' c 'else' r ';;' k" :=
  (if c then k else r)
  (at level 10, c at level 100, r at level 99, k at level 200) : go_scope.
Notation "'val' x ':=' e 'else' err '=>' r ';;' k" :=
  (match e with Val x => k | Err err => r end)
  (at level 10, x pattern, e at level 100, err name, r at level 99, k at level 200) : go_scope.

(** ** Reasoning about the monad

    [wp m Q w s]: run from world [w] and state [s], the action [m] returns (it does
    not panic) and its result and final world and state satisfy [Q]. *)
Definition wp {W S A} (m : M W S A) (Q : A → W → S → Prop) (w : W) (s : S) : Prop :=
  match m (w, s) with
  | (Ok a, (w', s')) => Q a w' s'
  | (Panic _, _) => False
  end.

Section wp.
Context {W S : Type}.

Lemma wp_ret {A} (a : A) (Q : A → W → S → Prop) w s : Q a w s → wp (mret a) Q w s.
Proof. done. Qed.

Lemma wp_bind {A B} (m : M W S A) (k : A → M W S B) Q w s :
  wp m (λ a w' s', wp (k a) Q w' s') w s → wp (m ≫= k) Q w s.
Proof.
  unfold wp, mbind, M_bind. destruct (m (w, s)) as [[a|e] [w' s']]; done.
Qed.

Lemma wp_mono {A} (m : M W S A) (P Q : A → W → S → Prop) w s :
  wp m P w s → (∀ a w' s', P a w' s' → Q a w' s') → wp m Q w s.
Proof.
  unfold wp. destruct (m (w, s)) as [[a|e] [w' s']]; naive_solver.
Qed.

Lemma wp_and {A} (m : M W S A) (P Q : A → W → S → Prop) w s :
  wp m P w s → wp m Q w s → wp m (λ a w' s', P a w' s' ∧ Q a w' s') w s.
Proof. unfold wp. destruct (m (w, s)) as [[a|e] [w' s']]; done. Qed.

Lemma wp_get_state (Q : S → W → S → Prop) w s : Q s w s → wp get_state Q w s.
Proof. done. Qed.

Lemma wp_put_state s' (Q : unit → W → S → Prop) w s : Q tt w s' → wp (put_state s') Q w s.
Proof. done. Qed.

Lemma wp_world {A} (f : W → A * W) (Q : A → W → S → Prop) w s :
  Q (f w).1 (f w).2 s → wp (world f) Q w s.
Proof. unfold wp, world; simpl. by destruct (f w). Qed.

Lemma wp_zoom {T A} (get : T → S) (put : S → T → T) (m : M W S A)
    (Q : A → W → T → Prop) w t :
  wp m (λ a w' s', Q a w' (put s' t)) w (get t) → wp (zoom get put m) Q w t.
Proof. unfold wp, zoom; simpl. by destruct (m (w, get t)) as [[a|e] [w' s']]. Qed.

Lemma wp_run {A} (m : M W S A) (Q : A → W → S → Prop) w s a w' s' :
  m (w, s) = (Ok a, (w', s')) → wp m Q w s → Q a w' s'.
Proof. unfold wp. by intros ->. Qed.

Lemma wp_returns {A} (m : M W S A) (Q : A → W → S → Prop) w s :
  wp m Q w s → ∃ a w' s', m (w, s) = (Ok a, (w', s')) ∧ Q a w' s'.
Proof. unfold wp. destruct (m (w, s)) as [[a|e] [w' s']]; naive_solver. Qed.
End wp.

(** ** What an action never breaks

    [preserves R m]: however [m] ends, with a result or in a panic, the world and state
    it leaves are related by [R] to those it started from. *)
Definition preserves {W S A} (R : relation (W * S)) (m : M W S A) : Prop :=
  ∀ σ, R σ (m σ).2.

Section preserves.
Context {W S : Type} (R : relation (W * S)) `{!PreOrder R}.

Lemma preserves_ret {A} (a : A) : preserves R (mret (M := M W S) a).
Proof. intros σ. cbn. reflexivity. Qed.
Lemma preserves_get_state : preserves R get_state.
Proof. intros σ. cbn. reflexivity. Qed.
Lemma preserves_panic {A} msg : preserves R (go_panic (A:=A) msg).
Proof. intros σ. cbn. reflexivity. Qed.
Lemma preserves_from_outcome {A} (o : outcome A) : preserves R (from_outcome o).
Proof. intros σ. cbn. reflexivity. Qed.

Lemma preserves_bind {A B} (m : M W S A) (k : A → M W S B) :
  preserves R m → (∀ a, preserves R (k a)) → preserves R (m ≫= k).
Proof.
  intros Hm Hk σ. specialize (Hm σ). unfold mbind, M_bind.
  destruct (m σ) as [[a|e] σ']; cbn in *; [|done]. etrans; [done|apply Hk].
Qed.

Lemma preserves_world {A} (f : W → A * W) :
  (∀ w s, R (w, s) ((f w).2, s)) → preserves R (world f).
Proof. intros Hf [w s]. unfold world; cbn. specialize (Hf w s). by destruct (f w). Qed.

Lemma preserves_zoom {T A} (get : S → T) (put : T → S → S) (m : M W T A) (Q : relation (W * T)) :
  preserves Q m → (∀ w w' t s, Q (w, get s) (w', t) → R (w, s) (w', put t s)) →
  preserves R (zoom get put m).
Proof.
  intros Hm HR [w s]. specialize (Hm (w, get s)). unfold zoom; cbn.
  destruct (m (w, get s)) as [r [w' t]]. by apply HR.
Qed.
End preserves.

Lemma wp_preserves {W S A} (m : M W S A) (R : W * S → Prop) w s :
  wp m (λ _ w' s', R (w', s')) w s → R (m (w, s)).2.
Proof. unfold wp. by destruct (m (w, s)) as [[a|e] [w' s']]. Qed.

Create HintDb sound discriminated.
(** Goes through a program, action by action; what its calls preserve is in [sound]. *)
Ltac preserves_step :=
  cbv zeta;
  lazymatch goal with
  | |- preserves _ (mbind _ _) => apply preserves_bind; [apply _| |intros ?]
  | |- preserves _ (mret _) => apply preserves_ret; apply _
  | |- preserves _ (from_outcome _) => apply preserves_from_outcome; apply _
  | |- preserves _ (go_panic _) => apply preserves_panic; apply _
  | |- preserves _ get_state => apply preserves_get_state; apply _
  | |- preserves _ (match ?x with _ => _ end) => destruct x eqn:?
  | |- _ => solve [eauto with sound typeclass_instances]
  end.
Ltac preserves_steps := repeat preserves_step.

Create HintDb go discriminated.

(** [wp_step] runs one primitive action, [wp_use H] runs one whose behaviour is the
    [wp] statement [H]. *)
Ltac wp_step :=
  lazymatch goal with
  | |- wp (mret _) _ _ _ => apply wp_ret
  | |- wp (mbind _ _) _ _ _ => apply wp_bind
  | |- wp get_state _ _ _ => apply wp_get_state
  | |- wp (put_state _) _ _ _ => apply wp_put_state
  | |- wp (world _) _ _ _ => apply wp_world
  | |- wp (zoom _ _ _) _ _ _ => apply wp_zoom
  end.
Ltac wp_steps := repeat (wp_step; cbn beta iota).
Tactic Notation "wp_use" uconstr(H) "as" simple_intropattern_list(pats) :=
  (try apply wp_bind); eapply wp_mono; [eapply H | intros pats].

(** Loops over a list that thread the state. *)
Fixpoint mapM_ {W S A B} (f : A → M W S B) (l : list A) : M W S (list B) :=
  match l with
  | [] => mret []
  | x :: l => y ← f x; ys ← mapM_ f l; mret (y :: ys)
  end.

Lemma wp_mapM {W S A B} (f : A → M W S B) (I : W → S → Prop)
    (R : A → B → Prop) (l : list A) w s (Q : list B → W → S → Prop) :
  I w s →
  (∀ x w s, x ∈ l → I w s → wp (f x) (λ y w' s', I w' s' ∧ R x y) w s) →
  (∀ ys w' s', I w' s' → Forall2 R l ys → Q ys w' s') →
  wp (mapM_ f l) Q w s.
Proof.
  revert w s Q. induction l as [|x l IH]; intros w s Q HI Hf HQ; cbn.
  { apply wp_ret, HQ; [done|constructor]. }
  wp_use Hf as y w' s' [HI' Hy]; [set_solver|done|]. apply wp_bind.
  apply IH; [done|intros; apply Hf; [set_solver|done]|].
  intros ys w'' s'' ??. apply wp_ret, HQ; [done|by constructor].
Qed.

(** ** Lists and maps *)
Lemma map_snd_omap {K A B} `{Countable K} (f : A → option B) (m : gmap K A) :
  map snd (map_to_list (omap f m)) ≡ₚ omap f (map snd (map_to_list m)).
Proof.
  induction m as [|k x m Hk IH] using map_ind.
  { by rewrite omap_empty, !map_to_list_empty. }
  rewrite (map_to_list_insert m k x) by done. simpl.
  rewrite omap_insert. destruct (f x) as [y|] eqn:Hf; simpl.
  - rewrite map_to_list_insert by (by rewrite lookup_omap, Hk). simpl. by rewrite IH.
  - rewrite delete_id by (by rewrite lookup_omap, Hk). done.
Qed.

Lemma omap_all {A B} (f : A → option B) (l : list A) :
  (∀ x, x ∈ l → is_Some (f x)) → Forall2 (λ x y, f x = Some y) l (omap f l).
Proof.
  induction l as [|x l IH]; intros Hl; simpl; [constructor|].
  destruct (Hl x) as [y Hy]; [set_solver|]. rewrite Hy. constructor; [done|]. apply IH. set_solver.
Qed.

(** Two rows with one key are one row. *)
Lemma NoDup_key_unique {A K} (f : A → K) (l : list A) x y :
  NoDup (map f l) → x ∈ l → y ∈ l → f x = f y → x = y.
Proof.
  intros Hl Hx Hy Heq. apply list_elem_of_lookup in Hx as [i Hi], Hy as [j Hj].
  assert (i = j) as ->; [|congruence]. eapply (NoDup_lookup (map f l) i j (f x)); [done| |].
  - by rewrite list_lookup_fmap, Hi.
  - by rewrite list_lookup_fmap, Hj, Heq.
Qed.

Lemma filter_key_unique {A K} `{EqDecision K} (f : A → K) (l : list A) x :
  NoDup (map f l) → x ∈ l → filter (λ y, f y = f x) l = [x].
Proof.
  induction l as [|y l IH]; [by intros _ ?%elem_of_nil|].
  cbn [map]. rewrite NoDup_cons, elem_of_cons. intros [Hy Hl] [->|Hx].
  - rewrite filter_cons_True by done. f_equal.
    destruct (filter _ l) as [|z zs] eqn:Hf; [done|].
    assert (z ∈ filter (λ z, f z = f y) l) as [Heq Hz]%list_elem_of_filter by (rewrite Hf; by left).
    destruct Hy. rewrite <-Heq. by apply list_elem_of_fmap_2.
  - rewrite filter_cons_False; [by apply IH|]. intros Heq. destruct Hy. rewrite Heq.
    by apply list_elem_of_fmap_2.
Qed.

Lemma elem_of_rev {A} (x : A) (l : list A) : x ∈ rev l ↔ x ∈ l.
Proof. rewrite !list_elem_of_In. symmetry. apply in_rev. Qed.
