(* ===== verification/GoRuntime.v ===== *)
(** * The Go runtime the server relies on

    Machine integers, slice allocation, [fmt] verbs and time, as the modelled code
    uses them; and the interface to the world outside the program (clock, random
    source, uuid package, map iteration order), a class whose laws are the documented
    behaviour the code relies on. *)

From Stdlib Require Import ZArith Lia Ascii.
From S2P Require Import Prelude.
Local Open Scope Z_scope.

(** ** Machine integers *)
Definition wrap (bits z : Z) : Z :=
  (z + 2 ^ (bits - 1)) mod 2 ^ bits - 2 ^ (bits - 1).
(** [int32(x)] and the results of [int] (64-bit) arithmetic. *)
Definition int32 (z : Z) : Z := wrap 32 z.
Definition int64 (z : Z) : Z := wrap 64 z.
Definition in_int32 (z : Z) : Prop := - 2 ^ 31 ≤ z < 2 ^ 31.

Lemma int32_id z : in_int32 z → int32 z = z.
Proof.
  unfold in_int32, int32, wrap. change (32 - 1) with 31. intros ?.
  rewrite Z.mod_small; lia.
Qed.

Lemma int64_id z : - 2 ^ 63 ≤ z < 2 ^ 63 → int64 z = z.
Proof.
  unfold int64, wrap. change (64 - 1) with 63. intros ?.
  rewrite Z.mod_small; lia.
Qed.

(** ** Slices: [make([]byte, n)] panics on a negative length. *)
Definition go_make {W S} (n : Z) : M W S bytes :=
  if n <? 0 then go_panic "runtime error: makeslice: len out of range"
  else mret (replicate (Z.to_nat n) Byte.x00).

Lemma wp_go_make {W S} n (Q : bytes → W → S → Prop) w s :
  0 ≤ n → Q (replicate (Z.to_nat n) Byte.x00) w s → wp (go_make n) Q w s.
Proof.
  intros ??. unfold go_make. destruct (Z.ltb_spec n 0); [lia|]. by apply wp_ret.
Qed.

(** ** Formatting verbs *)
Definition fmt_d (z : Z) : string := pretty z.

Definition hex_digit (d : Z) : Ascii.ascii :=
  Ascii.ascii_of_nat (Z.to_nat (if d <? 10 then 48 + d else 55 + d)).
Fixpoint hex_digits (fuel : nat) (z : Z) (acc : string) : string :=
  match fuel with
  | O => acc
  | S fuel =>
      if z =? 0 then acc
      else hex_digits fuel (z / 16) (String (hex_digit (z mod 16)) acc)
  end.
Fixpoint zeros (n : nat) : string :=
  match n with O => EmptyString | S n => String "0"%char (zeros n) end.
(** [%0<width>X]: the sign comes first and counts in the width. *)
Definition fmt_X (width : nat) (z : Z) : string :=
  let digits := if z =? 0 then "0" else hex_digits (S (Z.to_nat (Z.log2 (Z.abs z)))) (Z.abs z) EmptyString in
  let sign := if z <? 0 then "-" else EmptyString in
  sign +:+ zeros (width - String.length sign - String.length digits) +:+ digits.

Example fmt_X_31 : fmt_X 8 31 = "0000001F". Proof. reflexivity. Qed.
Example fmt_X_neg : fmt_X 8 (-31) = "-000001F". Proof. reflexivity. Qed.
Example fmt_X_tag : fmt_X 6 4325496 = "420078". Proof. reflexivity. Qed.

(** ** Time: nanoseconds since the Unix epoch. *)
Abbreviation Time := Z.
Definition Second : Z := 10 ^ 9.
Definition Minute : Z := 60 * Second.
Definition Hour : Z := 60 * Minute.
(** Go's zero time is the first instant of year 1. *)
Definition zero_time : Time := - 62135596800 * Second.
Definition unix (t : Time) : Z := t / Second.

(** ** The world outside the program *)
Class Runtime (W : Type) := {
  time_Now : W → Time * W;
  (** [crypto/rand.Read] into a buffer of the given length. *)
  rand_Read : nat → W → result bytes * W;
  (** [uuid.New().String()] *)
  uuid_New : W → string * W;
  (** The order in which [range] visits the entries of a map. *)
  map_range : ∀ {A : Type}, list A → W → list A * W;
}.

(** What the code relies on: [rand.Read] never fails (since Go 1.24) and fills the
    buffer; a version 4 UUID is never issued twice; [range] visits every entry once.
    [uuids_issued] is ghost: the UUIDs handed out so far. *)
Class RuntimeLaws (W : Type) `{Runtime W} := {
  uuids_issued : W → gset string;
  time_Now_issued w : uuids_issued w ⊆ uuids_issued (time_Now w).2;
  rand_Read_issued n w : uuids_issued w ⊆ uuids_issued (rand_Read n w).2;
  map_range_issued A (l : list A) w : uuids_issued w ⊆ uuids_issued (map_range l w).2;
  uuid_New_issued w :
    {[ (uuid_New w).1 ]} ∪ uuids_issued w ⊆ uuids_issued (uuid_New w).2;
  rand_Read_fills n w : ∃ bs, (rand_Read n w).1 = Val bs ∧ length bs = n;
  uuid_New_fresh w : (uuid_New w).1 ∉ uuids_issued w;
  map_range_perm A (l : list A) w : (map_range l w).1 ≡ₚ l;
}.

(** Go's clock is monotonic; [clock] is ghost, a time that has passed. *)
Class ClockLaws (W : Type) `{Runtime W} := {
  clock : W → Time;
  time_Now_clock w : clock w ≤ (time_Now w).1 ≤ clock (time_Now w).2;
  rand_Read_clock n w : clock w ≤ clock (rand_Read n w).2;
}.

(** [later w w']: the world may go from [w] to [w']. *)
Definition later {W} `{RuntimeLaws W} (w w' : W) : Prop := uuids_issued w ⊆ uuids_issued w'.

#[export] Instance later_preorder {W} `{RuntimeLaws W} : PreOrder later.
Proof. split; unfold later; repeat intro; set_solver. Qed.

Section world_actions.
Context {W : Type} `{RuntimeLaws W} {S : Type}.

Lemma wp_now (Q : Time → W → S → Prop) w s :
  (∀ t w', later w w' → Q t w' s) → wp (world time_Now) Q w s.
Proof. intros HQ. apply wp_world, HQ, time_Now_issued. Qed.

Lemma wp_rand n (Q : result bytes → W → S → Prop) w s :
  (∀ bs w', later w w' → length bs = n → Q (Val bs) w' s) → wp (world (rand_Read n)) Q w s.
Proof.
  intros HQ. apply wp_world. destruct (rand_Read_fills n w) as (bs & -> & ?).
  apply HQ; [apply rand_Read_issued|done].
Qed.

Lemma wp_uuid (Q : string → W → S → Prop) w s :
  (∀ u w', later w w' → u ∉ uuids_issued w → u ∈ uuids_issued w' → Q u w' s) →
  wp (world uuid_New) Q w s.
Proof.
  intros HQ. apply wp_world. pose proof (uuid_New_issued w).
  apply HQ; [unfold later; set_solver|apply uuid_New_fresh|set_solver].
Qed.

Lemma wp_map_range {A} (l : list A) (Q : list A → W → S → Prop) w s :
  (∀ l' w', later w w' → l' ≡ₚ l → Q l' w' s) → wp (world (map_range l)) Q w s.
Proof. intros HQ. apply wp_world, HQ; [apply map_range_issued|apply map_range_perm]. Qed.
End world_actions.
