(* ===== verification/Storage.v ===== *)
(** * Managed objects and the storage contract (src/internal/storage/types.go)

    [KeyState], [KeyRecord] and the [Storage] interface as the code declares them,
    and the abstract vault every backend must implement: a finite map from
    identifiers to records, with one postcondition per operation of the interface.
    The class [StorageSpec] is the contract the handlers are proved against; the files
    MemoryStore and SQLiteStore discharge it. *)

From Stdlib Require Import ZArith Lia.
From S2P Require Import Prelude GoRuntime.
Local Open Scope Z_scope.

(** ** types.go *)
Abbreviation KeyState := Z.
Definition StatePreActive : KeyState := 1.
Definition StateActive : KeyState := 2.
Definition StateDeactivated : KeyState := 3.
Definition StateCompromised : KeyState := 4.
Definition StateDestroyed : KeyState := 5.
Definition StateDestroyedCompromised : KeyState := 6.
Definition StateArchived : KeyState := 100.
Definition StateRevoked : KeyState := StateCompromised.

Definition MaxKeyLengthBits : Z := 32768.
Definition MaxDerivedKeyBytes : Z := 512.

(** The record, over the type of its [Material]: a slice in the memory store's heap,
    bytes everywhere else. *)
Record KeyRecordOf (Mat : Type) := mkKeyRecord {
  UID : string;
  Name : string;
  ObjectType : Z;
  Algorithm : Z;
  Length : Z;
  Material : Mat;
  UsageMask : Z;
  State : KeyState;
  RevocationReason : Z;
  Owner : string;
  CreatedAt : Time;
  Version : Z;
}.
Arguments mkKeyRecord {Mat}.
Arguments UID {Mat}. Arguments Name {Mat}. Arguments ObjectType {Mat}.
Arguments Algorithm {Mat}. Arguments Length {Mat}. Arguments Material {Mat}.
Arguments UsageMask {Mat}. Arguments State {Mat}. Arguments RevocationReason {Mat}.
Arguments Owner {Mat}. Arguments CreatedAt {Mat}. Arguments Version {Mat}.
Abbreviation KeyRecord := (KeyRecordOf bytes).

#[global] Instance KeyRecordOf_eq_dec `{EqDecision Mat} : EqDecision (KeyRecordOf Mat).
Proof. solve_decision. Defined.

(** Field assignments. *)
Section setters.
Context {Mat : Type}.
Implicit Types r : KeyRecordOf Mat.
Definition set_Material {Mat'} (m : Mat') r : KeyRecordOf Mat' :=
  mkKeyRecord (UID r) (Name r) (ObjectType r) (Algorithm r) (Length r) m (UsageMask r)
    (State r) (RevocationReason r) (Owner r) (CreatedAt r) (Version r).
Definition set_State (st : KeyState) r : KeyRecordOf Mat :=
  mkKeyRecord (UID r) (Name r) (ObjectType r) (Algorithm r) (Length r) (Material r)
    (UsageMask r) st (RevocationReason r) (Owner r) (CreatedAt r) (Version r).
Definition set_RevocationReason (x : Z) r : KeyRecordOf Mat :=
  mkKeyRecord (UID r) (Name r) (ObjectType r) (Algorithm r) (Length r) (Material r)
    (UsageMask r) (State r) x (Owner r) (CreatedAt r) (Version r).
Definition set_Version (x : Z) r : KeyRecordOf Mat :=
  mkKeyRecord (UID r) (Name r) (ObjectType r) (Algorithm r) (Length r) (Material r)
    (UsageMask r) (State r) (RevocationReason r) (Owner r) (CreatedAt r) x.
(** The three assignments and the version default of [Register]. *)
Definition registered (uid : string) (now : Time) r : KeyRecordOf Mat :=
  mkKeyRecord uid (Name r) (ObjectType r) (Algorithm r) (Length r) (Material r)
    (UsageMask r) StatePreActive (RevocationReason r) (Owner r) now
    (if Version r =? 0 then 1 else Version r).
(** The composite literal of [Create]. *)
Definition created (uid name : string) (algorithm length : Z) (mat : Mat)
    (usageMask : Z) (owner : string) (now : Time) : KeyRecordOf Mat :=
  mkKeyRecord uid name 2 algorithm length mat usageMask StatePreActive 0 owner now 1.
(** The composite literal of [DeriveKey]. *)
Definition derived_from {Mat'} r (uid name : string) (length : Z) (mat : Mat') (now : Time) :
    KeyRecordOf Mat' :=
  mkKeyRecord uid name 2 (Algorithm r) length mat (UsageMask r) StatePreActive 0
    (Owner r) now 1.
End setters.

(** [length <= 0 || length > MaxKeyLengthBits] is the code's rejection test. *)
Definition invalid_length (length : Z) : bool :=
  (length <=? 0) || (MaxKeyLengthBits <? length).

(** The [Storage] interface.  Records are passed by value here: the code reads the
    record a call returned before it calls the store again.  MemoryStore models the
    pointers. *)
Class Storage (W S : Type) := {
  Create : string → Z → Z → Z → string → M W S (result KeyRecord);
  Get : string → M W S (option KeyRecord);
  Locate : string → M W S (list string);
  List_ : M W S (list KeyRecord);
  Activate : string → M W S (result unit);
  Destroy : string → M W S (result unit);
  Register : KeyRecord → M W S (result KeyRecord);
  Revoke : string → Z → M W S (result unit);
  GetAttributes : string → M W S (option KeyRecord);
  Rekey : string → M W S (result KeyRecord);
  Archive : string → M W S (result unit);
  Recover : string → M W S (result unit);
  DeriveKey : string → bytes → string → Z → M W S (result KeyRecord);
  GetCustomAttributes : string → M W S (result (gmap string string));
  SetCustomAttribute : string → string → string → M W S (result unit);
  DeleteCustomAttribute : string → string → M W S (result unit);
  Close : M W S (result unit);
}.

(** [golang.org/x/crypto/hkdf]: [io.ReadFull(hkdf.New(sha256.New, secret, salt, info),
    buf)] for a buffer of [n] bytes.  RFC 5869 bounds the output to 255 blocks. *)
Class Hkdf := hkdf_sha256 : bytes → bytes → bytes → nat → result bytes.
Class HkdfLaws `{Hkdf} : Prop :=
  hkdf_sha256_fills secret salt info n :
    (n ≤ 255 * 32)%nat → ∃ out, hkdf_sha256 secret salt info n = Val out ∧ length out = n.

(** [[]byte("kmip-derive")] *)
Definition kmip_derive : bytes := String.list_byte_of_string "kmip-derive".

(** The key length [DeriveKey] uses, in bytes. *)
Definition derive_keyLen (length : Z) : Z :=
  let keyLen := Z.quot length 8 in if keyLen <=? 0 then 32 else keyLen.

(** ** The abstract vault *)
Record Vault := mkVault {
  objects : gmap string KeyRecord;
  cattrs : gmap (string * string) string;
}.

Definition is_live {Mat} (r : KeyRecordOf Mat) : bool := negb (State r =? StateDestroyed).
Definition lookup_live (v : Vault) (uid : string) : option KeyRecord :=
  r ← objects v !! uid; if is_live r then Some r else None.
Definition put_object (r : KeyRecord) (v : Vault) : Vault :=
  mkVault (<[UID r := r]> (objects v)) (cattrs v).
Definition live_objects (v : Vault) : list KeyRecord :=
  filter (λ r, is_live r = true) (map snd (map_to_list (objects v))).
Definition live_named (name : string) (v : Vault) : list string :=
  map UID (filter (λ r, Name r = name) (live_objects v)).

Lemma lookup_live_Some v uid r :
  lookup_live v uid = Some r ↔ objects v !! uid = Some r ∧ is_live r = true.
Proof.
  unfold lookup_live. destruct (objects v !! uid) as [r'|]; simpl.
  - destruct (is_live r') eqn:E; split; try done.
    + by intros [= <-].
    + by intros [? _].
    + intros [[= ->] ?]. congruence.
  - by split; [|intros [? _]].
Qed.

Lemma lookup_live_None v uid :
  lookup_live v uid = None ↔ ∀ r, objects v !! uid = Some r → ¬ is_live r = true.
Proof.
  split.
  - intros Hn r Hr Hl. assert (lookup_live v uid = Some r) by (by apply lookup_live_Some).
    congruence.
  - intros Hn. destruct (lookup_live v uid) as [r|] eqn:E; [|done].
    apply lookup_live_Some in E as [? ?]. by destruct (Hn r).
Qed.

(** The effect of each operation on a record. *)
Definition destroy_record (r : KeyRecord) : KeyRecord :=
  set_State StateDestroyed (set_Material [] r).
Definition revoke_record (reason : Z) (r : KeyRecord) : KeyRecord :=
  set_RevocationReason reason (set_State StateRevoked r).
Definition rekey_record (mat : bytes) (r : KeyRecord) : KeyRecord :=
  set_Version (int64 (Version r + 1)) (set_Material mat r).

(** ** Postconditions

    What each operation may answer from vault [v], and the vault it leaves.
    [faulty] says whether the backend may fail for reasons of its own (a database
    driver may); an error always leaves the vault as it was. *)
Section posts.
Context `{Hkdf} (faulty : Prop).

Definition post_new (v : Vault) (r : KeyRecord) (v' : Vault) : Prop :=
  objects v !! UID r = None ∧ v' = put_object r v.

Definition post_Create (v : Vault) (name : string) (algorithm length usageMask : Z)
    (owner : string) (res : result KeyRecord) (v' : Vault) : Prop :=
  match res with
  | Val r =>
      invalid_length length = false ∧ post_new v r v' ∧
      ∃ uid mat now, r = created uid name algorithm length mat usageMask owner now ∧
        List.length mat = Z.to_nat (Z.quot length 8)
  | Err _ => v' = v ∧ (invalid_length length = true ∨ faulty)
  end.

Definition post_Get (v : Vault) (uid : string) (res : option KeyRecord) (v' : Vault) : Prop :=
  v' = v ∧
  match res with
  | Some r => lookup_live v uid = Some r
  | None => lookup_live v uid = None ∨ faulty
  end.

Definition post_Locate (v : Vault) (name : string) (res : list string) (v' : Vault) : Prop :=
  v' = v ∧ (res ≡ₚ live_named name v ∨ faulty ∧ res ⊆ live_named name v).

Definition post_List (v : Vault) (res : list KeyRecord) (v' : Vault) : Prop :=
  v' = v ∧ (res ≡ₚ live_objects v ∨ faulty ∧ res ⊆ live_objects v).

(** Operations that change one record, when it satisfies [pre]. *)
Definition post_update {A} (pre : KeyRecord → Prop) (rel : KeyRecord → A → KeyRecord → Prop)
    (v : Vault) (uid : string) (res : result A) (v' : Vault) : Prop :=
  match res with
  | Val a => ∃ r r', objects v !! uid = Some r ∧ pre r ∧ rel r a r' ∧ v' = put_object r' v
  | Err _ => v' = v ∧ ((∀ r, objects v !! uid = Some r → ¬ pre r) ∨ faulty)
  end.
Definition post_set (pre : KeyRecord → Prop) (f : KeyRecord → KeyRecord) :=
  post_update (A:=unit) pre (λ r _ r', r' = f r).

Definition post_Activate := post_set (λ r, is_live r = true) (set_State StateActive).
Definition post_Destroy := post_set (λ r, is_live r = true) destroy_record.
Definition post_Revoke (reason : Z) := post_set (λ r, is_live r = true) (revoke_record reason).
Definition post_Archive := post_set (λ r, is_live r = true) (set_State StateArchived).
Definition post_Recover := post_set (λ r, State r = StateArchived) (set_State StatePreActive).
Definition post_Rekey :=
  post_update (λ r, is_live r = true ∧ invalid_length (Length r) = false)
    (λ r a r', a = r' ∧ ∃ mat, r' = rekey_record mat r ∧
      List.length mat = Z.to_nat (Z.quot (Length r) 8)).

Definition register_accepts (rec : KeyRecord) : bool :=
  negb (negb (ObjectType rec =? 1) && (Length rec <? 0)).
Definition post_Register (v : Vault) (rec : KeyRecord) (res : result KeyRecord)
    (v' : Vault) : Prop :=
  match res with
  | Val r => register_accepts rec = true ∧ post_new v r v' ∧ ∃ uid now, r = registered uid now rec
  | Err _ => v' = v ∧ (register_accepts rec = false ∨ faulty)
  end.

Definition post_DeriveKey (v : Vault) (sourceUID : string) (derivationData : bytes)
    (name : string) (length : Z) (res : result KeyRecord) (v' : Vault) : Prop :=
  match res with
  | Val r =>
      derive_keyLen length ≤ MaxDerivedKeyBytes ∧ post_new v r v' ∧
      ∃ src uid mat now, lookup_live v sourceUID = Some src ∧
        r = derived_from src uid name length mat now ∧
        hkdf_sha256 (Material src) derivationData kmip_derive
          (Z.to_nat (derive_keyLen length)) = Val mat
  | Err _ =>
      v' = v ∧ (lookup_live v sourceUID = None ∨ MaxDerivedKeyBytes < derive_keyLen length ∨ faulty)
  end.

Definition post_GetCustomAttributes (v : Vault) (uid : string)
    (res : result (gmap string string)) (v' : Vault) : Prop :=
  v' = v ∧
  match res with
  | Val m => is_Some (lookup_live v uid) ∧
      ((∀ name, m !! name = cattrs v !! (uid, name)) ∨
       faulty ∧ ∀ name x, m !! name = Some x → cattrs v !! (uid, name) = Some x)
  | Err _ => lookup_live v uid = None ∨ faulty
  end.

Definition post_attr (f : gmap (string * string) string → gmap (string * string) string)
    (v : Vault) (uid : string) (res : result unit) (v' : Vault) : Prop :=
  match res with
  | Val _ => is_Some (lookup_live v uid) ∧ v' = mkVault (objects v) (f (cattrs v))
  | Err _ => v' = v ∧ (lookup_live v uid = None ∨ faulty)
  end.
End posts.

(** Every record is stored under its own identifier. *)
Definition vault_wf (v : Vault) : Prop := ∀ uid r, objects v !! uid = Some r → UID r = uid.

(** ** The contract

    [Inv] is the backend's own invariant, [view] its abstraction function. *)
Class StorageSpec (W S : Type) `{RuntimeLaws W} `{Hkdf} `{!Storage W S}
    (Inv : W → S → Prop) (view : S → Vault) (faulty : Prop) : Prop := {
  spec_later w w' s : later w w' → Inv w s → Inv w' s;
  spec_wf w s : Inv w s → vault_wf (view s);
  Create_spec name algorithm length usageMask owner w s : Inv w s →
    wp (Create name algorithm length usageMask owner)
      (λ res w' s', later w w' ∧ Inv w' s' ∧
        post_Create faulty (view s) name algorithm length usageMask owner res (view s')) w s;
  Get_spec uid w s : Inv w s →
    wp (Get uid) (λ res w' s', later w w' ∧ Inv w' s' ∧ post_Get faulty (view s) uid res (view s')) w s;
  Locate_spec name w s : Inv w s →
    wp (Locate name) (λ res w' s', later w w' ∧ Inv w' s' ∧
      post_Locate faulty (view s) name res (view s')) w s;
  List_spec w s : Inv w s →
    wp List_ (λ res w' s', later w w' ∧ Inv w' s' ∧ post_List faulty (view s) res (view s')) w s;
  Activate_spec uid w s : Inv w s →
    wp (Activate uid) (λ res w' s', later w w' ∧ Inv w' s' ∧
      post_Activate faulty (view s) uid res (view s')) w s;
  Destroy_spec uid w s : Inv w s →
    wp (Destroy uid) (λ res w' s', later w w' ∧ Inv w' s' ∧
      post_Destroy faulty (view s) uid res (view s')) w s;
  Register_spec rec w s : Inv w s →
    wp (Register rec) (λ res w' s', later w w' ∧ Inv w' s' ∧
      post_Register faulty (view s) rec res (view s')) w s;
  Revoke_spec uid reason w s : Inv w s →
    wp (Revoke uid reason) (λ res w' s', later w w' ∧ Inv w' s' ∧
      post_Revoke faulty reason (view s) uid res (view s')) w s;
  GetAttributes_spec uid w s : Inv w s →
    wp (GetAttributes uid) (λ res w' s', later w w' ∧ Inv w' s' ∧
      post_Get faulty (view s) uid res (view s')) w s;
  Rekey_spec uid w s : Inv w s →
    wp (Rekey uid) (λ res w' s', later w w' ∧ Inv w' s' ∧
      post_Rekey faulty (view s) uid res (view s')) w s;
  Archive_spec uid w s : Inv w s →
    wp (Archive uid) (λ res w' s', later w w' ∧ Inv w' s' ∧
      post_Archive faulty (view s) uid res (view s')) w s;
  Recover_spec uid w s : Inv w s →
    wp (Recover uid) (λ res w' s', later w w' ∧ Inv w' s' ∧
      post_Recover faulty (view s) uid res (view s')) w s;
  DeriveKey_spec sourceUID derivationData name length w s : Inv w s →
    wp (DeriveKey sourceUID derivationData name length) (λ res w' s', later w w' ∧ Inv w' s' ∧
      post_DeriveKey faulty (view s) sourceUID derivationData name length res (view s')) w s;
  GetCustomAttributes_spec uid w s : Inv w s →
    wp (GetCustomAttributes uid) (λ res w' s', later w w' ∧ Inv w' s' ∧
      post_GetCustomAttributes faulty (view s) uid res (view s')) w s;
  SetCustomAttribute_spec uid name value w s : Inv w s →
    wp (SetCustomAttribute uid name value) (λ res w' s', later w w' ∧ Inv w' s' ∧
      post_attr faulty <[(uid, name) := value]> (view s) uid res (view s')) w s;
  DeleteCustomAttribute_spec uid name w s : Inv w s →
    wp (DeleteCustomAttribute uid name) (λ res w' s', later w w' ∧ Inv w' s' ∧
      post_attr faulty (delete (uid, name)) (view s) uid res (view s')) w s;
}.
