(* ===== verification/MemoryStore.v ===== *)
(** * The in-memory backend (src/internal/storage/memory.go)

    The store keeps pointers: [keys] maps an identifier to the location of a
    [KeyRecord], whose [Material] is a slice, itself a location of a byte buffer (or
    nil).  The heap is explicit, so that the in-place updates of the code (the state
    assignments, the wiping loop of [Destroy]) are updates other holders of the
    pointer see.  The operations return the pointers the code returns; the instance of
    [Storage] reads them at the moment the call returns. *)

From Stdlib Require Import ZArith Lia.
From S2P Require Import Prelude GoRuntime Storage.
Local Open Scope Z_scope.
Local Open Scope go_scope.

Abbreviation loc := positive.
(** A byte slice: nil, or a whole buffer. *)
Abbreviation slice := (option loc).
Abbreviation HeapRecord := (KeyRecordOf slice).

Record Heap := mkHeap {
  recs : gmap loc HeapRecord;
  bufs : gmap loc bytes;
  brk : loc;
}.

Record MemoryStore := mkMemoryStore {
  keys : gmap string loc;
  attrs : gmap string (gmap string string);
  heap : Heap;
}.

Definition set_keys (k : gmap string loc) (m : MemoryStore) : MemoryStore :=
  mkMemoryStore k (attrs m) (heap m).
Definition set_attrs (a : gmap string (gmap string string)) (m : MemoryStore) : MemoryStore :=
  mkMemoryStore (keys m) a (heap m).
Definition set_heap (h : Heap) (m : MemoryStore) : MemoryStore :=
  mkMemoryStore (keys m) (attrs m) h.

Definition NewMemoryStore : MemoryStore := mkMemoryStore ∅ ∅ (mkHeap ∅ ∅ 1%positive).

Definition alloc_buf (bs : bytes) (h : Heap) : loc * Heap :=
  (brk h, mkHeap (recs h) (<[brk h := bs]> (bufs h)) (Pos.succ (brk h))).
Definition alloc_rec (r : HeapRecord) (h : Heap) : loc * Heap :=
  (brk h, mkHeap (<[brk h := r]> (recs h)) (bufs h) (Pos.succ (brk h))).
Definition store_rec (l : loc) (r : HeapRecord) (h : Heap) : Heap :=
  mkHeap (<[l := r]> (recs h)) (bufs h) (brk h).
(** [for i := range s { s[i] = 0 }] *)
Definition wipe (s : slice) (h : Heap) : Heap :=
  match s with
  | None => h
  | Some b => mkHeap (recs h) (alter (fmap (λ _, Byte.x00)) b (bufs h)) (brk h)
  end.

Definition slice_bytes (h : Heap) (s : slice) : bytes :=
  match s with None => [] | Some b => default [] (bufs h !! b) end.
(** The value a record pointer denotes. *)
Definition deref (h : Heap) (l : loc) : option KeyRecord :=
  (λ r, set_Material (slice_bytes h (Material r)) r) <$> recs h !! l.

Section operations.
Context {W : Type} `{Runtime W} `{Hkdf}.

Definition with_heap {A} (f : Heap → A * Heap) : M W MemoryStore A :=
  m ← get_state;
  let '(a, h) := f (heap m) in
  put_state (set_heap h m);; mret a.
(** [*p], a nil or dangling pointer panics. *)
Definition load (l : loc) : M W MemoryStore HeapRecord :=
  m ← get_state;
  some r := recs (heap m) !! l else go_panic "invalid memory address";;
  mret r.
Definition store (l : loc) (r : HeapRecord) : M W MemoryStore unit :=
  m ← get_state; put_state (set_heap (store_rec l r (heap m)) m).

(** [rec, ok := m.keys[uid]] *)
Definition lookup_key (uid : string) : M W MemoryStore (option loc) :=
  m ← get_state; mret (keys m !! uid).
(** [m.keys[uid] = l] *)
Definition insert_key (uid : string) (l : loc) : M W MemoryStore unit :=
  m ← get_state; put_state (set_keys (<[uid := l]> (keys m)) m).

Definition not_found {A} (uid : string) : result A := Err ("object not found: " +:+ uid).

Definition mem_Create (name : string) (algorithm length usageMask : Z) (owner : string) :
    M W MemoryStore (result loc) :=
  if (length <=? 0) || (MaxKeyLengthBits <? length)
  then mret (Err ("invalid key length: " +:+ fmt_d length))
  else
    keyBytes ← go_make (Z.quot length 8);
    r ← world (rand_Read (List.length keyBytes));
    val keyBytes := r else err => mret (Err err);;
    b ← with_heap (alloc_buf keyBytes);
    uid ← world uuid_New;
    now ← world time_Now;
    l ← with_heap (alloc_rec (created uid name algorithm length (Some b) usageMask owner now));
    insert_key uid l;;
    mret (Val l).

Definition mem_Get (uid : string) : M W MemoryStore (option loc) :=
  o ← lookup_key uid;
  some l := o else mret None;;
  rec ← load l;
  if State rec =? StateDestroyed then mret None else mret (Some l).

(** The pointers of the map, in the order [range] visits them. *)
Definition range_keys : M W MemoryStore (list HeapRecord) :=
  m ← get_state;
  ls ← world (map_range (map snd (map_to_list (keys m))));
  mapM_ load ls.

Definition mem_Locate (name : string) : M W MemoryStore (list string) :=
  records ← range_keys;
  mret (map UID (filter (λ rec, Name rec = name ∧ State rec ≠ StateDestroyed) records)).

Definition mem_List : M W MemoryStore (list loc) :=
  m ← get_state;
  ls ← world (map_range (map snd (map_to_list (keys m))));
  records ← mapM_ (λ l, rec ← load l; mret (l, rec)) ls;
  mret (map fst (filter (λ p, State (snd p) ≠ StateDestroyed) records)).

Definition mem_Activate (uid : string) : M W MemoryStore (result unit) :=
  o ← lookup_key uid;
  some l := o else mret (not_found uid);;
  rec ← load l;
  if State rec =? StateDestroyed then mret (not_found uid) else
  store l (set_State StateActive rec);;
  mret (Val tt).

Definition mem_Destroy (uid : string) : M W MemoryStore (result unit) :=
  o ← lookup_key uid;
  some l := o else mret (not_found uid);;
  rec ← load l;
  if State rec =? StateDestroyed then mret (not_found uid) else
  with_heap (λ h, (tt, wipe (Material rec) h));;
  store l (set_Material None rec);;
  rec ← load l;
  store l (set_State StateDestroyed rec);;
  mret (Val tt).

(** [Register(rec)] assigns the fields of the caller's record in place. *)
Definition mem_Register (l : loc) : M W MemoryStore (result loc) :=
  rec ← load l;
  if negb (ObjectType rec =? 1) && (Length rec <? 0)
  then mret (Err ("invalid key length: " +:+ fmt_d (Length rec)))
  else
    uid ← world uuid_New;
    now ← world time_Now;
    store l (registered uid now rec);;
    insert_key uid l;;
    mret (Val l).

Definition mem_Revoke (uid : string) (reason : Z) : M W MemoryStore (result unit) :=
  o ← lookup_key uid;
  some l := o else mret (not_found uid);;
  rec ← load l;
  if State rec =? StateDestroyed then mret (not_found uid) else
  store l (set_State StateRevoked rec);;
  rec ← load l;
  store l (set_RevocationReason reason rec);;
  mret (Val tt).

Definition mem_GetAttributes (uid : string) : M W MemoryStore (option loc) := mem_Get uid.

Definition mem_Rekey (uid : string) : M W MemoryStore (result loc) :=
  o ← lookup_key uid;
  some l := o else mret (not_found uid);;
  rec ← load l;
  if State rec =? StateDestroyed then mret (not_found uid) else
  if (Length rec <=? 0) || (MaxKeyLengthBits <? Length rec)
  then mret (Err ("invalid key length: " +:+ fmt_d (Length rec)))
  else
    keyBytes ← go_make (Z.quot (Length rec) 8);
    r ← world (rand_Read (List.length keyBytes));
    val keyBytes := r else err => mret (Err ("generate key material: " +:+ err));;
    b ← with_heap (alloc_buf keyBytes);
    store l (set_Material (Some b) rec);;
    rec ← load l;
    store l (set_Version (int64 (Version rec + 1)) rec);;
    mret (Val l).

Definition mem_Archive (uid : string) : M W MemoryStore (result unit) :=
  o ← lookup_key uid;
  some l := o else mret (not_found uid);;
  rec ← load l;
  if State rec =? StateDestroyed then mret (not_found uid) else
  store l (set_State StateArchived rec);;
  mret (Val tt).

Definition mem_Recover (uid : string) : M W MemoryStore (result unit) :=
  o ← lookup_key uid;
  some l := o else mret (Err ("object not found or not archived: " +:+ uid));;
  rec ← load l;
  if negb (State rec =? StateArchived)
  then mret (Err ("object not found or not archived: " +:+ uid)) else
  store l (set_State StatePreActive rec);;
  mret (Val tt).

Definition mem_DeriveKey (sourceUID : string) (derivationData : bytes) (name : string)
    (length : Z) : M W MemoryStore (result loc) :=
  o ← mem_Get sourceUID;
  some l := o else mret (Err ("source key not found: " +:+ sourceUID));;
  let keyLen := Z.quot length 8 in
  let keyLen := if keyLen <=? 0 then 32 else keyLen in
  if MaxDerivedKeyBytes <? keyLen
  then mret (Err ("derived key length " +:+ fmt_d keyLen +:+ " exceeds max "
                  +:+ fmt_d MaxDerivedKeyBytes))
  else
    src ← load l;
    m ← get_state;
    buf ← go_make keyLen;
    val derived := hkdf_sha256 (slice_bytes (heap m) (Material src)) derivationData
      kmip_derive (List.length buf)
    else err => mret (Err ("HKDF derivation failed: " +:+ err));;
    b ← with_heap (alloc_buf derived);
    uid ← world uuid_New;
    now ← world time_Now;
    l' ← with_heap (alloc_rec (derived_from src uid name length (Some b) now));
    insert_key uid l';;
    mret (Val l').

Definition mem_GetCustomAttributes (uid : string) :
    M W MemoryStore (result (gmap string string)) :=
  o ← mem_Get uid;
  some _ := o else mret (not_found uid);;
  m ← get_state;
  some a := attrs m !! uid else mret (Val ∅);;
  mret (Val a).

Definition mem_SetCustomAttribute (uid name value : string) : M W MemoryStore (result unit) :=
  o ← mem_Get uid;
  some _ := o else mret (not_found uid);;
  m ← get_state;
  let a := default ∅ (attrs m !! uid) in
  put_state (set_attrs (<[uid := <[name := value]> a]> (attrs m)) m);;
  mret (Val tt).

(** [delete(m.attrs[uid], name)]: deleting from a nil map does nothing. *)
Definition mem_DeleteCustomAttribute (uid name : string) : M W MemoryStore (result unit) :=
  o ← mem_Get uid;
  some _ := o else mret (not_found uid);;
  m ← get_state;
  put_state (set_attrs (alter (delete name) uid (attrs m)) m);;
  mret (Val tt).

Definition mem_Close : M W MemoryStore (result unit) := mret (Val tt).

(** *** The interface: the record a returned pointer denotes at that moment. *)
Definition read (l : loc) : M W MemoryStore KeyRecord :=
  m ← get_state;
  some r := deref (heap m) l else go_panic "invalid memory address";;
  mret r.
Definition read_result (m : M W MemoryStore (result loc)) : M W MemoryStore (result KeyRecord) :=
  r ← m;
  val l := r else e => mret (Err e);;
  rec ← read l; mret (Val rec).
Definition read_option (m : M W MemoryStore (option loc)) : M W MemoryStore (option KeyRecord) :=
  o ← m;
  some l := o else mret None;;
  rec ← read l; mret (Some rec).
(** [&KeyRecord{...}] with freshly allocated material, as the callers of [Register]
    build it. *)
Definition new_record (rec : KeyRecord) : M W MemoryStore loc :=
  b ← with_heap (alloc_buf (Material rec));
  with_heap (alloc_rec (set_Material (Some b) rec)).

#[global] Instance MemoryStore_Storage : Storage W MemoryStore := {
  Create name algorithm length usageMask owner :=
    read_result (mem_Create name algorithm length usageMask owner);
  Get uid := read_option (mem_Get uid);
  Locate := mem_Locate;
  List_ := ls ← mem_List; mapM_ read ls;
  Activate := mem_Activate;
  Destroy := mem_Destroy;
  Register rec := l ← new_record rec; read_result (mem_Register l);
  Revoke := mem_Revoke;
  GetAttributes uid := read_option (mem_GetAttributes uid);
  Rekey uid := read_result (mem_Rekey uid);
  Archive := mem_Archive;
  Recover := mem_Recover;
  DeriveKey sourceUID derivationData name length :=
    read_result (mem_DeriveKey sourceUID derivationData name length);
  GetCustomAttributes := mem_GetCustomAttributes;
  SetCustomAttribute := mem_SetCustomAttribute;
  DeleteCustomAttribute := mem_DeleteCustomAttribute;
  Close := mem_Close;
}.
End operations.
