(* ===== verification/MemoryStoreProofs.v ===== *)
(** * The in-memory backend implements the vault

    The heap invariant, the lemma that turns a change of one record into a change of
    the view, and from them the contract [StorageSpec] for the memory store. *)

From Stdlib Require Import ZArith Lia.
From S2P Require Import Prelude GoRuntime Storage MemoryStore.
Local Open Scope Z_scope.

(** ** Heaps *)
Definition unreferenced (b : loc) (h : Heap) : Prop :=
  ∀ l r, recs h !! l = Some r → Material r ≠ Some b.

(** No dangling slice, no buffer shared by two records, nothing beyond [brk]. *)
Record heap_ok (h : Heap) : Prop := {
  ok_buf l r b : recs h !! l = Some r → Material r = Some b → is_Some (bufs h !! b);
  ok_sep l1 l2 r1 r2 b : recs h !! l1 = Some r1 → recs h !! l2 = Some r2 →
    Material r1 = Some b → Material r2 = Some b → l1 = l2;
  ok_recs l : is_Some (recs h !! l) → (l < brk h)%positive;
  ok_bufs b : is_Some (bufs h !! b) → (b < brk h)%positive;
}.

Lemma heap_ok_empty : heap_ok (mkHeap ∅ ∅ 1%positive).
Proof. split; intros *; cbn; rewrite ?lookup_empty; try done; by intros [??]. Qed.

Lemma heap_ok_alloc_buf bs h b h' :
  alloc_buf bs h = (b, h') → heap_ok h →
    heap_ok h' ∧ unreferenced b h' ∧ bufs h' !! b = Some bs ∧ recs h' = recs h ∧
    (∀ l r, recs h !! l = Some r → slice_bytes h' (Material r) = slice_bytes h (Material r)).
Proof.
  unfold alloc_buf; intros [= <- <-] [Hb Hs Hr Hf]; cbn. split_and!.
  - split; cbn.
    + intros l r b Hl Hm. destruct (decide (brk h = b)) as [->|]; simplify_map_eq; eauto.
    + eauto.
    + intros l ?%Hr. lia.
    + intros b. destruct (decide (brk h = b)) as [->|]; [lia|]. rewrite lookup_insert_ne by done.
      intros ?%Hf. lia.
  - intros l r Hl Hm. pose proof (Hf (brk h) (Hb _ _ _ Hl Hm)). lia.
  - by simplify_map_eq.
  - done.
  - intros l r Hl. destruct (Material r) as [b|] eqn:Hm; [|done]. cbn.
    destruct (decide (brk h = b)) as [<-|]; [|by rewrite lookup_insert_ne].
    pose proof (Hf (brk h) (Hb _ _ _ Hl Hm)). lia.
Qed.

(** The material a record may be given: none, the one it had, or an unreferenced buffer. *)
Definition may_own (h : Heap) (l : loc) (s : slice) : Prop :=
  match s with
  | None => True
  | Some b => is_Some (bufs h !! b) ∧ ∀ l' r, l' ≠ l → recs h !! l' = Some r → Material r ≠ Some b
  end.

Lemma heap_ok_put h l r p :
  heap_ok h → (l < p)%positive → (brk h ≤ p)%positive → may_own h l (Material r) →
  heap_ok (mkHeap (<[l := r]> (recs h)) (bufs h) p).
Proof.
  intros [Hb Hs Hr Hf] Hl Hp Hown. split; cbn.
  - intros l' r' b Hl' Hm. destruct (decide (l = l')) as [<-|]; simplify_map_eq; [|by eauto].
    unfold may_own in Hown. rewrite Hm in Hown. by destruct Hown.
  - intros l1 l2 r1 r2 b Hl1 Hl2 Hm1 Hm2. unfold may_own in Hown.
    destruct (decide (l = l1)) as [<-|], (decide (l = l2)) as [<-|];
      simplify_map_eq; [done| | |by eauto];
      rewrite ?Hm1, ?Hm2 in Hown; destruct Hown as [_ Hown]; exfalso; by (eapply Hown; [|eassumption|eassumption]).
  - intros l'. destruct (decide (l = l')) as [<-|]; [done|]. rewrite lookup_insert_ne by done.
    intros ?%Hr. lia.
  - intros b ?%Hf. lia.
Qed.

Lemma heap_ok_wipe s h : heap_ok h → heap_ok (wipe s h).
Proof.
  destruct s as [b|]; [|done]. intros [Hb Hs Hr Hf]. split; cbn.
  - intros l r b' ??. rewrite lookup_alter_is_Some. eauto.
  - eauto.
  - eauto.
  - intros b'. rewrite lookup_alter_is_Some. eauto.
Qed.

Lemma slice_bytes_ext h h' s : bufs h' = bufs h → slice_bytes h' s = slice_bytes h s.
Proof. intros Hb. destruct s; cbn; by rewrite ?Hb. Qed.

(** ** The invariant of the store *)
Definition mem_view (m : MemoryStore) : Vault :=
  mkVault (omap (M:=gmap string) (deref (heap m)) (keys m))
    (map_uncurry (M1:=gmap string) (M2:=gmap string) (M12:=gmap (string * string)) (attrs m)).

Record mem_inv `{RuntimeLaws W} (w : W) (m : MemoryStore) : Prop := {
  inv_heap : heap_ok (heap m);
  inv_key uid l : keys m !! uid = Some l → ∃ r, recs (heap m) !! l = Some r ∧ UID r = uid;
  inv_uid uid : is_Some (keys m !! uid) → uid ∈ uuids_issued w;
}.

Lemma deref_lookup h l r :
  recs h !! l = Some r → deref h l = Some (set_Material (slice_bytes h (Material r)) r).
Proof. unfold deref. by intros ->. Qed.

Section view.
Context {W : Type} `{RuntimeLaws W}.
Implicit Types (w : W) (m : MemoryStore) (h : Heap).

Lemma view_lookup m uid : objects (mem_view m) !! uid = keys m !! uid ≫= deref (heap m).
Proof. unfold mem_view; cbn. apply lookup_omap. Qed.

Lemma view_lookup_key w m uid l r : mem_inv w m → keys m !! uid = Some l →
  recs (heap m) !! l = Some r →
  objects (mem_view m) !! uid = Some (set_Material (slice_bytes (heap m) (Material r)) r).
Proof. intros _ Hk Hr. rewrite view_lookup, Hk. by apply deref_lookup. Qed.

Lemma mem_inv_wf w m : mem_inv w m → vault_wf (mem_view m).
Proof.
  intros Hinv uid r. rewrite view_lookup. destruct (keys m !! uid) as [l|] eqn:Hk; [|done].
  destruct (inv_key _ _ Hinv _ _ Hk) as (r' & Hr & <-). simpl.
  rewrite (deref_lookup _ _ _ Hr). by intros [= <-].
Qed.

Lemma mem_inv_later w w' m : later w w' → mem_inv w m → mem_inv w' m.
Proof. intros Hw [???]. split; [done..|]. intros uid ?. apply Hw. eauto. Qed.

(** One record changes, the other slices keep their bytes: the view changes there. *)
Lemma mem_update w m h' uid l r' :
  mem_inv w m → heap_ok h' → (∀ u, keys m !! u = Some l → u = uid) →
  recs h' = <[l := r']> (recs (heap m)) →
  (∀ l2 r2, l2 ≠ l → recs (heap m) !! l2 = Some r2 →
     slice_bytes h' (Material r2) = slice_bytes (heap m) (Material r2)) →
  UID r' = uid → uid ∈ uuids_issued w →
  let m' := mkMemoryStore (<[uid := l]> (keys m)) (attrs m) h' in
  mem_inv w m' ∧
  mem_view m' = put_object (set_Material (slice_bytes h' (Material r')) r') (mem_view m).
Proof.
  intros Hinv Hok Hinj Hrecs Hframe Huid Hiss m'. split.
  - split; cbn; [done| |].
    + intros u lu Hu. destruct (decide (uid = u)) as [<-|]; simplify_map_eq.
      { exists r'. rewrite Hrecs. by simplify_map_eq. }
      destruct (inv_key _ _ Hinv _ _ Hu) as (r2 & Hr2 & ?). exists r2. split; [|done].
      rewrite Hrecs, lookup_insert_ne; [done|]. intros ->. by apply Hinj in Hu.
    + intros u. destruct (decide (uid = u)) as [<-|]; simplify_map_eq; [done|]. apply Hinv.
  - unfold mem_view, put_object; cbn. f_equal. rewrite Huid. apply map_eq. intros u.
    rewrite lookup_omap. destruct (decide (uid = u)) as [<-|Hne].
    { rewrite !lookup_insert_eq. simpl. apply deref_lookup. rewrite Hrecs. by simplify_map_eq. }
    rewrite !lookup_insert_ne, lookup_omap by done.
    destruct (keys m !! u) as [lu|] eqn:Hu; [|done]. simpl.
    destruct (inv_key _ _ Hinv _ _ Hu) as (r2 & Hr2 & _).
    assert (l ≠ lu) by (intros ->; by apply Hinj in Hu).
    rewrite (deref_lookup _ _ _ Hr2). unfold deref.
    rewrite Hrecs, lookup_insert_ne, Hr2 by done. simpl.
    erewrite Hframe; done.
Qed.

Lemma mem_inv_inj w m uid l : mem_inv w m → keys m !! uid = Some l →
  ∀ u, keys m !! u = Some l → u = uid.
Proof.
  intros Hinv Hk u Hu. destruct (inv_key _ _ Hinv _ _ Hk) as (?&?&<-).
  destruct (inv_key _ _ Hinv _ _ Hu) as (?&?&<-). by simplify_eq.
Qed.
End view.

Section operations.
Context {W : Type} `{HW : RuntimeLaws W} `{HK : Hkdf}.
Implicit Types (w : W) (m : MemoryStore).

Lemma wp_load l r (Q : HeapRecord → W → MemoryStore → Prop) w m :
  recs (heap m) !! l = Some r → Q r w m → wp (load l) Q w m.
Proof. intros Hr HQ. unfold load. wp_steps. rewrite Hr. by wp_steps. Qed.

Lemma wp_store l r (Q : unit → W → MemoryStore → Prop) w m :
  Q tt w (set_heap (store_rec l r (heap m)) m) → wp (store l r) Q w m.
Proof. intros HQ. unfold store. by wp_steps. Qed.

Lemma wp_with_heap {A} (f : Heap → A * Heap) (Q : A → W → MemoryStore → Prop) w m :
  Q (f (heap m)).1 w (set_heap (f (heap m)).2 m) → wp (with_heap f) Q w m.
Proof. intros HQ. unfold with_heap. wp_steps. destruct (f (heap m)). by wp_steps. Qed.

Lemma wp_read l r (Q : KeyRecord → W → MemoryStore → Prop) w m :
  deref (heap m) l = Some r → Q r w m → wp (read l) Q w m.
Proof. intros Hr HQ. unfold read. wp_steps. rewrite Hr. by wp_steps. Qed.

(** A change of the record stored under an existing identifier. *)
Lemma mem_update_same w m h' uid l r' :
  mem_inv w m → keys m !! uid = Some l → heap_ok h' →
  recs h' = <[l := r']> (recs (heap m)) →
  (∀ l2 r2, l2 ≠ l → recs (heap m) !! l2 = Some r2 →
     slice_bytes h' (Material r2) = slice_bytes (heap m) (Material r2)) →
  UID r' = uid →
  mem_inv w (set_heap h' m) ∧
  mem_view (set_heap h' m) = put_object (set_Material (slice_bytes h' (Material r')) r') (mem_view m).
Proof.
  intros Hinv Hk Hok Hrecs Hframe Huid.
  destruct (mem_update w m h' uid l r') as [Hi Hv]; try done.
  - by eapply mem_inv_inj.
  - eapply inv_uid; [done|]. by exists l.
  - unfold set_heap. rewrite insert_id in Hi, Hv by done. done.
Qed.

(** Looking a record up and rejecting a destroyed one, the common prologue. *)
Lemma wp_find_live {A} uid (nf : A) (k : loc → HeapRecord → M W MemoryStore A)
    (Q : A → W → MemoryStore → Prop) w m :
  mem_inv w m →
  (lookup_live (mem_view m) uid = None → Q nf w m) →
  (∀ l r, keys m !! uid = Some l → recs (heap m) !! l = Some r → is_live r = true → UID r = uid →
     objects (mem_view m) !! uid = Some (set_Material (slice_bytes (heap m) (Material r)) r) →
     wp (k l r) Q w m) →
  wp (o ← lookup_key uid;
      match o with
      | Some l => rec ← load l; if State rec =? StateDestroyed then mret nf else k l rec
      | None => mret nf
      end) Q w m.
Proof.
  intros Hinv Hnone Hsome. apply wp_bind. unfold lookup_key. wp_steps.
  destruct (keys m !! uid) as [l|] eqn:Hk; simpl.
  - destruct (inv_key _ _ Hinv _ _ Hk) as (r & Hr & Huid).
    pose proof (view_lookup_key w m uid l r Hinv Hk Hr) as Hv.
    apply wp_bind. eapply wp_load; [done|].
    destruct (State r =? StateDestroyed) eqn:Hst.
    + wp_steps. apply Hnone. unfold lookup_live. rewrite Hv. simpl. unfold is_live. simpl.
      by rewrite Hst.
    + apply Hsome; try done. unfold is_live. by rewrite Hst.
  - wp_steps. apply Hnone. unfold lookup_live. by rewrite view_lookup, Hk.
Qed.

(** Assignments that keep the material. *)
Lemma mem_store_field w m uid l r r' :
  mem_inv w m → keys m !! uid = Some l → recs (heap m) !! l = Some r →
  UID r' = uid → Material r' = Material r →
  mem_inv w (set_heap (store_rec l r' (heap m)) m) ∧
  mem_view (set_heap (store_rec l r' (heap m)) m) =
    put_object (set_Material (slice_bytes (heap m) (Material r)) r') (mem_view m).
Proof.
  intros Hinv Hk Hr Huid Hmat. pose proof (inv_heap _ _ Hinv) as Hok.
  destruct (mem_update_same w m (store_rec l r' (heap m)) uid l r') as [Hi Hv]; try done.
  - apply heap_ok_put; [done|by eapply (ok_recs _ Hok)|lia|]. rewrite Hmat.
    destruct (Material r) as [b|] eqn:Hb; [|done]. split; [by eapply (ok_buf _ Hok)|].
    intros l' r2 Hne Hr2 Hb2. destruct Hne. by eapply (ok_sep _ Hok).
  - split; [done|]. by rewrite Hv, Hmat, (slice_bytes_ext (heap m)).
Qed.
Lemma store_rec_twice l r1 r2 h : store_rec l r2 (store_rec l r1 h) = store_rec l r2 h.
Proof. unfold store_rec; cbn. by rewrite insert_insert_eq. Qed.

Lemma wp_store_then l r1 (k : HeapRecord → HeapRecord) {A} (c : M W MemoryStore A)
    (Q : A → W → MemoryStore → Prop) w m :
  wp c Q w (set_heap (store_rec l (k r1) (heap m)) m) →
  wp (store l r1;; rec ← load l; store l (k rec);; c) Q w m.
Proof.
  intros Hc. apply wp_bind, wp_store, wp_bind. eapply (wp_load l r1); [by simplify_map_eq|].
  apply wp_bind, wp_store. unfold set_heap in *; cbn in *. by rewrite store_rec_twice.
Qed.

(** The postcondition every operation of the store has. *)
Abbreviation mem_post w m post :=
  (λ res w' m', later w w' ∧ mem_inv w' m' ∧ post (mem_view m) res (mem_view m')).

Lemma post_update_err {A} faulty pre (rel : KeyRecord → A → KeyRecord → Prop) v uid e :
  (∀ r, objects v !! uid = Some r → ¬ pre r) → post_update faulty pre rel v uid (Err e) v.
Proof. intros Hn. split; [done|by left]. Qed.

Ltac find_live :=
  eapply wp_find_live;
  [done
  |intros Hnone; split_and!; [done|done|apply post_update_err; by apply lookup_live_None]
  |intros l r Hk Hr Hlive Huid Hv].

(** The operations that assign fields of a live record. *)
Lemma mem_assign w m uid l r f :
  mem_inv w m → keys m !! uid = Some l → recs (heap m) !! l = Some r →
  UID (f r) = uid → Material (f r) = Material r →
  ∀ g pre, set_Material (slice_bytes (heap m) (Material r)) (f r) =
     g (set_Material (slice_bytes (heap m) (Material r)) r) →
  pre (set_Material (slice_bytes (heap m) (Material r)) r) →
  mem_post w m (λ v res v', post_set False pre g v uid res v') (Val tt) w
    (set_heap (store_rec l (f r) (heap m)) m).
Proof.
  intros Hinv Hk Hr Huid Hmat g pre Hg Hpre.
  destruct (mem_store_field w m uid l r (f r)) as [Hi Hv]; [done..|].
  split_and!; [done|done|].
  exists (set_Material (slice_bytes (heap m) (Material r)) r).
  exists (set_Material (slice_bytes (heap m) (Material r)) (f r)).
  split_and!; [by eapply view_lookup_key|done|done|done].
Qed.

Lemma mem_Activate_spec uid w m : mem_inv w m →
  wp (mem_Activate uid) (mem_post w m (λ v, post_Activate False v uid)) w m.
Proof.
  intros Hinv. unfold mem_Activate, not_found. find_live. apply wp_bind, wp_store, wp_ret.
  by apply (mem_assign w m uid l r (set_State StateActive)).
Qed.

Lemma mem_Archive_spec uid w m : mem_inv w m →
  wp (mem_Archive uid) (mem_post w m (λ v, post_Archive False v uid)) w m.
Proof.
  intros Hinv. unfold mem_Archive, not_found. find_live. apply wp_bind, wp_store, wp_ret.
  by apply (mem_assign w m uid l r (set_State StateArchived)).
Qed.

Lemma mem_Revoke_spec uid reason w m : mem_inv w m →
  wp (mem_Revoke uid reason) (mem_post w m (λ v, post_Revoke False reason v uid)) w m.
Proof.
  intros Hinv. unfold mem_Revoke, not_found. find_live.
  apply wp_store_then, wp_ret.
  by apply (mem_assign w m uid l r (λ r, set_RevocationReason reason (set_State StateRevoked r))).
Qed.

Lemma mem_Recover_spec uid w m : mem_inv w m →
  wp (mem_Recover uid) (mem_post w m (λ v, post_Recover False v uid)) w m.
Proof.
  intros Hinv. unfold mem_Recover. apply wp_bind. unfold lookup_key. wp_steps.
  destruct (keys m !! uid) as [l|] eqn:Hk; simpl.
  - destruct (inv_key _ _ Hinv _ _ Hk) as (r & Hr & Huid).
    pose proof (view_lookup_key w m uid l r Hinv Hk Hr) as Hv.
    apply wp_bind. eapply wp_load; [done|].
    destruct (Z.eqb_spec (State r) StateArchived) as [Hst|Hst]; simpl.
    + apply wp_bind, wp_store, wp_ret.
      by apply (mem_assign w m uid l r (set_State StatePreActive)).
    + wp_steps. split_and!; [done|done|]. apply post_update_err. rewrite Hv. by intros ? [= <-].
  - wp_steps. split_and!; [done|done|]. apply post_update_err.
    by rewrite view_lookup, Hk.
Qed.

(** Wiping the buffer of one record leaves the bytes of the others alone. *)
Lemma slice_bytes_wipe h l r l2 r2 :
  heap_ok h → l2 ≠ l → recs h !! l = Some r → recs h !! l2 = Some r2 →
  slice_bytes (wipe (Material r) h) (Material r2) = slice_bytes h (Material r2).
Proof.
  intros Hok Hne Hr Hr2. destruct (Material r) as [b|] eqn:Hb; [|done].
  destruct (Material r2) as [b2|] eqn:Hb2; [|done]. cbn.
  rewrite lookup_alter_ne; [done|]. intros ->. destruct Hne. by eapply (ok_sep _ Hok).
Qed.

Lemma mem_Destroy_spec uid w m : mem_inv w m →
  wp (mem_Destroy uid) (mem_post w m (λ v, post_Destroy False v uid)) w m.
Proof.
  intros Hinv. unfold mem_Destroy, not_found. find_live.
  pose proof (inv_heap _ _ Hinv) as Hok.
  apply wp_bind, wp_with_heap; cbn.
  apply (wp_store_then l (set_Material None r) (set_State StateDestroyed)), wp_ret.
  set (r' := set_State StateDestroyed (set_Material None r)).
  unfold set_heap; cbn. fold (set_heap (store_rec l r' (wipe (Material r) (heap m))) m).
  assert (recs (wipe (Material r) (heap m)) = recs (heap m)) as Hrecs
    by by destruct (Material r).
  destruct (mem_update_same w m (store_rec l r' (wipe (Material r) (heap m))) uid l r')
    as [Hi Hv']; try done.
  - apply heap_ok_put; [by apply heap_ok_wipe| |done|done].
    apply (ok_recs _ (heap_ok_wipe (Material r) _ Hok)). by rewrite Hrecs.
  - cbn. by rewrite Hrecs.
  - intros l2 r2 Hne Hr2. rewrite <-(slice_bytes_wipe (heap m) l r l2 r2) by done.
    by apply slice_bytes_ext.
  - split_and!; [done|done|]. eexists _, _. split_and!; [exact Hv|done|reflexivity|].
    rewrite Hv'. done.
Qed.

(** Reading a returned pointer. *)
Definition reads_as (res : result loc) (h : Heap) (P : result KeyRecord → Prop) : Prop :=
  match res with
  | Val l => ∃ r, deref h l = Some r ∧ P (Val r)
  | Err e => P (Err e)
  end.

Lemma wp_read_result (c : M W MemoryStore (result loc)) P w m :
  wp c (λ res w' m', reads_as res (heap m') (λ r, P r w' m')) w m →
  wp (read_result c) P w m.
Proof.
  intros Hc. unfold read_result. apply wp_bind. eapply wp_mono; [exact Hc|].
  intros [l|e] w' m'; simpl.
  - intros (r & Hr & HP). apply wp_bind. by eapply wp_read, wp_ret.
  - intros HP. by apply wp_ret.
Qed.

Lemma mem_Rekey_spec uid w m : mem_inv w m →
  wp (Rekey uid) (mem_post w m (λ v, post_Rekey False v uid)) w m.
Proof.
  intros Hinv. apply wp_read_result. unfold mem_Rekey, not_found.
  pose proof (inv_heap _ _ Hinv) as Hok.
  eapply wp_find_live; [done| |].
  { intros Hnone. split_and!; [done|done|apply post_update_err].
    intros r Hr [Hl _]. by eapply lookup_live_None. }
  intros l r Hk Hr Hlive Huid Hv. simpl.
  destruct ((Length r <=? 0) || (MaxKeyLengthBits <? Length r)) eqn:Hlen.
  { apply wp_ret. split_and!; [done|done|apply post_update_err]. rewrite Hv.
    intros ? [= <-] [_ Hl]. unfold invalid_length in Hl. simpl in Hl. congruence. }
  assert (0 ≤ Z.quot (Length r) 8) as Hpos.
  { apply orb_false_iff in Hlen as [?%Z.leb_gt _]. apply Z.quot_pos; lia. }
  apply wp_bind, wp_go_make; [done|]. rewrite length_replicate.
  apply wp_bind, wp_rand. intros bs w1 Hw1 Hbs.
  apply wp_bind, wp_with_heap.
  destruct (alloc_buf bs (heap m)) as [b h1] eqn:Ha. cbn.
  destruct (heap_ok_alloc_buf bs _ _ _ Ha Hok) as (Hok1 & Hun & Hb & Hrecs & Hframe).
  eapply (wp_store_then l (set_Material (Some b) r) (λ r, set_Version (int64 (Version r + 1)) r)).
  apply wp_ret. set (r' := set_Version _ _).
  change (heap (set_heap h1 m)) with h1.
  change (set_heap (store_rec l r' h1) (set_heap h1 m)) with (set_heap (store_rec l r' h1) m).
  destruct (mem_update_same w1 m (store_rec l r' h1) uid l r') as [Hi Hv']; try done.
  - by eapply mem_inv_later.
  - apply heap_ok_put; [done| |done|].
    + apply (ok_recs _ Hok1). rewrite Hrecs. by exists r.
    + split; [by exists bs|]. intros l' r2 _ Hr2. by eapply Hun.
  - cbn. by rewrite Hrecs.
  - intros l2 r2 Hne Hr2. rewrite <-(Hframe l2 r2) by done. by apply slice_bytes_ext.
  - assert (slice_bytes (store_rec l r' h1) (Some b) = bs) as Hbytes.
    { change (default [] (bufs h1 !! b) = bs). by rewrite Hb. }
    exists (rekey_record bs (set_Material (slice_bytes (heap m) (Material r)) r)). split_and!.
    + assert (recs (store_rec l r' h1) !! l = Some r') as Hl by (cbn; by rewrite lookup_insert_eq).
      change (heap (set_heap (store_rec l r' h1) m)) with (store_rec l r' h1).
      rewrite (deref_lookup _ _ _ Hl). change (Material r') with (Some b). rewrite Hbytes.
      reflexivity.
    + done.
    + done.
    + eexists _, _. split_and!; [exact Hv|done|exact Hlen|reflexivity| |].
      * exists bs. split; [reflexivity|]. done.
      * rewrite Hv'. change (Material r') with (Some b). rewrite Hbytes. reflexivity.
Qed.

(** Allocation does not change the view. *)
Lemma mem_frame w m h' :
  mem_inv w m → heap_ok h' →
  (∀ l r, recs (heap m) !! l = Some r →
     recs h' !! l = Some r ∧ slice_bytes h' (Material r) = slice_bytes (heap m) (Material r)) →
  mem_inv w (set_heap h' m) ∧ mem_view (set_heap h' m) = mem_view m.
Proof.
  intros Hinv Hok Hfr. split.
  - split; cbn; [done| |by apply Hinv]. intros uid l Hk.
    destruct (inv_key _ _ Hinv _ _ Hk) as (r & Hr & ?). exists r. by split; [apply Hfr|].
  - unfold mem_view; cbn. f_equal. apply map_eq. intros uid. rewrite !lookup_omap.
    destruct (keys m !! uid) as [l|] eqn:Hk; [|done]. simpl.
    destruct (inv_key _ _ Hinv _ _ Hk) as (r & Hr & ?). destruct (Hfr _ _ Hr) as [Hr' Hs].
    by rewrite (deref_lookup _ _ _ Hr), (deref_lookup _ _ _ Hr'), Hs.
Qed.

Lemma mem_alloc_buf w m bs b h1 :
  mem_inv w m → alloc_buf bs (heap m) = (b, h1) →
  mem_inv w (set_heap h1 m) ∧ mem_view (set_heap h1 m) = mem_view m ∧
  bufs h1 !! b = Some bs ∧ unreferenced b h1.
Proof.
  intros Hinv Ha.
  destruct (heap_ok_alloc_buf bs _ _ _ Ha (inv_heap _ _ Hinv)) as (Hok & Hun & Hb & Hrecs & Hfr).
  destruct (mem_frame w m h1) as [??]; [done|done| |done].
  intros l r Hr. rewrite Hrecs. by split; [|eapply Hfr].
Qed.

Lemma fresh_uuid_unused w m uid :
  mem_inv w m → uid ∉ uuids_issued w → keys m !! uid = None.
Proof.
  intros Hinv Hu. destruct (keys m !! uid) eqn:Hk; [|done].
  destruct Hu. apply (inv_uid _ _ Hinv). by eexists.
Qed.

(** Storing a record under a new identifier, at a location no identifier names. *)
Lemma mem_publish w w' m l r b bs p :
  mem_inv w m → later w w' → UID r ∉ uuids_issued w → UID r ∈ uuids_issued w' →
  (∀ u, keys m !! u ≠ Some l) → (l < p)%positive → (brk (heap m) ≤ p)%positive →
  Material r = Some b → bufs (heap m) !! b = Some bs → may_own (heap m) l (Some b) →
  let h' := mkHeap (<[l := r]> (recs (heap m))) (bufs (heap m)) p in
  let m' := mkMemoryStore (<[UID r := l]> (keys m)) (attrs m) h' in
  mem_inv w' m' ∧ objects (mem_view m) !! UID r = None ∧
  mem_view m' = put_object (set_Material bs r) (mem_view m) ∧
  deref h' l = Some (set_Material bs r).
Proof.
  intros Hinv Hw Hfresh Hiss Hl Hlp Hp Hm Hb Hown h' m'.
  destruct (mem_update w' m h' (UID r) l r) as [Hi Hv]; try done.
  - by eapply mem_inv_later.
  - apply heap_ok_put; [by apply Hinv|done|done|by rewrite Hm].
  - intros u Hu. by destruct (Hl u).
  - assert (slice_bytes h' (Material r) = bs) as Hbytes by (rewrite Hm; cbn; by rewrite Hb).
    split_and!; [done| | |].
    + rewrite view_lookup. by rewrite (fresh_uuid_unused w m).
    + unfold m'. by rewrite Hv, Hbytes.
    + rewrite (deref_lookup h' l r), Hbytes; [done|]. cbn. by rewrite lookup_insert_eq.
Qed.

Lemma unkeyed_brk w m : mem_inv w m → ∀ u, keys m !! u ≠ Some (brk (heap m)).
Proof.
  intros Hinv u Hu. destruct (inv_key _ _ Hinv _ _ Hu) as (r & Hr & _).
  assert (brk (heap m) < brk (heap m))%positive; [|lia].
  apply (ok_recs _ (inv_heap _ _ Hinv)). by exists r.
Qed.

(** The epilogue of [Create] and [DeriveKey]: allocate the material, take an
    identifier and the time, allocate the record, publish it. *)
Lemma wp_new_object (mk : slice → string → Time → HeapRecord) bs
    (Q : result loc → W → MemoryStore → Prop) w m :
  mem_inv w m →
  (∀ s uid now, UID (mk s uid now) = uid ∧ Material (mk s uid now) = s) →
  (∀ b uid now l w' m', later w w' → mem_inv w' m' → objects (mem_view m) !! uid = None →
     let r := set_Material bs (mk (Some b) uid now) in
     deref (heap m') l = Some r → mem_view m' = put_object r (mem_view m) → Q (Val l) w' m') →
  wp (b ← with_heap (alloc_buf bs);
      uid ← world uuid_New;
      now ← world time_Now;
      l ← with_heap (alloc_rec (mk (Some b) uid now));
      insert_key uid l;; mret (Val l)) Q w m.
Proof.
  intros Hinv Hmk HQ.
  apply wp_bind, wp_with_heap. destruct (alloc_buf bs (heap m)) as [b h1] eqn:Ha. cbn.
  destruct (mem_alloc_buf w m bs b h1 Hinv Ha) as (Hi1 & Hv1 & Hb & Hun).
  apply wp_bind, wp_uuid. intros uid w1 Hw1 Hfr Hiss.
  apply wp_bind, wp_now. intros now w2 Hw2.
  apply wp_bind, wp_with_heap. cbn. apply wp_bind. unfold insert_key. wp_steps. unfold set_keys. cbn.
  destruct (Hmk (Some b) uid now) as [Huid Hmat].
  destruct (mem_publish w w2 (set_heap h1 m) (brk h1) (mk (Some b) uid now) b bs (Pos.succ (brk h1)))
    as (Hi & Hn & Hv & Hd); rewrite ?Huid; try done; cbn; try lia.
  - by etrans.
  - by apply Hw2.
  - by apply (unkeyed_brk w (set_heap h1 m)).
  - split; [by exists bs|]. intros l' r' _. apply Hun.
  - rewrite Huid, Hv1 in *. eapply (HQ b uid now); [by etrans|exact Hi|done|exact Hd|exact Hv].
Qed.

Lemma mem_Create_spec name algorithm length usageMask owner w m : mem_inv w m →
  wp (Create name algorithm length usageMask owner)
    (mem_post w m (λ v, post_Create False v name algorithm length usageMask owner)) w m.
Proof.
  intros Hinv. apply wp_read_result. unfold mem_Create.
  destruct ((length <=? 0) || (MaxKeyLengthBits <? length)) eqn:Hlen.
  { apply wp_ret. split_and!; [done|done|]. split; [done|by left]. }
  assert (0 ≤ Z.quot length 8) as Hpos.
  { apply orb_false_iff in Hlen as [?%Z.leb_gt _]. apply Z.quot_pos; lia. }
  apply wp_bind, wp_go_make; [done|]. rewrite length_replicate.
  apply wp_bind, wp_rand. intros bs w1 Hw1 Hbs.
  apply (wp_new_object (λ s uid now, created uid name algorithm length s usageMask owner now) bs);
    [by eapply mem_inv_later|done|].
  intros b uid now l w' m' Hw' Hi Hnone r Hd Hv. exists r. split; [done|].
  split_and!; [by etrans|done|]. split; [done|]. split; [by split|]. by exists uid, bs, now.
Qed.

Lemma mem_Register_spec rec w m : mem_inv w m →
  wp (Register rec) (mem_post w m (λ v, post_Register False v rec)) w m.
Proof.
  intros Hinv. cbn [Register MemoryStore_Storage]. apply wp_bind. unfold new_record.
  apply wp_bind, wp_with_heap. destruct (alloc_buf (Material rec) (heap m)) as [b h1] eqn:Ha. cbn.
  destruct (mem_alloc_buf w m _ b h1 Hinv Ha) as (Hi1 & Hv1 & Hb & Hun).
  apply wp_with_heap. cbn. set (r0 := set_Material (Some b) rec). set (l := brk h1).
  set (m1 := set_heap h1 m) in *.
  change (set_heap _ m1) with (set_heap (mkHeap (<[l := r0]> (recs h1)) (bufs h1) (Pos.succ l)) m1).
  set (h2 := mkHeap _ _ _).
  assert (may_own h1 l (Some b)) as Hown.
  { split; [by eexists|]. intros l' r' _. apply Hun. }
  pose proof (inv_heap _ _ Hi1) as Hok1.
  assert (heap_ok h2) as Hok2 by (apply heap_ok_put; [done|lia|lia|done]).
  assert (∀ l2 r2, recs h1 !! l2 = Some r2 → l ≠ l2) as Hnl.
  { intros l2 r2 Hr2 <-. assert (l < brk h1)%positive; [|unfold l in *; lia].
    apply (ok_recs _ Hok1). by exists r2. }
  destruct (mem_frame w m1 h2) as [Hi2 Hv2]; [done|done| |].
  { intros l2 r2 Hr2. split; [|done]. cbn. rewrite lookup_insert_ne; [done|]. by eapply Hnl. }
  assert (recs h2 !! l = Some r0) as Hl by (cbn; by rewrite lookup_insert_eq).
  apply wp_read_result. unfold mem_Register. apply wp_bind, (wp_load l r0); [done|]. cbn.
  destruct (negb (ObjectType rec =? 1) && (Length rec <? 0)) eqn:Hacc.
  { apply wp_ret. split_and!; [done|done|].
    split; [by rewrite Hv2|]. left. unfold register_accepts. by rewrite Hacc. }
  apply wp_bind, wp_uuid. intros uid w1 Hw1 Hfr Hiss.
  apply wp_bind, wp_now. intros now w2 Hw2.
  apply wp_bind, wp_store. apply wp_bind. unfold insert_key. wp_steps. unfold set_keys. cbn.
  destruct (mem_publish w w2 (set_heap h2 m1) l (registered uid now r0) b (Material rec) (Pos.succ l))
    as (Hi & Hn & Hv & Hd); try done; cbn; try lia.
  - by etrans.
  - by apply Hw2.
  - by apply (unkeyed_brk w m1).
  - split; [by exists (Material rec)|]. intros l' r' Hne.
    rewrite lookup_insert_ne by done. apply Hun.
  - cbn in Hd, Hv. rewrite Hv2, Hv1 in *. exists (registered uid now rec).
    split; [exact Hd|]. split; [by etrans|]. split; [exact Hi|].
    split; [unfold register_accepts; by rewrite Hacc|]. split; [by split|]. by exists uid, now.
Qed.

Lemma mem_Get_wp uid w m (Q : option loc → W → MemoryStore → Prop) : mem_inv w m →
  (lookup_live (mem_view m) uid = None → Q None w m) →
  (∀ l r, recs (heap m) !! l = Some r → 
     lookup_live (mem_view m) uid = Some (set_Material (slice_bytes (heap m) (Material r)) r) →
     Q (Some l) w m) →
  wp (mem_Get uid) Q w m.
Proof.
  intros Hinv Hn Hs. unfold mem_Get. eapply wp_find_live; [done|done|].
  intros l r Hk Hr Hlive Huid Hv. apply wp_ret, (Hs l r); [done|]. by apply lookup_live_Some.
Qed.

Lemma mem_DeriveKey_spec `{!HkdfLaws} sourceUID derivationData name length w m : mem_inv w m →
  wp (DeriveKey sourceUID derivationData name length)
    (mem_post w m (λ v, post_DeriveKey False v sourceUID derivationData name length)) w m.
Proof.
  intros Hinv. apply wp_read_result. unfold mem_DeriveKey. apply wp_bind, mem_Get_wp; [done| |].
  { intros Hn. apply wp_ret. split_and!; [done|done|]. split; [done|by left]. }
  intros l r Hr Hlive.
  change (if Z.quot length 8 <=? 0 then 32 else Z.quot length 8) with (derive_keyLen length).
  destruct (Z.ltb_spec MaxDerivedKeyBytes (derive_keyLen length)) as [Hlen|Hlen].
  { apply wp_ret. split_and!; [done|done|]. split; [done|by right; left]. }
  assert (0 ≤ derive_keyLen length).
  { unfold derive_keyLen. destruct (Z.leb_spec (Z.quot length 8) 0); lia. }
  apply wp_bind, (wp_load l r); [done|]. apply wp_bind, wp_get_state.
  apply wp_bind, wp_go_make; [done|]. rewrite length_replicate.
  set (src := set_Material _ r) in *.
  destruct (hkdf_sha256_fills (Material src) derivationData kmip_derive
    (Z.to_nat (derive_keyLen length))) as (out & Hout & Hn).
  { unfold MaxDerivedKeyBytes in Hlen. lia. }
  change (slice_bytes (heap m) (Material r)) with (Material src). rewrite Hout.
  apply (wp_new_object (λ s uid now, derived_from src uid name length s now) out); [done|done|].
  intros b uid now l' w' m' Hw' Hi Hnone r' Hd Hv. exists r'. split; [done|].
  split; [done|]. split; [done|]. split; [done|]. split; [by split|].
  by exists src, uid, out, now.
Qed.

Lemma mem_Get_spec uid w m : mem_inv w m →
  wp (Get uid) (mem_post w m (λ v, post_Get False v uid)) w m.
Proof.
  intros Hinv. cbn [Get MemoryStore_Storage]. unfold read_option.
  apply wp_bind, mem_Get_wp; [done| |].
  - intros Hn. apply wp_ret. split_and!; [done|done|]. split; [done|by left].
  - intros l r Hr Hlive. apply wp_bind. eapply wp_read; [by apply deref_lookup|].
    apply wp_ret. by split_and!.
Qed.

Lemma mem_GetCustomAttributes_spec uid w m : mem_inv w m →
  wp (GetCustomAttributes uid) (mem_post w m (λ v, post_GetCustomAttributes False v uid)) w m.
Proof.
  intros Hinv. apply wp_bind, mem_Get_wp; [done| |].
  - intros Hn. apply wp_ret. split_and!; [done|done|]. split; [done|by left].
  - intros l r Hr Hlive. apply wp_bind, wp_get_state.
    assert (∀ name, cattrs (mem_view m) !! (uid, name) = attrs m !! uid ≫= (.!! name)) as Ha.
    { intros name. apply lookup_map_uncurry. }
    destruct (attrs m !! uid) as [a|] eqn:Hat; apply wp_ret; split_and!; try done;
      split; try done; (split; [by eexists|]); left; intros name; rewrite Ha; simpl; try done.
Qed.

Lemma mem_SetCustomAttribute_spec uid name value w m : mem_inv w m →
  wp (SetCustomAttribute uid name value)
    (mem_post w m (λ v, post_attr False <[(uid, name) := value]> v uid)) w m.
Proof.
  intros Hinv. apply wp_bind, mem_Get_wp; [done| |].
  - intros Hn. apply wp_ret. split_and!; [done|done|]. split; [done|by left].
  - intros l r Hr Hlive. apply wp_bind, wp_get_state, wp_bind, wp_put_state, wp_ret.
    destruct Hinv. split_and!; [done|by split|]. split; [by eexists|]. unfold mem_view; cbn. f_equal.
    apply map_eq. intros [u n]. rewrite lookup_map_uncurry.
    destruct (decide (u = uid)) as [->|Hu].
    + rewrite lookup_insert_eq. simpl. destruct (decide (n = name)) as [->|Hn].
      { by rewrite !lookup_insert_eq. }
      rewrite !lookup_insert_ne, lookup_map_uncurry by congruence.
      by destruct (attrs m !! uid).
    + by rewrite !lookup_insert_ne, lookup_map_uncurry by congruence.
Qed.

Lemma mem_DeleteCustomAttribute_spec uid name w m : mem_inv w m →
  wp (DeleteCustomAttribute uid name)
    (mem_post w m (λ v, post_attr False (delete (uid, name)) v uid)) w m.
Proof.
  intros Hinv. apply wp_bind, mem_Get_wp; [done| |].
  - intros Hn. apply wp_ret. split_and!; [done|done|]. split; [done|by left].
  - intros l r Hr Hlive. apply wp_bind, wp_get_state, wp_bind, wp_put_state, wp_ret.
    destruct Hinv. split_and!; [done|by split|]. split; [by eexists|]. unfold mem_view; cbn. f_equal.
    apply map_eq. intros [u n]. rewrite lookup_map_uncurry.
    destruct (decide (u = uid)) as [->|Hu].
    + rewrite lookup_alter_eq. destruct (decide (n = name)) as [->|Hn].
      { rewrite lookup_delete_eq. destruct (attrs m !! uid); [|done]. simpl.
        by rewrite lookup_delete_eq. }
      rewrite lookup_delete_ne, lookup_map_uncurry by congruence.
      destruct (attrs m !! uid); [|done]. simpl. by rewrite lookup_delete_ne.
    + by rewrite lookup_alter_ne, lookup_delete_ne, lookup_map_uncurry by congruence.
Qed.

Lemma wp_mapM_pure {A B} (f : A → M W MemoryStore B) (R : A → B → Prop) ls
    (Q : list B → W → MemoryStore → Prop) w m :
  (∀ x, x ∈ ls → wp (f x) (λ y w' m', w' = w ∧ m' = m ∧ R x y) w m) →
  (∀ ys, Forall2 R ls ys → Q ys w m) → wp (mapM_ f ls) Q w m.
Proof.
  intros Hf HQ. eapply (wp_mapM f (λ w' m', w' = w ∧ m' = m) R); [done| |].
  - intros x w' m' Hx [-> ->]. eapply wp_mono; [by apply Hf|].
    by intros ? ? ? (-> & -> & ?).
  - intros ys w' m' [-> ->]. apply HQ.
Qed.

Lemma range_known w m ls : mem_inv w m →
  ls ≡ₚ map snd (map_to_list (keys m)) → ∀ l, l ∈ ls → is_Some (recs (heap m) !! l).
Proof.
  intros Hinv Hls l Hl. rewrite Hls in Hl.
  apply list_elem_of_fmap in Hl as ([uid l'] & -> & Hk). simpl.
  apply elem_of_map_to_list in Hk. destruct (inv_key _ _ Hinv _ _ Hk) as (r & Hr & _). by exists r.
Qed.

Lemma range_view m ls : ls ≡ₚ map snd (map_to_list (keys m)) →
  filter (λ r, is_live r = true) (omap (deref (heap m)) ls) ≡ₚ live_objects (mem_view m).
Proof.
  intros Hls. unfold live_objects. apply filter_Permutation. cbn. rewrite map_snd_omap.
  by rewrite Hls.
Qed.

Lemma filter_live h (ls : list loc) (rs : list HeapRecord) :
  Forall2 (λ l r, recs h !! l = Some r) ls rs →
  (∀ name, map UID (filter (λ r, Name r = name ∧ State r ≠ StateDestroyed) rs) =
    map UID (filter (λ r, Name r = name)
      (filter (λ r, is_live r = true) (omap (deref h) ls)))) ∧
  Forall2 (λ l r, deref h l = Some r)
    (map fst (filter (λ p, State (snd p) ≠ StateDestroyed) (zip ls rs)))
    (filter (λ r, is_live r = true) (omap (deref h) ls)).
Proof.
  induction 1 as [|l r ls rs Hr Hrs [IH1 IH2]]; [done|]. simpl.
  rewrite (deref_lookup _ _ _ Hr).
  set (r' := set_Material _ r). assert (is_live r' = negb (State r =? StateDestroyed)) as Hlive by done.
  split.
  - intros name. rewrite !filter_cons, Hlive.
    destruct (Z.eqb_spec (State r) StateDestroyed) as [Hs|Hs]; simpl.
    + rewrite (decide_False (P:=Name r = name ∧ _)) by naive_solver. apply IH1.
    + rewrite filter_cons. change (Name r') with (Name r).
      destruct (decide (Name r = name)).
      * rewrite decide_True by done. simpl. f_equal. apply IH1.
      * rewrite decide_False by naive_solver. apply IH1.
  - rewrite !filter_cons, Hlive. simpl.
    destruct (Z.eqb_spec (State r) StateDestroyed) as [Hs|Hs]; simpl.
    + rewrite decide_False by naive_solver. done.
    + rewrite decide_True by naive_solver. simpl. constructor; [by apply deref_lookup|done].
Qed.

Lemma mem_Locate_spec name w m : mem_inv w m →
  wp (Locate name) (mem_post w m (λ v, post_Locate False v name)) w m.
Proof.
  intros Hinv. cbn [Locate MemoryStore_Storage]. unfold mem_Locate, range_keys.
  apply wp_bind, wp_bind, wp_get_state, wp_bind, wp_map_range. intros ls w1 Hw1 Hls.
  apply (wp_mapM_pure _ (λ l r, recs (heap m) !! l = Some r)).
  - intros l Hl. destruct (range_known w m ls Hinv Hls l Hl) as [r Hr]. by eapply wp_load.
  - intros rs Hrs. apply wp_ret. split; [done|]. split; [by eapply mem_inv_later|].
    split; [done|]. left. rewrite (proj1 (filter_live _ _ _ Hrs) name).
    unfold live_named. by rewrite (range_view m ls Hls).
Qed.

Lemma mem_List_spec w m : mem_inv w m →
  wp List_ (mem_post w m (post_List False)) w m.
Proof.
  intros Hinv. cbn [List_ MemoryStore_Storage]. unfold mem_List.
  apply wp_bind, wp_bind, wp_get_state, wp_bind, wp_map_range. intros ls w1 Hw1 Hls.
  apply wp_bind, (wp_mapM_pure _ (λ l p, fst p = l ∧ recs (heap m) !! l = Some (snd p))).
  { intros l Hl. destruct (range_known w m ls Hinv Hls l Hl) as [r Hr].
    apply wp_bind. by eapply wp_load, wp_ret. }
  intros ps Hps. apply wp_ret.
  assert (Forall2 (λ l r, recs (heap m) !! l = Some r) ls (map snd ps) ∧ ps = zip ls (map snd ps))
    as [Hrs ->].
  { clear -Hps. induction Hps as [|l [l' r] ls ps [<- Hr] _ [IH1 IH2]]; [by split|]. simpl in *.
    split; [by constructor|]. by f_equal. }
  destruct (filter_live _ _ _ Hrs) as [_ Hl].
  set (out := filter (λ r, is_live r = true) (omap (deref (heap m)) ls)) in *.
  apply (wp_mapM_pure _ (λ l r, deref (heap m) l = Some r)).
  - intros l Hin. destruct (list_elem_of_lookup_1 _ _ Hin) as [i Hi].
    destruct (Forall2_lookup_l _ _ _ _ _ Hl Hi) as (r & _ & Hr). by eapply wp_read.
  - intros rs' Hrs'. split; [done|]. split; [by eapply mem_inv_later|]. split; [done|]. left.
    rewrite <-(range_view m ls Hls). fold out. replace rs' with out; [done|].
    clear -Hl Hrs'. revert rs' Hrs'.
    induction Hl as [|l r ls' rs Hlr _ IH]; intros rs' Hrs'; inversion Hrs'; simplify_eq; [done|].
    f_equal. by apply IH.
Qed.

(** ** The contract *)
#[global] Instance MemoryStore_spec `{!HkdfLaws} :
  StorageSpec W MemoryStore mem_inv mem_view False.
Proof.
  split.
  - intros *. apply mem_inv_later.
  - apply mem_inv_wf.
  - apply mem_Create_spec.
  - apply mem_Get_spec.
  - apply mem_Locate_spec.
  - apply mem_List_spec.
  - apply mem_Activate_spec.
  - apply mem_Destroy_spec.
  - apply mem_Register_spec.
  - apply mem_Revoke_spec.
  - apply mem_Get_spec.
  - apply mem_Rekey_spec.
  - apply mem_Archive_spec.
  - apply mem_Recover_spec.
  - apply mem_DeriveKey_spec.
  - apply mem_GetCustomAttributes_spec.
  - apply mem_SetCustomAttribute_spec.
  - apply mem_DeleteCustomAttribute_spec.
Qed.
End operations.

Lemma NewMemoryStore_inv `{RuntimeLaws W} (w : W) : mem_inv w NewMemoryStore.
Proof. split; [apply heap_ok_empty|done|]. intros uid. cbn. rewrite lookup_empty. by intros [??]. Qed.

Lemma NewMemoryStore_view : mem_view NewMemoryStore = mkVault ∅ ∅.
Proof. reflexivity. Qed.
