(* ===== verification/SQLiteStore.v ===== *)
(** * The SQLite backend (src/internal/storage/sqlite.go)

    Every SQL statement of the code is translated to its effect on the tables; a
    statement runs atomically or fails without effect.  The driver and the engine
    are behind the class [SqlDriver]: they decide whether a statement fails, and in
    which order (within the ORDER BY) the rows of a query arrive. *)

From Stdlib Require Import ZArith Lia Sorting.Sorted.
From S2P Require Import Prelude GoRuntime Storage.
Local Open Scope Z_scope.
Local Open Scope go_scope.

(** [time.RFC3339Nano], in which timestamps are stored as text. *)
Class TimeText := {
  FormatRFC3339Nano : Time → string;
  ParseRFC3339Nano : string → Time;
}.
Class TimeTextLaws `{TimeText} : Prop :=
  Parse_Format t : ParseRFC3339Nano (FormatRFC3339Nano t) = t.

(** What an ORDER BY needs of its comparison. *)
Definition total_order {A} (before : A → A → bool) : Prop :=
  (∀ x y, before x y = true ∨ before y x = true) ∧
  (∀ x y z, before x y = true → before y z = true → before x z = true).

(** [database/sql] over the driver. *)
Class SqlDriver (W : Type) := {
  (** The error, if any, with which an [Exec] fails. *)
  sql_exec_err : W → option string * W;
  (** [sql_query before rows]: the rows a query delivers, when [rows] are those its
      FROM and WHERE select and [before] its ORDER BY; or its error. *)
  sql_query : ∀ {A : Type}, (A → A → bool) → list A → W → result (list A) * W;
}.
Class SqlLaws (W : Type) `{RuntimeLaws W} `{!SqlDriver W} := {
  (** Whether the driver may fail at all. *)
  sql_faulty : Prop;
  sql_exec_issued w : later w (sql_exec_err w).2;
  sql_query_issued A before (l : list A) w : later w (sql_query before l w).2;
  sql_exec_reliable w e : (sql_exec_err w).1 = Some e → sql_faulty;
  sql_query_err A before (l : list A) w e : (sql_query before l w).1 = Err e → sql_faulty;
  sql_query_rows A before (l : list A) w l' : (sql_query before l w).1 = Val l' →
    l' ⊆ l ∧ (l' ≡ₚ l ∨ sql_faulty);
  sql_query_sorted A before (l : list A) w l' : total_order before →
    (sql_query before l w).1 = Val l' → StronglySorted (λ x y, before x y = true) l';
}.

(** ** Tables *)
Record KeyRow := mkKeyRow {
  k_uid : string;
  k_name : string;
  k_object_type : Z;
  k_algorithm : Z;
  k_length : Z;
  k_material : bytes;
  k_usage_mask : Z;
  k_state : Z;
  k_revocation_reason : Z;
  k_owner : string;
  k_created_at : string;
  k_version : Z;
}.
(** [key_attributes]: the primary key (uid, attr_name) and attr_value. *)
Abbreviation AttrRow := ((string * string) * string)%type.

Record Database := mkDatabase {
  t_keys : list KeyRow;
  t_key_attributes : list AttrRow;
}.

Definition row_set_state (st : Z) (r : KeyRow) : KeyRow :=
  mkKeyRow (k_uid r) (k_name r) (k_object_type r) (k_algorithm r) (k_length r) (k_material r)
    (k_usage_mask r) st (k_revocation_reason r) (k_owner r) (k_created_at r) (k_version r).
Definition row_set_material (x : bytes) (r : KeyRow) : KeyRow :=
  mkKeyRow (k_uid r) (k_name r) (k_object_type r) (k_algorithm r) (k_length r) x
    (k_usage_mask r) (k_state r) (k_revocation_reason r) (k_owner r) (k_created_at r) (k_version r).
Definition row_set_revocation_reason (x : Z) (r : KeyRow) : KeyRow :=
  mkKeyRow (k_uid r) (k_name r) (k_object_type r) (k_algorithm r) (k_length r) (k_material r)
    (k_usage_mask r) (k_state r) x (k_owner r) (k_created_at r) (k_version r).
Definition row_set_version (x : Z) (r : KeyRow) : KeyRow :=
  mkKeyRow (k_uid r) (k_name r) (k_object_type r) (k_algorithm r) (k_length r) (k_material r)
    (k_usage_mask r) (k_state r) (k_revocation_reason r) (k_owner r) (k_created_at r) x.

(** The tables [createTableSQL] leaves in a new database. *)
Definition createTables : Database := mkDatabase [] [].

Section statements.
Context {W : Type} `{Runtime W} `{!SqlDriver W} `{!TimeText}.

(** [db.Exec]: the number of rows affected, or the error. *)
Definition exec (f : Database → result (Z * Database)) : M W Database (result Z) :=
  e ← world sql_exec_err;
  match e with
  | Some e => mret (Err e)
  | None =>
      db ← get_state;
      val p := f db else e => mret (Err e);;
      put_state p.2;; mret (Val p.1)
  end.

(** [UPDATE keys SET ... WHERE ...] *)
Definition update_keys (p : KeyRow → bool) (g : KeyRow → KeyRow) (db : Database) :
    result (Z * Database) :=
  Val (Z.of_nat (length (filter (λ r, p r = true) (t_keys db))),
    mkDatabase (map (λ r, if p r then g r else r) (t_keys db)) (t_key_attributes db)).

(** [INSERT INTO keys ...]: the primary key is unique. *)
Definition insert_key_row (r : KeyRow) (db : Database) : result (Z * Database) :=
  if decide (k_uid r ∈ map k_uid (t_keys db))
  then Err "UNIQUE constraint failed: keys.uid"
  else Val (1, mkDatabase (t_keys db ++ [r]) (t_key_attributes db)).

(** [INSERT INTO key_attributes ... ON CONFLICT DO UPDATE] *)
Definition upsert_attribute (uid name value : string) (db : Database) :
    result (Z * Database) :=
  let l := t_key_attributes db in
  Val (1, mkDatabase (t_keys db)
    (if decide ((uid, name) ∈ map fst l)
     then map (λ a, if decide (fst a = (uid, name)) then (fst a, value) else a) l
     else l ++ [((uid, name), value)])).

(** [DELETE FROM key_attributes WHERE uid = ? AND attr_name = ?] *)
Definition delete_attribute (uid name : string) (db : Database) : result (Z * Database) :=
  let l := t_key_attributes db in
  Val (Z.of_nat (length (filter (λ a, fst a = (uid, name)) l)),
    mkDatabase (t_keys db) (filter (λ a, fst a ≠ (uid, name)) l)).

Definition query_keys (before : KeyRow → KeyRow → bool) (p : KeyRow → bool) :
    M W Database (result (list KeyRow)) :=
  db ← get_state;
  world (sql_query before (filter (λ r, p r = true) (t_keys db))).

Definition unordered {A} (_ _ : A) : bool := true.
(** [ORDER BY created_at DESC], a comparison of texts. *)
Definition created_desc (r1 r2 : KeyRow) : bool :=
  String.leb (k_created_at r2) (k_created_at r1).

(** The parameters of the INSERT statements, and [Scan]. *)
Definition row_of (rec : KeyRecord) : KeyRow :=
  mkKeyRow (UID rec) (Name rec) (ObjectType rec) (Algorithm rec) (Length rec) (Material rec)
    (UsageMask rec) (State rec) (RevocationReason rec) (Owner rec)
    (FormatRFC3339Nano (CreatedAt rec)) (Version rec).
Definition scan_row (r : KeyRow) : KeyRecord :=
  mkKeyRecord (k_uid r) (k_name r) (k_object_type r) (k_algorithm r) (k_length r) (k_material r)
    (k_usage_mask r) (k_state r) (k_revocation_reason r) (k_owner r)
    (ParseRFC3339Nano (k_created_at r)) (k_version r).

Definition alive (r : KeyRow) : bool := negb (k_state r =? StateDestroyed).
Definition has_uid (uid : string) (r : KeyRow) : bool := String.eqb (k_uid r) uid.
End statements.

Section operations.
Context {W : Type} `{Runtime W} `{!SqlDriver W} `{!TimeText} `{!Hkdf}.

(** [QueryRow(...).Scan(...)]: the first row; no row is an error. *)
Definition scanKey (p : KeyRow → bool) : M W Database (result KeyRecord) :=
  rows ← query_keys unordered p;
  val rows := rows else e => mret (Err e);;
  match rows with
  | row :: _ => mret (Val (scan_row row))
  | [] => mret (Err "sql: no rows in result set")
  end.

Definition sql_Create (name : string) (algorithm length usageMask : Z) (owner : string) :
    M W Database (result KeyRecord) :=
  if (length <=? 0) || (MaxKeyLengthBits <? length)
  then mret (Err ("invalid key length: " +:+ fmt_d length +:+ " (must be 1-"
                  +:+ fmt_d MaxKeyLengthBits +:+ " bits)"))
  else
    keyBytes ← go_make (Z.quot length 8);
    r ← world (rand_Read (List.length keyBytes));
    val keyBytes := r else err => mret (Err ("generate key material: " +:+ err));;
    uid ← world uuid_New;
    now ← world time_Now;
    let rec := created uid name algorithm length keyBytes usageMask owner now in
    res ← exec (insert_key_row (row_of rec));
    val _ := res else err => mret (Err ("insert key: " +:+ err));;
    mret (Val rec).

Definition sql_Get (uid : string) : M W Database (option KeyRecord) :=
  res ← scanKey (λ r, has_uid uid r && alive r);
  val rec := res else _err => mret None;;
  mret (Some rec).

Definition sql_Locate (name : string) : M W Database (list string) :=
  rows ← query_keys unordered (λ r, String.eqb (k_name r) name && alive r);
  val rows := rows else _err => mret [];;
  mret (map k_uid rows).

Definition sql_List : M W Database (list KeyRecord) :=
  rows ← query_keys created_desc alive;
  val rows := rows else _err => mret [];;
  mret (map scan_row rows).

(** [res, err := db.Exec(UPDATE ...)], the wrapped error, the [RowsAffected] test. *)
Definition exec_update (what : string) (missing : string) (p : KeyRow → bool)
    (g : KeyRow → KeyRow) : M W Database (result unit) :=
  res ← exec (update_keys p g);
  val n := res else err => mret (Err (what +:+ ": " +:+ err));;
  if n =? 0 then mret (Err missing) else mret (Val tt).

Definition sql_Activate (uid : string) : M W Database (result unit) :=
  exec_update "activate" ("object not found: " +:+ uid)
    (λ r, has_uid uid r && alive r) (row_set_state StateActive).

Definition sql_Destroy (uid : string) : M W Database (result unit) :=
  exec_update "destroy" ("object not found: " +:+ uid)
    (λ r, has_uid uid r && alive r) (λ r, row_set_material [] (row_set_state StateDestroyed r)).

Definition sql_Register (rec : KeyRecord) : M W Database (result KeyRecord) :=
  if negb (ObjectType rec =? 1) && (Length rec <? 0)
  then mret (Err ("invalid key length: " +:+ fmt_d (Length rec)))
  else
    uid ← world uuid_New;
    now ← world time_Now;
    let rec := registered uid now rec in
    res ← exec (insert_key_row (row_of rec));
    val _ := res else err => mret (Err ("register: " +:+ err));;
    mret (Val rec).

Definition sql_Revoke (uid : string) (reason : Z) : M W Database (result unit) :=
  exec_update "revoke" ("object not found: " +:+ uid)
    (λ r, has_uid uid r && alive r)
    (λ r, row_set_revocation_reason reason (row_set_state StateRevoked r)).

(** The row is not updated in place: the UPDATE writes the new material and version,
    and the copy read by [Get] is returned with the same two fields assigned. *)
Definition sql_Rekey (uid : string) : M W Database (result KeyRecord) :=
  o ← sql_Get uid;
  some rec := o else mret (Err ("object not found: " +:+ uid));;
  if (Length rec <=? 0) || (MaxKeyLengthBits <? Length rec)
  then mret (Err ("invalid key length for rekey: " +:+ fmt_d (Length rec)))
  else
    keyBytes ← go_make (Z.quot (Length rec) 8);
    r ← world (rand_Read (List.length keyBytes));
    val keyBytes := r else err => mret (Err ("generate key material: " +:+ err));;
    let newVersion := int64 (Version rec + 1) in
    res ← exec (update_keys (λ r, has_uid uid r && alive r)
      (λ r, row_set_version newVersion (row_set_material keyBytes r)));
    val _ := res else err => mret (Err ("rekey: " +:+ err));;
    mret (Val (set_Version newVersion (set_Material keyBytes rec))).

Definition sql_Archive (uid : string) : M W Database (result unit) :=
  exec_update "archive" ("object not found: " +:+ uid)
    (λ r, has_uid uid r && alive r) (row_set_state StateArchived).

Definition sql_Recover (uid : string) : M W Database (result unit) :=
  exec_update "recover" ("object not found or not archived: " +:+ uid)
    (λ r, has_uid uid r && (k_state r =? StateArchived)) (row_set_state StatePreActive).

Definition sql_DeriveKey (sourceUID : string) (derivationData : bytes) (name : string)
    (length : Z) : M W Database (result KeyRecord) :=
  o ← sql_Get sourceUID;
  some src := o else mret (Err ("source key not found: " +:+ sourceUID));;
  let keyLen := Z.quot length 8 in
  let keyLen := if keyLen <=? 0 then 32 else keyLen in
  if MaxDerivedKeyBytes <? keyLen
  then mret (Err ("derived key length " +:+ fmt_d keyLen +:+ " bytes exceeds maximum "
                  +:+ fmt_d MaxDerivedKeyBytes))
  else
    buf ← go_make keyLen;
    val derived := hkdf_sha256 (Material src) derivationData kmip_derive (List.length buf)
    else err => mret (Err ("HKDF derivation failed: " +:+ err));;
    uid ← world uuid_New;
    now ← world time_Now;
    let rec := derived_from src uid name length derived now in
    res ← exec (insert_key_row (row_of rec));
    val _ := res else err => mret (Err ("insert derived key: " +:+ err));;
    mret (Val rec).

Definition sql_GetAttributes (uid : string) : M W Database (option KeyRecord) := sql_Get uid.

Definition sql_GetCustomAttributes (uid : string) :
    M W Database (result (gmap string string)) :=
  o ← sql_Get uid;
  some _ := o else mret (Err ("object not found: " +:+ uid));;
  db ← get_state;
  rows ← world (sql_query unordered (filter (λ a, (fst a).1 = uid) (t_key_attributes db)));
  val rows := rows else err => mret (Err err);;
  mret (Val (fold_left (λ m a, <[(fst a).2 := snd a]> m) rows ∅)).

Definition sql_SetCustomAttribute (uid name value : string) : M W Database (result unit) :=
  o ← sql_Get uid;
  some _ := o else mret (Err ("object not found: " +:+ uid));;
  res ← exec (upsert_attribute uid name value);
  val _ := res else err => mret (Err err);;
  mret (Val tt).

Definition sql_DeleteCustomAttribute (uid name : string) : M W Database (result unit) :=
  o ← sql_Get uid;
  some _ := o else mret (Err ("object not found: " +:+ uid));;
  res ← exec (delete_attribute uid name);
  val _ := res else err => mret (Err err);;
  mret (Val tt).

(** [db.Close()]: the tables stay on disk. *)
Definition sql_Close : M W Database (result unit) :=
  e ← world sql_exec_err;
  match e with Some e => mret (Err e) | None => mret (Val tt) end.

#[global] Instance SQLiteStore_Storage : Storage W Database := {
  Create := sql_Create;
  Get := sql_Get;
  Locate := sql_Locate;
  List_ := sql_List;
  Activate := sql_Activate;
  Destroy := sql_Destroy;
  Register := sql_Register;
  Revoke := sql_Revoke;
  GetAttributes := sql_GetAttributes;
  Rekey := sql_Rekey;
  Archive := sql_Archive;
  Recover := sql_Recover;
  DeriveKey := sql_DeriveKey;
  GetCustomAttributes := sql_GetCustomAttributes;
  SetCustomAttribute := sql_SetCustomAttribute;
  DeleteCustomAttribute := sql_DeleteCustomAttribute;
  Close := sql_Close;
}.
End operations.
