(* ===== verification/SQLiteStoreProofs.v ===== *)
(** * The SQLite backend implements the vault

    The view of the tables, the effect of each kind of statement on it, and the
    contract [StorageSpec] for the SQLite store, with the driver's failures as the
    only extra behaviour. *)

From Stdlib Require Import ZArith Lia Sorting.Sorted.
From S2P Require Import Prelude GoRuntime Storage SQLiteStore.
Local Open Scope Z_scope.

Section view.
Context {W : Type} `{HW : RuntimeLaws W} `{HT : TimeText}.

Definition sql_view (db : Database) : Vault :=
  mkVault (list_to_map (map (λ r, (k_uid r, scan_row r)) (t_keys db)))
    (list_to_map (t_key_attributes db)).

(** Primary keys are unique, and every key was an issued UUID. *)
Record sql_inv (w : W) (db : Database) : Prop := {
  sinv_keys : NoDup (map k_uid (t_keys db));
  sinv_attrs : NoDup (map fst (t_key_attributes db));
  sinv_uid r : r ∈ t_keys db → k_uid r ∈ uuids_issued w;
}.

Lemma fst_rows rows : map fst (map (λ r, (k_uid r, scan_row r)) rows) = map k_uid rows.
Proof. rewrite map_map. done. Qed.

Lemma sql_view_lookup w db uid rec : sql_inv w db →
  objects (sql_view db) !! uid = Some rec ↔
  ∃ r, r ∈ t_keys db ∧ k_uid r = uid ∧ rec = scan_row r.
Proof.
  intros Hinv. cbn. rewrite <-elem_of_list_to_map by (rewrite fst_rows; apply Hinv).
  rewrite list_elem_of_fmap. split.
  - intros (r & [= -> ->] & Hr). by exists r.
  - intros (r & Hr & <- & ->). by exists r.
Qed.

Lemma sql_inv_wf w db : sql_inv w db → vault_wf (sql_view db).
Proof. intros Hinv uid rec. rewrite sql_view_lookup by done. by intros (r & _ & <- & ->). Qed.

Lemma sql_inv_later w w' db : later w w' → sql_inv w db → sql_inv w' db.
Proof. intros Hw [???]. split; [done..|]. intros r Hr. apply Hw. eauto. Qed.

Lemma sql_row_unique w db r1 r2 : sql_inv w db →
  r1 ∈ t_keys db → r2 ∈ t_keys db → k_uid r1 = k_uid r2 → r1 = r2.
Proof.
  intros Hinv. by apply NoDup_key_unique, Hinv.
Qed.

Lemma is_live_scan r : is_live (scan_row r) = alive r.
Proof. done. Qed.

Lemma has_uid_spec uid r : has_uid uid r = true ↔ k_uid r = uid.
Proof. apply String.eqb_eq. Qed.

Lemma sql_lookup_live w db uid rec : sql_inv w db →
  lookup_live (sql_view db) uid = Some rec ↔
  ∃ r, r ∈ filter (λ r, has_uid uid r && alive r = true) (t_keys db) ∧ rec = scan_row r.
Proof.
  intros Hinv. rewrite lookup_live_Some, sql_view_lookup by done. split.
  - intros [(r & Hr & Hu & ->) Hl]. exists r. split; [|done]. apply list_elem_of_filter.
    split; [|done]. apply andb_true_iff. by rewrite has_uid_spec.
  - intros (r & Hr & ->). apply list_elem_of_filter in Hr as [[Hu Hl]%andb_true_iff Hr].
    apply has_uid_spec in Hu. split; [by exists r|done].
Qed.

Lemma sql_live_objects w db : sql_inv w db →
  live_objects (sql_view db) ≡ₚ map scan_row (filter (λ r, alive r = true) (t_keys db)).
Proof.
  intros Hinv. unfold live_objects; cbn.
  rewrite map_to_list_to_map by (rewrite fst_rows; apply Hinv). rewrite map_map. simpl.
  induction (t_keys db) as [|r rows IH]; [done|]. simpl. rewrite !filter_cons, is_live_scan.
  destruct (decide (alive r = true)); simpl; by rewrite IH.
Qed.

(** Changing the row of one identifier changes the view there. *)
Lemma sql_view_put w db rows' uid r r' :
  sql_inv w db → sql_inv w (mkDatabase rows' (t_key_attributes db)) →
  r ∈ t_keys db → k_uid r = uid → k_uid r' = uid →
  (∀ x, x ∈ rows' ↔ x = r' ∨ x ∈ t_keys db ∧ k_uid x ≠ uid) →
  sql_view (mkDatabase rows' (t_key_attributes db)) = put_object (scan_row r') (sql_view db).
Proof.
  intros Hinv Hinv' Hr Hu Hu' Hrows. set (db' := mkDatabase _ _) in *.
  change (sql_view db') with (mkVault (objects (sql_view db')) (cattrs (sql_view db))).
  unfold put_object. f_equal. apply map_eq. intros u. apply option_eq. intros rec.
  rewrite (sql_view_lookup w db') by done. cbn [UID scan_row]. rewrite Hu'.
  destruct (decide (uid = u)) as [<-|Hne].
  - rewrite lookup_insert_eq. split.
    + intros (x & [->|[_ ?]]%Hrows & Hx & ->); done.
    + intros [= <-]. exists r'. split; [apply Hrows; by left|done].
  - rewrite lookup_insert_ne, (sql_view_lookup w db) by done. split.
    + intros (x & [->|[? _]]%Hrows & Hx & ->); [congruence|by exists x].
    + intros (x & Hx & Hxu & ->). exists x. split; [|done]. apply Hrows. right.
      split; [done|congruence].
Qed.

(** An UPDATE restricted to one identifier. *)
Lemma sql_update w db uid q g :
  sql_inv w db → (∀ r, k_uid (g r) = k_uid r) →
  let p := λ r, has_uid uid r && q r in
  let rows' := map (λ r, if p r then g r else r) (t_keys db) in
  let db' := mkDatabase rows' (t_key_attributes db) in
  sql_inv w db' ∧
  ((∃ r, r ∈ t_keys db ∧ k_uid r = uid ∧ q r = true ∧
      length (filter (λ r, p r = true) (t_keys db)) ≠ 0%nat ∧
      sql_view db' = put_object (scan_row (g r)) (sql_view db)) ∨
   (∀ r, r ∈ t_keys db → k_uid r = uid → q r = false) ∧
     length (filter (λ r, p r = true) (t_keys db)) = 0%nat ∧ db' = db).
Proof.
  intros Hinv Hg p rows' db'.
  assert (map k_uid rows' = map k_uid (t_keys db)) as Huids.
  { unfold rows'. rewrite map_map. apply map_ext. intros r. destruct (p r); [apply Hg|done]. }
  assert (sql_inv w db') as Hinv'.
  { split; cbn; [rewrite Huids; apply Hinv|apply Hinv|].
    intros r' (r & -> & Hr)%list_elem_of_fmap. destruct (p r); rewrite ?Hg; by eapply sinv_uid. }
  split; [done|].
  destruct (filter (λ r, p r = true) (t_keys db)) as [|r rs] eqn:Hf.
  - right. assert (∀ r, r ∈ t_keys db → p r = false) as Hnone.
    { intros r Hr. destruct (p r) eqn:Hp; [|done].
      assert (r ∈ filter (λ r, p r = true) (t_keys db)) as Hin by by apply list_elem_of_filter.
      rewrite Hf in Hin. by apply not_elem_of_nil in Hin. }
    split_and!; [|done|].
    + intros r Hr Hu. specialize (Hnone r Hr). unfold p in Hnone.
      by rewrite (proj2 (has_uid_spec uid r) Hu) in Hnone.
    + unfold db', rows'. destruct db as [rows at_]. simpl in *. f_equal.
      rewrite <-(map_id rows) at 2. apply map_ext_in. intros r Hr%list_elem_of_In.
      by rewrite Hnone.
  - left. exists r.
    assert (r ∈ filter (λ r, p r = true) (t_keys db)) as Hin by (rewrite Hf; left).
    apply list_elem_of_filter in Hin as [[Hu Hq]%andb_true_iff Hr].
    apply has_uid_spec in Hu. split_and!; [done..|].
    apply (sql_view_put w db rows' uid r (g r)); rewrite ?Hg; try done.
    intros x. unfold rows'. rewrite list_elem_of_fmap. split.
    + intros (y & -> & Hy). destruct (p y) eqn:Hp.
      * left. apply andb_true_iff in Hp as [Hyu%has_uid_spec _].
        by rewrite (sql_row_unique w db y r) by (done || congruence).
      * right. split; [done|]. intros Hyu. rewrite (sql_row_unique w db y r) in Hp by (done || congruence).
        unfold p in Hp. by rewrite Hq, (proj2 (has_uid_spec uid r) Hu) in Hp.
    + assert (p r = true) as Hp.
      { unfold p. by rewrite Hq, (proj2 (has_uid_spec uid r) Hu). }
      intros [->|[Hx Hxu]]; [exists r; by rewrite Hp|]. exists x. split; [|done].
      destruct (p x) eqn:Hpx; [|done]. apply andb_true_iff in Hpx as [Hxu'%has_uid_spec _]. done.
Qed.
End view.

Section operations.
Context {W : Type} `{HW : RuntimeLaws W} `{!SqlDriver W} `{HD : !SqlLaws W}.
Context `{HT : TimeTextLaws} `{HK : Hkdf}.
Implicit Types (w : W) (db : Database).

Abbreviation sql_post w db post :=
  (λ res w' db', later w w' ∧ sql_inv w' db' ∧ post (sql_view db) res (sql_view db')).

Lemma scan_row_of rec : scan_row (row_of rec) = rec.
Proof. destruct rec. unfold row_of, scan_row; cbn. by rewrite Parse_Format. Qed.

Lemma wp_query {A S} before (rows : list A) (Q : result (list A) → W → S → Prop) w (db : S) :
  (∀ e w', later w w' → sql_faulty → Q (Err e) w' db) →
  (∀ l w', later w w' → l ⊆ rows → l ≡ₚ rows ∨ sql_faulty →
     Q (Val l) w' db) →
  wp (world (sql_query before rows)) Q w db.
Proof.
  intros He Hv. apply wp_world. pose proof (sql_query_issued A before rows w) as Hl.
  destruct (sql_query before rows w) as [[l|e] w'] eqn:Hq; cbn in *.
  - destruct (sql_query_rows A before rows w l) as [? ?]; [by rewrite Hq|]. by apply Hv.
  - apply He; [done|]. eapply (sql_query_err A before rows w e). by rewrite Hq.
Qed.

Lemma wp_exec f (Q : result Z → W → Database → Prop) w db :
  (∀ e w', later w w' → sql_faulty → Q (Err e) w' db) →
  (∀ w', later w w' →
     match f db with Val (n, db') => Q (Val n) w' db' | Err e => Q (Err e) w' db end) →
  wp (exec f) Q w db.
Proof.
  intros He Hv. unfold exec. apply wp_bind, wp_world.
  pose proof (sql_exec_issued w) as Hl. pose proof (sql_exec_reliable w) as Hr.
  destruct (sql_exec_err w) as [[e|] w']; cbn in *.
  - apply wp_ret, He; [done|by eapply Hr].
  - specialize (Hv w' Hl). apply wp_bind, wp_get_state.
    destruct (f db) as [[n db']|e]; [|by apply wp_ret]. by apply wp_bind, wp_put_state, wp_ret.
Qed.

Lemma exec_update_spec what missing uid q g pre f w db :
  sql_inv w db → (∀ r, k_uid (g r) = k_uid r) →
  (∀ r, scan_row (g r) = f (scan_row r)) → (∀ r, q r = true ↔ pre (scan_row r)) →
  wp (exec_update what missing (λ r, has_uid uid r && q r) g)
    (sql_post w db (λ v, post_set sql_faulty pre f v uid)) w db.
Proof.
  intros Hinv Hg Hf Hq. unfold exec_update. apply wp_bind, wp_exec.
  { intros e w' Hw Hfault. apply wp_ret. split_and!; [done|by eapply sql_inv_later|].
    split; [done|by right]. }
  intros w' Hw. destruct (sql_update w db uid q g Hinv Hg)
    as [Hinv' [(r & Hr & Hu & Hqr & Hn & Hv)|(Hnone & Hn & Hdb)]]; cbn.
  - destruct (Z.eqb_spec (Z.of_nat (length (filter (λ r, has_uid uid r && q r = true) (t_keys db)))) 0);
      [lia|]. apply wp_ret. split_and!; [done|by eapply sql_inv_later|].
    exists (scan_row r), (f (scan_row r)). rewrite Hv, Hf.
    split_and!; [|by apply Hq|done|done]. rewrite (sql_view_lookup w db) by done. by exists r.
  - rewrite Hn. cbn. apply wp_ret. split_and!; [done|by eapply sql_inv_later|]. rewrite Hdb.
    split; [done|]. left. intros rec (r & Hr & Hu & ->)%(sql_view_lookup w db) Hpre; [|done].
    apply Hq in Hpre. by rewrite Hnone in Hpre.
Qed.

Lemma sql_insert_spec w w' db rec :
  sql_inv w db → later w w' → UID rec ∉ uuids_issued w → UID rec ∈ uuids_issued w' →
  ∃ db', insert_key_row (row_of rec) db = Val (1, db') ∧ sql_inv w' db' ∧
    post_new (sql_view db) rec (sql_view db').
Proof.
  intros Hinv Hw Hfr Hiss.
  assert (∀ x, x ∈ t_keys db → k_uid x ≠ UID rec) as Hne.
  { intros x Hx Heq. apply Hfr. rewrite <-Heq. by apply (sinv_uid w db). }
  unfold insert_key_row. rewrite decide_False.
  2:{ intros (x & Hx & Hin)%list_elem_of_fmap. by destruct (Hne x). }
  eexists. split; [done|].
  assert (sql_inv w' (mkDatabase (t_keys db ++ [row_of rec]) (t_key_attributes db))) as Hinv'.
  { split; cbn.
    - rewrite map_app. apply NoDup_app. split_and!; [apply Hinv| |apply NoDup_singleton].
      intros u (x & Hu & Hx)%list_elem_of_fmap Hu'%list_elem_of_singleton.
      destruct (Hne x Hx). rewrite <-Hu, Hu'. done.
    - apply Hinv.
    - intros r [Hr| ->%list_elem_of_singleton]%elem_of_app; [|done].
      apply Hw. by apply (sinv_uid w db). }
  split; [done|]. split.
  { destruct (objects (sql_view db) !! UID rec) as [rec'|] eqn:Hl; [|done].
    apply (sql_view_lookup w db) in Hl as (x & Hx & Hu & _); [|done]. by destruct (Hne x). }
  set (db' := mkDatabase _ _) in *.
  change (sql_view db') with (mkVault (objects (sql_view db')) (cattrs (sql_view db))).
  unfold put_object. f_equal. apply map_eq. intros u. apply option_eq. intros rec'.
  rewrite (sql_view_lookup w' db') by done.
  assert (∀ x, x ∈ t_keys db' ↔ x ∈ t_keys db ∨ x = row_of rec) as Hin.
  { intros x. cbn. by rewrite elem_of_app, list_elem_of_singleton. }
  destruct (decide (UID rec = u)) as [<-|Hn].
  - rewrite lookup_insert_eq. split.
    + intros (x & [Hx| ->]%Hin & Hu & ->); [by destruct (Hne x)|]. by rewrite scan_row_of.
    + intros [= <-]. exists (row_of rec). rewrite scan_row_of. split; [apply Hin; by right|done].
  - rewrite lookup_insert_ne, (sql_view_lookup w db) by done. split.
    + intros (x & [Hx| ->]%Hin & Hu & ->); [by exists x|done].
    + intros (x & Hx & Hu & ->). exists x. split; [apply Hin; by left|done].
Qed.

(** Inserting a record whose identifier was just issued, with its error wrapping. *)
Lemma wp_insert_new what rec (Q : result KeyRecord → W → Database → Prop) w w1 db :
  sql_inv w db → later w w1 → UID rec ∉ uuids_issued w → UID rec ∈ uuids_issued w1 →
  (∀ e w' , later w w' → sql_inv w' db → sql_faulty → Q (Err e) w' db) →
  (∀ w' db', later w w' → sql_inv w' db' → post_new (sql_view db) rec (sql_view db') →
     Q (Val rec) w' db') →
  wp (res ← exec (insert_key_row (row_of rec));
      match res with
      | Val _ => mret (Val rec)
      | Err err => mret (Err (what +:+ err))
      end) Q w1 db.
Proof.
  intros Hinv Hw Hfr Hiss He Hv. apply wp_bind, wp_exec.
  { intros e w' Hw' Hfault. apply wp_ret, He; [by etrans| |done].
    eapply sql_inv_later; [|exact Hinv]. by etrans. }
  intros w' Hw'. destruct (sql_insert_spec w w1 db rec) as (db' & -> & Hinv' & Hpost); [done..|].
  apply wp_ret, Hv; [by etrans|by eapply sql_inv_later|done].
Qed.

(** [Get], from which most operations start. *)
Lemma sql_Get_wp uid (Q : option KeyRecord → W → Database → Prop) w db :
  sql_inv w db →
  (∀ w', later w w' → lookup_live (sql_view db) uid = None ∨ sql_faulty → Q None w' db) →
  (∀ w' rec, later w w' → lookup_live (sql_view db) uid = Some rec → Q (Some rec) w' db) →
  wp (sql_Get uid) Q w db.
Proof.
  intros Hinv Hnone Hsome. unfold sql_Get, scanKey, query_keys.
  apply wp_bind, wp_bind, wp_bind, wp_get_state, wp_query.
  { intros e w' Hw Hfault. apply wp_ret, wp_ret, Hnone; [done|by right]. }
  intros [|row rows] w' Hw Hsub Hperm; apply wp_ret, wp_ret.
  - apply Hnone; [done|]. destruct Hperm as [Hperm|]; [|by right]. left.
    destruct (lookup_live (sql_view db) uid) as [rec|] eqn:Hl; [|done].
    apply (sql_lookup_live w db) in Hl as (r & Hr & _); [|done].
    apply Permutation_nil in Hperm. rewrite Hperm in Hr.
    by apply not_elem_of_nil in Hr.
  - apply Hsome; [done|]. apply (sql_lookup_live w db); [done|].
    exists row. split; [|done]. apply Hsub. left.
Qed.

Lemma sql_Get_spec uid w db : sql_inv w db →
  wp (sql_Get uid) (sql_post w db (λ v, post_Get sql_faulty v uid)) w db.
Proof.
  intros Hinv. apply sql_Get_wp; [done| |]; intros; split_and!; try done;
    try (by eapply sql_inv_later); by split.
Qed.

Lemma sql_Create_spec name algorithm length usageMask owner w db : sql_inv w db →
  wp (sql_Create name algorithm length usageMask owner)
    (sql_post w db (λ v, post_Create sql_faulty v name algorithm length usageMask owner)) w db.
Proof.
  intros Hinv. unfold sql_Create.
  destruct ((length <=? 0) || (MaxKeyLengthBits <? length)) eqn:Hlen.
  { apply wp_ret. split_and!; [done|done|]. split; [done|by left]. }
  assert (0 ≤ Z.quot length 8) as Hpos.
  { apply orb_false_iff in Hlen as [?%Z.leb_gt _]. apply Z.quot_pos; lia. }
  apply wp_bind, wp_go_make; [done|]. rewrite length_replicate.
  apply wp_bind, wp_rand. intros bs w1 Hw1 Hbs.
  apply wp_bind, wp_uuid. intros uid w2 Hw2 Hfr Hiss.
  apply wp_bind, wp_now. intros now w3 Hw3.
  eapply (wp_insert_new _ _ _ w1); cbn; try done.
  - by eapply sql_inv_later.
  - by etrans.
  - by apply Hw3.
  - intros e w' Hw' Hi Hfault. split; [by etrans|]. split; [done|]. split; [done|by right].
  - intros w' db' Hw' Hi Hnew. split; [by etrans|]. split; [done|]. split; [done|].
    split; [done|]. by exists uid, bs, now.
Qed.

Lemma sql_Register_spec rec w db : sql_inv w db →
  wp (sql_Register rec) (sql_post w db (λ v, post_Register sql_faulty v rec)) w db.
Proof.
  intros Hinv. unfold sql_Register.
  destruct (negb (ObjectType rec =? 1) && (Length rec <? 0)) eqn:Hacc.
  { apply wp_ret. split_and!; [done|done|]. split; [done|]. left.
    unfold register_accepts. by rewrite Hacc. }
  assert (register_accepts rec = true) as Hok by (unfold register_accepts; by rewrite Hacc).
  apply wp_bind, wp_uuid. intros uid w2 Hw2 Hfr Hiss.
  apply wp_bind, wp_now. intros now w3 Hw3.
  eapply (wp_insert_new _ _ _ w); cbn; try done.
  - by etrans.
  - by apply Hw3.
  - intros e w' Hw' Hi Hfault. split; [done|]. split; [done|]. split; [done|by right].
  - intros w' db' Hw' Hi Hnew. split; [done|]. split; [done|]. split; [done|].
    split; [done|]. by exists uid, now.
Qed.

Lemma sql_DeriveKey_spec `{!HkdfLaws} sourceUID derivationData name length w db : sql_inv w db →
  wp (sql_DeriveKey sourceUID derivationData name length)
    (sql_post w db (λ v, post_DeriveKey sql_faulty v sourceUID derivationData name length)) w db.
Proof.
  intros Hinv. unfold sql_DeriveKey. apply wp_bind, sql_Get_wp; [done| |].
  { intros w' Hw Hn. apply wp_ret. split; [done|]. split; [by eapply sql_inv_later|].
    split; [done|]. by destruct Hn as [?|?]; [left|right; right]. }
  intros w' src Hw Hlive.
  change (if Z.quot length 8 <=? 0 then 32 else Z.quot length 8) with (derive_keyLen length).
  assert (sql_inv w' db) by by eapply sql_inv_later.
  destruct (Z.ltb_spec MaxDerivedKeyBytes (derive_keyLen length)) as [Hlen|Hlen].
  { apply wp_ret. split_and!; [done|done|]. split; [done|by right; left]. }
  assert (0 ≤ derive_keyLen length).
  { unfold derive_keyLen. destruct (Z.leb_spec (Z.quot length 8) 0); lia. }
  apply wp_bind, wp_go_make; [done|]. rewrite length_replicate.
  destruct (hkdf_sha256_fills (Material src) derivationData kmip_derive
    (Z.to_nat (derive_keyLen length))) as (out & Hout & Hn).
  { unfold MaxDerivedKeyBytes in Hlen. lia. }
  rewrite Hout.
  apply wp_bind, wp_uuid. intros uid w2 Hw2 Hfr Hiss.
  apply wp_bind, wp_now. intros now w3 Hw3.
  eapply (wp_insert_new _ _ _ w'); cbn; try done.
  - by etrans.
  - by apply Hw3.
  - intros e w4 Hw' Hi Hfault. split; [by etrans|]. split; [done|]. split; [done|].
    right. by right.
  - intros w4 db' Hw' Hi Hnew. split; [by etrans|]. split; [done|]. split; [done|].
    split; [done|]. by exists src, uid, out, now.
Qed.

Lemma sql_Rekey_spec uid w db : sql_inv w db →
  wp (sql_Rekey uid) (sql_post w db (λ v, post_Rekey sql_faulty v uid)) w db.
Proof.
  intros Hinv. unfold sql_Rekey. apply wp_bind, sql_Get_wp; [done| |].
  { intros w' Hw Hn. apply wp_ret. split; [done|]. split; [by eapply sql_inv_later|].
    split; [done|]. destruct Hn as [Hn|]; [left|by right].
    intros r Hr [Hl _]. by eapply lookup_live_None. }
  intros w' rec Hw Hlive. assert (sql_inv w' db) as Hinv' by by eapply sql_inv_later.
  apply lookup_live_Some in Hlive as [Hrec Hlive].
  destruct ((Length rec <=? 0) || (MaxKeyLengthBits <? Length rec)) eqn:Hlen.
  { apply wp_ret. split_and!; [done|done|]. split; [done|]. left. rewrite Hrec.
    intros ? [= <-] [_ Hl]. unfold invalid_length in Hl. congruence. }
  assert (0 ≤ Z.quot (Length rec) 8) as Hpos.
  { apply orb_false_iff in Hlen as [?%Z.leb_gt _]. apply Z.quot_pos; lia. }
  apply wp_bind, wp_go_make; [done|]. rewrite length_replicate.
  apply wp_bind, wp_rand. intros bs w1 Hw1 Hbs.
  assert (sql_inv w1 db) as Hinv1 by by eapply sql_inv_later.
  set (g := λ r, row_set_version (int64 (Version rec + 1)) (row_set_material bs r)).
  apply wp_bind, wp_exec.
  { intros e w2 Hw2 Hfault. apply wp_ret. split; [by do 2 etrans|].
    split; [by eapply sql_inv_later|]. split; [done|by right]. }
  intros w2 Hw2. assert (later w w2) as Hww2 by (by do 2 etrans).
  destruct (sql_update w1 db uid alive g Hinv1)
    as [Hi [(r & Hr & Hu & Hqr & Hn & Hv)|(Hnone & _)]]; [done| |]; cbn beta iota delta [update_keys].
  - apply wp_ret. split; [done|]. split; [exact (sql_inv_later _ _ _ Hw2 Hi)|].
    apply (sql_view_lookup w db) in Hrec as (r' & Hr' & Hu' & ->); [|done].
    assert (r' = r) as -> by (eapply (sql_row_unique w db); [done..|congruence]).
    exists (scan_row r), (rekey_record bs (scan_row r)). split_and!; try done.
    + rewrite (sql_view_lookup w db) by done. by exists r.
    + exists bs. by split.
  - apply (sql_view_lookup w db) in Hrec as (r' & Hr' & Hu' & ->); [|done].
    rewrite is_live_scan in Hlive. rewrite Hnone in Hlive by done. done.
Qed.

Lemma sql_Locate_spec name w db : sql_inv w db →
  wp (sql_Locate name) (sql_post w db (λ v, post_Locate sql_faulty v name)) w db.
Proof.
  intros Hinv. unfold sql_Locate, query_keys. apply wp_bind, wp_bind, wp_get_state.
  assert (map k_uid (filter (λ r, String.eqb (k_name r) name && alive r = true) (t_keys db))
    ≡ₚ live_named name (sql_view db)) as Hl.
  { unfold live_named. rewrite (sql_live_objects w db) by done.
    induction (t_keys db) as [|r rows IH]; [done|]. simpl. rewrite !filter_cons.
    destruct (alive r) eqn:Ha; simpl.
    - rewrite andb_true_r, filter_cons. cbn [Name scan_row].
      destruct (String.eqb_spec (k_name r) name) as [Hn|Hn]; simpl.
      + rewrite decide_True by done. simpl. by rewrite IH.
      + rewrite decide_False by done. done.
    - rewrite andb_false_r. done. }
  apply wp_query.
  { intros e w' Hw Hfault. apply wp_ret. split; [done|]. split; [by eapply sql_inv_later|].
    split; [done|]. right. split; [done|]. intros x Hx. by apply not_elem_of_nil in Hx. }
  intros rows w' Hw Hsub Hperm. apply wp_ret. split; [done|].
  split; [by eapply sql_inv_later|]. split; [done|]. destruct Hperm as [Hp|Hf].
  - left. by rewrite <-Hl, Hp.
  - right. split; [done|]. intros x (r & -> & Hr)%list_elem_of_fmap. rewrite <-Hl.
    apply list_elem_of_fmap. exists r. split; [done|by apply Hsub].
Qed.

Lemma sql_List_spec w db : sql_inv w db →
  wp sql_List (sql_post w db (post_List sql_faulty)) w db.
Proof.
  intros Hinv. unfold sql_List, query_keys. apply wp_bind, wp_bind, wp_get_state.
  pose proof (sql_live_objects w db Hinv) as Hl. apply wp_query.
  { intros e w' Hw Hfault. apply wp_ret. split; [done|]. split; [by eapply sql_inv_later|].
    split; [done|]. right. split; [done|]. intros x Hx. by apply not_elem_of_nil in Hx. }
  intros rows w' Hw Hsub Hperm. apply wp_ret. split; [done|].
  split; [by eapply sql_inv_later|]. split; [done|]. destruct Hperm as [Hp|Hf].
  - left. by rewrite Hl, Hp.
  - right. split; [done|]. intros x (r & -> & Hr)%list_elem_of_fmap. rewrite Hl.
    apply list_elem_of_fmap. exists r. split; [done|by apply Hsub].
Qed.

(** *** Custom attributes *)
Lemma attr_lookup w db k x : sql_inv w db →
  cattrs (sql_view db) !! k = Some x ↔ (k, x) ∈ t_key_attributes db.
Proof. intros Hinv. cbn. symmetry. apply elem_of_list_to_map, Hinv. Qed.

(** Replacing the attribute table, when its rows are those of a map. *)
Lemma sql_attrs_put w db (l : list AttrRow) (m : gmap (string * string) string) :
  sql_inv w db → NoDup (map fst l) → (∀ k x, (k, x) ∈ l ↔ m !! k = Some x) →
  sql_inv w (mkDatabase (t_keys db) l) ∧
  sql_view (mkDatabase (t_keys db) l) = mkVault (objects (sql_view db)) m.
Proof.
  intros [] Hl Hm. split; [by split|]. unfold sql_view; cbn. f_equal.
  apply map_eq. intros k. apply option_eq. intros x.
  by rewrite <-elem_of_list_to_map, Hm.
Qed.

Lemma sql_upsert_spec w db uid name value : sql_inv w db →
  ∃ db', upsert_attribute uid name value db = Val (1, db') ∧ sql_inv w db' ∧
    sql_view db' = mkVault (objects (sql_view db)) (<[(uid, name) := value]> (cattrs (sql_view db))).
Proof.
  intros Hinv. eexists. split; [reflexivity|]. apply sql_attrs_put; [done| |];
    destruct (decide ((uid, name) ∈ map fst (t_key_attributes db))) as [Hin|Hin].
  - rewrite map_map. rewrite (map_ext _ fst); [apply Hinv|]. intros a.
    by destruct (decide (fst a = (uid, name))).
  - rewrite map_app. apply NoDup_app. split_and!; [apply Hinv| |apply NoDup_singleton].
    intros k Hk Hk'%list_elem_of_singleton. cbn in Hk'. by rewrite Hk' in Hk.
  - intros k x. rewrite list_elem_of_fmap, lookup_insert. split.
    + intros ([k' x'] & Ha & Hina). cbn in Ha.
      destruct (decide (k' = (uid, name))) as [->|Hk]; injection Ha as -> ->.
      * by rewrite decide_True.
      * rewrite decide_False by (by intros <-). by apply (attr_lookup w db).
    + destruct (decide ((uid, name) = k)) as [<-|Hk].
      * intros [= <-]. apply list_elem_of_fmap in Hin as (a & Ha & Hina).
        exists a. split; [|done]. by rewrite decide_True, Ha.
      * intros Hx. exists (k, x). split; [|by apply (attr_lookup w db)].
        by rewrite decide_False.
  - intros k x. rewrite elem_of_app, list_elem_of_singleton, lookup_insert, <-(attr_lookup w db) by done.
    destruct (decide ((uid, name) = k)) as [<-|Hk].
    + split; [|intros [= <-]; by right]. intros [Hx|Hx]; [|by injection Hx as ->].
      apply (attr_lookup w db) in Hx; [|done]. destruct Hin.
      apply list_elem_of_fmap. by exists ((uid, name), x).
    + split; [|by left]. by intros [|[= ? _]].
Qed.

Lemma sql_delete_spec w db uid name : sql_inv w db →
  ∃ n db', delete_attribute uid name db = Val (n, db') ∧ sql_inv w db' ∧
    sql_view db' = mkVault (objects (sql_view db)) (delete (uid, name) (cattrs (sql_view db))).
Proof.
  intros Hinv. eexists _, _. split; [reflexivity|]. apply sql_attrs_put; [done| |].
  - destruct Hinv as [_ Hnd _]. induction (t_key_attributes db) as [|a l IH]; [constructor|].
    apply NoDup_cons in Hnd as [Ha Hnd]. rewrite filter_cons.
    destruct (decide (fst a ≠ (uid, name))); [|by apply IH]. cbn. apply NoDup_cons.
    split; [|by apply IH]. intros (b & Hb & Hin)%list_elem_of_fmap. destruct Ha.
    apply list_elem_of_filter in Hin as [_ Hin]. apply list_elem_of_fmap. by exists b.
  - intros k x. rewrite list_elem_of_filter, lookup_delete_Some, <-(attr_lookup w db) by done.
    cbn. split; intros [H1 H2]; by split.
Qed.

Lemma sql_attr_op uid f stmt w db :
  sql_inv w db →
  (∀ w' db', sql_inv w' db' → ∃ n db2, stmt db' = Val (n, db2) ∧ sql_inv w' db2 ∧
     sql_view db2 = mkVault (objects (sql_view db')) (f (cattrs (sql_view db')))) →
  wp (o ← sql_Get uid;
      match o with
      | Some _ =>
          res ← exec stmt;
          match res with Val _ => mret (Val tt) | Err err => mret (Err err) end
      | None => mret (Err ("object not found: " +:+ uid))
      end) (sql_post w db (λ v, post_attr sql_faulty f v uid)) w db.
Proof.
  intros Hinv Hstmt. apply wp_bind, sql_Get_wp; [done| |].
  { intros w' Hw Hn. apply wp_ret. split; [done|]. by split; [eapply sql_inv_later|]. }
  intros w' rec Hw Hlive. apply wp_bind, wp_exec.
  { intros e w2 Hw2 Hf. apply wp_ret. split; [by etrans|].
    split; [eapply sql_inv_later; [|done]; by etrans|]. by split; [|right]. }
  intros w2 Hw2. destruct (Hstmt w2 db) as (n & db2 & -> & Hi & Hv).
  { eapply sql_inv_later; [|done]. by etrans. }
  apply wp_ret. split; [by etrans|]. split; [done|]. split; [by eexists|done].
Qed.

Lemma fold_insert_lookup (rows : list AttrRow) m name :
  fold_left (λ m a, <[(fst a).2 := snd a]> m) rows m !! name =
  match list_find (λ a, (fst a).2 = name) (rev rows) with
  | Some (_, a) => Some (snd a)
  | None => (m : gmap string string) !! name
  end.
Proof.
  revert m. induction rows as [|a rows IH] using rev_ind; intros m; [done|].
  rewrite fold_left_app, rev_app_distr. cbn [rev app fold_left list_find].
  rewrite lookup_insert. destruct (decide ((fst a).2 = name)); [done|].
  rewrite IH. simpl. by destruct (list_find _ (rev rows)) as [[? ?]|].
Qed.

Lemma sql_GetCustomAttributes_spec uid w db : sql_inv w db →
  wp (sql_GetCustomAttributes uid)
    (sql_post w db (λ v, post_GetCustomAttributes sql_faulty v uid)) w db.
Proof.
  intros Hinv. unfold sql_GetCustomAttributes. apply wp_bind, sql_Get_wp; [done| |].
  { intros w' Hw Hn. apply wp_ret. split; [done|]. by split; [eapply sql_inv_later|]. }
  intros w' rec Hw Hlive. apply wp_bind, wp_get_state, wp_bind, wp_query.
  { intros e w2 Hw2 Hf. apply wp_ret. split; [by etrans|].
    split; [eapply sql_inv_later; [|done]; by etrans|]. by split; [|right]. }
  intros rows w2 Hw2 Hsub Hperm. apply wp_ret. split; [by etrans|].
  split; [eapply sql_inv_later; [|done]; by etrans|]. split; [done|]. split; [by eexists|].
  set (out := fold_left _ rows ∅).
  assert (∀ name x, out !! name = Some x →
    cattrs (sql_view db) !! (uid, name) = Some x) as Hsound.
  { intros name x. unfold out. rewrite fold_insert_lookup.
    destruct (list_find _ (rev rows)) as [[i a]|] eqn:Hf; [|done].
    apply list_find_Some in Hf as (Hi & Hname & _). intros [= <-].
    apply list_elem_of_lookup_2 in Hi. rewrite elem_of_rev in Hi.
    apply Hsub, list_elem_of_filter in Hi as [Hu Hin].
    apply (attr_lookup w db); [done|]. destruct a as [[u n] x]. simpl in *. by subst. }
  destruct Hperm as [Hperm|Hf]; [left|by right].
  intros name. destruct (cattrs (sql_view db) !! (uid, name)) as [x|] eqn:Hx.
  - destruct (out !! name) as [y|] eqn:Hy.
    { apply Hsound in Hy. congruence. }
    unfold out in Hy. rewrite fold_insert_lookup in Hy.
    destruct (list_find _ (rev rows)) as [[i a]|] eqn:Hf; [done|].
    apply list_find_None in Hf. apply (attr_lookup w db) in Hx; [|done].
    assert ((uid, name, x) ∈ rev rows) as Hin.
    { rewrite elem_of_rev, Hperm. apply list_elem_of_filter. by split. }
    rewrite Forall_forall in Hf. by destruct (Hf _ Hin).
  - destruct (out !! name) as [y|] eqn:Hy; [|done].
    apply Hsound in Hy. congruence.
Qed.

(** ** The contract *)
#[global] Instance SQLiteStore_spec `{!HkdfLaws} :
  StorageSpec W Database sql_inv sql_view sql_faulty.
Proof.
  split.
  - intros *. apply sql_inv_later.
  - apply sql_inv_wf.
  - apply sql_Create_spec.
  - apply sql_Get_spec.
  - apply sql_Locate_spec.
  - apply sql_List_spec.
  - intros uid w db Hinv. apply (exec_update_spec _ _ uid alive _
      (λ r, is_live r = true) (set_State StateActive)); by try intros r.
  - intros uid w db Hinv. apply (exec_update_spec _ _ uid alive _
      (λ r, is_live r = true) destroy_record); by try intros r.
  - apply sql_Register_spec.
  - intros uid reason w db Hinv. apply (exec_update_spec _ _ uid alive _
      (λ r, is_live r = true) (revoke_record reason)); by try intros r.
  - apply sql_Get_spec.
  - apply sql_Rekey_spec.
  - intros uid w db Hinv. apply (exec_update_spec _ _ uid alive _
      (λ r, is_live r = true) (set_State StateArchived)); by try intros r.
  - intros uid w db Hinv. apply (exec_update_spec _ _ uid (λ r, k_state r =? StateArchived) _
      (λ r, State r = StateArchived) (set_State StatePreActive)); try by try intros r.
    intros r. apply Z.eqb_eq.
  - apply sql_DeriveKey_spec.
  - apply sql_GetCustomAttributes_spec.
  - intros uid name value w db Hinv. apply sql_attr_op; [done|]. intros w' db' Hi.
    destruct (sql_upsert_spec w' db' uid name value Hi) as (db2 & ? & ? & ?). by exists 1, db2.
  - intros uid name w db Hinv. apply sql_attr_op; [done|]. intros w' db' Hi.
    by apply sql_delete_spec.
Qed.
End operations.

Lemma createTables_inv `{RuntimeLaws W} (w : W) : sql_inv w createTables.
Proof. split; [constructor..|]. intros r Hr. by apply not_elem_of_nil in Hr. Qed.
