(* ===== verification/KmipLib.v ===== *)
(** * The kmip-go library, as the server uses it

    [github.com/cyphera-labs/kmip-go] is outside this repository: its items, its
    decoder and encoders and its constants are parameters, in the class [KmipLib].
    [KmipLaws] states the documented behaviour theorems rely on: the numbers the
    KMIP specification assigns, and that a decoder reads back what the encoders
    write. *)

From Stdlib Require Import ZArith Lia.
From S2P Require Import Prelude GoRuntime.
Local Open Scope Z_scope.

Class KmipLib := {
  Item : Type;
  DecodeTTLV : bytes → Z → result Item;
  Tag : Item → Z;
  FindChild : Item → Z → option Item;
  FindChildren : Item → Z → list Item;
  IntValue : Item → Z;
  StringValue : Item → string;
  (** [None] is the nil slice. *)
  BytesValue : Item → option bytes;
  EncodeEnum : Z → Z → bytes;
  EncodeInteger : Z → Z → bytes;
  EncodeDateTime : Z → Z → bytes;
  EncodeTextString : Z → string → bytes;
  EncodeByteString : Z → bytes → bytes;
  EncodeStructure : Z → list bytes → bytes;
  (** Operations *)
  OperationCreate : Z; OperationGet : Z; OperationLocate : Z; OperationDestroy : Z;
  OperationActivate : Z; OperationCheck : Z;
  (** Tags *)
  TagRequestMessage : Z; TagRequestHeader : Z; TagResponseMessage : Z; TagResponseHeader : Z;
  TagProtocolVersion : Z; TagProtocolVersionMajor : Z; TagProtocolVersionMinor : Z;
  TagBatchCount : Z; TagBatchItem : Z; TagOperation : Z; TagRequestPayload : Z;
  TagResponsePayload : Z; TagUniqueIdentifier : Z; TagResultStatus : Z; TagResultReason : Z;
  TagResultMessage : Z; TagTemplateAttribute : Z; TagAttribute : Z; TagAttributeName : Z;
  TagAttributeValue : Z; TagNameValue : Z; TagNameType : Z; TagObjectType : Z;
  TagSymmetricKey : Z; TagKeyBlock : Z; TagKeyFormatType : Z; TagKeyValue : Z;
  TagKeyMaterial : Z; TagCryptographicAlgorithm : Z; TagCryptographicLength : Z;
  TagDerivationParameters : Z; TagDerivationData : Z; TagLeaseTime : Z;
  (** Enumerations *)
  AlgorithmAES : Z; AlgorithmRSA : Z; AlgorithmECDSA : Z;
  UsageMaskSign : Z; UsageMaskVerify : Z; UsageMaskEncrypt : Z; UsageMaskDecrypt : Z;
  ObjectTypeCertificate : Z; ObjectTypeSymmetricKey : Z; ObjectTypePublicKey : Z;
  ObjectTypePrivateKey : Z;
  KeyFormatRaw : Z; KeyFormatX509 : Z; KeyFormatPKCS8 : Z;
  NameTypeUninterpretedTextString : Z;
  ResultStatusSuccess : Z; ResultStatusOperationFailed : Z;
}.

(** [decodes e i]: the bytes [e] are the encoding of the item [i]. *)
Definition decodes `{KmipLib} (e : bytes) (i : Item) : Prop := DecodeTTLV e 0 = Val i.

(** Lengths are 32-bit fields, tags 24-bit fields. *)
Definition fits (e : bytes) : Prop := Z.of_nat (length e) < 2 ^ 32.
Definition is_tag (t : Z) : Prop := 0 ≤ t < 2 ^ 24.

Class KmipLaws `{KmipLib} : Prop := {
  (** The KMIP 1.4 enumerations. *)
  operation_numbers :
    OperationCreate = 1 ∧ OperationLocate = 8 ∧ OperationCheck = 9 ∧ OperationGet = 10 ∧
    OperationActivate = 18 ∧ OperationDestroy = 20;
  object_type_numbers :
    ObjectTypeCertificate = 1 ∧ ObjectTypeSymmetricKey = 2 ∧ ObjectTypePublicKey = 3 ∧
    ObjectTypePrivateKey = 4;
  status_numbers : ResultStatusSuccess = 0 ∧ ResultStatusOperationFailed = 1;
  response_tags :
    Forall is_tag [TagBatchItem; TagOperation; TagResultStatus; TagResultReason; TagResultMessage;
                   TagResponsePayload; TagUniqueIdentifier] ∧
    NoDup [TagOperation; TagResultStatus; TagResultReason; TagResultMessage; TagResponsePayload];
  (** [IntValue] is an [int32]. *)
  IntValue_int32 i : in_int32 (IntValue i);
  (** Decoding an encoding.  A structure's children are found by their tags, in order. *)
  decode_enum t v : is_tag t → in_int32 v →
    ∃ i, decodes (EncodeEnum t v) i ∧ Tag i = t ∧ IntValue i = v;
  decode_integer t v : is_tag t → in_int32 v →
    ∃ i, decodes (EncodeInteger t v) i ∧ Tag i = t ∧ IntValue i = v;
  decode_text t s : is_tag t → fits (EncodeTextString t s) →
    ∃ i, decodes (EncodeTextString t s) i ∧ Tag i = t ∧ StringValue i = s;
  decode_bytes t bs : is_tag t → fits (EncodeByteString t bs) →
    ∃ i, decodes (EncodeByteString t bs) i ∧ Tag i = t ∧ default [] (BytesValue i) = bs;
  decode_structure t es cs : is_tag t → fits (EncodeStructure t es) → Forall2 decodes es cs →
    ∃ i, decodes (EncodeStructure t es) i ∧ Tag i = t ∧
      (∀ t', FindChildren i t' = filter (λ c, Tag c = t') cs) ∧
      (∀ t', FindChild i t' = head (filter (λ c, Tag c = t') cs));
  (** A part of a message is no longer than the message. *)
  fits_structure t es e : e ∈ es → fits (EncodeStructure t es) → fits e;
}.
