(* ===== verification/CryptoLib.v ===== *)
(** * Cryptographic primitives

    The interface [cipher.AEAD], AES-GCM as Go's standard library wraps it (key sizes,
    nonce length, the panic on a wrong nonce), and the class [CryptoLib] of the
    primitives themselves: block-cipher mode, hashes, key generation, key encodings
    and signatures. *)

From Stdlib Require Import ZArith Lia.
From S2P Require Import Prelude GoRuntime.
Local Open Scope Z_scope.

(** [cipher.AEAD], with the nil destination and nil additional data of every call in
    the code. *)
Record AEAD := mkAEAD {
  NonceSize : Z;
  Seal : bytes → bytes → outcome bytes;
  Open : bytes → bytes → outcome (result bytes);
}.

Inductive Curve := P256 | P384 | P521.
#[global] Instance Curve_eq_dec : EqDecision Curve.
Proof. solve_decision. Defined.

(** What a type switch on a parsed key distinguishes. *)
Inductive ParsedKey (R E : Type) := RSAKey (k : R) | ECDSAKey (k : E) | OtherKey.
Arguments RSAKey {R E}. Arguments ECDSAKey {R E}. Arguments OtherKey {R E}.

Class CryptoLib (W : Type) := {
  gcm_seal : bytes → bytes → bytes → bytes;
  gcm_open : bytes → bytes → bytes → option bytes;
  sha256_Sum256 : bytes → bytes;
  hmac_sha256 : bytes → bytes → bytes;
  RsaPriv : Type; RsaPub : Type; EcPriv : Type; EcPub : Type;
  rsa_GenerateKey : Z → W → result RsaPriv * W;
  rsa_Public : RsaPriv → RsaPub;
  ecdsa_GenerateKey : Curve → W → result EcPriv * W;
  ecdsa_Public : EcPriv → EcPub;
  MarshalPKCS8PrivateKey : ParsedKey RsaPriv EcPriv → result bytes;
  ParsePKCS8PrivateKey : bytes → result (ParsedKey RsaPriv EcPriv);
  MarshalPKIXPublicKey : ParsedKey RsaPub EcPub → result bytes;
  ParsePKIXPublicKey : bytes → result (ParsedKey RsaPub EcPub);
  rsa_SignPKCS1v15 : RsaPriv → bytes → W → result bytes * W;
  rsa_VerifyPKCS1v15 : RsaPub → bytes → bytes → result unit;
  ecdsa_SignASN1 : EcPriv → bytes → W → result bytes * W;
  ecdsa_VerifyASN1 : EcPub → bytes → bytes → bool;
}.

Class CryptoLaws (W : Type) `{RuntimeLaws W} `{!CryptoLib W} : Prop := {
  gcm_open_seal key nonce pt : gcm_open key nonce (gcm_seal key nonce pt) = Some pt;
  rsa_GenerateKey_issued n w : later w (rsa_GenerateKey n w).2;
  ecdsa_GenerateKey_issued c w : later w (ecdsa_GenerateKey c w).2;
  rsa_Sign_issued k h w : later w (rsa_SignPKCS1v15 k h w).2;
  ecdsa_Sign_issued k h w : later w (ecdsa_SignASN1 k h w).2;
  Parse_Marshal_private k der :
    MarshalPKCS8PrivateKey k = Val der → ParsePKCS8PrivateKey der = Val k;
  Parse_Marshal_public k der :
    MarshalPKIXPublicKey k = Val der → ParsePKIXPublicKey der = Val k;
  rsa_Verify_Sign k h w sig :
    (rsa_SignPKCS1v15 k h w).1 = Val sig → rsa_VerifyPKCS1v15 (rsa_Public k) h sig = Val tt;
  ecdsa_Verify_Sign k h w sig :
    (ecdsa_SignASN1 k h w).1 = Val sig → ecdsa_VerifyASN1 (ecdsa_Public k) h sig = true;
}.

Section aes_gcm.
Context {W : Type} `{CryptoLib W}.

Definition byte_len (bs : bytes) : Z := Z.of_nat (length bs).

(** [aes.NewCipher]: a block is its key. *)
Definition aes_NewCipher (key : bytes) : result bytes :=
  if bool_decide (byte_len key = 16 ∨ byte_len key = 24 ∨ byte_len key = 32)
  then Val key
  else Err ("crypto/aes: invalid key size " +:+ fmt_d (byte_len key)).

(** [cipher.NewGCM] of an AES block: 12 byte nonces; [Seal] and [Open] panic on a
    nonce of another length. *)
Definition gcm_nonce_panic : string := "crypto/cipher: incorrect nonce length given to GCM".
Definition gcm_of_key (key : bytes) : AEAD := {|
  NonceSize := 12;
  Seal nonce pt :=
    if byte_len nonce =? 12 then Ok (gcm_seal key nonce pt) else Panic gcm_nonce_panic;
  Open nonce ct :=
    if byte_len nonce =? 12 then
      Ok (match gcm_open key nonce ct with
          | Some pt => Val pt
          | None => Err "cipher: message authentication failed"
          end)
    else Panic gcm_nonce_panic;
|}.
Definition cipher_NewGCM (block : bytes) : result AEAD := Val (gcm_of_key block).

Lemma aes_NewCipher_key key block : aes_NewCipher key = Val block → block = key.
Proof. unfold aes_NewCipher. case_bool_decide; congruence. Qed.
End aes_gcm.
