(* ===== verification/Http.v ===== *)
(** * HTTP and JSON, as the REST side of the server uses them

    Requests and responses of [net/http], JSON trees and how [encoding/json] decodes
    one into a struct, the string functions, [strconv.Atoi], and the hex and base64
    encodings with their round trips.  The text layer of JSON is the class [JsonText];
    the body of a response is the value the code passes to the encoder. *)

From Stdlib Require Import ZArith Lia Ascii.
From S2P Require Import Prelude GoRuntime.
Local Open Scope Z_scope.
Local Open Scope go_scope.

(** ** JSON *)
Inductive Json :=
| JNull
| JBool (b : bool)
| JNumber (literal : string)
| JString (s : string)
| JArray (l : list Json)
| JObject (fields : list (string * Json)).
Definition JInt (z : Z) : Json := JNumber (fmt_d z).

(** [json.NewDecoder(r).Decode]: the first value of the text; the flag says that
    reading beyond the given bytes fails (otherwise the text ends there). *)
Class JsonText := json_Decode : bytes → bool → result Json.

(** ** Requests and responses *)
Record HttpRequest := mkHttpRequest {
  r_Method : string;
  (** The segments of the path. *)
  r_Path : list string;
  r_RemoteAddr : string;
  (** [r.Header.Get("Authorization")], and the value of the session cookie. *)
  r_Authorization : string;
  r_SessionCookie : option string;
  (** [r.URL.Query()] *)
  r_Query : list (string * string);
  r_Body : bytes;
  (** Reading beyond [r_Body] fails: the client went away, or the size limit. *)
  r_BodyFails : bool;
}.
Definition set_Body (body : bytes) (fails : bool) (r : HttpRequest) : HttpRequest :=
  mkHttpRequest (r_Method r) (r_Path r) (r_RemoteAddr r) (r_Authorization r)
    (r_SessionCookie r) (r_Query r) body fails.

Definition query_Get (name : string) (r : HttpRequest) : string :=
  from_option snd EmptyString (find (λ p, String.eqb (fst p) name) (r_Query r)).

(** [http.MaxBytesReader]: a read beyond the limit fails. *)
Definition MaxBytesReader (n : Z) (r : HttpRequest) : HttpRequest :=
  if n <? Z.of_nat (length (r_Body r)) then set_Body (take (Z.to_nat n) (r_Body r)) true r else r.

(** [http.Cookie], of the session cookie. *)
Record Cookie := mkCookie {
  c_Name : string;
  c_Value : string;
  c_Path : string;
  c_HttpOnly : bool;
  c_SameSiteStrict : bool;
  c_MaxAge : Z;
  c_Secure : bool;
}.
Inductive Body := NoBody | JsonBody (j : Json) | TextBody (lines : list string) | StaticFile.
Record HttpResponse := mkResponse {
  rs_Status : Z;
  rs_Headers : list (string * string);
  rs_Cookies : list Cookie;
  rs_Body : Body;
}.
Definition add_headers (hs : list (string * string)) (r : HttpResponse) : HttpResponse :=
  mkResponse (rs_Status r) (hs ++ rs_Headers r) (rs_Cookies r) (rs_Body r).

Definition StatusOK : Z := 200.
Definition StatusCreated : Z := 201.
Definition StatusNoContent : Z := 204.
Definition StatusBadRequest : Z := 400.
Definition StatusUnauthorized : Z := 401.
Definition StatusNotFound : Z := 404.
Definition StatusConflict : Z := 409.
Definition StatusTooManyRequests : Z := 429.
Definition StatusInternalServerError : Z := 500.

(** ** package strings *)
Definition TrimPrefix (s prefix : string) : string :=
  if String.prefix prefix s
  then String.substring (String.length prefix) (String.length s - String.length prefix) s
  else s.
(** The text before the last colon, or all of it: [s[:strings.LastIndex(s, ":")]]. *)
Fixpoint before_last_colon (s : string) : option string :=
  match s with
  | EmptyString => None
  | String c s =>
      match before_last_colon s with
      | Some t => Some (String c t)
      | None => if Ascii.eqb c ":"%char then Some EmptyString else None
      end
  end.
Definition host_of (addr : string) : string := default addr (before_last_colon addr).

(** [strings.ToLower] and [strings.ToUpper].  Letters beyond ASCII matter only where
    they map to ASCII, since every use compares with an ASCII constant: U+0130 and
    U+212A go down to i and k, U+0131 and U+017F go up to I and S. *)
Definition in_range (lo hi : nat) (c : ascii) : bool :=
  (lo <=? nat_of_ascii c)%nat && (nat_of_ascii c <=? hi)%nat.
Definition ascii_lower (c : ascii) : ascii :=
  if in_range 65 90 c then ascii_of_nat (nat_of_ascii c + 32) else c.
Definition ascii_upper (c : ascii) : ascii :=
  if in_range 97 122 c then ascii_of_nat (nat_of_ascii c - 32) else c.
Fixpoint ToLower (s : string) : string :=
  match s with
  | String "196" (String "176" s) => String "i" (ToLower s)
  | String "226" (String "132" (String "170" s)) => String "k" (ToLower s)
  | String c s => String (ascii_lower c) (ToLower s)
  | EmptyString => EmptyString
  end.
Fixpoint ToUpper (s : string) : string :=
  match s with
  | String "196" (String "177" s) => String "I" (ToUpper s)
  | String "197" (String "191" s) => String "S" (ToUpper s)
  | String c s => String (ascii_upper c) (ToUpper s)
  | EmptyString => EmptyString
  end.
(** The case folding of JSON field names: U+212A folds to k, U+017F to s. *)
Fixpoint fold_name (s : string) : string :=
  match s with
  | String "226" (String "132" (String "170" s)) => String "k" (fold_name s)
  | String "197" (String "191" s) => String "s" (fold_name s)
  | String c s => String (ascii_lower c) (fold_name s)
  | EmptyString => EmptyString
  end.

(** ** strconv: a decimal integer of the given width *)
Fixpoint parse_digits (acc : Z) (s : string) : option Z :=
  match s with
  | EmptyString => Some acc
  | String c s =>
      if in_range 48 57 c
      then parse_digits (10 * acc + Z.of_nat (nat_of_ascii c - 48)) s
      else None
  end.
Definition ParseInt (bits : Z) (s : string) : option Z :=
  let '(sign, digits) :=
    match s with
    | String "-" s => (-1, s)
    | String "+" s => (1, s)
    | _ => (1, s)
    end in
  match digits with
  | EmptyString => None
  | _ => n ← parse_digits 0 digits;
         let z := sign * n in
         if (- 2 ^ (bits - 1) <=? z) && (z <? 2 ^ (bits - 1)) then Some z else None
  end.
Definition Atoi (s : string) : option Z := ParseInt 64 s.

(** ** Decoding into a struct

    The fields of an object are taken in order; a key names the field it equals up to
    case; null leaves a field as it is; a value of the wrong type, or a number that
    does not fit, makes the decoding fail.  A null instead of an object leaves the
    whole struct as it is. *)
Definition struct_field {A} (name : string) (zero : A) (conv : Json → option A) (j : Json) :
    option A :=
  match j with
  | JNull => Some zero
  | JObject fields =>
      foldl (λ acc kv,
        x ← acc;
        if String.eqb (fold_name (fst kv)) (fold_name name)
        then match snd kv with JNull => Some x | v => conv v end
        else Some x) (Some zero) fields
  | _ => None
  end.
Definition string_field (name : string) : Json → option string :=
  struct_field name EmptyString (λ v, match v with JString s => Some s | _ => None end).
Definition int_field (bits : Z) (name : string) : Json → option Z :=
  struct_field name 0 (λ v, match v with JNumber l => ParseInt bits l | _ => None end).

Definition decode_body `{JsonText} {A} (struct : Json → option A) (r : HttpRequest) : option A :=
  match json_Decode (r_Body r) (r_BodyFails r) with
  | Val j => struct j
  | Err _ => None
  end.

Example string_field_folds :
  string_field "api_key" (JObject [("other", JBool true); ("API_Key", JString "x")]) = Some "x".
Proof. reflexivity. Qed.
Example int_field_bits : int_field 32 "length" (JObject [("length", JNumber "2147483648")]) = None.
Proof. reflexivity. Qed.
Example host_of_ipv6 : host_of "[::1]:5000" = "[::1]". Proof. reflexivity. Qed.

(** ** encoding/hex *)
Definition byte_Z (b : Byte.byte) : Z := Z.of_N (Byte.to_N b).
Definition Z_byte (z : Z) : Byte.byte := default Byte.x00 (Byte.of_N (Z.to_N (z mod 256))).

Definition hex_char (d : Z) : ascii :=
  ascii_of_nat (Z.to_nat (if d <? 10 then 48 + d else 87 + d)).
Definition hex_value (c : ascii) : option Z :=
  let n := Z.of_nat (nat_of_ascii c) in
  if in_range 48 57 c then Some (n - 48)
  else if in_range 97 102 c then Some (n - 87)
  else if in_range 65 70 c then Some (n - 55)
  else None.
Fixpoint hex_EncodeToString (bs : bytes) : string :=
  match bs with
  | [] => EmptyString
  | b :: bs => String (hex_char (byte_Z b / 16)) (String (hex_char (byte_Z b mod 16))
                 (hex_EncodeToString bs))
  end.
Fixpoint hex_DecodeString (s : string) : option bytes :=
  match s with
  | EmptyString => Some []
  | String c1 (String c2 s) =>
      h ← hex_value c1; l ← hex_value c2; bs ← hex_DecodeString s;
      Some (Z_byte (16 * h + l) :: bs)
  | _ => None
  end.

(** ** encoding/base64, StdEncoding *)
Definition base64_alphabet : string :=
  "ABCDEFGHIJKLMNOPQRSTUVWXYZabcdefghijklmnopqrstuvwxyz0123456789+/".
Definition base64_char (d : Z) : ascii :=
  default "A"%char (String.get (Z.to_nat d) base64_alphabet).
Definition base64_value (c : ascii) : option Z :=
  let n := Z.of_nat (nat_of_ascii c) in
  if in_range 65 90 c then Some (n - 65)
  else if in_range 97 122 c then Some (n - 71)
  else if in_range 48 57 c then Some (n + 4)
  else if Ascii.eqb c "+" then Some 62
  else if Ascii.eqb c "/" then Some 63
  else None.
Fixpoint base64_EncodeToString (bs : bytes) : string :=
  let digit v k := base64_char (v / k mod 64) in
  match bs with
  | [] => EmptyString
  | [a] =>
      let v := 65536 * byte_Z a in
      String (digit v 262144) (String (digit v 4096) "==")
  | [a; b] =>
      let v := 65536 * byte_Z a + 256 * byte_Z b in
      String (digit v 262144) (String (digit v 4096) (String (digit v 64) "="))
  | a :: b :: c :: bs =>
      let v := 65536 * byte_Z a + 256 * byte_Z b + byte_Z c in
      String (digit v 262144) (String (digit v 4096) (String (digit v 64)
        (String (digit v 1) (base64_EncodeToString bs))))
  end.
(** Line breaks are skipped wherever they are. *)
Fixpoint skip_newlines (s : string) : string :=
  match s with
  | EmptyString => EmptyString
  | String c s =>
      if Ascii.eqb c "010" || Ascii.eqb c "013" then skip_newlines s
      else String c (skip_newlines s)
  end.
Fixpoint base64_quanta (s : string) : option bytes :=
  match s with
  | EmptyString => Some []
  | String c0 (String c1 (String c2 (String c3 s))) =>
      d0 ← base64_value c0;
      d1 ← base64_value c1;
      let v := 262144 * d0 + 4096 * d1 in
      if Ascii.eqb c2 "=" then
        if Ascii.eqb c3 "=" && String.eqb s EmptyString
        then Some [Z_byte (v / 65536)] else None
      else
        d2 ← base64_value c2;
        let v := v + 64 * d2 in
        if Ascii.eqb c3 "=" then
          if String.eqb s EmptyString
          then Some [Z_byte (v / 65536); Z_byte (v / 256)] else None
        else
          d3 ← base64_value c3;
          let v := v + d3 in
          bs ← base64_quanta s;
          Some (Z_byte (v / 65536) :: Z_byte (v / 256) :: Z_byte v :: bs)
  | _ => None
  end.
Definition base64_DecodeString (s : string) : option bytes := base64_quanta (skip_newlines s).

Example base64_ex : base64_EncodeToString (String.list_byte_of_string "light work") = "bGlnaHQgd29yaw==".
Proof. reflexivity. Qed.
Example base64_ex2 : base64_DecodeString "bGlnaHQgd29yaw==" = Some (String.list_byte_of_string "light work").
Proof. reflexivity. Qed.
(** ** Round trips *)
Lemma byte_Z_range b : 0 ≤ byte_Z b < 256.
Proof. unfold byte_Z. pose proof (Byte.to_N_bounded b). lia. Qed.
Lemma Z_byte_mod z b : z mod 256 = byte_Z b → Z_byte z = b.
Proof. unfold Z_byte. intros ->. unfold byte_Z. by rewrite N2Z.id, Byte.of_to_N. Qed.

Lemma digit_cases n (P : Z → Prop) :
  (forall k, (k < n)%nat → P (Z.of_nat k)) → ∀ d, 0 ≤ d < Z.of_nat n → P d.
Proof. intros HP d Hd. rewrite <-(Z2Nat.id d) by lia. apply HP. lia. Qed.

Lemma hex_value_char d : 0 ≤ d < 16 → hex_value (hex_char d) = Some d.
Proof.
  revert d. apply (digit_cases 16). intros k Hk. do 16 (destruct k as [|k]; [done|]). lia.
Qed.
Lemma base64_value_char d : 0 ≤ d < 64 → base64_value (base64_char d) = Some d.
Proof.
  revert d. apply (digit_cases 64). intros k Hk. do 64 (destruct k as [|k]; [done|]). lia.
Qed.
Lemma base64_char_plain d : 0 ≤ d < 64 →
  Ascii.eqb (base64_char d) "=" = false ∧
  (Ascii.eqb (base64_char d) "010" || Ascii.eqb (base64_char d) "013") = false.
Proof.
  revert d. apply (digit_cases 64). intros k Hk. do 64 (destruct k as [|k]; [done|]). lia.
Qed.

Lemma hex_roundtrip bs : hex_DecodeString (hex_EncodeToString bs) = Some bs.
Proof.
  induction bs as [|b bs IH]; [done|]. cbn [hex_EncodeToString hex_DecodeString].
  pose proof (byte_Z_range b). rewrite !hex_value_char by (split; [|Z.to_euclidean_division_equations; lia]; Z.to_euclidean_division_equations; lia).
  cbn. rewrite IH. cbn. do 2 f_equal. apply Z_byte_mod.
  Z.to_euclidean_division_equations; lia.
Qed.

Lemma mod64_range z : 0 ≤ z mod 64 < 64.
Proof. by apply Z.mod_pos_bound. Qed.

Lemma skip_newlines_base64 bs :
  skip_newlines (base64_EncodeToString bs) = base64_EncodeToString bs.
Proof.
  assert (∀ n bs, (length bs <= n)%nat →
    skip_newlines (base64_EncodeToString bs) = base64_EncodeToString bs) as Hn; [|eauto].
  clear bs. induction n as [|n IH]; intros [|a [|b [|c bs]]] Hl; cbn in Hl; try lia;
    cbn [base64_EncodeToString skip_newlines];
    rewrite ?(proj2 (base64_char_plain _ (mod64_range _))); [done..|].
  by rewrite IH by lia.
Qed.

Lemma base64_roundtrip bs : base64_DecodeString (base64_EncodeToString bs) = Some bs.
Proof.
  unfold base64_DecodeString. rewrite skip_newlines_base64.
  assert (∀ n bs, (length bs <= n)%nat → base64_quanta (base64_EncodeToString bs) = Some bs)
    as Hn; [|eauto].
  clear bs. induction n as [|n IH]; intros [|a [|b [|c bs]]] Hl; cbn in Hl; try lia; try done;
    pose proof (byte_Z_range a); try pose proof (byte_Z_range b); try pose proof (byte_Z_range c);
    cbn [base64_EncodeToString base64_quanta];
    rewrite !base64_value_char by apply mod64_range; cbn [mbind option_bind];
    rewrite ?(proj1 (base64_char_plain _ (mod64_range _))); cbn -[Z.div Z.modulo Z.mul Z_byte base64_quanta base64_EncodeToString];
    rewrite ?IH by lia; cbn -[Z.div Z.modulo Z.mul Z_byte]; repeat f_equal; apply Z_byte_mod;
    Z.to_euclidean_division_equations; lia.
Qed.
