(* ===== verification/Testbed.v ===== *)
(** * Concrete instances of everything outside the repository

    A deterministic world (a clock, a UUID counter), a database driver that never
    fails, a transparent "cipher", and a complete item codec.  They show that the laws
    of the parameters can hold together, and the theorems' witnesses run on them. *)

From Stdlib Require Import ZArith Lia Ascii Sorting.Sorted.
From Stdlib.Strings Require Import Byte.
From S2P Require Import Prelude GoRuntime Storage SQLiteStore KmipLib CryptoLib.
From S2P Require Import Http.
Local Open Scope Z_scope.

(** ** The world *)
Record TestWorld := mkTestWorld { t_clock : Z; t_uuids : nat }.
Definition test_world : TestWorld := mkTestWorld 0 0.
Definition test_uuid (n : nat) : string := "uuid-" +:+ pretty n.

#[global] Instance test_runtime : Runtime TestWorld := {
  time_Now w := (t_clock w, mkTestWorld (t_clock w + 1) (t_uuids w));
  rand_Read n w := (Val (replicate n Byte.x2a), w);
  uuid_New w := (test_uuid (t_uuids w), mkTestWorld (t_clock w) (S (t_uuids w)));
  map_range A l w := (l, w);
}.

#[global] Instance test_uuid_inj : Inj eq eq test_uuid.
Proof. intros n m Heq. injection Heq. intros Hp. by apply (inj pretty). Qed.

#[global] Program Instance test_runtime_laws : RuntimeLaws TestWorld := {
  uuids_issued w := list_to_set (test_uuid <$> seq 0 (t_uuids w));
}.
Next Obligation. done. Qed.
Next Obligation. done. Qed.
Next Obligation. done. Qed.
Next Obligation.
  intros w. cbn [uuid_New test_runtime fst snd t_uuids]. rewrite seq_S, fmap_app, list_to_set_app_L.
  cbn. rewrite union_empty_r_L, union_comm_L. done.
Qed.
Next Obligation. intros n w. exists (replicate n Byte.x2a). by rewrite length_replicate. Qed.
Next Obligation.
  intros w. cbn [uuid_New test_runtime fst]. rewrite elem_of_list_to_set, list_elem_of_fmap.
  intros (i & Hi & Hin). apply (inj test_uuid) in Hi as <-. apply elem_of_seq in Hin. lia.
Qed.
Next Obligation. done. Qed.

#[global] Program Instance test_clock_laws : ClockLaws TestWorld := { clock := t_clock }.
Next Obligation. intros w. cbn. lia. Qed.
Next Obligation. intros n w. cbn. lia. Qed.

(** ** The database driver *)
Section insertion_sort.
Context {A : Type} (before : A → A → bool).
Fixpoint insert_before (x : A) (l : list A) : list A :=
  match l with
  | [] => [x]
  | y :: l' => if before x y then x :: l else y :: insert_before x l'
  end.
Definition sort_by (l : list A) : list A := foldr insert_before [] l.

Lemma insert_before_perm x l : insert_before x l ≡ₚ x :: l.
Proof.
  induction l as [|y l IH]; [done|]; cbn. destruct (before x y); [done|].
  rewrite IH. constructor.
Qed.
Lemma sort_by_perm l : sort_by l ≡ₚ l.
Proof. induction l as [|x l IH]; [done|]; cbn. by rewrite insert_before_perm, IH. Qed.

Lemma insert_before_sorted x l : total_order before →
  StronglySorted (λ x y, before x y = true) l →
  StronglySorted (λ x y, before x y = true) (insert_before x l).
Proof.
  intros [Htot Htrans]. induction 1 as [|y l Hs IH Hy]; cbn; [by repeat constructor|].
  destruct (before x y) eqn:Hxy.
  - constructor; [by constructor|]. constructor; [done|].
    eapply Forall_impl; [exact Hy|]. cbn. eauto.
  - constructor; [done|]. rewrite insert_before_perm. constructor; [|done].
    destruct (Htot x y); congruence.
Qed.
Lemma sort_by_sorted l : total_order before →
  StronglySorted (λ x y, before x y = true) (sort_by l).
Proof. intros ?. induction l; cbn; [constructor|by apply insert_before_sorted]. Qed.
End insertion_sort.

#[global] Instance test_driver : SqlDriver TestWorld := {
  sql_exec_err w := (None, w);
  sql_query A before l w := (Val (sort_by before l), w);
}.
#[global] Program Instance test_driver_laws : SqlLaws TestWorld := { sql_faulty := False }.
Next Obligation. done. Qed.
Next Obligation. done. Qed.
Next Obligation. done. Qed.
Next Obligation. done. Qed.
Next Obligation.
  intros A before l w l' [= <-]. split; [|left; apply sort_by_perm].
  intros x. by rewrite sort_by_perm.
Qed.
Next Obligation. intros A before l w l' ? [= <-]. by apply sort_by_sorted. Qed.

#[global] Instance test_hkdf : Hkdf := λ secret salt info n,
  Val (take n (secret ++ salt ++ info ++ replicate n Byte.x00)).
#[global] Instance test_hkdf_laws : HkdfLaws.
Proof.
  intros secret salt info n _. eexists. split; [done|].
  rewrite length_take, !length_app, length_replicate. lia.
Qed.

(** ** Integers as bytes: a sign, the bits, a terminator *)
Fixpoint pos_bytes (p : positive) : bytes :=
  match p with
  | xH => [Byte.x02]
  | xO p => Byte.x00 :: pos_bytes p
  | xI p => Byte.x01 :: pos_bytes p
  end.
Fixpoint parse_pos (bs : bytes) : option (positive * bytes) :=
  match bs with
  | Byte.x02 :: rest => Some (xH, rest)
  | Byte.x00 :: bs => '(p, rest) ← parse_pos bs; Some (xO p, rest)
  | Byte.x01 :: bs => '(p, rest) ← parse_pos bs; Some (xI p, rest)
  | _ => None
  end.
Definition z_bytes (z : Z) : bytes :=
  match z with
  | Z0 => [Byte.x00]
  | Zpos p => Byte.x01 :: pos_bytes p
  | Zneg p => Byte.x02 :: pos_bytes p
  end.
Definition parse_z (bs : bytes) : option (Z * bytes) :=
  match bs with
  | Byte.x00 :: rest => Some (0, rest)
  | Byte.x01 :: bs => '(p, rest) ← parse_pos bs; Some (Zpos p, rest)
  | Byte.x02 :: bs => '(p, rest) ← parse_pos bs; Some (Zneg p, rest)
  | _ => None
  end.
Lemma parse_pos_bytes p rest : parse_pos (pos_bytes p ++ rest) = Some (p, rest).
Proof. induction p as [p IH|p IH|]; cbn; rewrite ?IH; done. Qed.
Lemma parse_z_bytes z rest : parse_z (z_bytes z ++ rest) = Some (z, rest).
Proof. destruct z; cbn; rewrite ?parse_pos_bytes; done. Qed.

#[global] Instance test_time_text : TimeText := {
  FormatRFC3339Nano t := String.string_of_list_byte (z_bytes t);
  ParseRFC3339Nano s := from_option fst 0 (parse_z (String.list_byte_of_string s));
}.
#[global] Instance test_time_text_laws : TimeTextLaws.
Proof.
  intros t. cbn [ParseRFC3339Nano FormatRFC3339Nano test_time_text]. rewrite String.list_byte_of_string_of_list_byte.
  rewrite <-(app_nil_r (z_bytes t)), parse_z_bytes. done.
Qed.

(** ** Items *)
Inductive TestItem :=
| TInt (t v : Z)
| TText (t : Z) (s : string)
| TBytes (t : Z) (bs : bytes)
| TStruct (t : Z) (children : list TestItem).

Definition item_tag (i : TestItem) : Z :=
  match i with TInt t _ | TText t _ | TBytes t _ | TStruct t _ => t end.
Definition children_of (i : TestItem) : list TestItem :=
  match i with TStruct _ cs => cs | _ => [] end.

(** A child is escaped: every byte is announced by 01, the end by 00. *)
Fixpoint escape (bs : bytes) : bytes :=
  match bs with [] => [Byte.x00] | b :: bs => Byte.x01 :: b :: escape bs end.
Fixpoint unescape (cur : bytes) (bs : bytes) : option (list bytes) :=
  match bs with
  | [] => match cur with [] => Some [] | _ => None end
  | Byte.x00 :: bs => es ← unescape [] bs; Some (rev cur :: es)
  | Byte.x01 :: b :: bs => unescape (b :: cur) bs
  | _ => None
  end.

Definition enc_struct (t : Z) (es : list bytes) : bytes :=
  Byte.x03 :: z_bytes t ++ concat (map escape es).

Fixpoint dec_item (fuel : nat) (bs : bytes) : option TestItem :=
  match fuel, bs with
  | S fuel, kind :: bs =>
      '(t, rest) ← parse_z bs;
      match kind with
      | Byte.x00 => '(v, rest) ← parse_z rest; if rest is [] then Some (TInt t v) else None
      | Byte.x01 => Some (TText t (String.string_of_list_byte rest))
      | Byte.x02 => Some (TBytes t rest)
      | Byte.x03 => es ← unescape [] rest; cs ← mapM (dec_item fuel) es; Some (TStruct t cs)
      | _ => None
      end
  | _, _ => None
  end.

Lemma unescape_escape e cur rest :
  unescape cur (escape e ++ rest) = es ← unescape [] rest; Some ((rev cur ++ e) :: es).
Proof.
  revert cur. induction e as [|b e IH]; intros cur; cbn.
  - by rewrite app_nil_r.
  - rewrite IH. cbn. by rewrite <-app_assoc.
Qed.
Lemma unescape_concat es : unescape [] (concat (map escape es)) = Some es.
Proof. induction es as [|e es IH]; [done|]. cbn. rewrite unescape_escape, IH. done. Qed.
Lemma escape_length e : (length e < length (escape e))%nat.
Proof. induction e; cbn; lia. Qed.
Lemma in_struct_length t e es : e ∈ es → (length e < length (enc_struct t es))%nat.
Proof.
  intros He. unfold enc_struct. cbn. rewrite length_app.
  enough (length e < length (concat (map escape es)))%nat by lia.
  induction es as [|x es IH]; [by apply not_elem_of_nil in He|]. cbn. rewrite length_app.
  pose proof (escape_length x). apply elem_of_cons in He as [->|He]; [lia|]. specialize (IH He). lia.
Qed.

Lemma mapM_mono {A B} (f g : A → option B) l ys :
  (∀ x y, f x = Some y → g x = Some y) → mapM f l = Some ys → mapM g l = Some ys.
Proof.
  rewrite !mapM_Some. intros Hfg Hl. eapply Forall2_impl; [exact Hl|]. cbn. auto.
Qed.
Lemma dec_item_mono n m bs i : dec_item n bs = Some i → (n ≤ m)%nat → dec_item m bs = Some i.
Proof.
  revert m bs i. induction n as [|n IH]; intros m bs i; [done|].
  destruct m as [|m]; [lia|]. intros Hd Hm. destruct bs as [|kind bs]; [done|]. cbn in *.
  destruct (parse_z bs) as [[t rest]|]; [|done]. cbn in *.
  destruct kind; try done. destruct (unescape [] rest) as [es|]; [|done]. cbn in *.
  destruct (mapM (dec_item n) es) as [cs|] eqn:Hcs; [|done].
  rewrite (mapM_mono (dec_item n) (dec_item m) es cs); [exact Hd| |exact Hcs].
  intros x y Hx. eapply IH; [exact Hx|lia].
Qed.
Lemma dec_struct t es cs :
  Forall2 (λ e c, dec_item (length e) e = Some c) es cs →
  dec_item (length (enc_struct t es)) (enc_struct t es) = Some (TStruct t cs).
Proof.
  intros Hes. assert (∀ e, e ∈ es → (length e < length (enc_struct t es))%nat) as Hlen
    by (intros; by apply in_struct_length).
  assert (∃ n, length (enc_struct t es) = S n) as [n Hn] by (by eexists). rewrite Hn in *. clear Hn.
  unfold enc_struct. cbn [dec_item]. rewrite parse_z_bytes. cbn. rewrite unescape_concat. cbn.
  rewrite (proj2 (mapM_Some _ _ cs)); [done|].
  induction Hes as [|e c es cs Hc _ IH]; constructor.
  - eapply dec_item_mono; [exact Hc|]. specialize (Hlen e (list_elem_of_here _ _)). lia.
  - apply IH. intros e' He'. apply Hlen. by right.
Qed.

#[global] Instance test_kmip : KmipLib := {
  Item := TestItem;
  DecodeTTLV bs _ :=
    match dec_item (length bs) bs with Some i => Val i | None => Err "unexpected end of message" end;
  Tag := item_tag;
  FindChild i t := head (filter (λ c, item_tag c = t) (children_of i));
  FindChildren i t := filter (λ c, item_tag c = t) (children_of i);
  IntValue i := match i with TInt _ v => int32 v | _ => 0 end;
  StringValue i := match i with TText _ s => s | _ => EmptyString end;
  BytesValue i := match i with TBytes _ bs => Some bs | _ => None end;
  EncodeEnum t v := Byte.x00 :: z_bytes t ++ z_bytes v;
  EncodeInteger t v := Byte.x00 :: z_bytes t ++ z_bytes v;
  EncodeDateTime t v := Byte.x00 :: z_bytes t ++ z_bytes v;
  EncodeTextString t s := Byte.x01 :: z_bytes t ++ String.list_byte_of_string s;
  EncodeByteString t bs := Byte.x02 :: z_bytes t ++ bs;
  EncodeStructure := enc_struct;
  OperationCreate := 1; OperationGet := 10; OperationLocate := 8; OperationDestroy := 20;
  OperationActivate := 18; OperationCheck := 9;
  TagRequestMessage := 0x420078; TagRequestHeader := 0x420077;
  TagResponseMessage := 0x42007B; TagResponseHeader := 0x42007A;
  TagProtocolVersion := 0x420069; TagProtocolVersionMajor := 0x42006A;
  TagProtocolVersionMinor := 0x42006B; TagBatchCount := 0x42000D; TagBatchItem := 0x42000F;
  TagOperation := 0x42005C; TagRequestPayload := 0x420079; TagResponsePayload := 0x42007C;
  TagUniqueIdentifier := 0x420094; TagResultStatus := 0x42007F; TagResultReason := 0x42007E;
  TagResultMessage := 0x42007D; TagTemplateAttribute := 0x420091; TagAttribute := 0x420008;
  TagAttributeName := 0x42000A; TagAttributeValue := 0x42000B; TagNameValue := 0x420055;
  TagNameType := 0x420054; TagObjectType := 0x420057; TagSymmetricKey := 0x42008F;
  TagKeyBlock := 0x420040; TagKeyFormatType := 0x420042; TagKeyValue := 0x420045;
  TagKeyMaterial := 0x420043; TagCryptographicAlgorithm := 0x420028;
  TagCryptographicLength := 0x42002A; TagDerivationParameters := 0x420032;
  TagDerivationData := 0x420030; TagLeaseTime := 0x420049;
  AlgorithmAES := 3; AlgorithmRSA := 4; AlgorithmECDSA := 6;
  UsageMaskSign := 1; UsageMaskVerify := 2; UsageMaskEncrypt := 4; UsageMaskDecrypt := 8;
  ObjectTypeCertificate := 1; ObjectTypeSymmetricKey := 2; ObjectTypePublicKey := 3;
  ObjectTypePrivateKey := 4;
  KeyFormatRaw := 1; KeyFormatX509 := 5; KeyFormatPKCS8 := 4;
  NameTypeUninterpretedTextString := 1;
  ResultStatusSuccess := 0; ResultStatusOperationFailed := 1;
}.

Lemma dec_int t v : dec_item (length (Byte.x00 :: z_bytes t ++ z_bytes v))
  (Byte.x00 :: z_bytes t ++ z_bytes v) = Some (TInt t v).
Proof.
  cbn [length dec_item]. rewrite parse_z_bytes. cbn.
  rewrite <-(app_nil_r (z_bytes v)), parse_z_bytes. done.
Qed.
Lemma dec_text t s : dec_item (length (Byte.x01 :: z_bytes t ++ String.list_byte_of_string s))
  (Byte.x01 :: z_bytes t ++ String.list_byte_of_string s) = Some (TText t s).
Proof.
  cbn [length dec_item]. rewrite parse_z_bytes. cbn [mbind option_bind].
  by rewrite String.string_of_list_byte_of_string.
Qed.
Lemma dec_bytes t bs : dec_item (length (Byte.x02 :: z_bytes t ++ bs))
  (Byte.x02 :: z_bytes t ++ bs) = Some (TBytes t bs).
Proof. cbn [length dec_item]. by rewrite parse_z_bytes. Qed.

Lemma int32_range z : in_int32 (int32 z).
Proof.
  unfold in_int32, int32, wrap. change (32 - 1) with 31.
  pose proof (Z.mod_pos_bound (z + 2 ^ 31) (2 ^ 32)). lia.
Qed.

#[global] Instance test_kmip_laws : KmipLaws.
Proof.
  split; unfold decodes.
  - done.
  - done.
  - done.
  - split; [|by apply (bool_decide_unpack _); vm_compute]. repeat constructor; done.
  - intros [t v|t s|t bs|t cs]; cbn [IntValue test_kmip]; [apply int32_range|done..].
  - intros t v _ Hv. exists (TInt t v). cbn [DecodeTTLV EncodeEnum test_kmip]. rewrite dec_int.
    split_and!; [done..|]. by apply int32_id.
  - intros t v _ Hv. exists (TInt t v). cbn [DecodeTTLV EncodeInteger test_kmip]. rewrite dec_int.
    split_and!; [done..|]. by apply int32_id.
  - intros t s _ _. exists (TText t s). cbn [DecodeTTLV EncodeTextString test_kmip].
    by rewrite dec_text.
  - intros t bs _ _. exists (TBytes t bs). cbn [DecodeTTLV EncodeByteString test_kmip].
    by rewrite dec_bytes.
  - intros t es cs _ _ Hes. exists (TStruct t cs). cbn [DecodeTTLV EncodeStructure test_kmip].
    rewrite (dec_struct t es cs); [done|]. eapply Forall2_impl; [exact Hes|].
    intros e c. cbn [DecodeTTLV test_kmip]. destruct (dec_item _ e); congruence.
  - intros t es e He. unfold fits. cbn [EncodeStructure test_kmip].
    pose proof (in_struct_length t e es He). lia.
Qed.

(** ** Cryptography *)
#[global] Instance byte_eq_dec : EqDecision Byte.byte := Byte.byte_eq_dec.
Definition strip_prefix (pre l : bytes) : option bytes :=
  if decide (take (length pre) l = pre) then Some (drop (length pre) l) else None.

(** Keys are numbers, a key's encoding is the number after a kind byte; a private and
    its public key are the same number; a signature is the key and the hash. *)
Definition test_marshal (k : ParsedKey Z Z) : result bytes :=
  match k with
  | RSAKey k => Val (Byte.x00 :: z_bytes k)
  | ECDSAKey k => Val (Byte.x01 :: z_bytes k)
  | OtherKey => Val [Byte.x02]
  end.
Definition test_parse (bs : bytes) : result (ParsedKey Z Z) :=
  match bs with
  | Byte.x00 :: bs => match parse_z bs with Some (k, []) => Val (RSAKey k) | _ => Err "asn1" end
  | Byte.x01 :: bs => match parse_z bs with Some (k, []) => Val (ECDSAKey k) | _ => Err "asn1" end
  | [Byte.x02] => Val OtherKey
  | _ => Err "asn1"
  end.
Definition test_sign (k : Z) (hash : bytes) : bytes := z_bytes k ++ hash.

#[global] Instance test_crypto : CryptoLib TestWorld := {
  gcm_seal key nonce pt := key ++ nonce ++ pt;
  gcm_open key nonce ct := strip_prefix (key ++ nonce) ct;
  sha256_Sum256 bs := bs;
  hmac_sha256 key bs := key ++ bs;
  RsaPriv := Z; RsaPub := Z; EcPriv := Z; EcPub := Z;
  rsa_GenerateKey n w :=
    (if n <? 1024 then Err "crypto/rsa: key too small" else Val (t_clock w),
     mkTestWorld (t_clock w + 1) (t_uuids w));
  rsa_Public k := k;
  ecdsa_GenerateKey _ w := (Val (t_clock w), mkTestWorld (t_clock w + 1) (t_uuids w));
  ecdsa_Public k := k;
  MarshalPKCS8PrivateKey := test_marshal;
  ParsePKCS8PrivateKey := test_parse;
  MarshalPKIXPublicKey := test_marshal;
  ParsePKIXPublicKey := test_parse;
  rsa_SignPKCS1v15 k hash w := (Val (test_sign k hash), w);
  rsa_VerifyPKCS1v15 k hash sig :=
    if decide (sig = test_sign k hash) then Val tt else Err "crypto/rsa: verification error";
  ecdsa_SignASN1 k hash w := (Val (test_sign k hash), w);
  ecdsa_VerifyASN1 k hash sig := bool_decide (sig = test_sign k hash);
}.

Lemma test_parse_marshal k der : test_marshal k = Val der → test_parse der = Val k.
Proof.
  destruct k as [k|k|]; intros [= <-]; [| |done]; cbn [test_parse];
    by rewrite <-(app_nil_r (z_bytes k)), parse_z_bytes.
Qed.

#[global] Instance test_crypto_laws : CryptoLaws TestWorld.
Proof.
  split; try done.
  - intros key nonce pt. cbn. unfold strip_prefix. rewrite app_assoc.
    rewrite take_app_length, drop_app_length. by rewrite decide_True.
  - intros n w. by unfold later.
  - intros c w. by unfold later.
  - intros k der. apply (test_parse_marshal k der).
  - intros k der. apply (test_parse_marshal k der).
  - intros k h w sig. cbn. intros Heq. apply decide_True. congruence.
  - intros k h w sig. cbn. intros Heq. apply bool_decide_eq_true. congruence.
Qed.

(** ** JSON: objects of unescaped strings and numbers, without blanks *)
Fixpoint json_chars (stop : ascii → bool) (s : string) : string * string :=
  match s with
  | EmptyString => (EmptyString, EmptyString)
  | String c s' =>
      if stop c then (EmptyString, s)
      else let '(a, b) := json_chars stop s' in (String c a, b)
  end.
Definition json_value (s : string) : option (Json * string) :=
  match s with
  | String "034"%char s =>
      match json_chars (Ascii.eqb "034"%char) s with
      | (v, String _ s) => Some (JString v, s)
      | _ => None
      end
  | _ => let '(v, s) := json_chars (λ c, Ascii.eqb "," c || Ascii.eqb "}" c)%char s in
         Some (JNumber v, s)
  end.
Fixpoint json_fields (fuel : nat) (s : string) : option (list (string * Json)) :=
  match fuel, json_value s with
  | S fuel, Some (JString k, String ":" s) =>
      '(v, s) ← json_value s;
      match s with
      | String "}" _ => Some [(k, v)]
      | String "," s => fs ← json_fields fuel s; Some ((k, v) :: fs)
      | _ => None
      end
  | _, _ => None
  end.
#[global] Instance test_json : JsonText := λ body _,
  match String.string_of_list_byte body with
  | String "{" "}" => Val (JObject [])
  | String "{" s =>
      match json_fields (String.length s) s with
      | Some fs => Val (JObject fs)
      | None => Err "invalid character"
      end
  | _ => Err "invalid character"
  end.
Definition json_quote (s : string) : string := String "034" (s +:+ String "034" EmptyString).
Definition test_json_body (fields : list (string * string)) : bytes :=
  String.list_byte_of_string ("{" +:+ String.concat ","
    (map (λ p, json_quote (fst p) +:+ ":" +:+ json_quote (snd p)) fields) +:+ "}").
Example test_json_decodes :
  json_Decode (test_json_body [("a", "x"); ("b", "y")]) false =
  Val (JObject [("a", JString "x"); ("b", JString "y")]).
Proof. reflexivity. Qed.

(** ** Building request messages *)
Definition test_encode (i : TestItem) : bytes :=
  (fix enc (i : TestItem) : bytes :=
     match i with
     | TInt t v => EncodeEnum t v
     | TText t s => EncodeTextString t s
     | TBytes t bs => EncodeByteString t bs
     | TStruct t cs => EncodeStructure t (map enc cs)
     end) i.
Definition test_uid_item (uid : string) : TestItem := TText TagUniqueIdentifier uid.
Definition test_payload (cs : list TestItem) : TestItem := TStruct TagRequestPayload cs.
Definition test_batch_item (op : Z) (cs : list TestItem) : TestItem :=
  TStruct TagBatchItem [TInt TagOperation op; test_payload cs].
Definition test_message (major minor : Z) (items : list TestItem) : TestItem :=
  TStruct TagRequestMessage
    (TStruct TagRequestHeader
       [TStruct TagProtocolVersion
          [TInt TagProtocolVersionMajor major; TInt TagProtocolVersionMinor minor]] :: items).
Definition test_request (items : list TestItem) : bytes := test_encode (test_message 1 4 items).

Example test_request_decodes :
  DecodeTTLV (test_request [test_batch_item 10 [test_uid_item "uuid-0"]]) 0 =
  Val (test_message 1 4 [test_batch_item 10 [test_uid_item "uuid-0"]]).
Proof. vm_compute. reflexivity. Qed.
