(* ===== verification/DashAuth.v ===== *)
(** * Dashboard authentication (src/internal/dashauth/dashauth.go)

    Sessions, the login rate limit, the authentication wrapper of the API endpoints
    and the three /auth endpoints.  [sync.Map] and the mutex make every access to the
    two maps atomic; one HTTP request runs at a time.  Tokens are compared whole:
    [subtle.ConstantTimeCompare] is equality. *)

From Stdlib Require Import ZArith Lia.
From S2P Require Import Prelude GoRuntime Http.
Local Open Scope Z_scope.
Local Open Scope go_scope.

Definition cookieName : string := "cyphera_session".
Definition sessionDuration : Z := 8 * Hour.
Definition maxLoginPerMin : nat := 5.
Definition tokenBytes : Z := 32.

Record Session := mkSession {
  s_Token : string;
  s_CreatedAt : Time;
  s_ExpiresAt : Time;
  s_RemoteIP : string;
}.

Record DashAuth := mkDashAuth {
  d_apiKey : string;
  d_devMode : bool;
  d_tls : bool;
  sessions : gmap string Session;
  (** The times of the failed logins of an address. *)
  loginAttempts : gmap string (list Time);
}.
Definition set_sessions (s : gmap string Session) (d : DashAuth) : DashAuth :=
  mkDashAuth (d_apiKey d) (d_devMode d) (d_tls d) s (loginAttempts d).
Definition set_loginAttempts (l : gmap string (list Time)) (d : DashAuth) : DashAuth :=
  mkDashAuth (d_apiKey d) (d_devMode d) (d_tls d) (sessions d) l.

Definition New (apiKey : string) (tls : bool) : DashAuth := mkDashAuth apiKey false tls ∅ ∅.
Definition NewDevMode : DashAuth := mkDashAuth EmptyString true false ∅ ∅.

Definition IsDevMode (d : DashAuth) : bool := d_devMode d || String.eqb (d_apiKey d) EmptyString.

(** [extractIP] *)
Definition extractIP (r : HttpRequest) : string := host_of (r_RemoteAddr r).

Definition json_response (status : Z) (fields : list (string * Json)) : HttpResponse :=
  mkResponse status [("Content-Type", "application/json")] [] (JsonBody (JObject fields)).
Definition unauthorized : HttpResponse :=
  json_response StatusUnauthorized [("error", JString "unauthorized")].

(** The attempts less than a minute old. *)
Definition recent_attempts (now : Time) (attempts : list Time) : list Time :=
  filter (λ t, now - Minute < t) attempts.

Section operations.
Context {W : Type} `{Runtime W} `{JsonText}.

Definition createSession (ip : string) : M W DashAuth string :=
  tokenBuf ← go_make tokenBytes;
  r ← world (rand_Read (length tokenBuf));
  val tokenBuf := r else err => go_panic ("crypto/rand.Read failed: " +:+ err);;
  let token := hex_EncodeToString tokenBuf in
  now ← world time_Now;
  d ← get_state;
  put_state (set_sessions
    (<[token := mkSession token now (now + sessionDuration) ip]> (sessions d)) d);;
  mret token.

Definition validSession (token : string) : M W DashAuth bool :=
  d ← get_state;
  some sess := sessions d !! token else mret false;;
  now ← world time_Now;
  if s_ExpiresAt sess <? now
  then put_state (set_sessions (delete token (sessions d)) d);; mret false
  else mret true.

(** One tick of [cleanupLoop]. *)
Definition cleanup : M W DashAuth unit :=
  now ← world time_Now;
  d ← get_state;
  let d := set_sessions (filter (λ p, ¬ s_ExpiresAt (snd p) < now) (sessions d)) d in
  put_state (set_loginAttempts
    (omap (λ attempts, match recent_attempts now attempts with [] => None | l => Some l end)
       (loginAttempts d)) d).

Definition allowLogin (ip : string) : M W DashAuth bool :=
  now ← world time_Now;
  d ← get_state;
  let recent := recent_attempts now (default [] (loginAttempts d !! ip)) in
  put_state (set_loginAttempts (<[ip := recent]> (loginAttempts d)) d);;
  mret (length recent <? maxLoginPerMin)%nat.

Definition recordFailedLogin (ip : string) : M W DashAuth unit :=
  d ← get_state;
  now ← world time_Now;
  put_state (set_loginAttempts
    (<[ip := default [] (loginAttempts d !! ip) ++ [now]]> (loginAttempts d)) d).

(** The decision of [RequireAPIAuth]. *)
Definition bearer_token (r : HttpRequest) : option string :=
  let auth := r_Authorization r in
  if String.eqb auth EmptyString then None
  else
    let token := TrimPrefix auth "Bearer " in
    if String.eqb token auth then None else Some token.
Definition authorized (r : HttpRequest) : M W DashAuth bool :=
  d ← get_state;
  if IsDevMode d then mret true
  else if bool_decide (bearer_token r = Some (d_apiKey d)) then mret true
  else
    some cookie := r_SessionCookie r else mret false;;
    validSession cookie.

(** [RequireAPIAuth(next)], for a [next] whose state [T] has the authenticator as a
    part. *)
Definition RequireAPIAuth {T} (get : T → DashAuth) (put : DashAuth → T → T)
    (next : HttpRequest → M W T HttpResponse) (r : HttpRequest) : M W T HttpResponse :=
  ok ← zoom get put (authorized r);
  if ok : bool then next r else mret unauthorized.

Definition session_cookie (token : string) (secure : bool) : Cookie :=
  mkCookie cookieName token "/" true true (sessionDuration / Second) secure.

Definition login_refused (status : Z) (headers : list (string * string)) (error : string) :
    HttpResponse :=
  add_headers headers (json_response status [("error", JString error)]).
Definition login_accepted (token : string) (secure : bool) : HttpResponse :=
  mkResponse StatusOK [("Content-Type", "application/json")] [session_cookie token secure]
    (JsonBody (JObject [("ok", JBool true)])).

Definition handleLogin (r : HttpRequest) : M W DashAuth HttpResponse :=
  d ← get_state;
  if IsDevMode d
  then mret (json_response StatusOK [("ok", JBool true); ("dev_mode", JBool true)])
  else
    let ip := extractIP r in
    allowed ← allowLogin ip;
    require allowed : bool
    else mret (login_refused StatusTooManyRequests [("Retry-After", "60")] "too many login attempts");;
    some key := decode_body (string_field "api_key") r
    else mret (login_refused StatusBadRequest [] "invalid request");;
    if negb (String.eqb key (d_apiKey d)) then
      recordFailedLogin ip;;
      mret (login_refused StatusUnauthorized [] "invalid API key")
    else
      token ← createSession ip;
      mret (login_accepted token (d_tls d)).

Definition handleLogout (r : HttpRequest) : M W DashAuth HttpResponse :=
  d ← get_state;
  put_state (match r_SessionCookie r with
    | Some cookie => set_sessions (delete cookie (sessions d)) d
    | None => d
    end);;
  mret (mkResponse StatusOK [("Content-Type", "application/json")]
    [mkCookie cookieName EmptyString "/" true false (-1) false]
    (JsonBody (JObject [("ok", JString "logged out")]))).

Definition auth_status (authenticated dev_mode : bool) : HttpResponse :=
  json_response StatusOK [("authenticated", JBool authenticated); ("dev_mode", JBool dev_mode)].
Definition dash_handleStatus (r : HttpRequest) : M W DashAuth HttpResponse :=
  d ← get_state;
  if IsDevMode d then mret (auth_status true true)
  else
    authenticated ←
      match r_SessionCookie r with
      | Some cookie => validSession cookie
      | None => mret false
      end;
    mret (auth_status authenticated false).
End operations.
