(* ===== verification/Connections.v ===== *)
(** * Active connections (src/internal/kmip/connections.go)

    The tracker keeps one [ConnectionInfo] per connection identifier; [List] hands out
    copies. *)

From Stdlib Require Import ZArith Lia.
From S2P Require Import Prelude GoRuntime.
Local Open Scope Z_scope.
Local Open Scope go_scope.

Record ConnectionInfo := mkConnectionInfo {
  ID : string;
  ClientCN : string;
  RemoteAddr : string;
  ConnectedAt : Time;
  Operations : Z;
  LastOp : string;
  LastOpAt : Time;
}.
#[global] Instance ConnectionInfo_eq_dec : EqDecision ConnectionInfo.
Proof. solve_decision. Defined.

Record ConnectionTracker := mkConnectionTracker { conns : gmap string ConnectionInfo }.

Definition NewConnectionTracker : ConnectionTracker := mkConnectionTracker ∅.

Section operations.
Context {W : Type} `{Runtime W}.

Definition Add (id clientCN remoteAddr : string) : M W ConnectionTracker unit :=
  now ← world time_Now;
  ct ← get_state;
  put_state (mkConnectionTracker
    (<[id := mkConnectionInfo id clientCN remoteAddr now 0 EmptyString zero_time]> (conns ct))).

Definition Remove (id : string) : M W ConnectionTracker unit :=
  ct ← get_state; put_state (mkConnectionTracker (delete id (conns ct))).

Definition RecordOp (id operation : string) : M W ConnectionTracker unit :=
  ct ← get_state;
  some info := conns ct !! id else mret tt;;
  now ← world time_Now;
  put_state (mkConnectionTracker
    (<[id := mkConnectionInfo (ID info) (ClientCN info) (RemoteAddr info) (ConnectedAt info)
             (int64 (Operations info + 1)) operation now]> (conns ct))).

Definition List_conns : M W ConnectionTracker (list ConnectionInfo) :=
  ct ← get_state; world (map_range (map snd (map_to_list (conns ct)))).

Definition Count : M W ConnectionTracker Z :=
  ct ← get_state; mret (Z.of_nat (size (conns ct))).
End operations.
