(* ===== verification/AuditLog.v ===== *)
(** * The audit log (src/internal/audit/audit.go)

    Producers enqueue entries on a channel of 256 and never block; one background
    goroutine moves them to the table.  [Log] and the writer's iteration are separate
    actions, so that their interleavings are sequences of actions. *)

From Stdlib Require Import ZArith Lia Sorting.Sorted.
From S2P Require Import Prelude GoRuntime SQLiteStore.
Local Open Scope Z_scope.
Local Open Scope go_scope.

Record Entry := mkEntry {
  e_ID : Z;
  e_Timestamp : Time;
  e_Source : string;
  e_Operation : string;
  e_ClientID : string;
  e_ObjectUID : string;
  e_ObjectName : string;
  e_Status : string;
  e_Message : string;
  e_RemoteAddr : string;
}.
#[global] Instance Entry_eq_dec : EqDecision Entry.
Proof. solve_decision. Defined.

Definition set_e_ID (id : Z) (e : Entry) : Entry :=
  mkEntry id (e_Timestamp e) (e_Source e) (e_Operation e) (e_ClientID e) (e_ObjectUID e)
    (e_ObjectName e) (e_Status e) (e_Message e) (e_RemoteAddr e).
Definition set_e_Timestamp (t : Time) (e : Entry) : Entry :=
  mkEntry (e_ID e) t (e_Source e) (e_Operation e) (e_ClientID e) (e_ObjectUID e)
    (e_ObjectName e) (e_Status e) (e_Message e) (e_RemoteAddr e).

(** The channel, whether it is closed, whether the writer is done, and the table. *)
Record Logger := mkLogger {
  ch : list Entry;
  ch_closed : bool;
  writer_done : bool;
  audit_log : list Entry;
  next_id : Z;
}.

Definition ch_cap : nat := 256.

Section operations.
Context {W : Type} `{Runtime W} `{!SqlDriver W}.

(** [NewLogger]: the logger, or nil when the table cannot be created. *)
Definition NewLogger {S} : M W S (option Logger) :=
  e ← world sql_exec_err;
  match e with
  | Some _ => mret None
  | None => mret (Some (mkLogger [] false false [] 1))
  end.

(** Sending on a closed channel panics; a full channel drops the entry. *)
Definition Log (entry : Entry) : M W Logger unit :=
  entry ← (if e_Timestamp entry =? zero_time
           then now ← world time_Now; mret (set_e_Timestamp now entry)
           else mret entry);
  a ← get_state;
  if ch_closed a then go_panic "send on closed channel"
  else if (length (ch a) <? ch_cap)%nat
  then put_state (mkLogger (ch a ++ [entry]) (ch_closed a) (writer_done a) (audit_log a) (next_id a))
  else mret tt.

(** One iteration of [for entry := range a.ch]; the loop, and the goroutine, end
    when the channel is closed and empty.  [false] when nothing can be received. *)
Definition writer_step : M W Logger bool :=
  a ← get_state;
  if writer_done a then mret false
  else match ch a with
  | [] =>
      if ch_closed a
      then put_state (mkLogger [] true true (audit_log a) (next_id a));; mret true
      else mret false
  | entry :: rest =>
      e ← world sql_exec_err;
      put_state (match e with
        | Some _ => mkLogger rest (ch_closed a) false (audit_log a) (next_id a)
        | None => mkLogger rest (ch_closed a) false
            (audit_log a ++ [set_e_ID (next_id a) entry]) (next_id a + 1)
        end);;
      mret true
  end.

(** [writer()] run until it blocks or ends; the fuel bounds its iterations. *)
Fixpoint writer (fuel : nat) : M W Logger unit :=
  match fuel with
  | O => mret tt
  | S fuel => more ← writer_step; if more : bool then writer fuel else mret tt
  end.

(** [Close]: close the channel (closing twice panics), wait for the writer. *)
Definition Logger_Close : M W Logger unit :=
  a ← get_state;
  if ch_closed a then go_panic "close of closed channel"
  else
    put_state (mkLogger (ch a) true (writer_done a) (audit_log a) (next_id a));;
    writer (S (length (ch a))).

Definition entry_matches (operation status : string) (e : Entry) : bool :=
  (String.eqb operation EmptyString || String.eqb (e_Operation e) operation) &&
  (String.eqb status EmptyString || String.eqb (e_Status e) status).
(** [ORDER BY id DESC] *)
Definition id_desc (e1 e2 : Entry) : bool := e_ID e2 <=? e_ID e1.
(** [LIMIT l OFFSET o]: a negative limit is no limit, a negative offset is zero. *)
Definition sql_limit {A} (limit offset : Z) (l : list A) : list A :=
  let l := drop (Z.to_nat offset) l in
  if limit <? 0 then l else take (Z.to_nat limit) l.

Definition Query (limit offset : Z) (operation status : string) :
    M W Logger (list Entry * Z) :=
  a ← get_state;
  let rows := filter (λ e, entry_matches operation status e = true) (audit_log a) in
  count ← world (sql_query (λ _ _, true) [Z.of_nat (length rows)]);
  let total := match count with Val (n :: _) => n | _ => 0 end in
  r ← world (sql_query id_desc rows);
  val sorted := r else _err => mret ([], 0);;
  mret (sql_limit limit offset sorted, total).
End operations.
