(* ===== verification/Handler.v ===== *)
(** * The KMIP request handler (src/internal/kmip/handler.go)

    One definition per operation handler, over any [Storage]; the dispatch, the
    processing of a batch item with its audit entry and connection counter, and
    [HandleRequest].  A handler returns the bytes of its batch item. *)

From Stdlib Require Import ZArith Lia.
From S2P Require Import Prelude GoRuntime Storage KmipLib CryptoLib SQLiteStore AuditLog.
From S2P Require Import Connections.
Local Open Scope Z_scope.
Local Open Scope go_scope.

(** ** Constants *)
Definition OperationCreateKeyPair : Z := 0x02.
Definition OperationRegister : Z := 0x03.
Definition OperationReKey : Z := 0x04.
Definition OperationGetAttributes : Z := 0x0B.
Definition OperationGetAttributeList : Z := 0x0C.
Definition OperationRevoke : Z := 0x13.
Definition OperationQuery : Z := 0x18.
Definition OperationDiscoverVersions : Z := 0x1E.
Definition OperationEncrypt : Z := 0x1F.
Definition OperationDecrypt : Z := 0x20.
Definition OperationSign : Z := 0x21.
Definition OperationSignatureVerify : Z := 0x22.
Definition OperationMAC : Z := 0x23.

Definition TagRevocationReason : Z := 0x420082.
Definition TagRevocationReasonCode : Z := 0x420083.
Definition TagPrivateKeyUniqueIdentifier : Z := 0x420066.
Definition TagPublicKeyUniqueIdentifier : Z := 0x42006F.
Definition TagPublicKey : Z := 0x42004E.
Definition TagPrivateKey : Z := 0x42004D.
Definition TagCertificate : Z := 0x420021.
Definition TagCertificateType : Z := 0x42001D.
Definition TagCertificateValue : Z := 0x42001E.
Definition TagData : Z := 0x420033.
Definition TagIVCounterNonce : Z := 0x420047.
Definition TagSignatureData : Z := 0x42004F.
Definition TagMACData : Z := 0x420051.
Definition TagValidityIndicator : Z := 0x420098.

Definition OpAddAttribute : Z := 0x0D.
Definition OpModifyAttribute : Z := 0x0E.
Definition OpDeleteAttribute : Z := 0x0F.
Definition OpDeriveKey : Z := 0x05.
Definition OpObtainLease : Z := 0x10.
Definition OpPoll : Z := 0x1A.
Definition OpArchive : Z := 0x15.
Definition OpRecover : Z := 0x16.

Definition ReasonItemNotFound : Z := 0x01.
Definition ReasonResponseTooLarge : Z := 0x02.
Definition ReasonInvalidMessage : Z := 0x04.
Definition ReasonOperationNotSupported : Z := 0x05.
Definition ReasonMissingData : Z := 0x06.
Definition ReasonInvalidField : Z := 0x07.
Definition ReasonFeatureNotSupported : Z := 0x08.
Definition ReasonCryptographicFailure : Z := 0x0A.
Definition ReasonIllegalOperation : Z := 0x0B.
Definition ReasonGeneralFailure : Z := 0x100.

Definition supportedMajor : Z := 1.
Definition supportedMinor : Z := 4.
Definition maxBatchItems : nat := 100.

(** The operations a state check distinguishes, by the string the code passes. *)
Definition validateStateTransition (state : KeyState) (operation : string) : Z * string * bool :=
  let ok := (0, EmptyString, true) in
  let no msg := (ReasonIllegalOperation, msg, false) in
  if String.eqb operation "Get" then
    if bool_decide (state ∈ [StatePreActive; StateActive; StateDeactivated; StateCompromised])
    then ok else no ("Get not allowed in state " +:+ fmt_d state)
  else if String.eqb operation "Activate" then
    if state =? StatePreActive then ok
    else if state =? StateActive then no "object is already active"
    else no ("Activate not allowed in state " +:+ fmt_d state)
  else if String.eqb operation "Revoke" then
    if bool_decide (state ∈ [StatePreActive; StateActive; StateDeactivated])
    then ok else no ("Revoke not allowed in state " +:+ fmt_d state)
  else if String.eqb operation "Destroy" then
    if bool_decide (state ∈ [StateDestroyed; StateDestroyedCompromised])
    then no "object is already destroyed" else ok
  else if String.eqb operation "Archive" then
    if state =? StateDeactivated then ok
    else no ("Archive only allowed from Deactivated, current: " +:+ fmt_d state)
  else if String.eqb operation "Recover" then
    if state =? StateArchived then ok
    else no ("Recover only allowed from Archived, current: " +:+ fmt_d state)
  else if String.eqb operation "ReKey" then
    if state =? StateActive then ok
    else no ("ReKey only allowed from Active, current: " +:+ fmt_d state)
  else if bool_decide (operation ∈ ["Encrypt"; "Decrypt"; "Sign"; "SignatureVerify"; "MAC"]) then
    if state =? StateActive then ok
    else no (operation +:+ " only allowed on Active keys, current: " +:+ fmt_d state)
  else ok.

(** ** Response builders *)
Section builders.
Context `{KmipLib}.

Definition buildBatchItemSuccess (operation : Z) (payloadChildren : list bytes) : bytes :=
  EncodeStructure TagBatchItem
    ([EncodeEnum TagOperation operation; EncodeEnum TagResultStatus ResultStatusSuccess] ++
     match payloadChildren with
     | [] => []
     | _ => [EncodeStructure TagResponsePayload payloadChildren]
     end).

Definition buildBatchItemError (operation reason : Z) (message : string) : bytes :=
  EncodeStructure TagBatchItem
    ((if operation =? 0 then [] else [EncodeEnum TagOperation operation]) ++
     [EncodeEnum TagResultStatus ResultStatusOperationFailed;
      EncodeEnum TagResultReason reason;
      EncodeTextString TagResultMessage message]).

Definition buildBatchResponse (batchCount : Z) (batchItems : list bytes) : bytes :=
  EncodeStructure TagResponseMessage
    (EncodeStructure TagResponseHeader
       [EncodeStructure TagProtocolVersion
          [EncodeInteger TagProtocolVersionMajor (int32 supportedMajor);
           EncodeInteger TagProtocolVersionMinor (int32 supportedMinor)];
        EncodeInteger TagBatchCount (int32 batchCount)] :: batchItems).

Definition buildErrorResponse (operation reason : Z) (message : string) : bytes :=
  buildBatchResponse 1 [buildBatchItemError operation reason message].

Definition operationName (op : Z) : string :=
  if op =? OperationCreate then "Create"
  else if op =? OperationCreateKeyPair then "CreateKeyPair"
  else if op =? OperationGet then "Get"
  else if op =? OperationLocate then "Locate"
  else if op =? OperationDestroy then "Destroy"
  else if op =? OperationActivate then "Activate"
  else if op =? OperationCheck then "Check"
  else if op =? OperationRegister then "Register"
  else if op =? OperationRevoke then "Revoke"
  else if op =? OperationReKey then "ReKey"
  else if op =? OperationGetAttributes then "GetAttributes"
  else if op =? OperationGetAttributeList then "GetAttributeList"
  else if op =? OperationQuery then "Query"
  else if op =? OperationDiscoverVersions then "DiscoverVersions"
  else if op =? OperationEncrypt then "Encrypt"
  else if op =? OperationDecrypt then "Decrypt"
  else if op =? OperationSign then "Sign"
  else if op =? OperationSignatureVerify then "SignatureVerify"
  else if op =? OperationMAC then "MAC"
  else if op =? OpAddAttribute then "AddAttribute"
  else if op =? OpModifyAttribute then "ModifyAttribute"
  else if op =? OpDeleteAttribute then "DeleteAttribute"
  else if op =? OpDeriveKey then "DeriveKey"
  else if op =? OpObtainLease then "ObtainLease"
  else if op =? OpPoll then "Poll"
  else if op =? OpArchive then "Archive"
  else if op =? OpRecover then "Recover"
  else "Unknown(0x" +:+ fmt_X 8 op +:+ ")".

(** [err.Error()] of "object not found: %s" *)
Definition objectNotFound (uid : string) : string := "object not found: " +:+ uid.

(** The attributes a TemplateAttribute of the payload lists. *)
Definition template_attributes (payload : Item) : list Item :=
  match FindChild payload TagTemplateAttribute with
  | Some tmpl => FindChildren tmpl TagAttribute
  | None => []
  end.

(** The locals the attribute loops assign. *)
Record Template := mkTemplate {
  tpl_name : string;
  tpl_algorithm : Z;
  tpl_length : Z;
  tpl_usageMask : Z;
}.

(** One iteration of the loop of [handleCreate] and [handleCreateKeyPair]. *)
Definition create_attr (t : Template) (attr : Item) : Template :=
  match FindChild attr TagAttributeName, FindChild attr TagAttributeValue with
  | Some attrName, Some attrValue =>
      let n := StringValue attrName in
      if String.eqb n "Name" then
        match FindChild attrValue TagNameValue with
        | Some nv => mkTemplate (StringValue nv) (tpl_algorithm t) (tpl_length t) (tpl_usageMask t)
        | None => t
        end
      else if String.eqb n "Cryptographic Algorithm" then
        mkTemplate (tpl_name t) (IntValue attrValue) (tpl_length t) (tpl_usageMask t)
      else if String.eqb n "Cryptographic Length" then
        mkTemplate (tpl_name t) (tpl_algorithm t) (IntValue attrValue) (tpl_usageMask t)
      else if String.eqb n "Cryptographic Usage Mask" then
        mkTemplate (tpl_name t) (tpl_algorithm t) (tpl_length t) (IntValue attrValue)
      else t
  | _, _ => t
  end.

(** One iteration of the loop of [handleRegister]. *)
Definition register_attr (t : Template) (attr : Item) : Template :=
  match FindChild attr TagAttributeName, FindChild attr TagAttributeValue with
  | Some an, Some av =>
      let n := StringValue an in
      if String.eqb n "Name" then
        match FindChild av TagNameValue with
        | Some nv => mkTemplate (StringValue nv) (tpl_algorithm t) (tpl_length t) (tpl_usageMask t)
        | None => t
        end
      else if String.eqb n "Cryptographic Usage Mask" then
        mkTemplate (tpl_name t) (tpl_algorithm t) (tpl_length t) (IntValue av)
      else t
  | _, _ => t
  end.

(** One iteration of the loop of [handleDeriveKey]. *)
Definition derive_attr (t : Template) (attr : Item) : Template :=
  match FindChild attr TagAttributeName, FindChild attr TagAttributeValue with
  | Some an, Some av =>
      let n := StringValue an in
      if String.eqb n "Cryptographic Length" then
        mkTemplate (tpl_name t) (tpl_algorithm t) (IntValue av) (tpl_usageMask t)
      else if String.eqb n "Name" then
        match FindChild av TagNameValue with
        | Some nv => mkTemplate (StringValue nv) (tpl_algorithm t) (tpl_length t) (tpl_usageMask t)
        | None => t
        end
      else t
  | _, _ => t
  end.
End builders.

(** ** Operation handlers *)
Section handlers.
Context {W S : Type} `{Runtime W} `{!Storage W S} `{KmipLib} `{!CryptoLib W}.

Definition handleCreate (op : Z) (payload : option Item) (clientCN : string) : M W S bytes :=
  some payload := payload else mret (buildBatchItemError op ReasonMissingData "missing request payload");;
  let t := foldl create_attr
    (mkTemplate EmptyString AlgorithmAES 256 (Z.lor UsageMaskEncrypt UsageMaskDecrypt))
    (template_attributes payload) in
  res ← Create (tpl_name t) (tpl_algorithm t) (tpl_length t) (tpl_usageMask t) clientCN;
  val rec := res else err => mret (buildBatchItemError op ReasonGeneralFailure err);;
  mret (buildBatchItemSuccess op
    [EncodeEnum TagObjectType (ObjectType rec);
     EncodeTextString TagUniqueIdentifier (UID rec)]).

(** The key generation of [handleCreateKeyPair]: the two encodings and the length,
    or the reason and message of the failure. *)
Definition curve_of (length : Z) : Curve * Z :=
  if length =? 256 then (P256, length)
  else if length =? 384 then (P384, length)
  else if length =? 521 then (P521, length)
  else (P256, 256).
Definition marshal_pair (priv : ParsedKey RsaPriv EcPriv) (pub : ParsedKey RsaPub EcPub) :
    result (bytes * bytes) :=
  val privDER := MarshalPKCS8PrivateKey priv else err => Err err;;
  val pubDER := MarshalPKIXPublicKey pub else err => Err err;;
  Val (privDER, pubDER).
Definition generate_pair (algorithm length : Z) :
    M W S ((bytes * bytes * Z) + (Z * string)) :=
  if algorithm =? AlgorithmRSA then
    r ← world (rsa_GenerateKey length);
    val k := r else genErr => mret (inr (ReasonCryptographicFailure, "RSA keygen: " +:+ genErr));;
    val p := marshal_pair (RSAKey k) (RSAKey (rsa_Public k))
    else err => mret (inr (ReasonCryptographicFailure, err));;
    mret (inl (p, length))
  else if algorithm =? AlgorithmECDSA then
    let '(curve, length) := curve_of length in
    r ← world (ecdsa_GenerateKey curve);
    val k := r else genErr => mret (inr (ReasonCryptographicFailure, "EC keygen: " +:+ genErr));;
    val p := marshal_pair (ECDSAKey k) (ECDSAKey (ecdsa_Public k))
    else err => mret (inr (ReasonCryptographicFailure, err));;
    mret (inl (p, length))
  else mret (inr (ReasonInvalidField, "unsupported algorithm: 0x" +:+ fmt_X 8 algorithm)).

(** [&storage.KeyRecord{...}] with the fields the handlers set. *)
Definition new_key_record (objectType : Z) (name : string) (algorithm length : Z)
    (material : bytes) (usageMask : Z) : KeyRecord :=
  mkKeyRecord EmptyString name objectType algorithm length material usageMask 0 0
    EmptyString zero_time 0.

Definition handleCreateKeyPair (op : Z) (payload : option Item) : M W S bytes :=
  some payload := payload else mret (buildBatchItemError op ReasonMissingData "missing request payload");;
  let t := foldl create_attr
    (mkTemplate EmptyString AlgorithmRSA 2048 (Z.lor UsageMaskSign UsageMaskVerify))
    (template_attributes payload) in
  g ← generate_pair (tpl_algorithm t) (tpl_length t);
  match g with
  | inr (reason, msg) => mret (buildBatchItemError op reason msg)
  | inl (privDER, pubDER, length) =>
      res ← Register (new_key_record ObjectTypePrivateKey (tpl_name t) (tpl_algorithm t)
        length privDER (tpl_usageMask t));
      val privRec := res else err => mret (buildBatchItemError op ReasonGeneralFailure err);;
      res ← Register (new_key_record ObjectTypePublicKey (tpl_name t) (tpl_algorithm t)
        length pubDER (tpl_usageMask t));
      val pubRec := res else err => mret (buildBatchItemError op ReasonGeneralFailure err);;
      mret (buildBatchItemSuccess op
        [EncodeTextString TagPrivateKeyUniqueIdentifier (UID privRec);
         EncodeTextString TagPublicKeyUniqueIdentifier (UID pubRec)])
  end.

(** The KeyBlock of [handleGet]. *)
Definition key_block (format : Z) (rec : KeyRecord) : bytes :=
  EncodeStructure TagKeyBlock
    [EncodeEnum TagKeyFormatType format;
     EncodeStructure TagKeyValue [EncodeByteString TagKeyMaterial (Material rec)];
     EncodeEnum TagCryptographicAlgorithm (Algorithm rec);
     EncodeInteger TagCryptographicLength (Length rec)].
Definition object_data (rec : KeyRecord) : bytes :=
  if ObjectType rec =? ObjectTypePublicKey then
    EncodeStructure TagPublicKey [key_block KeyFormatX509 rec]
  else if ObjectType rec =? ObjectTypePrivateKey then
    EncodeStructure TagPrivateKey [key_block KeyFormatPKCS8 rec]
  else if ObjectType rec =? ObjectTypeCertificate then
    EncodeStructure TagCertificate
      [EncodeEnum TagCertificateType 1; EncodeByteString TagCertificateValue (Material rec)]
  else EncodeStructure TagSymmetricKey [key_block KeyFormatRaw rec].

Definition handleGet (op : Z) (payload : option Item) : M W S bytes :=
  some payload := payload else mret (buildBatchItemError op ReasonMissingData "missing request payload");;
  some uidItem := FindChild payload TagUniqueIdentifier
  else mret (buildBatchItemError op ReasonMissingData "missing UniqueIdentifier");;
  let uid := StringValue uidItem in
  o ← Get uid;
  some rec := o else mret (buildBatchItemError op ReasonItemNotFound (objectNotFound uid));;
  let '(reason, msg, valid) := validateStateTransition (State rec) "Get" in
  require valid else mret (buildBatchItemError op reason msg);;
  mret (buildBatchItemSuccess op
    [EncodeEnum TagObjectType (ObjectType rec);
     EncodeTextString TagUniqueIdentifier (UID rec);
     object_data rec]).

Definition locate_name (payload : option Item) : string :=
  some payload := payload else EmptyString;;
  some attr := FindChild payload TagAttribute else EmptyString;;
  some av := FindChild attr TagAttributeValue else EmptyString;;
  some nv := FindChild av TagNameValue else EmptyString;;
  StringValue nv.
Definition handleLocate (op : Z) (payload : option Item) : M W S bytes :=
  uids ← Locate (locate_name payload);
  mret (buildBatchItemSuccess op (map (EncodeTextString TagUniqueIdentifier) uids)).

Definition handleDestroy (op : Z) (payload : option Item) : M W S bytes :=
  some payload := payload else mret (buildBatchItemError op ReasonMissingData "missing request payload");;
  some uidItem := FindChild payload TagUniqueIdentifier
  else mret (buildBatchItemError op ReasonMissingData "missing UniqueIdentifier");;
  let uid := StringValue uidItem in
  o ← Get uid;
  some rec := o else mret (buildBatchItemError op ReasonItemNotFound (objectNotFound uid));;
  let '(reason, msg, valid) := validateStateTransition (State rec) "Destroy" in
  require valid else mret (buildBatchItemError op reason msg);;
  res ← Destroy uid;
  val _ := res else err => mret (buildBatchItemError op ReasonGeneralFailure err);;
  mret (buildBatchItemSuccess op [EncodeTextString TagUniqueIdentifier uid]).

Definition handleActivate (op : Z) (payload : option Item) : M W S bytes :=
  some payload := payload else mret (buildBatchItemError op ReasonMissingData "missing request payload");;
  some uidItem := FindChild payload TagUniqueIdentifier
  else mret (buildBatchItemError op ReasonMissingData "missing UniqueIdentifier");;
  let uid := StringValue uidItem in
  o ← Get uid;
  some rec := o else mret (buildBatchItemError op ReasonItemNotFound (objectNotFound uid));;
  let '(reason, msg, valid) := validateStateTransition (State rec) "Activate" in
  require valid else mret (buildBatchItemError op reason msg);;
  res ← Activate uid;
  val _ := res else err => mret (buildBatchItemError op ReasonGeneralFailure err);;
  mret (buildBatchItemSuccess op [EncodeTextString TagUniqueIdentifier uid]).

Definition handleCheck (op : Z) (payload : option Item) : M W S bytes :=
  some payload := payload else mret (buildBatchItemError op ReasonMissingData "missing request payload");;
  some uidItem := FindChild payload TagUniqueIdentifier
  else mret (buildBatchItemError op ReasonMissingData "missing UniqueIdentifier");;
  o ← Get (StringValue uidItem);
  some rec := o
  else mret (buildBatchItemError op ReasonItemNotFound (objectNotFound (StringValue uidItem)));;
  mret (buildBatchItemSuccess op [EncodeTextString TagUniqueIdentifier (UID rec)]).

(** The locals [algorithm], [length] and [material] of [handleRegister]. *)
Definition key_wrapper (objectType : Z) (payload : Item) : option Item :=
  if objectType =? ObjectTypePublicKey then FindChild payload TagPublicKey
  else if objectType =? ObjectTypePrivateKey then FindChild payload TagPrivateKey
  else if objectType =? ObjectTypeCertificate then None
  else FindChild payload TagSymmetricKey.
Definition certificate_material (objectType : Z) (payload : Item) : option bytes :=
  if objectType =? ObjectTypePublicKey then None
  else if objectType =? ObjectTypePrivateKey then None
  else if objectType =? ObjectTypeCertificate then
    some ci := FindChild payload TagCertificate else None;;
    some cv := FindChild ci TagCertificateValue else None;;
    BytesValue cv
  else None.
Definition register_material (objectType : Z) (payload : Item) : Z * Z * option bytes :=
  let none := (AlgorithmAES, 256, certificate_material objectType payload) in
  some keyWrapper := key_wrapper objectType payload else none;;
  some kb := FindChild keyWrapper TagKeyBlock else none;;
  let algorithm := from_option IntValue AlgorithmAES (FindChild kb TagCryptographicAlgorithm) in
  let length := from_option IntValue 256 (FindChild kb TagCryptographicLength) in
  let material :=
    some kv := FindChild kb TagKeyValue else certificate_material objectType payload;;
    some km := FindChild kv TagKeyMaterial else certificate_material objectType payload;;
    BytesValue km in
  (algorithm, length, material).

Definition handleRegister (op : Z) (payload : option Item) : M W S bytes :=
  some payload := payload else mret (buildBatchItemError op ReasonMissingData "missing request payload");;
  let objectType := from_option IntValue ObjectTypeSymmetricKey (FindChild payload TagObjectType) in
  let '(algorithm, length, material) := register_material objectType payload in
  some material := material
  else mret (buildBatchItemError op ReasonMissingData "missing key material");;
  let t := foldl register_attr
    (mkTemplate EmptyString algorithm length (Z.lor UsageMaskEncrypt UsageMaskDecrypt))
    (template_attributes payload) in
  res ← Register (new_key_record objectType (tpl_name t) algorithm length material (tpl_usageMask t));
  val rec := res else err => mret (buildBatchItemError op ReasonGeneralFailure err);;
  mret (buildBatchItemSuccess op [EncodeTextString TagUniqueIdentifier (UID rec)]).

Definition revocation_reason (payload : Item) : Z :=
  some rr := FindChild payload TagRevocationReason else 0;;
  some code := FindChild rr TagRevocationReasonCode else 0;;
  IntValue code.
Definition handleRevoke (op : Z) (payload : option Item) : M W S bytes :=
  some payload := payload else mret (buildBatchItemError op ReasonMissingData "missing request payload");;
  some uidItem := FindChild payload TagUniqueIdentifier
  else mret (buildBatchItemError op ReasonMissingData "missing UniqueIdentifier");;
  let uid := StringValue uidItem in
  o ← Get uid;
  some rec := o else mret (buildBatchItemError op ReasonItemNotFound (objectNotFound uid));;
  let '(reason, msg, valid) := validateStateTransition (State rec) "Revoke" in
  require valid else mret (buildBatchItemError op reason msg);;
  res ← Revoke uid (revocation_reason payload);
  val _ := res else err => mret (buildBatchItemError op ReasonGeneralFailure err);;
  mret (buildBatchItemSuccess op [EncodeTextString TagUniqueIdentifier uid]).

(** An Attribute structure of [handleGetAttributes]. *)
Definition attribute (name : string) (value : bytes) : bytes :=
  EncodeStructure TagAttribute [EncodeTextString TagAttributeName name; value].
Definition handleGetAttributes (op : Z) (payload : option Item) : M W S bytes :=
  some payload := payload else mret (buildBatchItemError op ReasonMissingData "missing request payload");;
  some uidItem := FindChild payload TagUniqueIdentifier
  else mret (buildBatchItemError op ReasonMissingData "missing UniqueIdentifier");;
  o ← GetAttributes (StringValue uidItem);
  some rec := o
  else mret (buildBatchItemError op ReasonItemNotFound (objectNotFound (StringValue uidItem)));;
  mret (buildBatchItemSuccess op
    [EncodeTextString TagUniqueIdentifier (UID rec);
     attribute "Name" (EncodeStructure TagAttributeValue
       [EncodeTextString TagNameValue (Name rec);
        EncodeEnum TagNameType NameTypeUninterpretedTextString]);
     attribute "Object Type" (EncodeEnum TagAttributeValue (ObjectType rec));
     attribute "Cryptographic Algorithm" (EncodeEnum TagAttributeValue (Algorithm rec));
     attribute "Cryptographic Length" (EncodeInteger TagAttributeValue (Length rec));
     attribute "Cryptographic Usage Mask" (EncodeInteger TagAttributeValue (int32 (UsageMask rec)));
     attribute "State" (EncodeEnum TagAttributeValue (State rec));
     attribute "Initial Date" (EncodeDateTime TagAttributeValue (unix (CreatedAt rec)))]).

Definition query_operations : list Z :=
  [OperationCreate; OperationCreateKeyPair; OperationRegister; OperationReKey; OpDeriveKey;
   OperationLocate; OperationCheck; OperationGet; OperationGetAttributes;
   OperationGetAttributeList; OpAddAttribute; OpModifyAttribute; OpDeleteAttribute;
   OpObtainLease; OperationActivate; OperationRevoke; OperationDestroy; OpArchive; OpRecover;
   OperationQuery; OpPoll; OperationDiscoverVersions; OperationEncrypt; OperationDecrypt;
   OperationSign; OperationSignatureVerify; OperationMAC].
Definition query_types : list Z :=
  [ObjectTypeCertificate; ObjectTypeSymmetricKey; ObjectTypePublicKey; ObjectTypePrivateKey].
Definition handleQuery (op : Z) (_ : option Item) : M W S bytes :=
  mret (buildBatchItemSuccess op
    (map (EncodeEnum TagOperation) query_operations ++ map (EncodeEnum TagObjectType) query_types)).

Definition handleDiscoverVersions (op : Z) (_ : option Item) : M W S bytes :=
  mret (buildBatchItemSuccess op
    [EncodeStructure TagProtocolVersion
       [EncodeInteger TagProtocolVersionMajor (int32 supportedMajor);
        EncodeInteger TagProtocolVersionMinor (int32 supportedMinor)]]).

(** ** Cryptographic operations *)

(** [make([]byte, n)] then [rand.Read], whose error the code drops: the buffer then
    keeps its zeros. *)
Definition random_nonce (n : Z) : M W S bytes :=
  zeroed ← go_make n;
  r ← world (rand_Read (List.length zeroed));
  val filled := r else _err => mret zeroed;;
  mret filled.

Definition handleEncrypt (op : Z) (payload : option Item) : M W S bytes :=
  some payload := payload else mret (buildBatchItemError op ReasonMissingData "missing request payload");;
  some uidItem := FindChild payload TagUniqueIdentifier
  else mret (buildBatchItemError op ReasonMissingData "missing UniqueIdentifier");;
  some dataItem := FindChild payload TagData
  else mret (buildBatchItemError op ReasonMissingData "missing Data");;
  o ← Get (StringValue uidItem);
  some rec := o
  else mret (buildBatchItemError op ReasonItemNotFound (objectNotFound (StringValue uidItem)));;
  let '(reason, msg, valid) := validateStateTransition (State rec) "Encrypt" in
  require valid else mret (buildBatchItemError op reason msg);;
  require ObjectType rec =? ObjectTypeSymmetricKey
  else mret (buildBatchItemError op ReasonInvalidField "encrypt requires a symmetric key");;
  val block := aes_NewCipher (Material rec)
  else err => mret (buildBatchItemError op ReasonCryptographicFailure err);;
  val gcm := cipher_NewGCM block
  else err => mret (buildBatchItemError op ReasonCryptographicFailure err);;
  nonce ← random_nonce (NonceSize gcm);
  ciphertext ← from_outcome (Seal gcm nonce (default [] (BytesValue dataItem)));
  mret (buildBatchItemSuccess op
    [EncodeTextString TagUniqueIdentifier (UID rec);
     EncodeByteString TagData ciphertext;
     EncodeByteString TagIVCounterNonce nonce]).

Definition handleDecrypt (op : Z) (payload : option Item) : M W S bytes :=
  some payload := payload else mret (buildBatchItemError op ReasonMissingData "missing request payload");;
  some uidItem := FindChild payload TagUniqueIdentifier
  else mret (buildBatchItemError op ReasonMissingData "missing UniqueIdentifier");;
  some dataItem := FindChild payload TagData
  else mret (buildBatchItemError op ReasonMissingData "missing Data");;
  some nonceItem := FindChild payload TagIVCounterNonce
  else mret (buildBatchItemError op ReasonMissingData "missing IVCounterNonce");;
  let nonce := default [] (BytesValue nonceItem) in
  o ← Get (StringValue uidItem);
  some rec := o
  else mret (buildBatchItemError op ReasonItemNotFound (objectNotFound (StringValue uidItem)));;
  let '(reason, msg, valid) := validateStateTransition (State rec) "Decrypt" in
  require valid else mret (buildBatchItemError op reason msg);;
  require ObjectType rec =? ObjectTypeSymmetricKey
  else mret (buildBatchItemError op ReasonInvalidField "decrypt requires a symmetric key");;
  val block := aes_NewCipher (Material rec)
  else err => mret (buildBatchItemError op ReasonCryptographicFailure err);;
  val gcm := cipher_NewGCM block
  else err => mret (buildBatchItemError op ReasonCryptographicFailure err);;
  require byte_len nonce =? NonceSize gcm
  else mret (buildBatchItemError op ReasonInvalidField
    ("invalid nonce length: got " +:+ fmt_d (byte_len nonce) +:+
     ", expected " +:+ fmt_d (NonceSize gcm)));;
  r ← from_outcome (Open gcm nonce (default [] (BytesValue dataItem)));
  val plaintext := r
  else err => mret (buildBatchItemError op ReasonCryptographicFailure ("decryption failed: " +:+ err));;
  mret (buildBatchItemSuccess op
    [EncodeTextString TagUniqueIdentifier (UID rec);
     EncodeByteString TagData plaintext]).

(** The type switch of [handleSign]. *)
Definition sign_hash (key : ParsedKey RsaPriv EcPriv) (hash : bytes) : M W S (result bytes) :=
  match key with
  | RSAKey k => world (rsa_SignPKCS1v15 k hash)
  | ECDSAKey k => world (ecdsa_SignASN1 k hash)
  | OtherKey => mret (Err "unsupported key type")
  end.

Definition handleSign (op : Z) (payload : option Item) : M W S bytes :=
  some payload := payload else mret (buildBatchItemError op ReasonMissingData "missing request payload");;
  some uidItem := FindChild payload TagUniqueIdentifier
  else mret (buildBatchItemError op ReasonMissingData "missing UniqueIdentifier");;
  some dataItem := FindChild payload TagData
  else mret (buildBatchItemError op ReasonMissingData "missing Data");;
  o ← Get (StringValue uidItem);
  some rec := o
  else mret (buildBatchItemError op ReasonItemNotFound (objectNotFound (StringValue uidItem)));;
  let '(reason, msg, valid) := validateStateTransition (State rec) "Sign" in
  require valid else mret (buildBatchItemError op reason msg);;
  require ObjectType rec =? ObjectTypePrivateKey
  else mret (buildBatchItemError op ReasonInvalidField "sign requires a private key");;
  val privKey := ParsePKCS8PrivateKey (Material rec)
  else err => mret (buildBatchItemError op ReasonCryptographicFailure err);;
  r ← sign_hash privKey (sha256_Sum256 (default [] (BytesValue dataItem)));
  val signature := r else err => mret (buildBatchItemError op ReasonCryptographicFailure err);;
  mret (buildBatchItemSuccess op
    [EncodeTextString TagUniqueIdentifier (UID rec);
     EncodeByteString TagSignatureData signature]).

(** The type switch of [handleSignatureVerify]: the validity indicator, 0 for valid. *)
Definition verify_hash (key : ParsedKey RsaPub EcPub) (hash sig : bytes) : result Z :=
  match key with
  | RSAKey k =>
      Val (match rsa_VerifyPKCS1v15 k hash sig with Val _ => 0 | Err _ => 1 end)
  | ECDSAKey k => Val (if ecdsa_VerifyASN1 k hash sig then 0 else 1)
  | OtherKey => Err "unsupported key type"
  end.

Definition handleSignatureVerify (op : Z) (payload : option Item) : M W S bytes :=
  some payload := payload else mret (buildBatchItemError op ReasonMissingData "missing request payload");;
  some uidItem := FindChild payload TagUniqueIdentifier
  else mret (buildBatchItemError op ReasonMissingData "missing UniqueIdentifier");;
  some dataItem := FindChild payload TagData
  else mret (buildBatchItemError op ReasonMissingData "missing Data");;
  some sigItem := FindChild payload TagSignatureData
  else mret (buildBatchItemError op ReasonMissingData "missing SignatureData");;
  o ← Get (StringValue uidItem);
  some rec := o
  else mret (buildBatchItemError op ReasonItemNotFound (objectNotFound (StringValue uidItem)));;
  let '(reason, msg, valid) := validateStateTransition (State rec) "SignatureVerify" in
  require valid else mret (buildBatchItemError op reason msg);;
  require ObjectType rec =? ObjectTypePublicKey
  else mret (buildBatchItemError op ReasonInvalidField "verify requires a public key");;
  val pubKey := ParsePKIXPublicKey (Material rec)
  else err => mret (buildBatchItemError op ReasonCryptographicFailure err);;
  val valid := verify_hash pubKey (sha256_Sum256 (default [] (BytesValue dataItem)))
    (default [] (BytesValue sigItem))
  else err => mret (buildBatchItemError op ReasonCryptographicFailure err);;
  mret (buildBatchItemSuccess op
    [EncodeTextString TagUniqueIdentifier (UID rec);
     EncodeEnum TagValidityIndicator valid]).

Definition handleMAC (op : Z) (payload : option Item) : M W S bytes :=
  some payload := payload else mret (buildBatchItemError op ReasonMissingData "missing request payload");;
  some uidItem := FindChild payload TagUniqueIdentifier
  else mret (buildBatchItemError op ReasonMissingData "missing UniqueIdentifier");;
  some dataItem := FindChild payload TagData
  else mret (buildBatchItemError op ReasonMissingData "missing Data");;
  o ← Get (StringValue uidItem);
  some rec := o
  else mret (buildBatchItemError op ReasonItemNotFound (objectNotFound (StringValue uidItem)));;
  let '(reason, msg, valid) := validateStateTransition (State rec) "MAC" in
  require valid else mret (buildBatchItemError op reason msg);;
  require ObjectType rec =? ObjectTypeSymmetricKey
  else mret (buildBatchItemError op ReasonInvalidField "MAC requires a symmetric key");;
  mret (buildBatchItemSuccess op
    [EncodeTextString TagUniqueIdentifier (UID rec);
     EncodeByteString TagMACData
       (hmac_sha256 (Material rec) (default [] (BytesValue dataItem)))]).

(** ** Re-key, attributes, derivation, leases, archive *)
Definition handleReKey (op : Z) (payload : option Item) : M W S bytes :=
  some payload := payload else mret (buildBatchItemError op ReasonMissingData "missing request payload");;
  some uidItem := FindChild payload TagUniqueIdentifier
  else mret (buildBatchItemError op ReasonMissingData "missing UniqueIdentifier");;
  let uid := StringValue uidItem in
  o ← Get uid;
  some rec := o else mret (buildBatchItemError op ReasonItemNotFound (objectNotFound uid));;
  let '(reason, msg, valid) := validateStateTransition (State rec) "ReKey" in
  require valid else mret (buildBatchItemError op reason msg);;
  res ← Rekey uid;
  val rec := res else err => mret (buildBatchItemError op ReasonGeneralFailure err);;
  mret (buildBatchItemSuccess op [EncodeTextString TagUniqueIdentifier (UID rec)]).

Definition handleGetAttributeList (op : Z) (payload : option Item) : M W S bytes :=
  some payload := payload else mret (buildBatchItemError op ReasonMissingData "missing request payload");;
  some uidItem := FindChild payload TagUniqueIdentifier
  else mret (buildBatchItemError op ReasonMissingData "missing UniqueIdentifier");;
  let uid := StringValue uidItem in
  o ← Get uid;
  some _ := o else mret (buildBatchItemError op ReasonItemNotFound (objectNotFound uid));;
  mret (buildBatchItemSuccess op
    (EncodeTextString TagUniqueIdentifier uid ::
     map (EncodeTextString TagAttributeName)
       ["Object Type"; "Name"; "Cryptographic Algorithm"; "Cryptographic Length";
        "Cryptographic Usage Mask"; "State"])).

Definition handleAddAttribute (op : Z) (payload : option Item) : M W S bytes :=
  some payload := payload else mret (buildBatchItemError op ReasonMissingData "missing request payload");;
  some uidItem := FindChild payload TagUniqueIdentifier
  else mret (buildBatchItemError op ReasonMissingData "missing UniqueIdentifier");;
  some attr := FindChild payload TagAttribute
  else mret (buildBatchItemError op ReasonMissingData "missing Attribute");;
  match FindChild attr TagAttributeName, FindChild attr TagAttributeValue with
  | Some nameItem, Some valueItem =>
      res ← SetCustomAttribute (StringValue uidItem) (StringValue nameItem) (StringValue valueItem);
      val _ := res else err => mret (buildBatchItemError op ReasonGeneralFailure err);;
      mret (buildBatchItemSuccess op [EncodeTextString TagUniqueIdentifier (StringValue uidItem)])
  | _, _ => mret (buildBatchItemError op ReasonMissingData "missing attribute name or value")
  end.

Definition handleModifyAttribute (op : Z) (payload : option Item) : M W S bytes :=
  handleAddAttribute op payload.

Definition handleDeleteAttribute (op : Z) (payload : option Item) : M W S bytes :=
  some payload := payload else mret (buildBatchItemError op ReasonMissingData "missing request payload");;
  some uidItem := FindChild payload TagUniqueIdentifier
  else mret (buildBatchItemError op ReasonMissingData "missing UniqueIdentifier");;
  some attr := FindChild payload TagAttribute
  else mret (buildBatchItemError op ReasonMissingData "missing Attribute");;
  some nameItem := FindChild attr TagAttributeName
  else mret (buildBatchItemError op ReasonMissingData "missing attribute name");;
  res ← DeleteCustomAttribute (StringValue uidItem) (StringValue nameItem);
  val _ := res else err => mret (buildBatchItemError op ReasonGeneralFailure err);;
  mret (buildBatchItemSuccess op [EncodeTextString TagUniqueIdentifier (StringValue uidItem)]).

Definition derivation_data (payload : Item) : bytes :=
  some dp := FindChild payload TagDerivationParameters else [];;
  some dd := FindChild dp TagDerivationData else [];;
  default [] (BytesValue dd).
Definition handleDeriveKey (op : Z) (payload : option Item) : M W S bytes :=
  some payload := payload else mret (buildBatchItemError op ReasonMissingData "missing request payload");;
  some uidItem := FindChild payload TagUniqueIdentifier
  else mret (buildBatchItemError op ReasonMissingData "missing UniqueIdentifier");;
  let t := foldl derive_attr (mkTemplate EmptyString 0 256 0) (template_attributes payload) in
  res ← DeriveKey (StringValue uidItem) (derivation_data payload) (tpl_name t) (tpl_length t);
  val rec := res else err => mret (buildBatchItemError op ReasonGeneralFailure err);;
  mret (buildBatchItemSuccess op [EncodeTextString TagUniqueIdentifier (UID rec)]).

Definition handleObtainLease (op : Z) (payload : option Item) : M W S bytes :=
  some payload := payload else mret (buildBatchItemError op ReasonMissingData "missing request payload");;
  some uidItem := FindChild payload TagUniqueIdentifier
  else mret (buildBatchItemError op ReasonMissingData "missing UniqueIdentifier");;
  o ← Get (StringValue uidItem);
  some _ := o
  else mret (buildBatchItemError op ReasonItemNotFound (objectNotFound (StringValue uidItem)));;
  mret (buildBatchItemSuccess op
    [EncodeTextString TagUniqueIdentifier (StringValue uidItem);
     EncodeInteger TagLeaseTime 3600]).

Definition handlePoll (op : Z) (_ : option Item) : M W S bytes :=
  mret (buildBatchItemSuccess op []).

Definition handleArchive (op : Z) (payload : option Item) : M W S bytes :=
  some payload := payload else mret (buildBatchItemError op ReasonMissingData "missing request payload");;
  some uidItem := FindChild payload TagUniqueIdentifier
  else mret (buildBatchItemError op ReasonMissingData "missing UniqueIdentifier");;
  let uid := StringValue uidItem in
  o ← Get uid;
  some rec := o else mret (buildBatchItemError op ReasonItemNotFound (objectNotFound uid));;
  let '(reason, msg, valid) := validateStateTransition (State rec) "Archive" in
  require valid else mret (buildBatchItemError op reason msg);;
  res ← Archive uid;
  val _ := res else err => mret (buildBatchItemError op ReasonGeneralFailure err);;
  mret (buildBatchItemSuccess op [EncodeTextString TagUniqueIdentifier uid]).

Definition handleRecover (op : Z) (payload : option Item) : M W S bytes :=
  some payload := payload else mret (buildBatchItemError op ReasonMissingData "missing request payload");;
  some uidItem := FindChild payload TagUniqueIdentifier
  else mret (buildBatchItemError op ReasonMissingData "missing UniqueIdentifier");;
  let uid := StringValue uidItem in
  o ← Get uid;
  some rec := o else mret (buildBatchItemError op ReasonItemNotFound (objectNotFound uid));;
  let '(reason, msg, valid) := validateStateTransition (State rec) "Recover" in
  require valid else mret (buildBatchItemError op reason msg);;
  res ← Recover uid;
  val _ := res else err => mret (buildBatchItemError op ReasonGeneralFailure err);;
  mret (buildBatchItemSuccess op [EncodeTextString TagUniqueIdentifier uid]).

(** The [switch operation] of [processBatchItem]. *)
Definition dispatch (operation : Z) (payload : option Item) (clientCN : string) : M W S bytes :=
  if operation =? OperationCreate then handleCreate operation payload clientCN
  else if operation =? OperationCreateKeyPair then handleCreateKeyPair operation payload
  else if operation =? OperationGet then handleGet operation payload
  else if operation =? OperationLocate then handleLocate operation payload
  else if operation =? OperationDestroy then handleDestroy operation payload
  else if operation =? OperationActivate then handleActivate operation payload
  else if operation =? OperationCheck then handleCheck operation payload
  else if operation =? OperationRegister then handleRegister operation payload
  else if operation =? OperationRevoke then handleRevoke operation payload
  else if operation =? OperationGetAttributes then handleGetAttributes operation payload
  else if operation =? OperationQuery then handleQuery operation payload
  else if operation =? OperationDiscoverVersions then handleDiscoverVersions operation payload
  else if operation =? OperationEncrypt then handleEncrypt operation payload
  else if operation =? OperationDecrypt then handleDecrypt operation payload
  else if operation =? OperationSign then handleSign operation payload
  else if operation =? OperationSignatureVerify then handleSignatureVerify operation payload
  else if operation =? OperationMAC then handleMAC operation payload
  else if operation =? OperationReKey then handleReKey operation payload
  else if operation =? OperationGetAttributeList then handleGetAttributeList operation payload
  else if operation =? OpAddAttribute then handleAddAttribute operation payload
  else if operation =? OpModifyAttribute then handleModifyAttribute operation payload
  else if operation =? OpDeleteAttribute then handleDeleteAttribute operation payload
  else if operation =? OpDeriveKey then handleDeriveKey operation payload
  else if operation =? OpObtainLease then handleObtainLease operation payload
  else if operation =? OpPoll then handlePoll operation payload
  else if operation =? OpArchive then handleArchive operation payload
  else if operation =? OpRecover then handleRecover operation payload
  else mret (buildBatchItemError operation ReasonOperationNotSupported
    ("unsupported: 0x" +:+ fmt_X 8 operation)).
End handlers.
