(* ===== verification/Requests.v ===== *)
(** * Processing a request (src/internal/kmip/handler.go)

    The handler object (store, audit logger, connection tracker), the processing of a
    batch item with its audit entry and its connection counter, and [HandleRequest].
    [process_after] is the part of [processBatchItem] that follows the switch. *)

From Stdlib Require Import ZArith Lia.
From S2P Require Import Prelude GoRuntime Storage KmipLib CryptoLib SQLiteStore AuditLog.
From S2P Require Import Connections Handler.
Local Open Scope Z_scope.
Local Open Scope go_scope.

(** The [Handler] struct; a nil logger or tracker is [None]. *)
Record HandlerState (S : Type) := mkHandler {
  store : S;
  audit : option Logger;
  tracker : option ConnectionTracker;
}.
Arguments mkHandler {S}. Arguments store {S}. Arguments audit {S}. Arguments tracker {S}.

Definition NewHandler {S} (store : S) (auditLog : option Logger)
    (tracker : option ConnectionTracker) : HandlerState S := mkHandler store auditLog tracker.

(** Method calls on the parts of the handler. *)
Definition with_store {W S A} (m : M W S A) : M W (HandlerState S) A :=
  zoom store (λ s h, mkHandler s (audit h) (tracker h)) m.
Definition with_audit {W S} (m : M W Logger unit) : M W (HandlerState S) unit :=
  h ← get_state;
  some a := audit h else mret tt;;
  zoom (λ _, a) (λ a h, mkHandler (store h) (Some a) (tracker h)) m.
Definition with_tracker {W S} (m : M W ConnectionTracker unit) : M W (HandlerState S) unit :=
  h ← get_state;
  some t := tracker h else mret tt;;
  zoom (λ _, t) (λ t h, mkHandler (store h) (audit h) (Some t)) m.

Section requests.
Context {W S : Type} `{Runtime W} `{!SqlDriver W} `{!Storage W S} `{KmipLib} `{!CryptoLib W}.

Definition logOperation (source operation clientID objectUID objectName status message
    remoteAddr : string) : M W (HandlerState S) unit :=
  with_audit
    (now ← world time_Now;
     Log (mkEntry 0 now source operation clientID objectUID objectName status message remoteAddr)).

(** What the audit entry says of a response: its status, its message, and the
    identifier of the object when the request named none. *)
Definition audit_outcome (requestUID : string) (response : bytes) : string * string * string :=
  val respItem := DecodeTTLV response 0 else _err => ("success", EmptyString, requestUID);;
  let '(status, message) :=
    match FindChild respItem TagResultStatus with
    | Some rs =>
        if IntValue rs =? ResultStatusSuccess then ("success", EmptyString)
        else ("failure", from_option StringValue EmptyString (FindChild respItem TagResultMessage))
    | None => ("success", EmptyString)
    end in
  let uid :=
    if String.eqb requestUID EmptyString then
      some rp := FindChild respItem TagResponsePayload else requestUID;;
      some u := FindChild rp TagUniqueIdentifier else requestUID;;
      StringValue u
    else requestUID in
  (status, message, uid).

Definition request_uid (payload : option Item) : string :=
  some payload := payload else EmptyString;;
  some uidItem := FindChild payload TagUniqueIdentifier else EmptyString;;
  StringValue uidItem.

(** The audit entry and the connection counter of [processBatchItem]. *)
Definition process_after (operation : Z) (payload : option Item)
    (clientCN remoteAddr connID : string) (response : bytes) : M W (HandlerState S) bytes :=
  let opName := operationName operation in
  let '(status, message, uid) := audit_outcome (request_uid payload) response in
  logOperation "kmip" opName clientCN uid EmptyString status message remoteAddr;;
  with_tracker (RecordOp connID opName);;
  mret response.

Definition processBatchItem (batchItem : Item) (clientCN remoteAddr connID : string) :
    M W (HandlerState S) bytes :=
  some opItem := FindChild batchItem TagOperation
  else mret (buildBatchItemError 0 ReasonInvalidMessage "no Operation in BatchItem");;
  let operation := IntValue opItem in
  let payload := FindChild batchItem TagRequestPayload in
  response ← with_store (dispatch operation payload clientCN);
  process_after operation payload clientCN remoteAddr connID response.

(** The protocol version of the request, when its header has one. *)
Definition request_version (msg : Item) : option (Z * Z) :=
  some header := FindChild msg TagRequestHeader else None;;
  some pv := FindChild header TagProtocolVersion else None;;
  some majorItem := FindChild pv TagProtocolVersionMajor else None;;
  Some (IntValue majorItem, from_option IntValue 0 (FindChild pv TagProtocolVersionMinor)).
Definition version_supported (v : Z * Z) : bool :=
  negb ((supportedMajor <? v.1) || ((v.1 =? supportedMajor) && (supportedMinor <? v.2))).
Definition unsupported_version (v : Z * Z) : string :=
  "unsupported version " +:+ fmt_d v.1 +:+ "." +:+ fmt_d v.2 +:+ "; server supports " +:+
  fmt_d supportedMajor +:+ "." +:+ fmt_d supportedMinor.
Definition rejected_version (msg : Item) : option (Z * Z) :=
  some v := request_version msg else None;;
  if version_supported v then None else Some v.

Definition HandleRequest (data : bytes) (clientCN remoteAddr connID : string) :
    M W (HandlerState S) bytes :=
  val msg := DecodeTTLV data 0
  else err =>
    (logOperation "kmip" "Decode" clientCN EmptyString EmptyString "failure"
       ("decode failed: " +:+ err) remoteAddr;;
     mret (buildErrorResponse 0 ReasonInvalidMessage ("decode failed: " +:+ err)));;
  require Tag msg =? TagRequestMessage
  else mret (buildErrorResponse 0 ReasonInvalidMessage
    ("expected RequestMessage, got 0x" +:+ fmt_X 6 (Tag msg)));;
  match rejected_version msg with
  | Some v => mret (buildErrorResponse 0 ReasonFeatureNotSupported (unsupported_version v))
  | None =>
      let batchItems := FindChildren msg TagBatchItem in
      require negb (List.length batchItems =? 0)%nat
      else mret (buildErrorResponse 0 ReasonInvalidMessage "no BatchItem in request");;
      require negb (maxBatchItems <? List.length batchItems)%nat
      else mret (buildErrorResponse 0 ReasonResponseTooLarge
        ("batch too large: " +:+ fmt_d (Z.of_nat (List.length batchItems)) +:+
         " items (max " +:+ fmt_d (Z.of_nat maxBatchItems) +:+ ")"));;
      responseBatchItems ←
        mapM_ (λ bi, processBatchItem bi clientCN remoteAddr connID) batchItems;
      mret (buildBatchResponse (Z.of_nat (List.length responseBatchItems)) responseBatchItems)
  end.
End requests.
