(* ===== verification/Lifecycle.v ===== *)
(** * The KMIP object lifecycle

    What a request may do to the vault, one effect at a time: [kmip_step] is the state
    machine of one object (the transitions [validateStateTransition] lets through, with
    the record each store operation leaves), [kmip_effect] adds new objects and
    attribute changes, [evolves] is any number of effects.  The lemmas follow one
    object through an evolution. *)

From Stdlib Require Import ZArith Lia.
From stdpp Require Import relations.
From S2P Require Import Prelude GoRuntime Storage.
Local Open Scope Z_scope.

Inductive kmip_step : KeyRecord → KeyRecord → Prop :=
| step_activate r : State r = StatePreActive → kmip_step r (set_State StateActive r)
| step_revoke r reason :
    State r ∈ [StatePreActive; StateActive; StateDeactivated] →
    kmip_step r (revoke_record reason r)
| step_destroy r : State r ≠ StateDestroyed → State r ≠ StateDestroyedCompromised →
    kmip_step r (destroy_record r)
| step_archive r : State r = StateDeactivated → kmip_step r (set_State StateArchived r)
| step_recover r : State r = StateArchived → kmip_step r (set_State StatePreActive r)
| step_rekey r mat : State r = StateActive → invalid_length (Length r) = false →
    List.length mat = Z.to_nat (Z.quot (Length r) 8) → kmip_step r (rekey_record mat r).

(** An object as it enters the vault. *)
Definition new_object (r : KeyRecord) : Prop :=
  State r = StatePreActive ∧ Version r = 1 ∧ RevocationReason r = 0.

Inductive kmip_effect (v : Vault) : Vault → Prop :=
| effect_new r : objects v !! UID r = None → new_object r → kmip_effect v (put_object r v)
| effect_step uid r r' : objects v !! uid = Some r → UID r = uid → kmip_step r r' →
    kmip_effect v (put_object r' v)
| effect_attr uid name x : is_Some (lookup_live v uid) →
    kmip_effect v (mkVault (objects v) (partial_alter (λ _, x) (uid, name) (cattrs v))).

Definition evolves : Vault → Vault → Prop := rtc kmip_effect.

(** The fields no KMIP operation changes. *)
Definition same_identity (r r' : KeyRecord) : Prop :=
  UID r' = UID r ∧ Name r' = Name r ∧ ObjectType r' = ObjectType r ∧
  Algorithm r' = Algorithm r ∧ Length r' = Length r ∧ UsageMask r' = UsageMask r ∧
  Owner r' = Owner r ∧ CreatedAt r' = CreatedAt r.
#[export] Instance same_identity_preorder : PreOrder same_identity.
Proof.
  split; unfold same_identity; [done|]. intros r1 r2 r3 H1 H2. intuition congruence.
Qed.

Lemma kmip_step_identity r r' : kmip_step r r' → same_identity r r'.
Proof. unfold same_identity. by destruct 1. Qed.

Lemma kmip_steps_identity r r' : rtc kmip_step r r' → same_identity r r'.
Proof.
  induction 1 as [r|r r1 r2 Hs _ IH]; [done|].
  etrans; [by apply kmip_step_identity|done].
Qed.

Lemma kmip_effect_wf v v' : kmip_effect v v' → vault_wf v → vault_wf v'.
Proof.
  destruct 1 as [r|uid r r' ? ? Hs|? ? ?]; intros Hwf u y; cbn; [| |by apply Hwf].
  all: rewrite lookup_insert_Some; intros [[<- <-]|[_ ?%Hwf]]; done.
Qed.

Lemma evolves_wf v v' : evolves v v' → vault_wf v → vault_wf v'.
Proof. induction 1; eauto using kmip_effect_wf. Qed.

(** ** One object through an evolution *)
Lemma kmip_effect_object v v' uid r :
  kmip_effect v v' → objects v !! uid = Some r →
  ∃ r', objects v' !! uid = Some r' ∧ rtc kmip_step r r'.
Proof.
  destruct 1 as [x|u x x' Hx <- Hs|]; intros Hr; cbn.
  - destruct (decide (UID x = uid)) as [<-|]; [congruence|]. rewrite lookup_insert_ne by done.
    by exists r.
  - pose proof (kmip_step_identity _ _ Hs) as (HU & _).
    destruct (decide (UID x' = uid)) as [<-|].
    + rewrite lookup_insert_eq. exists x'. split; [done|]. rewrite HU in Hr.
      replace r with x by congruence. by apply rtc_once.
    + rewrite lookup_insert_ne by done. by exists r.
  - by exists r.
Qed.

Lemma evolves_object v v' uid r :
  evolves v v' → objects v !! uid = Some r →
  ∃ r', objects v' !! uid = Some r' ∧ rtc kmip_step r r'.
Proof.
  intros Hv. revert r. induction Hv as [v|v v1 v2 He _ IH]; intros r Hr; [by exists r|].
  destruct (kmip_effect_object _ _ _ _ He Hr) as (r1 & Hr1 & ?).
  destruct (IH _ Hr1) as (r2 & ? & ?). exists r2. split; [done|]. by etrans.
Qed.

(** An object that was not there before was created, and stepped since. *)
Lemma evolves_new v v' uid r' :
  evolves v v' → objects v' !! uid = Some r' → objects v !! uid = None →
  ∃ r0, new_object r0 ∧ UID r0 = uid ∧ rtc kmip_step r0 r'.
Proof.
  induction 1 as [v|v v1 v2 He Hv IH]; intros Hr' Hn; [congruence|].
  destruct (objects v1 !! uid) as [r1|] eqn:H1; [|by apply IH].
  destruct (evolves_object _ _ _ _ Hv H1) as (r2 & Hr2 & Hsteps).
  replace r2 with r' in * by congruence. revert H1.
  destruct He as [x|u x x' Hx <- Hs|]; cbn; [| |congruence].
  - rewrite lookup_insert_Some. intros [[<- <-]|[_ ?]]; [by exists x|congruence].
  - pose proof (kmip_step_identity _ _ Hs) as (HU & _).
    rewrite lookup_insert_Some, HU. intros [[<- <-]|[_ ?]]; congruence.
Qed.

(** ** Invariants of the state machine *)
Lemma steps_invariant (P : KeyRecord → Prop) r r' :
  (∀ x y, P x → kmip_step x y → P y) → rtc kmip_step r r' → P r → P r'.
Proof. intros HP. induction 1; eauto. Qed.

Definition destroyed (r : KeyRecord) : Prop := State r = StateDestroyed ∧ Material r = [].
Definition compromised (r : KeyRecord) : Prop :=
  State r = StateCompromised ∨ destroyed r.
(** The states requests can reach. *)
Definition reachable_state (r : KeyRecord) : Prop :=
  State r ∈ [StatePreActive; StateActive; StateCompromised; StateDestroyed].

Lemma destroyed_final r r' : rtc kmip_step r r' → State r = StateDestroyed → r' = r.
Proof.
  induction 1 as [r|r r1 r2 Hs _ IH]; [done|]. intros Hd. exfalso. revert Hd.
  unfold StateDestroyed. destruct Hs; try congruence; try done; intros Hd; rewrite Hd in *; try done.
  repeat match goal with H : _ ∈ _ :: _ |- _ => apply elem_of_cons in H as [H|H]; [done|] end.
  by apply elem_of_nil in H.
Qed.

Lemma compromised_stays r r' : rtc kmip_step r r' → compromised r → compromised r'.
Proof.
  apply steps_invariant. intros x y Hc Hs. unfold compromised, destroyed in *.
  destruct Hs as [? Hst|? ? Hst|? ?|? Hst|? Hst|? ? Hst]; cbn in *; [| |by right| | |];
    exfalso; destruct Hc as [Hc|[Hc _]]; rewrite Hc in Hst; try discriminate Hst;
    revert Hst; rewrite !elem_of_cons, elem_of_nil; intros [?|[?|[?|?]]]; done.
Qed.

Lemma reachable_stays r r' : rtc kmip_step r r' → reachable_state r → reachable_state r'.
Proof.
  apply steps_invariant. intros x y Hr Hs. unfold reachable_state in *.
  destruct Hs as [? Hst|? ? Hst|? ?|? Hst|? Hst|? ? Hst]; cbn in *;
    try solve [rewrite !elem_of_cons; auto]; exfalso; rewrite Hst in Hr; revert Hr; rewrite !elem_of_cons, elem_of_nil;
    intros [?|[?|[?|[?|?]]]]; done.
Qed.

