(* ===== verification/HandlerSpec.v ===== *)
(** * What each KMIP operation means

    An abstract semantics of every operation on the vault ([kmip_spec]): which response
    it gives and which vault it leaves, checks in the code's order, errors included.
    HandlerProofs shows that the handlers implement it over any backend. *)

From Stdlib Require Import ZArith Lia.
From S2P Require Import Prelude GoRuntime Storage KmipLib CryptoLib Lifecycle Handler.
Local Open Scope Z_scope.

(** What an operation answers, and the vault after it. *)
Abbreviation spec := (bytes → Vault → Prop).

Section specs.
Context {W : Type} `{Hkdf} `{KmipLib} `{!CryptoLib W} (faulty : Prop).
Implicit Types (v : Vault) (op : Z) (p i : Item) (r : KeyRecord).

Definition refuse v op reason msg : spec :=
  λ res v', v' = v ∧ res = buildBatchItemError op reason msg.
(** A refusal whose text the backend or a library chose. *)
Definition reject v op reason (P : Prop) : spec :=
  λ res v', P ∧ ∃ msg, refuse v op reason msg res v'.
Definition answer v op children : spec :=
  λ res v', v' = v ∧ res = buildBatchItemSuccess op children.
Definition update v op r' children : spec :=
  λ res v', v' = put_object r' v ∧ res = buildBatchItemSuccess op children.
Definition uid_child uid : bytes := EncodeTextString TagUniqueIdentifier uid.

Definition either (s1 s2 : spec) : spec := λ res v', s1 res v' ∨ s2 res v'.

(** The checks. *)
Definition need_payload v op (payload : option Item) (k : Item → spec) : spec :=
  match payload with
  | Some p => k p
  | None => refuse v op ReasonMissingData "missing request payload"
  end.
Definition need v op p tag msg (k : Item → spec) : spec :=
  match FindChild p tag with
  | Some i => k i
  | None => refuse v op ReasonMissingData msg
  end.
Definition need_uid v op payload (k : Item → string → spec) : spec :=
  need_payload v op payload (λ p,
    need v op p TagUniqueIdentifier "missing UniqueIdentifier" (λ u, k p (StringValue u))).
Definition need_object v op uid (k : KeyRecord → spec) : spec :=
  match lookup_live v uid with
  | Some r => k r
  | None => refuse v op ReasonItemNotFound (objectNotFound uid)
  end.
Definition need_state v op name r (k : spec) : spec :=
  let '(reason, msg, valid) := validateStateTransition (State r) name in
  if valid then k else refuse v op reason msg.
Definition need_type v op (b : bool) msg (k : spec) : spec :=
  if b then k else refuse v op ReasonInvalidField msg.

(** Operations that add an object. *)
Definition adds v op (P : KeyRecord → Prop) (children : KeyRecord → list bytes) : spec :=
  λ res v', ∃ r, objects v !! UID r = None ∧ new_object r ∧ P r ∧
    update v op r (children r) res v'.

Definition create_spec op payload cn v : spec :=
  need_payload v op payload (λ p,
    let t := foldl create_attr
      (mkTemplate EmptyString AlgorithmAES 256 (Z.lor UsageMaskEncrypt UsageMaskDecrypt))
      (template_attributes p) in
    either
      (reject v op ReasonGeneralFailure (invalid_length (tpl_length t) = true))
      (λ res v', invalid_length (tpl_length t) = false ∧
        adds v op (λ r, ∃ uid mat now,
            r = created uid (tpl_name t) (tpl_algorithm t) (tpl_length t) mat (tpl_usageMask t) cn now ∧
            List.length mat = Z.to_nat (Z.quot (tpl_length t) 8))
          (λ r, [EncodeEnum TagObjectType 2; uid_child (UID r)]) res v')).

(** The two halves of a key pair, as the parsers read them back. *)
Definition matching_pair (privDER pubDER : bytes) : Prop :=
  (∃ k, ParsePKCS8PrivateKey privDER = Val (RSAKey k) ∧
        ParsePKIXPublicKey pubDER = Val (RSAKey (rsa_Public k))) ∨
  (∃ k, ParsePKCS8PrivateKey privDER = Val (ECDSAKey k) ∧
        ParsePKIXPublicKey pubDER = Val (ECDSAKey (ecdsa_Public k))).
Definition pair_length algorithm length :=
  if algorithm =? AlgorithmRSA then length else (curve_of length).2.

Definition registers name algorithm length usage objectType mat r : Prop :=
  ∃ uid now, r = registered uid now (new_key_record objectType name algorithm length mat usage).

Definition create_key_pair_spec op payload v : spec :=
  need_payload v op payload (λ p,
    let t := foldl create_attr
      (mkTemplate EmptyString AlgorithmRSA 2048 (Z.lor UsageMaskSign UsageMaskVerify))
      (template_attributes p) in
    let len := pair_length (tpl_algorithm t) (tpl_length t) in
    let reg := registers (tpl_name t) (tpl_algorithm t) len (tpl_usageMask t) in
    if (tpl_algorithm t =? AlgorithmRSA) || (tpl_algorithm t =? AlgorithmECDSA) then
      either (reject v op ReasonCryptographicFailure True)
      (either (reject v op ReasonGeneralFailure (len < 0))
      (λ res v', ∃ privDER pubDER priv,
         matching_pair privDER pubDER ∧ 0 ≤ len ∧
         objects v !! UID priv = None ∧ new_object priv ∧ reg ObjectTypePrivateKey privDER priv ∧
         (* the second registration of a faulty backend may fail alone *)
         either (reject (put_object priv v) op ReasonGeneralFailure faulty)
           (adds (put_object priv v) op (reg ObjectTypePublicKey pubDER) (λ pub,
              [EncodeTextString TagPrivateKeyUniqueIdentifier (UID priv);
               EncodeTextString TagPublicKeyUniqueIdentifier (UID pub)])) res v'))
    else refuse v op ReasonInvalidField
      ("unsupported algorithm: 0x" +:+ fmt_X 8 (tpl_algorithm t))).

Definition get_spec op payload v : spec :=
  need_uid v op payload (λ _ uid, need_object v op uid (λ r, need_state v op "Get" r
    (answer v op [EncodeEnum TagObjectType (ObjectType r); uid_child (UID r); object_data r]))).
Definition locate_spec op payload v : spec := λ res v', v' = v ∧
  ∃ uids, (uids ≡ₚ live_named (locate_name payload) v ∨
           faulty ∧ uids ⊆ live_named (locate_name payload) v) ∧
    res = buildBatchItemSuccess op (map (EncodeTextString TagUniqueIdentifier) uids).
Definition check_spec op payload v : spec :=
  need_uid v op payload (λ _ uid, need_object v op uid (λ r, answer v op [uid_child (UID r)])).

(** The operations of the state machine: an allowed transition, the record it leaves. *)
Definition transition_spec name (f : Item → KeyRecord → KeyRecord) op payload v : spec :=
  need_uid v op payload (λ p uid, need_object v op uid (λ r, need_state v op name r
    (update v op (f p r) [uid_child uid]))).
Definition destroy_spec := transition_spec "Destroy" (λ _, destroy_record).
Definition activate_spec := transition_spec "Activate" (λ _, set_State StateActive).
Definition revoke_spec := transition_spec "Revoke" (λ p, revoke_record (revocation_reason p)).
Definition archive_spec := transition_spec "Archive" (λ _, set_State StateArchived).
Definition recover_spec := transition_spec "Recover" (λ _, set_State StatePreActive).
Definition rekey_spec op payload v : spec :=
  need_uid v op payload (λ _ uid, need_object v op uid (λ r, need_state v op "ReKey" r
    (either
      (reject v op ReasonGeneralFailure (invalid_length (Length r) = true))
      (λ res v', invalid_length (Length r) = false ∧ ∃ mat,
        List.length mat = Z.to_nat (Z.quot (Length r) 8) ∧
        update v op (rekey_record mat r) [uid_child (UID r)] res v')))).

Definition register_spec op payload v : spec :=
  need_payload v op payload (λ p,
    let objectType := from_option IntValue ObjectTypeSymmetricKey (FindChild p TagObjectType) in
    let '(algorithm, length, material) := register_material objectType p in
    match material with
    | None => refuse v op ReasonMissingData "missing key material"
    | Some mat =>
        let t := foldl register_attr
          (mkTemplate EmptyString algorithm length (Z.lor UsageMaskEncrypt UsageMaskDecrypt))
          (template_attributes p) in
        let reg := registers (tpl_name t) algorithm length (tpl_usageMask t) objectType mat in
        if register_accepts (new_key_record objectType (tpl_name t) algorithm length mat (tpl_usageMask t))
        then adds v op reg (λ r, [uid_child (UID r)])
        else reject v op ReasonGeneralFailure True
    end).

Definition get_attributes_spec op payload v : spec :=
  need_uid v op payload (λ _ uid, need_object v op uid (λ r, answer v op
    [uid_child (UID r);
     attribute "Name" (EncodeStructure TagAttributeValue
       [EncodeTextString TagNameValue (Name r);
        EncodeEnum TagNameType NameTypeUninterpretedTextString]);
     attribute "Object Type" (EncodeEnum TagAttributeValue (ObjectType r));
     attribute "Cryptographic Algorithm" (EncodeEnum TagAttributeValue (Algorithm r));
     attribute "Cryptographic Length" (EncodeInteger TagAttributeValue (Length r));
     attribute "Cryptographic Usage Mask" (EncodeInteger TagAttributeValue (int32 (UsageMask r)));
     attribute "State" (EncodeEnum TagAttributeValue (State r));
     attribute "Initial Date" (EncodeDateTime TagAttributeValue (unix (CreatedAt r)))])).
Definition get_attribute_list_spec op payload v : spec :=
  need_uid v op payload (λ _ uid, need_object v op uid (λ _, answer v op
    (uid_child uid :: map (EncodeTextString TagAttributeName)
       ["Object Type"; "Name"; "Cryptographic Algorithm"; "Cryptographic Length";
        "Cryptographic Usage Mask"; "State"]))).
Definition obtain_lease_spec op payload v : spec :=
  need_uid v op payload (λ _ uid, need_object v op uid (λ _, answer v op
    [uid_child uid; EncodeInteger TagLeaseTime 3600])).

Definition set_attr v uid name x : Vault :=
  mkVault (objects v) (partial_alter (λ _, x) (uid, name) (cattrs v)).
(** A custom attribute operation on a live object. *)
Definition attr_spec v op uid name x : spec :=
  if decide (is_Some (lookup_live v uid)) then
    λ res v', v' = set_attr v uid name x ∧ res = buildBatchItemSuccess op [uid_child uid]
  else reject v op ReasonGeneralFailure True.
Definition add_attribute_spec op payload v : spec :=
  need_uid v op payload (λ p uid, need v op p TagAttribute "missing Attribute" (λ attr,
    match FindChild attr TagAttributeName, FindChild attr TagAttributeValue with
    | Some n, Some x => attr_spec v op uid (StringValue n) (Some (StringValue x))
    | _, _ => refuse v op ReasonMissingData "missing attribute name or value"
    end)).
Definition delete_attribute_spec op payload v : spec :=
  need_uid v op payload (λ p uid, need v op p TagAttribute "missing Attribute" (λ attr,
    need v op attr TagAttributeName "missing attribute name" (λ n,
      attr_spec v op uid (StringValue n) None))).

Definition derive_key_spec op payload v : spec :=
  need_uid v op payload (λ p uid,
    let t := foldl derive_attr (mkTemplate EmptyString 0 256 0) (template_attributes p) in
    let keyLen := derive_keyLen (tpl_length t) in
    either
      (reject v op ReasonGeneralFailure (lookup_live v uid = None ∨ MaxDerivedKeyBytes < keyLen))
      (λ res v', keyLen ≤ MaxDerivedKeyBytes ∧ ∃ src mat, lookup_live v uid = Some src ∧
         hkdf_sha256 (Material src) (derivation_data p) kmip_derive (Z.to_nat keyLen) = Val mat ∧
         adds v op (λ r, ∃ uid now, r = derived_from src uid (tpl_name t) (tpl_length t) mat now)
           (λ r, [uid_child (UID r)]) res v')).

(** ** Cryptographic operations *)
Definition need_data v op payload (k : Item → string → bytes → spec) : spec :=
  need_uid v op payload (λ p uid, need v op p TagData "missing Data" (λ d,
    k p uid (default [] (BytesValue d)))).
Definition need_key v op name ty msg uid (k : KeyRecord → spec) : spec :=
  need_object v op uid (λ r, need_state v op name r (need_type v op (ObjectType r =? ty) msg (k r))).
Definition need_val {A} v op (x : result A) (k : A → spec) : spec :=
  match x with
  | Val a => k a
  | Err e => refuse v op ReasonCryptographicFailure e
  end.

Definition encrypt_spec op payload v : spec :=
  need_data v op payload (λ _ uid data,
    need_key v op "Encrypt" ObjectTypeSymmetricKey "encrypt requires a symmetric key" uid (λ r,
      need_val v op (aes_NewCipher (Material r)) (λ key res v', ∃ nonce, byte_len nonce = 12 ∧
        answer v op [uid_child (UID r); EncodeByteString TagData (gcm_seal key nonce data);
                     EncodeByteString TagIVCounterNonce nonce] res v'))).
Definition decrypt_spec op payload v : spec :=
  need_data v op payload (λ p uid data,
    need v op p TagIVCounterNonce "missing IVCounterNonce" (λ n,
      let nonce := default [] (BytesValue n) in
      need_key v op "Decrypt" ObjectTypeSymmetricKey "decrypt requires a symmetric key" uid (λ r,
        need_val v op (aes_NewCipher (Material r)) (λ key,
          need_type v op (byte_len nonce =? 12)
            ("invalid nonce length: got " +:+ fmt_d (byte_len nonce) +:+ ", expected " +:+ fmt_d 12)
            (match gcm_open key nonce data with
             | Some pt => answer v op [uid_child (UID r); EncodeByteString TagData pt]
             | None => refuse v op ReasonCryptographicFailure
                 ("decryption failed: " +:+ "cipher: message authentication failed")
             end))))).

(** What a signature under a private key must satisfy. *)
Definition signed (key : ParsedKey RsaPriv EcPriv) (hash sig : bytes) : Prop :=
  match key with
  | RSAKey k => ∃ w, (rsa_SignPKCS1v15 k hash w).1 = Val sig
  | ECDSAKey k => ∃ w, (ecdsa_SignASN1 k hash w).1 = Val sig
  | OtherKey => False
  end.
Definition sign_spec op payload v : spec :=
  need_data v op payload (λ _ uid data,
    need_key v op "Sign" ObjectTypePrivateKey "sign requires a private key" uid (λ r,
      need_val v op (ParsePKCS8PrivateKey (Material r)) (λ key,
        either (reject v op ReasonCryptographicFailure True)
          (λ res v', ∃ sig, signed key (sha256_Sum256 data) sig ∧
            answer v op [uid_child (UID r); EncodeByteString TagSignatureData sig] res v')))).
Definition verify_spec op payload v : spec :=
  need_data v op payload (λ p uid data,
    need v op p TagSignatureData "missing SignatureData" (λ s,
      need_key v op "SignatureVerify" ObjectTypePublicKey "verify requires a public key" uid (λ r,
        need_val v op (ParsePKIXPublicKey (Material r)) (λ key,
          need_val v op (verify_hash key (sha256_Sum256 data) (default [] (BytesValue s)))
            (λ valid, answer v op [uid_child (UID r); EncodeEnum TagValidityIndicator valid]))))).
Definition mac_spec op payload v : spec :=
  need_data v op payload (λ _ uid data,
    need_key v op "MAC" ObjectTypeSymmetricKey "MAC requires a symmetric key" uid (λ r,
      answer v op [uid_child (UID r);
                   EncodeByteString TagMACData (hmac_sha256 (Material r) data)])).

Definition discover_versions_spec op (_ : option Item) v : spec :=
  answer v op [EncodeStructure TagProtocolVersion
    [EncodeInteger TagProtocolVersionMajor 1; EncodeInteger TagProtocolVersionMinor 4]].
Definition query_spec op (_ : option Item) v : spec :=
  answer v op (map (EncodeEnum TagOperation) query_operations ++
               map (EncodeEnum TagObjectType) query_types).
Definition poll_spec op (_ : option Item) v : spec := answer v op [].

(** ** The operations by number *)
Definition kmip_spec (cn : string) : list (Z * (Z → option Item → Vault → spec)) :=
  [(OperationCreate, λ op payload, create_spec op payload cn);
   (OperationCreateKeyPair, create_key_pair_spec);
   (OperationGet, get_spec); (OperationLocate, locate_spec);
   (OperationDestroy, destroy_spec); (OperationActivate, activate_spec);
   (OperationCheck, check_spec); (OperationRegister, register_spec);
   (OperationRevoke, revoke_spec); (OperationGetAttributes, get_attributes_spec);
   (OperationQuery, query_spec); (OperationDiscoverVersions, discover_versions_spec);
   (OperationEncrypt, encrypt_spec); (OperationDecrypt, decrypt_spec);
   (OperationSign, sign_spec); (OperationSignatureVerify, verify_spec);
   (OperationMAC, mac_spec); (OperationReKey, rekey_spec);
   (OperationGetAttributeList, get_attribute_list_spec);
   (OpAddAttribute, add_attribute_spec); (OpModifyAttribute, add_attribute_spec);
   (OpDeleteAttribute, delete_attribute_spec); (OpDeriveKey, derive_key_spec);
   (OpObtainLease, obtain_lease_spec); (OpPoll, poll_spec);
   (OpArchive, archive_spec); (OpRecover, recover_spec)].
(** The first entry for the number; the numbers of the list are distinct. *)
Fixpoint find_op {A} (op : Z) (l : list (Z * A)) : option A :=
  match l with
  | [] => None
  | (n, a) :: l => if op =? n then Some a else find_op op l
  end.
Definition operation_spec op payload cn v : spec :=
  match find_op op (kmip_spec cn) with
  | Some s => s op payload v
  | None => refuse v op ReasonOperationNotSupported ("unsupported: 0x" +:+ fmt_X 8 op)
  end.
(** Every operation may also fail for the backend's own reasons, without effect. *)
Definition backend_failure v op (res : bytes) v' : Prop :=
  faulty ∧ v' = v ∧ ∃ reason msg, res = buildBatchItemError op reason msg.
End specs.
