(* ===== verification/HandlerProofs.v ===== *)
(** * The handlers implement the KMIP operations

    [handled op v sp m]: from a state whose vault is [v], the handler [m] returns, keeps
    the backend's invariant, and its response and vault are allowed by [sp] (or the
    backend failed).  One rule per check the handlers share, then one lemma per
    handler, then the dispatch. *)

From Stdlib Require Import ZArith Lia.
From S2P Require Import Prelude GoRuntime Storage KmipLib CryptoLib Lifecycle Handler.
From S2P Require Import HandlerSpec.
Local Open Scope Z_scope.
Local Open Scope go_scope.

Section proofs.
Context {W S : Type} `{RuntimeLaws W} `{Hkdf} `{!Storage W S}.
Context {Inv : W → S → Prop} {view : S → Vault} {faulty : Prop}.
Context `{!StorageSpec W S Inv view faulty} `{KmipLib} `{!CryptoLib W} `{!CryptoLaws W}.
Implicit Types (v : Vault) (op : Z) (w : W) (s : S).

Definition handled op v (sp : spec) (m : M W S bytes) : Prop :=
  ∀ w s, Inv w s → view s = v →
    wp m (λ res w' s', Inv w' s' ∧
      (sp res (view s') ∨ backend_failure faulty v op res (view s'))) w s.

Lemma handled_mono op v (sp sp' : spec) m :
  handled op v sp m → (∀ res v', sp res v' → sp' res v') → handled op v sp' m.
Proof.
  intros Hm Hsp w s HI Hv. eapply wp_mono; [by apply Hm|]. intros res w' s' [? [?|?]]; eauto.
Qed.

Lemma handled_ret op v (sp : spec) res : sp res v → handled op v sp (mret res).
Proof. intros Hsp w s HI <-. apply wp_ret. eauto. Qed.

Lemma handled_refuse op v reason msg :
  handled op v (refuse v op reason msg) (mret (buildBatchItemError op reason msg)).
Proof. by apply handled_ret. Qed.

Lemma handled_answer op v children :
  handled op v (answer v op children) (mret (buildBatchItemSuccess op children)).
Proof. by apply handled_ret. Qed.

Lemma handled_need_payload op v payload k m :
  (∀ p, payload = Some p → handled op v (k p) (m p)) →
  handled op v (need_payload v op payload k)
    (some p := payload else mret (buildBatchItemError op ReasonMissingData "missing request payload");; m p).
Proof. intros Hk. destruct payload as [p|]; [by apply Hk|by apply handled_refuse]. Qed.

Lemma handled_need op v p tag msg k m :
  (∀ i, FindChild p tag = Some i → handled op v (k i) (m i)) →
  handled op v (need v op p tag msg k)
    (some i := FindChild p tag else mret (buildBatchItemError op ReasonMissingData msg);; m i).
Proof.
  intros Hk. unfold need. destruct (FindChild p tag) as [i|]; [by apply Hk|by apply handled_refuse].
Qed.

Lemma handled_object op v uid (k : KeyRecord → spec) (m : KeyRecord → M W S bytes)
    (get : M W S (option KeyRecord)) :
  (∀ w s, Inv w s → wp get (λ res w' s', later w w' ∧ Inv w' s' ∧
    post_Get faulty (view s) uid res (view s')) w s) →
  (∀ r, lookup_live v uid = Some r → handled op v (k r) (m r)) →
  handled op v (need_object v op uid k)
    (o ← get;
     some r := o else mret (buildBatchItemError op ReasonItemNotFound (objectNotFound uid));; m r).
Proof.
  intros Hget Hk w s HI <-. wp_use Hget as o w' s' (_ & HI' & Hv' & Ho); [done|].
  unfold need_object. destruct o as [r|].
  - rewrite Ho. by apply Hk.
  - apply wp_ret. split; [done|]. rewrite Hv'. destruct Ho as [->|Hf]; [by left|].
    right. split; [done|]. eauto.
Qed.
Definition handled_get op v uid k m := handled_object op v uid k m (Get uid) (Get_spec uid).

Lemma handled_state op v name r (k : spec) m :
  ((validateStateTransition (State r) name).2 = true → handled op v k m) →
  handled op v (need_state v op name r k)
    (let '(reason, msg, valid) := validateStateTransition (State r) name in
     require valid else mret (buildBatchItemError op reason msg);; m).
Proof.
  intros Hk. unfold need_state.
  destruct (validateStateTransition (State r) name) as [[reason msg] []]; [by apply Hk|].
  by apply handled_refuse.
Qed.

Lemma handled_type op v (b : bool) msg (k : spec) m :
  (b = true → handled op v k m) →
  handled op v (need_type v op b msg k)
    (require b else mret (buildBatchItemError op ReasonInvalidField msg);; m).
Proof. intros Hk. destruct b; [by apply Hk|by apply handled_refuse]. Qed.

Lemma handled_val {A} op v (x : result A) k m :
  (∀ a, x = Val a → handled op v (k a) (m a)) →
  handled op v (need_val v op x k)
    (val a := x else err => mret (buildBatchItemError op ReasonCryptographicFailure err);; m a).
Proof. intros Hk. destruct x as [a|e]; [by apply Hk|by apply handled_refuse]. Qed.

(** A store operation the handler ends with: what its postcondition must give. *)
Lemma handled_store {A} op v (sp : spec) (post : result A → Vault → Prop)
    (m : M W S (result A)) (children : A → list bytes) :
  (∀ w s, Inv w s → view s = v →
     wp m (λ res w' s', later w w' ∧ Inv w' s' ∧ post res (view s')) w s) →
  (∀ a v', post (Val a) v' → sp (buildBatchItemSuccess op (children a)) v') →
  (∀ e v', post (Err e) v' → v' = v ∧
     (sp (buildBatchItemError op ReasonGeneralFailure e) v ∨ faulty)) →
  handled op v sp
    (res ← m;
     val a := res else err => mret (buildBatchItemError op ReasonGeneralFailure err);;
     mret (buildBatchItemSuccess op (children a))).
Proof.
  intros Hm Hok Herr w s HI Hv. wp_use Hm as res w' s' (_ & HI' & Hpost); [done..|].
  destruct res as [a|e]; apply wp_ret; (split; [done|]); [left; by apply Hok|].
  apply Herr in Hpost as [-> [?|?]]; [by left|]. right. split; [done|]. eauto.
Qed.

(** An action that only moves the world. *)
Lemma handled_world {A} op v (sp : spec) (f : W → A * W) (k : A → M W S bytes) (P : A → Prop) :
  (∀ w, later w (f w).2 ∧ P (f w).1) → (∀ a, P a → handled op v sp (k a)) →
  handled op v sp (a ← world f; k a).
Proof.
  intros Hf Hk w s HI Hv. apply wp_bind, wp_world. destruct (Hf w).
  apply Hk; [done| |done]. by eapply spec_later.
Qed.

(** A store operation that changes the record of a live object. *)
Lemma handled_transition op v uid r (pre : KeyRecord → Prop) f (m : M W S (result unit)) children :
  (∀ w s, Inv w s → wp m (λ res w' s', later w w' ∧ Inv w' s' ∧
     post_set faulty pre f (view s) uid res (view s')) w s) →
  lookup_live v uid = Some r → pre r →
  handled op v (update v op (f r) children)
    (res ← m;
     val _ := res else err => mret (buildBatchItemError op ReasonGeneralFailure err);;
     mret (buildBatchItemSuccess op children)).
Proof.
  intros Hm [Hr Hl]%lookup_live_Some Hpre.
  apply (handled_store op v _ (post_set faulty pre f v uid) m (λ _, children)).
  - intros w s HI <-. by apply Hm.
  - intros a v' (r1 & r' & Hr1 & _ & -> & ->). by replace r1 with r by congruence.
  - intros e v' [-> [Hn|?]]; (split; [done|]); [|by right]. by destruct (Hn r).
Qed.

(** A store operation that adds an object. *)
Definition added v (P : KeyRecord → Prop) (rejects : Prop) (res : result KeyRecord) v' : Prop :=
  match res with
  | Val r => post_new v r v' ∧ P r
  | Err _ => v' = v ∧ (rejects ∨ faulty)
  end.
Lemma handled_adds op v (P : KeyRecord → Prop) (m : M W S (result KeyRecord)) children
    (rejects : Prop) (sp : spec) :
  (∀ w s, Inv w s → view s = v → wp m (λ res w' s', later w w' ∧ Inv w' s' ∧
     added v P rejects res (view s')) w s) →
  (∀ r, P r → new_object r) →
  (∀ res v', adds v op P children res v' → sp res v') →
  (rejects → ∀ msg, sp (buildBatchItemError op ReasonGeneralFailure msg) v) →
  handled op v sp
    (res ← m;
     val rec := res else err => mret (buildBatchItemError op ReasonGeneralFailure err);;
     mret (buildBatchItemSuccess op (children rec))).
Proof.
  intros Hm Hnew Hsp Hrej. eapply (handled_store op v sp (added v P rejects)); [exact Hm|..].
  - intros r v' [[Hfresh ->] HP]. apply Hsp. exists r. split_and!; auto. by split.
  - intros e v' [-> [?|?]]; auto.
Qed.
End proofs.

(** The checks every handler starts with. *)
Ltac handler_step :=
  lazymatch goal with
  | |- handled _ _ (need_uid _ _ _ _) _ => unfold need_uid
  | |- handled _ _ (need_data _ _ _ _) _ => unfold need_data
  | |- handled _ _ (need_key _ _ _ _ _ _ _) _ => unfold need_key
  | |- handled _ _ (need_payload _ _ _ _) _ =>
      let p := fresh "p" in refine (handled_need_payload _ _ _ _ _ _); intros p ->
  | |- handled _ _ (need _ _ _ _ _ _) _ =>
      let i := fresh "i" in refine (handled_need _ _ _ _ _ _ _ _); intros i ?
  | |- handled _ _ (need_object _ _ _ _) _ =>
      let r := fresh "r" in
      first [refine (handled_get _ _ _ _ _ _)
            |refine (handled_object _ _ _ _ _ _ (GetAttributes_spec _) _)]; intros r ?
  | |- handled _ _ (need_state _ _ _ _ _) _ => refine (handled_state _ _ _ _ _ _ _); intros ?
  | |- handled _ _ (need_type _ _ _ _ _) _ => refine (handled_type _ _ _ _ _ _ _); intros ?
  | |- handled _ _ (need_val _ _ _ _) _ =>
      let a := fresh "a" in refine (handled_val _ _ _ _ _ _); intros a ?
  | |- handled _ _ (answer _ _ _) _ => apply handled_answer
  | |- handled _ _ (refuse _ _ _ _) _ => apply handled_refuse
  end.
Ltac handler_steps := repeat (handler_step; cbv zeta beta).

Section handlers.
Context {W S : Type} `{RuntimeLaws W} `{Hkdf} `{!Storage W S}.
Context {Inv : W → S → Prop} {view : S → Vault} {faulty : Prop}.
Context `{!StorageSpec W S Inv view faulty} `{KmipLib} `{!CryptoLib W} `{!CryptoLaws W}.
Implicit Types (v : Vault) (op : Z) (payload : option Item).
#[local] Abbreviation handled := (handled (Inv:=Inv) (view:=view) (faulty:=faulty)).

Lemma handleGet_ok op payload v : handled op v (get_spec op payload v) (handleGet op payload).
Proof. unfold get_spec, handleGet. handler_steps. Qed.
Lemma handleCheck_ok op payload v : handled op v (check_spec op payload v) (handleCheck op payload).
Proof. unfold check_spec, handleCheck. handler_steps. Qed.
Lemma handleGetAttributes_ok op payload v :
  handled op v (get_attributes_spec op payload v) (handleGetAttributes op payload).
Proof. unfold get_attributes_spec, handleGetAttributes. handler_steps. Qed.
Lemma handleGetAttributeList_ok op payload v :
  handled op v (get_attribute_list_spec op payload v) (handleGetAttributeList op payload).
Proof. unfold get_attribute_list_spec, handleGetAttributeList. handler_steps. Qed.
Lemma handleObtainLease_ok op payload v :
  handled op v (obtain_lease_spec op payload v) (handleObtainLease op payload).
Proof. unfold obtain_lease_spec, handleObtainLease. handler_steps. Qed.
Lemma handleQuery_ok op payload v : handled op v (query_spec op payload v) (handleQuery op payload).
Proof. apply handled_answer. Qed.
Lemma handleDiscoverVersions_ok op payload v :
  handled op v (discover_versions_spec op payload v) (handleDiscoverVersions op payload).
Proof. apply handled_answer. Qed.
Lemma handlePoll_ok op payload v : handled op v (poll_spec op payload v) (handlePoll op payload).
Proof. apply handled_answer. Qed.
Lemma handleMAC_ok op payload v : handled op v (mac_spec op payload v) (handleMAC op payload).
Proof. unfold mac_spec, handleMAC. handler_steps. Qed.

(** ** Transitions *)
Lemma live_of_lookup v uid r : lookup_live v uid = Some r → is_live r = true.
Proof. by intros [_ ?]%lookup_live_Some. Qed.

Lemma handleDestroy_ok op payload v :
  handled op v (destroy_spec op payload v) (handleDestroy op payload).
Proof.
  unfold destroy_spec, transition_spec, handleDestroy. handler_steps.
  eapply handled_transition; [by apply Destroy_spec|done|by eapply live_of_lookup].
Qed.
Lemma handleActivate_ok op payload v :
  handled op v (activate_spec op payload v) (handleActivate op payload).
Proof.
  unfold activate_spec, transition_spec, handleActivate. handler_steps.
  eapply handled_transition; [by apply Activate_spec|done|by eapply live_of_lookup].
Qed.
Lemma handleRevoke_ok op payload v :
  handled op v (revoke_spec op payload v) (handleRevoke op payload).
Proof.
  unfold revoke_spec, transition_spec, handleRevoke. handler_steps.
  eapply handled_transition; [by apply Revoke_spec|done|by eapply live_of_lookup].
Qed.
Lemma handleArchive_ok op payload v :
  handled op v (archive_spec op payload v) (handleArchive op payload).
Proof.
  unfold archive_spec, transition_spec, handleArchive. handler_steps.
  eapply handled_transition; [by apply Archive_spec|done|by eapply live_of_lookup].
Qed.
Lemma recover_valid st :
  (validateStateTransition st "Recover").2 = true → st = StateArchived.
Proof. cbn. destruct (Z.eqb_spec st StateArchived); [done|]. intros [=]. Qed.
Lemma handleRecover_ok op payload v :
  handled op v (recover_spec op payload v) (handleRecover op payload).
Proof.
  unfold recover_spec, transition_spec, handleRecover. handler_steps.
  eapply handled_transition; [by apply Recover_spec|done|by apply recover_valid].
Qed.
Lemma handleReKey_ok op payload v :
  handled op v (rekey_spec op payload v) (handleReKey op payload).
Proof.
  unfold rekey_spec, handleReKey. handler_steps. rename select (lookup_live _ _ = _) into Hr.
  apply lookup_live_Some in Hr as [Hr Hl].
  eapply (handled_store op v _ (post_Rekey faulty v (StringValue i))).
  - intros w s HI <-. by apply Rekey_spec.
  - intros a v' (r1 & r' & Hr1 & [_ Hlen] & (-> & mat & -> & ?) & ->).
    replace r1 with r in * by congruence. right. split; [done|]. by exists mat.
  - intros e v' [-> [Hn|?]]; (split; [done|]); [left; left|by right]. split; [|by exists e].
    specialize (Hn r Hr). destruct (invalid_length (Length r)) eqn:E; [done|].
    exfalso. by apply Hn.
Qed.

(** ** Custom attributes *)
Lemma handled_attr op v uid name x f (m : M W S (result unit)) :
  (∀ w s, Inv w s → wp m (λ res w' s', later w w' ∧ Inv w' s' ∧
     post_attr faulty f (view s) uid res (view s')) w s) →
  f (cattrs v) = partial_alter (λ _, x) (uid, name) (cattrs v) →
  handled op v (attr_spec v op uid name x)
    (res ← m;
     val _ := res else err => mret (buildBatchItemError op ReasonGeneralFailure err);;
     mret (buildBatchItemSuccess op [EncodeTextString TagUniqueIdentifier uid])).
Proof.
  intros Hm Hf. eapply (handled_store op v _ (post_attr faulty f v uid)).
  - intros w s HI <-. by apply Hm.
  - intros _ v' [Hlive ->]. unfold attr_spec. rewrite decide_True by done.
    unfold set_attr. by rewrite Hf.
  - intros e v' [-> Hn]. split; [done|]. destruct Hn as [Hn|?]; [left|by right].
    unfold attr_spec. rewrite decide_False by (rewrite Hn; by intros [? ?]).
    split; [done|]. by exists e.
Qed.

Lemma handleAddAttribute_ok op payload v :
  handled op v (add_attribute_spec op payload v) (handleAddAttribute op payload).
Proof.
  unfold add_attribute_spec, handleAddAttribute. handler_steps.
  destruct (FindChild _ TagAttributeName) as [n|]; [|by apply handled_refuse].
  destruct (FindChild _ TagAttributeValue) as [x|]; [|by apply handled_refuse].
  eapply handled_attr; [by apply SetCustomAttribute_spec|done].
Qed.
Lemma handleDeleteAttribute_ok op payload v :
  handled op v (delete_attribute_spec op payload v) (handleDeleteAttribute op payload).
Proof.
  unfold delete_attribute_spec, handleDeleteAttribute. handler_steps.
  eapply handled_attr; [by apply DeleteCustomAttribute_spec|done].
Qed.

(** ** New objects *)
Lemma handleLocate_ok op payload v :
  handled op v (locate_spec faulty op payload v) (handleLocate op payload).
Proof.
  intros w s HI <-. unfold handleLocate. wp_use Locate_spec as uids w' s' (_ & HI' & Hv & Hu); [done|].
  apply wp_ret. split; [done|]. left. split; [done|]. by exists uids.
Qed.

Lemma handleCreate_ok op payload cn v :
  handled op v (create_spec op payload cn v) (handleCreate op payload cn).
Proof.
  unfold create_spec, handleCreate. handler_steps.
  set (t := foldl create_attr _ _).
  eapply (handled_store op v _
    (post_Create faulty v (tpl_name t) (tpl_algorithm t) (tpl_length t) (tpl_usageMask t) cn)).
  - intros w s HI <-. by apply Create_spec.
  - intros r v' (Hlen & [Hf ->] & uid & mat & now & -> & Hmat). right. split; [done|].
    eexists. split_and!; [exact Hf|done|by eauto 10|]. by split.
  - intros e v' [-> [Hl|?]]; (split; [done|]); [left; left|by right]. split; [done|]. by exists e.
Qed.

Lemma registers_new name algorithm length usage objectType mat r :
  registers name algorithm length usage objectType mat r → new_object r.
Proof. by intros (uid & now & ->). Qed.

(** [Register] of a record the handlers build. *)
Definition registered_as name algorithm length usage objectType mat r : Prop :=
  register_accepts (new_key_record objectType name algorithm length mat usage) = true ∧
  registers name algorithm length usage objectType mat r.
Lemma wp_register v name algorithm length usage objectType mat w s :
  Inv w s → view s = v →
  wp (Register (new_key_record objectType name algorithm length mat usage))
    (λ res w' s', later w w' ∧ Inv w' s' ∧
       added (faulty:=faulty) v (registered_as name algorithm length usage objectType mat)
         (register_accepts (new_key_record objectType name algorithm length mat usage) = false)
         res (view s')) w s.
Proof.
  intros HI <-. eapply wp_mono; [by apply Register_spec|].
  intros res w' s' (? & ? & Hpost). split_and!; [done..|].
  destruct res as [r|e]; [|by destruct Hpost]. destruct Hpost as (? & ? & ?). by split.
Qed.

Lemma adds_mono v op (P Q : KeyRecord → Prop) children res v' :
  (∀ r, P r → Q r) → adds v op P children res v' → adds v op Q children res v'.
Proof. intros HPQ (r & ? & ? & ? & ?). exists r. auto. Qed.

Lemma handleRegister_ok op payload v :
  handled op v (register_spec op payload v) (handleRegister op payload).
Proof.
  unfold register_spec, handleRegister. handler_steps.
  destruct (register_material _ p) as [[algorithm length] [mat|]]; [|by apply handled_refuse].
  cbv zeta. set (t := foldl register_attr _ _).
  eapply handled_adds.
  - intros w s HI Hv. by apply wp_register.
  - intros r [_ ?]. by eapply registers_new.
  - intros res v' Hadds. pose proof Hadds as (r & _ & _ & [-> _] & _).
    eapply adds_mono; [|exact Hadds]. by intros ? [_ ?].
  - intros -> msg. split; [done|]. by exists msg.
Qed.

Lemma handleDeriveKey_ok op payload v :
  handled op v (derive_key_spec op payload v) (handleDeriveKey op payload).
Proof.
  unfold derive_key_spec, handleDeriveKey. handler_steps. set (t := foldl derive_attr _ _).
  eapply (handled_store op v _ (post_DeriveKey faulty v (StringValue i) (derivation_data p)
    (tpl_name t) (tpl_length t))).
  - intros w s HI <-. by apply DeriveKey_spec.
  - intros r v' (Hlen & [Hf ->] & src & uid & mat & now & Hsrc & -> & Hmat). right.
    split; [done|]. exists src, mat. split_and!; [done..|].
    eexists. split_and!; [exact Hf|done|by eauto|]. by split.
  - intros e v' [-> Hn]; (split; [done|]).
    destruct Hn as [?|[?|?]]; [left; left|left; left|by right];
      (split; [by auto|]; by exists e).
Qed.

(** ** Cryptographic operations *)
Lemma wp_random_nonce n (Q : bytes → W → S → Prop) w s :
  0 ≤ n → (∀ nonce w', later w w' → byte_len nonce = n → Q nonce w' s) →
  wp (random_nonce n) Q w s.
Proof.
  intros Hn HQ. unfold random_nonce. apply wp_bind, wp_go_make; [done|]. apply wp_bind, wp_rand.
  intros bs w' ? Hbs. apply wp_ret, HQ; [done|]. unfold byte_len.
  rewrite Hbs, length_replicate. lia.
Qed.

Lemma handleEncrypt_ok op payload v :
  handled op v (encrypt_spec op payload v) (handleEncrypt op payload).
Proof.
  unfold encrypt_spec, handleEncrypt. handler_steps.
  intros w s HI Hv. apply wp_bind, wp_random_nonce; [done|]. intros nonce w' Hw Hlen.
  apply wp_bind. cbn [gcm_of_key Seal]. change (NonceSize _) with 12 in Hlen.
  rewrite (proj2 (Z.eqb_eq _ _) Hlen). apply wp_ret.
  split; [by eapply spec_later|]. left. exists nonce. by split.
Qed.

Lemma handleDecrypt_ok op payload v :
  handled op v (decrypt_spec op payload v) (handleDecrypt op payload).
Proof.
  unfold decrypt_spec, handleDecrypt. handler_steps. cbn [cipher_NewGCM]. handler_steps.
  intros w s HI Hv. apply wp_bind. cbn [gcm_of_key Open].
  rename select (_ = true) into Hlen. rewrite Hlen. unfold wp at 1. cbn.
  destruct (gcm_open _ _ _) as [pt|]; by apply handled_ret.
Qed.

Lemma handled_sign op v (sp : spec) key hash (k : result bytes → M W S bytes) :
  (∀ sig, signed (W:=W) key hash sig → handled op v sp (k (Val sig))) →
  (∀ e, handled op v sp (k (Err e))) →
  handled op v sp (r ← sign_hash key hash; k r).
Proof.
  intros Hk He. destruct key as [key|key|]; cbn.
  - eapply (handled_world op v sp _ k (λ r, ∀ sig, r = Val sig → signed (RSAKey key) hash sig)).
    + intros w. split; [apply rsa_Sign_issued|]. intros sig ?. by exists w.
    + intros [sig|e] HP; [|done]. apply Hk. by apply HP.
  - eapply (handled_world op v sp _ k (λ r, ∀ sig, r = Val sig → signed (ECDSAKey key) hash sig)).
    + intros w. split; [apply ecdsa_Sign_issued|]. intros sig ?. by exists w.
    + intros [sig|e] HP; [|done]. apply Hk. by apply HP.
  - intros w s HI Hv. apply wp_bind, wp_ret. by apply He.
Qed.

Lemma handleSign_ok op payload v :
  handled op v (sign_spec op payload v) (handleSign op payload).
Proof.
  unfold sign_spec, handleSign. handler_steps. apply handled_sign.
  - intros sig Hsig. apply handled_ret. right. exists sig. by split.
  - intros e. apply handled_ret. left. split; [done|]. by exists e.
Qed.

Lemma handleSignatureVerify_ok op payload v :
  handled op v (verify_spec op payload v) (handleSignatureVerify op payload).
Proof. unfold verify_spec, handleSignatureVerify. handler_steps. Qed.

(** ** Key pairs *)
Definition generated algorithm length
    (g : (bytes * bytes * Z) + (Z * string)) : Prop :=
  match g with
  | inl (privDER, pubDER, len) =>
      (algorithm =? AlgorithmRSA) || (algorithm =? AlgorithmECDSA) = true ∧
      matching_pair (W:=W) privDER pubDER ∧ len = pair_length algorithm length
  | inr (reason, msg) =>
      if (algorithm =? AlgorithmRSA) || (algorithm =? AlgorithmECDSA)
      then reason = ReasonCryptographicFailure
      else reason = ReasonInvalidField ∧ msg = "unsupported algorithm: 0x" +:+ fmt_X 8 algorithm
  end.

Lemma marshal_pair_parses priv pub privDER pubDER :
  marshal_pair (W:=W) priv pub = Val (privDER, pubDER) →
  ParsePKCS8PrivateKey privDER = Val priv ∧ ParsePKIXPublicKey pubDER = Val pub.
Proof.
  unfold marshal_pair. destruct (MarshalPKCS8PrivateKey priv) as [d1|] eqn:E1; [|done].
  destruct (MarshalPKIXPublicKey pub) as [d2|] eqn:E2; [|done]. intros [= <- <-].
  split; [by apply Parse_Marshal_private|by apply Parse_Marshal_public].
Qed.

Lemma wp_generate_pair algorithm length w (s : S) :
  wp (generate_pair algorithm length)
    (λ g w' s', later w w' ∧ s' = s ∧ generated algorithm length g) w s.
Proof.
  unfold generate_pair, generated, pair_length. destruct (algorithm =? AlgorithmRSA).
  - apply wp_bind, wp_world. pose proof (rsa_GenerateKey_issued length w).
    destruct (rsa_GenerateKey length w) as [[k|e] w1]; cbn beta iota delta [fst snd] in *; [|by apply wp_ret].
    destruct (marshal_pair (RSAKey k) (RSAKey (rsa_Public k))) as [[d1 d2]|e] eqn:Hm; apply wp_ret; [|by split_and!].
    apply marshal_pair_parses in Hm as [??]. split_and!; [done..|by left; exists k|done].
  - destruct (algorithm =? AlgorithmECDSA); [|by apply wp_ret].
    destruct (curve_of length) as [curve len]. apply wp_bind, wp_world.
    pose proof (ecdsa_GenerateKey_issued curve w).
    destruct (ecdsa_GenerateKey curve w) as [[k|e] w1]; cbn beta iota delta [fst snd] in *; [|by apply wp_ret].
    destruct (marshal_pair (ECDSAKey k) (ECDSAKey (ecdsa_Public k))) as [[d1 d2]|e] eqn:Hm; apply wp_ret; [|by split_and!].
    apply marshal_pair_parses in Hm as [??]. split_and!; [done..|by right; exists k|done].
Qed.

Lemma accepts_length objectType name algorithm length mat usage :
  objectType ≠ 1 →
  register_accepts (new_key_record objectType name algorithm length mat usage) = true ↔ 0 ≤ length.
Proof.
  intros Hty. unfold register_accepts. cbn. rewrite (proj2 (Z.eqb_neq _ _) Hty). cbn.
  rewrite negb_true_iff, Z.ltb_ge. done.
Qed.

(** The two registrations, once the keys are generated. *)
Lemma register_pair_ok op v name algorithm len usage privDER pubDER priv_ty pub_ty :
  let regp := registered_as name algorithm len usage priv_ty privDER in
  let regq := registered_as name algorithm len usage pub_ty pubDER in
  ∀ w s, Inv w s → view s = v →
  wp (res ← Register (new_key_record priv_ty name algorithm len privDER usage);
      val privRec := res else err => mret (buildBatchItemError op ReasonGeneralFailure err);;
      res ← Register (new_key_record pub_ty name algorithm len pubDER usage);
      val pubRec := res else err => mret (buildBatchItemError op ReasonGeneralFailure err);;
      mret (buildBatchItemSuccess op
        [EncodeTextString TagPrivateKeyUniqueIdentifier (UID privRec);
         EncodeTextString TagPublicKeyUniqueIdentifier (UID pubRec)]))
    (λ res w' s', Inv w' s' ∧
       ((view s' = v ∧ ∃ e, res = buildBatchItemError op ReasonGeneralFailure e ∧
          (register_accepts (new_key_record priv_ty name algorithm len privDER usage) = false ∨ faulty)) ∨
        ∃ priv, objects v !! UID priv = None ∧ regp priv ∧
          either (reject (put_object priv v) op ReasonGeneralFailure
              (register_accepts (new_key_record pub_ty name algorithm len pubDER usage) = false ∨ faulty))
            (adds (put_object priv v) op regq (λ pub,
              [EncodeTextString TagPrivateKeyUniqueIdentifier (UID priv);
               EncodeTextString TagPublicKeyUniqueIdentifier (UID pub)])) res (view s'))) w s.
Proof.
  intros regp regq w s HI Hv. wp_use wp_register as res w1 s1 (_ & HI1 & Hr1); [done..|].
  destruct res as [priv|e].
  2: { apply wp_ret. destruct Hr1 as [-> ?]. split; [done|]. left. split; [done|]. by exists e. }
  destruct Hr1 as [[Hfresh Hv1] Hpriv].
  wp_use wp_register as res w2 s2 (_ & HI2 & Hr2); [done..|].
  destruct res as [pub|e]; apply wp_ret; (split; [done|]); right; exists priv; (split_and!; [done..|]).
  - right. destruct Hr2 as [[? ?] Hpub]. exists pub.
    split_and!; [done|by eapply registers_new, Hpub|done|by split].
  - left. destruct Hr2 as [-> Hn]. split; [done|]. exists e. by split.
Qed.

Lemma handleCreateKeyPair_ok op payload v :
  ObjectTypePrivateKey ≠ 1 → ObjectTypePublicKey ≠ 1 →
  handled op v (create_key_pair_spec faulty op payload v) (handleCreateKeyPair op payload).
Proof.
  intros Hty1 Hty2. unfold create_key_pair_spec, handleCreateKeyPair. handler_steps.
  set (t := foldl create_attr _ _). intros w s HI Hv.
  wp_use wp_generate_pair as g w1 s1 (Hw & -> & Hg).
  assert (Inv w1 s) as HI1 by (by eapply spec_later).
  destruct g as [[[privDER pubDER] len]|[reason msg]]; unfold generated in Hg.
  2: { apply wp_ret. split; [done|]. left. destruct (_ || _).
       - left. split; [done|]. exists msg. by subst.
       - by destruct Hg as [-> ->]. }
  destruct Hg as (-> & Hpair & ->). set (len := pair_length _ _).
  eapply wp_mono; [by apply (register_pair_ok op v)|].
  intros res w' s' [HI' Hres]. split; [done|].
  destruct Hres as [(-> & e & -> & Hn)|(priv & Hfresh & [Hacc Hpriv] & Hsnd)].
  - destruct Hn as [Hn|?]; [|right; split; [done|]; by eauto]. left. right. left.
    apply not_true_iff_false in Hn. rewrite accepts_length in Hn by done.
    split; [lia|]. by exists e.
  - left. right. right. exists privDER, pubDER, priv.
    rewrite accepts_length in Hacc by done.
    split_and!; [done..|by eapply registers_new|done|].
    destruct Hsnd as [([Hn|?] & Hmsg)|Hadds]; [|by left|].
    + apply not_true_iff_false in Hn. by rewrite accepts_length in Hn by done.
    + right. eapply adds_mono; [|exact Hadds]. by intros ? [_ ?].
Qed.

(** ** The dispatch *)
Lemma dispatch_ok op payload cn v :
  ObjectTypePrivateKey ≠ 1 → ObjectTypePublicKey ≠ 1 →
  handled op v (operation_spec faulty op payload cn v) (dispatch op payload cn).
Proof.
  intros ??. unfold operation_spec, dispatch. cbn [kmip_spec find_op].
  repeat match goal with |- context [if op =? ?n then _ else _] => destruct (op =? n) end.
  all: auto using handleCreate_ok, handleCreateKeyPair_ok, handleGet_ok, handleLocate_ok,
    handleDestroy_ok, handleActivate_ok, handleCheck_ok, handleRegister_ok, handleRevoke_ok,
    handleGetAttributes_ok, handleQuery_ok, handleDiscoverVersions_ok, handleEncrypt_ok,
    handleDecrypt_ok, handleSign_ok, handleSignatureVerify_ok, handleMAC_ok, handleReKey_ok.
  all: auto using handleGetAttributeList_ok, handleAddAttribute_ok, handleDeleteAttribute_ok,
    handleDeriveKey_ok, handleObtainLease_ok, handlePoll_ok, handleArchive_ok, handleRecover_ok,
    handled_refuse.
Qed.
End handlers.

(** ** Every operation keeps to the lifecycle *)
Section evolves.
Context {W : Type} `{Hkdf} `{KmipLib} `{!CryptoLib W} (faulty : Prop).
Implicit Types (v : Vault) (op : Z) (payload : option Item).

(** [sp] only takes the vault from [v] along lifecycle effects. *)
Definition within v (sp : spec) : Prop := ∀ res v', sp res v' → evolves v v'.

Lemma within_refuse v op reason msg : within v (refuse v op reason msg).
Proof. intros res v' [-> _]. apply rtc_refl. Qed.
Lemma within_reject v op reason P : within v (reject v op reason P).
Proof. intros res v' [_ [msg [-> _]]]. apply rtc_refl. Qed.
Lemma within_answer v op children : within v (answer v op children).
Proof. intros res v' [-> _]. apply rtc_refl. Qed.
Lemma within_either v s1 s2 : within v s1 → within v s2 → within v (either s1 s2).
Proof. intros H1 H2 res v' [?|?]; eauto. Qed.
Lemma within_need_payload v op payload k :
  (∀ p, within v (k p)) → within v (need_payload v op payload k).
Proof. destruct payload; [intros Hk; apply Hk|]. intros _. apply within_refuse. Qed.
Lemma within_need v op p tag msg k : (∀ i, within v (k i)) → within v (need v op p tag msg k).
Proof. unfold need. destruct (FindChild p tag); [intros Hk; apply Hk|]. intros _. apply within_refuse. Qed.
Lemma within_need_object v op uid k :
  (∀ r, lookup_live v uid = Some r → within v (k r)) → within v (need_object v op uid k).
Proof.
  unfold need_object. destruct (lookup_live v uid); [intros Hk; by apply Hk|]. intros _. apply within_refuse.
Qed.
Lemma within_need_state v op name r k :
  ((validateStateTransition (State r) name).2 = true → within v k) →
  within v (need_state v op name r k).
Proof.
  unfold need_state. destruct (validateStateTransition _ _) as [[reason msg] []]; [intros Hk; by apply Hk|].
  intros _. apply within_refuse.
Qed.
Lemma within_need_type v op b msg k : within v k → within v (need_type v op b msg k).
Proof. destruct b; [intros Hk; exact Hk|]. intros _. apply within_refuse. Qed.
Lemma within_need_val {A} v op (x : result A) k :
  (∀ a, within v (k a)) → within v (need_val v op x k).
Proof. destruct x; [intros Hk; apply Hk|]. intros _. apply within_refuse. Qed.
Lemma within_adds v op P children : within v (adds v op P children).
Proof. intros res v' (r & ? & ? & _ & -> & _). by apply rtc_once, effect_new. Qed.
Lemma within_update v op uid r r' children :
  vault_wf v → lookup_live v uid = Some r → kmip_step r r' →
  within v (update v op r' children).
Proof.
  intros Hwf [Hr _]%lookup_live_Some ? res v' [-> _].
  apply rtc_once. eapply effect_step; [exact Hr|by apply Hwf|done].
Qed.
Lemma within_attr v op uid name x : within v (attr_spec v op uid name x).
Proof.
  unfold attr_spec. case_decide; [|by apply within_reject].
  intros res v' [-> _]. by apply rtc_once, effect_attr.
Qed.

Lemma valid_activate st : (validateStateTransition st "Activate").2 = true → st = StatePreActive.
Proof.
  cbn. destruct (Z.eqb_spec st StatePreActive); [done|]. destruct (st =? StateActive); intros [=].
Qed.
Lemma valid_archive st : (validateStateTransition st "Archive").2 = true → st = StateDeactivated.
Proof. cbn. destruct (Z.eqb_spec st StateDeactivated); [done|]. intros [=]. Qed.
Lemma valid_rekey st : (validateStateTransition st "ReKey").2 = true → st = StateActive.
Proof. cbn. destruct (Z.eqb_spec st StateActive); [done|]. intros [=]. Qed.
Lemma valid_revoke st : (validateStateTransition st "Revoke").2 = true →
  st ∈ [StatePreActive; StateActive; StateDeactivated].
Proof. cbn. case_bool_decide; [done|]. intros [=]. Qed.
Lemma valid_destroy st : (validateStateTransition st "Destroy").2 = true →
  st ≠ StateDestroyed ∧ st ≠ StateDestroyedCompromised.
Proof.
  cbn. case_bool_decide as Hst; [intros [=]|]. intros _.
  rewrite !elem_of_cons in Hst. tauto.
Qed.

(** Witnessed and guarded outcomes. *)
Lemma within_exists {A} v (sp : A → spec) :
  (∀ a, within v (sp a)) → within v (λ res v', ∃ a, sp a res v').
Proof. intros Hsp res v' [a ?]. by eapply Hsp. Qed.
Lemma within_and v (P : Prop) (sp : spec) :
  (P → within v sp) → within v (λ res v', P ∧ sp res v').
Proof. intros Hsp res v' [? ?]. by eapply Hsp. Qed.

Ltac within_step :=
  lazymatch goal with
  | |- within _ (need_uid _ _ _ _) => unfold need_uid
  | |- within _ (need_data _ _ _ _) => unfold need_data
  | |- within _ (need_key _ _ _ _ _ _ _) => unfold need_key
  | |- within _ (need_payload _ _ _ _) => apply within_need_payload; intros ?
  | |- within _ (need _ _ _ _ _ _) => apply within_need; intros ?
  | |- within _ (need_object _ _ _ _) => apply within_need_object; intros ? ?
  | |- within _ (need_state _ _ _ _ _) => apply within_need_state; intros ?
  | |- within _ (need_type _ _ _ _ _) => apply within_need_type
  | |- within _ (need_val _ _ _ _) => apply within_need_val; intros ?
  | |- within _ (either _ _) => apply within_either
  | |- within _ (refuse _ _ _ _) => apply within_refuse
  | |- within _ (reject _ _ _ _) => apply within_reject
  | |- within _ (answer _ _ _) => apply within_answer
  | |- within _ (adds _ _ _ _) => apply within_adds
  | |- within _ (attr_spec _ _ _ _ _) => apply within_attr
  | |- within _ (match ?x with _ => _ end) => destruct x
  | |- within _ (λ _ _, ∃ _, _) => refine (within_exists _ _ _); intros ?
  | |- within _ (λ _ _, _ ∧ _) => refine (within_and _ _ _ _); intros ?
  end.
Ltac within_steps := repeat (cbv zeta beta; within_step).

Lemma within_transition name f op payload v :
  vault_wf v →
  (∀ p r, (validateStateTransition (State r) name).2 = true → kmip_step r (f p r)) →
  within v (transition_spec name f op payload v).
Proof.
  intros Hwf Hstep. unfold transition_spec. within_steps.
  eapply within_update; [done|eassumption|by apply Hstep].
Qed.

Lemma within_create_key_pair op payload v : within v (create_key_pair_spec faulty op payload v).
Proof.
  apply within_need_payload; intros p. cbv zeta. destruct (_ || _); [|apply within_refuse].
  do 2 (apply within_either; [apply within_reject|]).
  intros res v' (privDER & pubDER & priv & _ & _ & Hfresh & Hnew & _ & Hsnd).
  etrans; [by apply rtc_once, effect_new|].
  by eapply (within_either (put_object priv v)); [apply within_reject|apply within_adds|].
Qed.

Lemma within_rekey op payload v : vault_wf v → within v (rekey_spec op payload v).
Proof.
  intros Hwf. unfold rekey_spec. within_steps.
  eapply within_update; [done|eassumption|]. apply step_rekey; [by apply valid_rekey|done..].
Qed.

Lemma within_locate op payload v : within v (locate_spec faulty op payload v).
Proof. intros res v' [-> _]. apply rtc_refl. Qed.

(** A whole operation. *)
Lemma operation_within op payload cn v :
  vault_wf v → within v (operation_spec faulty op payload cn v).
Proof.
  intros Hwf. unfold operation_spec. cbn [kmip_spec find_op].
  repeat match goal with |- context [if op =? ?n then _ else _] => destruct (op =? n) end.
  all: try apply within_locate; try apply within_create_key_pair; try by apply within_rekey.
  all: try (apply within_transition; [done|intros p r Hv]).
  all: try solve
    [ by apply step_destroy; apply valid_destroy in Hv; destruct Hv
    | by apply step_activate, valid_activate | by apply step_revoke, valid_revoke
    | by apply step_archive, valid_archive | by apply step_recover, recover_valid ].
  all: unfold create_spec, get_spec, check_spec, register_spec, get_attributes_spec,
    get_attribute_list_spec, obtain_lease_spec, encrypt_spec, decrypt_spec, sign_spec,
    verify_spec, mac_spec, add_attribute_spec, delete_attribute_spec, derive_key_spec,
    query_spec, discover_versions_spec, poll_spec.
  all: within_steps.
Qed.
End evolves.
