(* ===== verification/RequestProofs.v ===== *)
(** * Requests implement their specification

    The meaning of a batch and of a whole request over the vault ([request_spec]), and
    the lemmas that the handler object implements it: the audit logger and the
    connection tracker never get in the way of an operation. *)

From Stdlib Require Import ZArith Lia.
From stdpp Require Import relations.
From S2P Require Import Prelude GoRuntime Storage KmipLib CryptoLib SQLiteStore AuditLog.
From S2P Require Import Connections Lifecycle Handler HandlerSpec HandlerProofs Requests.
Local Open Scope Z_scope.
Local Open Scope go_scope.

(** ** Specification *)
Section request_spec.
Context {W : Type} `{Hkdf} `{KmipLib} `{!CryptoLib W} (faulty : Prop).

Definition item_spec (cn : string) (bi : Item) (v : Vault) : spec :=
  match FindChild bi TagOperation with
  | None => refuse v 0 ReasonInvalidMessage "no Operation in BatchItem"
  | Some opItem =>
      either (operation_spec faulty (IntValue opItem) (FindChild bi TagRequestPayload) cn v)
        (backend_failure faulty v (IntValue opItem))
  end.

(** A batch: every item in order, each on the vault the one before it left. *)
Inductive batch_spec (cn : string) : list Item → Vault → list bytes → Vault → Prop :=
| batch_nil v : batch_spec cn [] v [] v
| batch_cons bi items v res v1 ress v' :
    item_spec cn bi v res v1 → batch_spec cn items v1 ress v' →
    batch_spec cn (bi :: items) v (res :: ress) v'.

Definition refuse_request (v : Vault) (reason : Z) (msg : string) : spec :=
  λ res v', v' = v ∧ res = buildErrorResponse 0 reason msg.

Definition request_spec (data : bytes) (cn : string) (v : Vault) : spec :=
  match DecodeTTLV data 0 with
  | Err e => refuse_request v ReasonInvalidMessage ("decode failed: " +:+ e)
  | Val msg =>
      if negb (Tag msg =? TagRequestMessage) then
        refuse_request v ReasonInvalidMessage ("expected RequestMessage, got 0x" +:+ fmt_X 6 (Tag msg))
      else match rejected_version msg with
      | Some ver => refuse_request v ReasonFeatureNotSupported (unsupported_version ver)
      | None =>
          let items := FindChildren msg TagBatchItem in
          let n := List.length items in
          if (n =? 0)%nat then refuse_request v ReasonInvalidMessage "no BatchItem in request"
          else if (100 <? n)%nat then
            refuse_request v ReasonResponseTooLarge
              ("batch too large: " +:+ fmt_d (Z.of_nat n) +:+ " items (max " +:+ fmt_d 100 +:+ ")")
          else λ res v', ∃ ress, batch_spec cn items v ress v' ∧
                 res = buildBatchResponse (Z.of_nat n) ress
      end
  end.

Lemma item_within cn bi v : vault_wf v → within v (item_spec cn bi v).
Proof.
  intros Hwf. unfold item_spec. destruct (FindChild bi TagOperation); [|apply within_refuse].
  apply within_either; [by apply operation_within|]. intros res v' (_ & -> & _). apply rtc_refl.
Qed.

Lemma batch_evolves cn items v ress v' :
  vault_wf v → batch_spec cn items v ress v' → evolves v v'.
Proof.
  intros Hwf Hb. induction Hb as [|bi items v res v1 ress v' Hi _ IH]; [apply rtc_refl|].
  apply item_within in Hi; [|done]. etrans; [exact Hi|]. apply IH. by eapply evolves_wf.
Qed.

Lemma request_within data cn v : vault_wf v → within v (request_spec data cn v).
Proof.
  intros Hwf res v'. unfold request_spec, refuse_request.
  destruct (DecodeTTLV data 0) as [msg|e]; [|by intros [-> _]; apply rtc_refl].
  destruct (negb _); [by intros [-> _]; apply rtc_refl|].
  destruct (rejected_version msg); [by intros [-> _]; apply rtc_refl|]. cbv zeta.
  destruct (_ =? _)%nat; [by intros [-> _]; apply rtc_refl|].
  destruct (_ <? _)%nat; [by intros [-> _]; apply rtc_refl|].
  intros (ress & Hb & _). by eapply batch_evolves.
Qed.

Lemma batch_length cn items v ress v' :
  batch_spec cn items v ress v' → List.length ress = List.length items.
Proof. induction 1; cbn; congruence. Qed.
End request_spec.

(** ** Logging and counting *)
Section side_effects.
Context {W : Type} `{RuntimeLaws W} `{!SqlDriver W}.

(** What [Log] leaves: the entry at the end of the queue, if there is room. *)
Definition enqueued (e : Entry) (a : Logger) : Logger :=
  if (length (ch a) <? ch_cap)%nat
  then mkLogger (ch a ++ [e]) (ch_closed a) (writer_done a) (audit_log a) (next_id a)
  else a.

Lemma wp_Log e a w (Q : unit → W → Logger → Prop) :
  ch_closed a = false →
  (∀ t w', later w w' → (e_Timestamp e ≠ zero_time → t = e_Timestamp e) →
     Q tt w' (enqueued (set_e_Timestamp t e) a)) →
  wp (Log e) Q w a.
Proof.
  intros Hopen HQ. unfold Log.
  assert (∀ t w', later w w' → (e_Timestamp e ≠ zero_time → t = e_Timestamp e) →
    wp (a ← get_state;
        if ch_closed a then go_panic "send on closed channel"
        else if (length (ch a) <? ch_cap)%nat
        then put_state (mkLogger (ch a ++ [set_e_Timestamp t e]) (ch_closed a) (writer_done a)
               (audit_log a) (next_id a))
        else mret tt) Q w' a) as Hrest.
  { intros t w' Hw Ht. apply wp_bind, wp_get_state. rewrite Hopen.
    specialize (HQ t w' Hw Ht). unfold enqueued in HQ. rewrite Hopen in HQ.
    destruct (_ <? _)%nat; [by apply wp_put_state|by apply wp_ret]. }
  apply wp_bind. destruct (Z.eqb_spec (e_Timestamp e) zero_time) as [Hz|Hz].
  - apply wp_bind, wp_now. intros t w' Hw. apply wp_ret. by apply Hrest.
  - apply wp_ret. replace e with (set_e_Timestamp (e_Timestamp e) e) by (by destruct e).
    by apply (Hrest (e_Timestamp e)).
Qed.

Definition recorded (id op : string) (now : Time) (ct : ConnectionTracker) : ConnectionTracker :=
  match conns ct !! id with
  | None => ct
  | Some info => mkConnectionTracker
      (<[id := mkConnectionInfo (ID info) (ClientCN info) (RemoteAddr info) (ConnectedAt info)
               (int64 (Operations info + 1)) op now]> (conns ct))
  end.

Lemma wp_RecordOp id op ct w (Q : unit → W → ConnectionTracker → Prop) :
  (∀ now w', later w w' → Q tt w' (recorded id op now ct)) → wp (RecordOp id op) Q w ct.
Proof.
  intros HQ. unfold RecordOp, recorded in *. apply wp_bind, wp_get_state.
  destruct (conns ct !! id) as [info|]; [|apply wp_ret, (HQ 0); by apply later_preorder].
  apply wp_bind, wp_now. intros now w' Hw. by apply wp_put_state, HQ.
Qed.
End side_effects.

(** Programs that only let time pass. *)
Section waits.
Context {W : Type} `{RuntimeLaws W}.
Definition waits {T} : relation (W * T) := λ σ σ', later σ.1 σ'.1.
#[global] Instance waits_preorder {T} : PreOrder (waits (T:=T)).
Proof. split; unfold waits; [intros σ; reflexivity|]. intros σ1 σ2 σ3 ??. by etrans. Qed.
Lemma waits_world {A T} (f : W → A * W) :
  (∀ w, later w (f w).2) → preserves (waits (T:=T)) (world f).
Proof. intros Hf. apply preserves_world. intros w t. apply Hf. Qed.
Lemma waits_set {T} (t : T) : preserves (waits (T:=T)) (put_state t).
Proof. intros [w t']. unfold waits. cbn. reflexivity. Qed.
End waits.
#[export] Hint Resolve waits_set : sound.

(** The logger is open: requests are only served before shutdown. *)
Definition audit_open {S} (h : HandlerState S) : Prop :=
  match audit h with Some a => ch_closed a = false | None => True end.

Section requests.
Context {W S : Type} `{RuntimeLaws W} `{!SqlDriver W} `{Hkdf} `{!Storage W S}.
Context {Inv : W → S → Prop} {view : S → Vault} {faulty : Prop}.
Context `{!StorageSpec W S Inv view faulty} `{KmipLib} `{!CryptoLib W} `{!CryptoLaws W}.
Implicit Types (h : HandlerState S) (w : W).

Definition handler_inv w h : Prop := Inv w (store h) ∧ audit_open h.
Definition handler_view h : Vault := view (store h).

Lemma handler_inv_later w w' h : later w w' → handler_inv w h → handler_inv w' h.
Proof. intros ? [? ?]. split; [by eapply spec_later|done]. Qed.

(** What one audit call does to the handler. *)
Definition logged (e : Entry) h : HandlerState S :=
  mkHandler (store h) (enqueued e <$> audit h) (tracker h).

Lemma wp_logOperation source operation clientID objectUID objectName status message remoteAddr
    h w (Q : unit → W → HandlerState S → Prop) :
  audit_open h →
  (∀ now w', later w w' →
     Q tt w' (logged (mkEntry 0 now source operation clientID objectUID objectName status message
       remoteAddr) h)) →
  wp (logOperation source operation clientID objectUID objectName status message remoteAddr) Q w h.
Proof.
  intros Hopen HQ. unfold logOperation, with_audit, logged, audit_open in *.
  apply wp_bind, wp_get_state. destruct h as [st [a|] ct]; cbn in *.
  - apply wp_zoom, wp_bind, wp_now. intros now w1 Hw1. apply wp_Log; [done|].
    intros t w2 Hw2 _. apply (HQ t). by etrans.
  - apply wp_ret, (HQ 0). by apply later_preorder.
Qed.

Lemma wp_with_tracker id op h w (Q : unit → W → HandlerState S → Prop) :
  (∀ now w', later w w' →
     Q tt w' (mkHandler (store h) (audit h) (recorded id op now <$> tracker h))) →
  wp (with_tracker (RecordOp id op)) Q w h.
Proof.
  intros HQ. unfold with_tracker. apply wp_bind, wp_get_state. destruct h as [st a [ct|]]; cbn in *.
  - apply wp_zoom, wp_RecordOp. intros now w' Hw. by apply (HQ now).
  - apply wp_ret, (HQ 0). by apply later_preorder.
Qed.

Lemma enqueued_open e a : ch_closed (enqueued e a) = ch_closed a.
Proof. unfold enqueued. by destruct (_ <? _)%nat. Qed.
Lemma logged_open e h : audit_open h → audit_open (logged e h).
Proof.
  unfold audit_open, logged; cbn. destruct (audit h); cbn; [|done]. by rewrite enqueued_open.
Qed.

(** The entry and the counter [process_after] adds. *)
Definition processed (operation : Z) (payload : option Item) (cn remoteAddr connID : string)
    (response : bytes) (t1 t2 : Time) h : HandlerState S :=
  let '(status, message, uid) := audit_outcome (request_uid payload) response in
  let h := logged (mkEntry 0 t1 "kmip" (operationName operation) cn uid EmptyString status message
    remoteAddr) h in
  mkHandler (store h) (audit h) (recorded connID (operationName operation) t2 <$> tracker h).

Lemma wp_process_after operation payload cn remoteAddr connID response h w
    (Q : bytes → W → HandlerState S → Prop) :
  audit_open h →
  (∀ t1 t2 w', later w w' →
     Q response w' (processed operation payload cn remoteAddr connID response t1 t2 h)) →
  wp (process_after operation payload cn remoteAddr connID response) Q w h.
Proof.
  intros Hopen HQ. unfold process_after, processed in *.
  destruct (audit_outcome _ response) as [[status message] uid].
  apply wp_bind, wp_logOperation; [done|]. intros t1 w1 Hw1.
  apply wp_bind, wp_with_tracker. intros t2 w2 Hw2.
  apply wp_ret, HQ. by etrans.
Qed.

Lemma processed_inv operation payload cn remoteAddr connID response t1 t2 h w :
  handler_inv w h → handler_inv w (processed operation payload cn remoteAddr connID response t1 t2 h).
Proof.
  intros [? Hopen]. unfold processed. destruct (audit_outcome _ _) as [[??]?].
  split; [done|]. by apply (logged_open _ h).
Qed.
Lemma processed_store operation payload cn remoteAddr connID response t1 t2 h :
  store (processed operation payload cn remoteAddr connID response t1 t2 h) = store h.
Proof. unfold processed. by destruct (audit_outcome _ _) as [[??]?]. Qed.

Context `{!KmipLaws}.

Lemma key_types : ObjectTypePrivateKey ≠ 1 ∧ ObjectTypePublicKey ≠ 1.
Proof. destruct object_type_numbers as (_ & _ & -> & ->). done. Qed.

(** One item, with what it leaves in the logger and the tracker. *)
Lemma wp_processBatchItem bi cn remoteAddr connID h w :
  handler_inv w h →
  wp (processBatchItem bi cn remoteAddr connID)
    (λ res w' h', handler_inv w' h' ∧
       item_spec faulty cn bi (handler_view h) res (handler_view h') ∧
       ∀ opItem, FindChild bi TagOperation = Some opItem →
         ∃ t1 t2 st, h' = processed (IntValue opItem) (FindChild bi TagRequestPayload)
           cn remoteAddr connID res t1 t2 (mkHandler st (audit h) (tracker h))) w h.
Proof.
  intros [HI Hopen]. unfold processBatchItem, item_spec.
  destruct (FindChild bi TagOperation) as [opItem|].
  2: { apply wp_ret. by split_and!. }
  destruct key_types as [Hty1 Hty2]. apply wp_bind, wp_zoom.
  eapply wp_mono; [by apply (dispatch_ok _ _ _ (view (store h)))|].
  intros res w1 st [HI1 Hres]. cbn beta. apply wp_process_after; [done|].
  intros t1 t2 w2 Hw2. split_and!.
  - apply processed_inv. split; [by eapply spec_later|done].
  - unfold handler_view. by rewrite processed_store.
  - intros ? [= <-]. by exists t1, t2, st.
Qed.

Lemma processBatchItem_ok bi cn remoteAddr connID h w :
  handler_inv w h →
  wp (processBatchItem bi cn remoteAddr connID)
    (λ res w' h', handler_inv w' h' ∧
       item_spec faulty cn bi (handler_view h) res (handler_view h')) w h.
Proof.
  intros HI. eapply wp_mono; [by apply wp_processBatchItem|]. by intros res w' h' (? & ? & _).
Qed.

Lemma batch_ok cn remoteAddr connID items h w :
  handler_inv w h →
  wp (mapM_ (λ bi, processBatchItem bi cn remoteAddr connID) items)
    (λ ress w' h', handler_inv w' h' ∧
       batch_spec faulty cn items (handler_view h) ress (handler_view h')) w h.
Proof.
  revert h w. induction items as [|bi items IH]; intros h w HI; cbn [mapM_].
  { apply wp_ret. split; [done|constructor]. }
  wp_use processBatchItem_ok as res w1 h1 [HI1 Hres]; [done|].
  wp_use IH as ress w2 h2 [HI2 Hress]; [done|].
  apply wp_ret. split; [done|]. by econstructor.
Qed.

Lemma HandleRequest_ok data cn remoteAddr connID h w :
  handler_inv w h →
  wp (HandleRequest data cn remoteAddr connID)
    (λ res w' h', handler_inv w' h' ∧
       request_spec faulty data cn (handler_view h) res (handler_view h')) w h.
Proof.
  intros HI. unfold HandleRequest, request_spec, refuse_request.
  destruct (DecodeTTLV data 0) as [msg|e].
  2: { destruct HI as [HI Hopen]. apply wp_bind, wp_logOperation; [done|]. intros now w' Hw.
       apply wp_ret. split; [|done]. split; [by eapply spec_later|by apply logged_open]. }
  destruct (Tag msg =? TagRequestMessage); [|by apply wp_ret].
  destruct (rejected_version msg); [by apply wp_ret|]. cbv zeta. cbn [negb].
  destruct (_ =? 0)%nat; [by apply wp_ret|]. unfold maxBatchItems.
  destruct (_ <? _)%nat; [by apply wp_ret|]. cbn [negb].
  wp_use batch_ok as ress w' h' [HI' Hb]; [done|]. apply wp_ret. split; [done|].
  exists ress. by rewrite (batch_length _ _ _ _ _ _ Hb).
Qed.
End requests.
