(* ===== verification/RequestTheorems.v ===== *)
(** * Properties of the KMIP protocol handler

    Total correctness of a request, the lifecycle of objects over any sequence of
    requests, the refusals, the batch and the audit trail.  Each theorem is over any
    backend that meets [StorageSpec]; its witness runs it on the in-memory store with
    the instances of Testbed. *)

From Stdlib Require Import ZArith Lia.
From stdpp Require Import relations.
From S2P Require Import Prelude GoRuntime Storage MemoryStore MemoryStoreProofs SQLiteStore.
From S2P Require Import KmipLib CryptoLib AuditLog Connections Testbed Lifecycle Handler.
From S2P Require Import HandlerSpec HandlerProofs Requests RequestProofs.
Local Open Scope Z_scope.
Local Open Scope go_scope.

(** One message on a connection: its bytes, the client, its address, the connection. *)
Record Request := mkRequest {
  rq_data : bytes;
  rq_clientCN : string;
  rq_remoteAddr : string;
  rq_connID : string;
}.

(** ** The concrete handler of the witnesses *)
Definition test_logger : Logger := mkLogger [] false false [] 1.
Definition test_handler : HandlerState MemoryStore :=
  NewHandler NewMemoryStore (Some test_logger) (Some NewConnectionTracker).
Abbreviation test_inv := (handler_inv (W:=TestWorld) (Inv:=mem_inv)).
Lemma test_handler_inv w : test_inv w test_handler.
Proof. split; [apply NewMemoryStore_inv|done]. Qed.

Section serving.
Context {W S : Type} `{Runtime W} `{!SqlDriver W} `{!Storage W S} `{KmipLib} `{!CryptoLib W}.

(** The requests one handler serves, one after the other. *)
Definition serve (reqs : list Request) : M W (HandlerState S) (list bytes) :=
  mapM_ (λ rq, HandleRequest (rq_data rq) (rq_clientCN rq) (rq_remoteAddr rq) (rq_connID rq)) reqs.
End serving.

Section theorems.
Context {W S : Type} `{RuntimeLaws W} `{!SqlDriver W} `{Hkdf} `{!Storage W S}.
Context {Inv : W → S → Prop} {view : S → Vault} {faulty : Prop}.
Context `{!StorageSpec W S Inv view faulty} `{KmipLib} `{!CryptoLib W} `{!CryptoLaws W}.
Context `{!KmipLaws}.
Implicit Types (h : HandlerState S) (w : W) (uid : string).
Local Abbreviation handler_inv := (handler_inv (Inv:=Inv)).
Local Abbreviation handler_view := (handler_view (view:=view)).

(** Serving keeps the invariant and evolves the vault; shared by the theorems below. *)
Lemma serve_evolves reqs h w :
  handler_inv w h →
  wp (serve reqs) (λ ress w' h', handler_inv w' h' ∧
    evolves (handler_view h) (handler_view h') ∧ length ress = length reqs) w h.
Proof.
  revert h w. induction reqs as [|rq reqs IH]; intros h w HI; unfold serve; cbn [mapM_].
  { apply wp_ret. split_and!; [done|apply rtc_refl|done]. }
  wp_use HandleRequest_ok as res w1 h1 [HI1 Hres]; [done|].
  wp_use IH as ress w2 h2 (HI2 & Hev & Hlen); [done|].
  apply wp_ret. split_and!; [done| |by cbn; rewrite Hlen].
  etrans; [|exact Hev]. apply (request_within faulty (rq_data rq) (rq_clientCN rq)) in Hres; [done|].
  destruct HI as [HI _]. by eapply (spec_wf w (store h)).
Qed.

Lemma serve_object reqs h w ress w' h' uid r :
  handler_inv w h → serve reqs (w, h) = (Ok ress, (w', h')) →
  objects (handler_view h) !! uid = Some r →
  ∃ r', objects (handler_view h') !! uid = Some r' ∧ rtc kmip_step r r'.
Proof.
  intros HI Hrun Hr. eapply wp_run in Hrun; [|by apply serve_evolves].
  destruct Hrun as (_ & Hev & _). by eapply evolves_object.
Qed.

(** C1: [HandleRequest] never panics and always answers.  Whatever bytes arrive, it
    returns a response, the handler's invariant holds again, and response and vault
    are what the request means ([request_spec]): undecodable, mistyped, unsupported
    or oversized messages are refused without effect, and a batch is executed item
    by item in order, each item according to the KMIP semantics of its operation. *)
Theorem request_implements_kmip data cn remoteAddr connID h w :
  handler_inv w h →
  ∃ res w' h', HandleRequest data cn remoteAddr connID (w, h) = (Ok res, (w', h')) ∧
    handler_inv w' h' ∧
    request_spec faulty data cn (handler_view h) res (handler_view h').
Proof. intros HI. eapply wp_returns. by apply HandleRequest_ok. Qed.

(** C2: Over any sequence of requests, the vault only changes along the KMIP
    lifecycle: new objects enter pre-active with fresh identifiers, and an existing
    object only takes the transitions of the state machine.  Every request gets a
    response. *)
Theorem requests_follow_lifecycle reqs h w :
  handler_inv w h →
  ∃ ress w' h', serve reqs (w, h) = (Ok ress, (w', h')) ∧ length ress = length reqs ∧
    evolves (handler_view h) (handler_view h').
Proof.
  intros HI. destruct (wp_returns _ _ _ _ (serve_evolves reqs h w HI)) as (ress & w' & h' & Hrun & _ & ? & ?).
  by exists ress, w', h'.
Qed.


(** Destruction is final: the record of a destroyed object is never changed again,
    by any sequence of requests, and no later object takes its identifier. *)
Theorem destroyed_forever reqs h w ress w' h' uid r :
  handler_inv w h → serve reqs (w, h) = (Ok ress, (w', h')) →
  objects (handler_view h) !! uid = Some r → State r = StateDestroyed →
  objects (handler_view h') !! uid = Some r.
Proof.
  intros HI Hrun Hr Hd. destruct (serve_object _ _ _ _ _ _ _ _ HI Hrun Hr) as (r' & Hr' & Hs).
  by rewrite <-(destroyed_final _ _ Hs Hd).
Qed.

(** No request changes what an object is: its identifier, name, type, algorithm,
    length, usage mask, owner and creation time stay as they were. *)
Theorem identity_immutable reqs h w ress w' h' uid r :
  handler_inv w h → serve reqs (w, h) = (Ok ress, (w', h')) →
  objects (handler_view h) !! uid = Some r →
  ∃ r', objects (handler_view h') !! uid = Some r' ∧ same_identity r r'.
Proof.
  intros HI Hrun Hr. destruct (serve_object _ _ _ _ _ _ _ _ HI Hrun Hr) as (r' & ? & Hs).
  exists r'. split; [done|]. by apply kmip_steps_identity.
Qed.

(** ** Archive and Recover *)
Lemma find_op_archive cn :
  find_op OpArchive (kmip_spec faulty cn) = Some archive_spec ∧
  find_op OpRecover (kmip_spec faulty cn) = Some recover_spec.
Proof.
  destruct operation_numbers as (N1 & N8 & N9 & N10 & N18 & N20).
  cbn [kmip_spec find_op]. by rewrite N1, N8, N9, N10, N18, N20.
Qed.

Lemma transition_refused name f op payload v res v' :
  (∀ uid r, lookup_live v uid = Some r → (validateStateTransition (State r) name).2 = false) →
  transition_spec name f op payload v res v' →
  v' = v ∧ ∃ reason msg, res = buildBatchItemError op reason msg.
Proof.
  intros Hno. unfold transition_spec, need_uid, need_payload, need, need_object, need_state, refuse.
  destruct payload as [p|]; [|by intros [-> ->]; eauto].
  destruct (FindChild p _) as [u|]; [|by intros [-> ->]; eauto].
  destruct (lookup_live v _) as [r|] eqn:Hr; [|by intros [-> ->]; eauto].
  specialize (Hno _ _ Hr). destruct (validateStateTransition _ _) as [[reason msg] valid].
  cbn in Hno. rewrite Hno. intros [-> ->]. eauto.
Qed.

Lemma reachable_not_archivable r : reachable_state r →
  (validateStateTransition (State r) "Archive").2 = false ∧
  (validateStateTransition (State r) "Recover").2 = false.
Proof.
  unfold reachable_state. rewrite !elem_of_cons, elem_of_nil.
  by intros [->|[->|[->|[->|?]]]].
Qed.

Definition all_reachable (v : Vault) : Prop := ∀ uid r, objects v !! uid = Some r → reachable_state r.

Lemma evolves_reachable v v' : evolves v v' → all_reachable v → all_reachable v'.
Proof.
  intros Hev Hall uid r' Hr'. destruct (objects v !! uid) as [r|] eqn:Hr.
  - destruct (evolves_object _ _ _ _ Hev Hr) as (r1 & Hr1 & Hs).
    replace r' with r1 by congruence. by apply (reachable_stays _ _ Hs), (Hall uid).
  - destruct (evolves_new _ _ _ _ Hev Hr' Hr) as (r0 & (Hst & _) & _ & Hs).
    apply (reachable_stays _ _ Hs). unfold reachable_state. rewrite Hst. left.
Qed.

(** C18: Starting from a vault whose objects are in the reachable states (an empty
    vault, say), no request ever makes an Archive or a Recover possible: after any
    requests the objects are still pre-active, active, compromised or destroyed, and
    every Archive or Recover item is refused without effect.  (Archive requires the
    Deactivated state, which no operation of the server sets.) *)
Theorem archive_never_succeeds reqs bi opItem cn remoteAddr connID h w ress w1 h1 :
  handler_inv w h → all_reachable (handler_view h) →
  serve reqs (w, h) = (Ok ress, (w1, h1)) →
  FindChild bi TagOperation = Some opItem → IntValue opItem ∈ [OpArchive; OpRecover] →
  all_reachable (handler_view h1) ∧
  ∃ reason msg w2 h2,
    processBatchItem bi cn remoteAddr connID (w1, h1) =
      (Ok (buildBatchItemError (IntValue opItem) reason msg), (w2, h2)) ∧
    handler_view h2 = handler_view h1.
Proof.
  intros HI Hall Hrun Hop Harch. eapply wp_run in Hrun; [|by apply serve_evolves].
  destruct Hrun as (HI1 & Hev & _). pose proof (evolves_reachable _ _ Hev Hall) as Hall1.
  split; [done|].
  destruct (wp_returns _ _ _ _ (processBatchItem_ok bi cn remoteAddr connID h1 w1 HI1))
    as (res & w2 & h2 & Hrun2 & _ & Hspec).
  enough (handler_view h2 = handler_view h1 ∧
    ∃ reason msg, res = buildBatchItemError (IntValue opItem) reason msg) as (? & reason & msg & ->).
  { by exists reason, msg, w2, h2. }
  unfold item_spec in Hspec. rewrite Hop in Hspec.
  destruct Hspec as [Hspec|(_ & ? & ?)]; [|done].
  unfold operation_spec in Hspec. destruct (find_op_archive cn) as [Ha Hr].
  rewrite !elem_of_cons, elem_of_nil in Harch.
  destruct Harch as [He|[He|?]]; [| |done]; rewrite He in *; rewrite ?Ha, ?Hr in Hspec;
    (eapply transition_refused; [|exact Hspec]);
    intros uid r [Hlk _]%lookup_live_Some; by destruct (reachable_not_archivable r (Hall1 _ _ Hlk)).
Qed.
End theorems.

(** ** Witnesses *)
Definition test_create_request : Request :=
  mkRequest (test_request [test_batch_item 1 []; test_batch_item 18 [test_uid_item "uuid-0"];
    test_batch_item 19 [test_uid_item "uuid-0"]]) "client" "10.0.0.1" "conn".
(** The handler after creating, activating and revoking an object. *)
Definition run_state {A W S} (m : M W S A) (w : W) (s : S) : W * S := snd (m (w, s)).
Definition test_revoked : TestWorld * HandlerState MemoryStore :=
  run_state (serve [test_create_request]) test_world test_handler.
Example test_revoked_state :
  State <$> objects (mem_view (store test_revoked.2)) !! "uuid-0" = Some StateCompromised.
Proof. vm_compute. reflexivity. Qed.

Lemma test_serve_inv reqs w (h : HandlerState MemoryStore) :
  test_inv w h → test_inv (run_state (serve reqs) w h).1 (run_state (serve reqs) w h).2.
Proof.
  intros HI. destruct (wp_returns _ _ _ _ (serve_evolves reqs h w HI)) as (ress & w' & h' & Hrun & ? & _).
  unfold run_state. by rewrite Hrun.
Qed.
Lemma test_serve_runs reqs w (h : HandlerState MemoryStore) :
  test_inv w h → ∃ ress w' h', serve reqs (w, h) = (Ok ress, (w', h')).
Proof.
  intros HI. destruct (wp_returns _ _ _ _ (serve_evolves reqs h w HI)) as (ress & w' & h' & Hrun & _).
  by exists ress, w', h'.
Qed.
Lemma test_revoked_inv : test_inv test_revoked.1 test_revoked.2.
Proof. apply test_serve_inv, test_handler_inv. Qed.
Lemma state_of_lookup (o : option KeyRecord) st :
  State <$> o = Some st → ∃ r, o = Some r ∧ State r = st.
Proof. destruct o as [r|]; [|done]. intros [= <-]. by exists r. Qed.

(** After revocation, a request that tries to activate and then destroy the object. *)
Definition test_reactivate : Request :=
  mkRequest (test_request [test_batch_item 18 [test_uid_item "uuid-0"]]) "client" "10.0.0.1" "conn".
Definition test_destroy : Request :=
  mkRequest (test_request [test_batch_item 20 [test_uid_item "uuid-0"]]) "client" "10.0.0.1" "conn".
Definition test_destroyed : TestWorld * HandlerState MemoryStore :=
  run_state (serve [test_destroy]) test_revoked.1 test_revoked.2.
Example test_destroyed_state :
  State <$> objects (mem_view (store test_destroyed.2)) !! "uuid-0" = Some StateDestroyed.
Proof. vm_compute. reflexivity. Qed.
Lemma test_destroyed_inv : test_inv test_destroyed.1 test_destroyed.2.
Proof. apply test_serve_inv, test_revoked_inv. Qed.

Lemma request_implements_kmip_witness :
  ∃ res w' h', HandleRequest (rq_data test_create_request) "client" "10.0.0.1" "conn"
      (test_world, test_handler) = (Ok res, (w', h')) ∧ test_inv w' h' ∧
    request_spec (W:=TestWorld) False (rq_data test_create_request) "client" (mkVault ∅ ∅) res
      (mem_view (store h')).
Proof.
  exact (request_implements_kmip (rq_data test_create_request) "client" "10.0.0.1" "conn"
    test_handler test_world (test_handler_inv test_world)).
Defined.

Lemma requests_follow_lifecycle_witness :
  ∃ ress w' (h' : HandlerState MemoryStore),
    serve [test_create_request; test_destroy] (test_world, test_handler) = (Ok ress, (w', h')) ∧
    length ress = 2%nat ∧ evolves (mkVault ∅ ∅) (mem_view (store h')).
Proof.
  exact (requests_follow_lifecycle [test_create_request; test_destroy] test_handler test_world
    (test_handler_inv test_world)).
Defined.


Lemma destroyed_forever_witness :
  ∃ ress w' (h' : HandlerState MemoryStore) r,
    serve [test_reactivate] test_destroyed = (Ok ress, (w', h')) ∧
    State r = StateDestroyed ∧ objects (mem_view (store h')) !! "uuid-0" = Some r.
Proof.
  destruct (state_of_lookup _ _ test_destroyed_state) as (r & Hr & Hd).
  destruct (test_serve_runs [test_reactivate] _ _ test_destroyed_inv) as (ress & w' & h' & Hrun).
  exists ress, w', h', r. split_and!; [by rewrite <-surjective_pairing in Hrun|done|].
  exact (destroyed_forever _ _ _ _ _ _ "uuid-0" r test_destroyed_inv Hrun Hr Hd).
Defined.

Lemma identity_immutable_witness :
  ∃ ress w' (h' : HandlerState MemoryStore) r r',
    serve [test_destroy] test_revoked = (Ok ress, (w', h')) ∧
    objects (mem_view (store test_revoked.2)) !! "uuid-0" = Some r ∧
    objects (mem_view (store h')) !! "uuid-0" = Some r' ∧ same_identity r r'.
Proof.
  destruct (state_of_lookup _ _ test_revoked_state) as (r & Hr & _).
  destruct (test_serve_runs [test_destroy] _ _ test_revoked_inv) as (ress & w' & h' & Hrun).
  destruct (identity_immutable _ _ _ _ _ _ "uuid-0" r test_revoked_inv Hrun Hr) as (r' & ? & ?).
  exists ress, w', h', r, r'. rewrite <-surjective_pairing in Hrun. by split_and!.
Defined.

Lemma archive_never_succeeds_witness :
  ∃ ress w1 h1 reason msg w2 h2,
    serve [test_create_request] (test_world, test_handler) = (Ok ress, (w1, h1)) ∧
    processBatchItem (test_batch_item 21 [test_uid_item "uuid-0"]) "client" "10.0.0.1" "conn" (w1, h1)
      = (Ok (buildBatchItemError 21 reason msg), (w2, h2)) ∧
    mem_view (store h2) = mem_view (store h1).
Proof.
  destruct (test_serve_runs [test_create_request] _ _ (test_handler_inv test_world))
    as (ress & w1 & h1 & Hrun).
  destruct (archive_never_succeeds _ (test_batch_item 21 [test_uid_item "uuid-0"] : @Item test_kmip)
    (TInt TagOperation 21) "client" "10.0.0.1" "conn" _ _ _ _ _ (test_handler_inv test_world)
    (λ uid r Hr, match lookup_empty_Some uid r Hr with end) Hrun eq_refl
    (list_elem_of_here _ _)) as (_ & reason & msg & w2 & h2 & Hrun2 & Hv).
  exists ress, w1, h1, reason, msg, w2, h2. by split_and!.
Defined.
