(* ===== verification/ProtocolTheorems.v ===== *)
(** * Properties of messages, the dispatch and the audit trail

    The refusals of whole messages, the operations the server advertises, and what the
    audit log and the connection counters record of each item. *)

From Stdlib Require Import ZArith Lia.
From S2P Require Import Prelude GoRuntime Storage MemoryStore MemoryStoreProofs SQLiteStore.
From S2P Require Import KmipLib CryptoLib AuditLog Connections Testbed Handler HandlerSpec.
From S2P Require Import HandlerProofs Requests RequestProofs RequestTheorems.
Local Open Scope Z_scope.
Local Open Scope go_scope.

(** ** Refused messages *)
Section messages.
Context {W S : Type} `{Runtime W} `{!SqlDriver W} `{!Storage W S} `{KmipLib} `{!CryptoLib W}.

Lemma version_supported_spec maj min :
  version_supported (maj, min) = true ↔ maj < 1 ∨ maj = 1 ∧ min ≤ 4.
Proof.
  unfold version_supported, supportedMajor, supportedMinor. cbn [fst snd].
  rewrite negb_true_iff, orb_false_iff, andb_false_iff, Z.ltb_ge, Z.eqb_neq, Z.ltb_ge. lia.
Qed.

(** C19: A request of protocol version 1.4 or lower passes the version check, and any
    higher version is refused with "feature not supported" before any item runs:
    nothing at all changes, neither the vault nor the audit log. *)
Theorem version_gate data msg maj min cn remoteAddr connID (σ : W * HandlerState S) :
  DecodeTTLV data 0 = Val msg → Tag msg = TagRequestMessage →
  request_version msg = Some (maj, min) →
  (rejected_version msg = None ↔ maj < 1 ∨ maj = 1 ∧ min ≤ 4) ∧
  (1 < maj ∨ maj = 1 ∧ 4 < min →
    HandleRequest data cn remoteAddr connID σ =
      (Ok (buildErrorResponse 0 ReasonFeatureNotSupported
        ("unsupported version " +:+ fmt_d maj +:+ "." +:+ fmt_d min +:+
         "; server supports 1.4")), σ)).
Proof.
  intros Hdec Htag Hver. pose proof (version_supported_spec maj min) as Hsup.
  unfold HandleRequest, rejected_version. rewrite Hdec, Htag, Hver, Z.eqb_refl. split.
  - rewrite <-Hsup. by destruct (version_supported _).
  - intros Hhigh. destruct (version_supported _); [|done]. lia.
Qed.

(** C20: A message that is not a request, has no batch item, or has more than 100 is
    answered with an error response and changes nothing. *)
Theorem malformed_batch_refused data msg cn remoteAddr connID (σ : W * HandlerState S) :
  DecodeTTLV data 0 = Val msg →
  Tag msg ≠ TagRequestMessage ∨
    rejected_version msg = None ∧
    (FindChildren msg TagBatchItem = [] ∨ (100 < length (FindChildren msg TagBatchItem))%nat) →
  ∃ reason text, HandleRequest data cn remoteAddr connID σ =
    (Ok (buildErrorResponse 0 reason text), σ) ∧
    reason ∈ [ReasonInvalidMessage; ReasonResponseTooLarge].
Proof.
  intros Hdec Hbad. unfold HandleRequest. rewrite Hdec.
  destruct (Z.eqb_spec (Tag msg) TagRequestMessage) as [Htag|Htag].
  2: { do 2 eexists. split; [done|]. by left. }
  destruct Hbad as [?|[-> Hbad]]; [done|]. cbv zeta. unfold maxBatchItems.
  destruct Hbad as [->|Hbad]; [do 2 eexists; split; [done|]; by left|].
  destruct (Nat.eqb_spec (length (FindChildren msg TagBatchItem)) 0) as [Hz|Hz]; [lia|].
  destruct (Nat.ltb_spec 100 (length (FindChildren msg TagBatchItem))); [|lia].
  do 2 eexists. split; [done|]. by right; left.
Qed.
End messages.

Lemma version_gate_witness :
  HandleRequest (test_encode (test_message 2 0 [])) "client" "10.0.0.1" "conn"
      (test_world, test_handler) =
    (Ok (buildErrorResponse 0 ReasonFeatureNotSupported
       "unsupported version 2.0; server supports 1.4"), (test_world, test_handler)).
Proof.
  apply (version_gate (test_encode (test_message 2 0 [])) (test_message 2 0 [] : @Item test_kmip) 2 0);
    [vm_compute; reflexivity|reflexivity|reflexivity|left; reflexivity].
Defined.

Lemma malformed_batch_refused_witness :
  ∃ reason text,
    HandleRequest (test_request (replicate 101 (test_batch_item 26 []))) "client" "10.0.0.1" "conn"
      (test_world, test_handler) =
      (Ok (buildErrorResponse 0 reason text), (test_world, test_handler)) ∧
    reason ∈ [ReasonInvalidMessage; ReasonResponseTooLarge].
Proof.
  apply (malformed_batch_refused _
    (test_message 1 4 (replicate 101 (test_batch_item 26 [])) : @Item test_kmip));
    [vm_compute; reflexivity|]. right. split; [reflexivity|]. right. vm_compute. lia.
Defined.

(** ** The operations *)
Ltac unfold_operations :=
  unfold OperationCreateKeyPair, OperationRegister, OperationRevoke, OperationGetAttributes,
    OperationQuery, OperationDiscoverVersions, OperationEncrypt, OperationDecrypt, OperationSign,
    OperationSignatureVerify, OperationMAC, OperationReKey, OperationGetAttributeList,
    OpAddAttribute, OpModifyAttribute, OpDeleteAttribute, OpDeriveKey, OpObtainLease, OpPoll,
    OpArchive, OpRecover in *.
(** One comparison of the switch with a number. *)
Ltac split_operation op tac :=
  repeat match goal with |- context [if op =? ?n then _ else _] =>
    destruct (Z.eqb_spec op n); [solve [tac]|] end.
Section operations.
Context {W S : Type} `{Runtime W} `{!Storage W S} `{Hkdf} `{KmipLib} `{!CryptoLib W}.
Context `{!KmipLaws}.

Lemma query_operations_numbers : query_operations =
  [1; 2; 3; 4; 5; 8; 9; 10; 11; 12; 13; 14; 15; 16; 18; 19; 20; 21; 22; 24; 26; 30; 31; 32; 33; 34; 35].
Proof.
  destruct operation_numbers as (N1 & N8 & N9 & N10 & N18 & N20).
  unfold query_operations. by rewrite N1, N8, N9, N10, N18, N20.
Qed.


(** The audit log's operation names identify the operation: no operation the
    server implements shares its name with another number, known or unknown. *)
Theorem operationName_identifies op1 op2 :
  op1 ∈ query_operations → operationName op1 = operationName op2 → op1 = op2.
Proof.
  rewrite query_operations_numbers, !elem_of_cons, elem_of_nil. intros Hin.
  destruct operation_numbers as (N1 & N8 & N9 & N10 & N18 & N20).
  unfold operationName. rewrite N1, N8, N9, N10, N18, N20. unfold_operations.
  repeat match type of Hin with _ ∨ _ => destruct Hin as [->|Hin] end; [..|done].
  all: cbn [Z.eqb Pos.eqb]; split_operation op2 ltac:(subst; discriminate || (intros _; reflexivity)).
  all: intros Heq; discriminate Heq.
Qed.
End operations.


Lemma operationName_identifies_witness : operationName 18 = "Activate" ∧ (operationName 18 = operationName 18 → 18 = 18).
Proof.
  split; [reflexivity|]. apply operationName_identifies.
  rewrite query_operations_numbers, !elem_of_cons. auto 20.
Defined.

(** ** What a response item says *)
Section responses.
Context `{KmipLaws}.

Definition well_encoded (e : bytes) : Prop := ∃ i, decodes e i.

Lemma well_encoded_all es : Forall well_encoded es → ∃ cs, Forall2 decodes es cs.
Proof.
  induction 1 as [|e es [i Hi] _ [cs Hcs]]; [by exists []|]. exists (i :: cs). by constructor.
Qed.

Lemma tags_distinct :
  TagOperation ≠ TagResultStatus ∧ TagOperation ≠ TagResultMessage ∧
  TagOperation ≠ TagResponsePayload ∧
  TagResultStatus ≠ TagResultMessage ∧ TagResultStatus ≠ TagResponsePayload ∧
  TagResultReason ≠ TagResultMessage ∧ TagResultReason ≠ TagResponsePayload ∧
  TagResultMessage ≠ TagResponsePayload.
Proof.
  destruct response_tags as [_ Hn]. rewrite !NoDup_cons, !elem_of_cons in Hn.
  intuition congruence.
Qed.
Lemma tag_ok t : t ∈ [TagBatchItem; TagOperation; TagResultStatus; TagResultReason;
  TagResultMessage; TagResponsePayload; TagUniqueIdentifier] → is_tag t.
Proof. destruct response_tags as [Ht _]. rewrite Forall_forall in Ht. apply Ht. Qed.

Lemma error_item_outcome op reason msg uid :
  in_int32 op → in_int32 reason → fits (buildBatchItemError op reason msg) →
  (audit_outcome uid (buildBatchItemError op reason msg)).1 = ("failure", msg).
Proof.
  intros Hop Hreason Hfits. destruct status_numbers as [N0 N1].
  destruct tags_distinct as (? & ? & ? & ? & ? & ? & ? & ?).
  assert (∃ cs, Forall2 decodes (if op =? 0 then [] else [EncodeEnum TagOperation op]) cs ∧
    ∀ t, t ≠ TagOperation → filter (λ c, Tag c = t) cs = []) as (cs0 & Hcs0 & Hskip).
  { destruct (op =? 0); [by exists []|].
    destruct (decode_enum TagOperation op) as (i & Hi & Ht & _); [apply tag_ok; set_solver|done|].
    exists [i]. split; [by repeat constructor|]. intros t Hne. by rewrite filter_cons_False by congruence. }
  destruct (decode_enum TagResultStatus ResultStatusOperationFailed) as (i1 & Hi1 & Ht1 & Hv1);
    [apply tag_ok; set_solver|by rewrite N1|].
  destruct (decode_enum TagResultReason reason) as (i2 & Hi2 & Ht2 & _);
    [apply tag_ok; set_solver|done|].
  destruct (decode_text TagResultMessage msg) as (i3 & Hi3 & Ht3 & Hv3); [apply tag_ok; set_solver| |].
  { eapply fits_structure; [|exact Hfits]. apply elem_of_app. right. set_solver. }
  unfold audit_outcome, buildBatchItemError in *.
  destruct (decode_structure TagBatchItem ((if op =? 0 then [] else [EncodeEnum TagOperation op]) ++
    [EncodeEnum TagResultStatus ResultStatusOperationFailed; EncodeEnum TagResultReason reason;
     EncodeTextString TagResultMessage msg]) (cs0 ++ [i1; i2; i3])) as (i & Hi & _ & _ & Hfind);
    [apply tag_ok; set_solver|done|by apply Forall2_app; [|repeat constructor]|].
  unfold decodes in Hi. rewrite Hi, !Hfind, !filter_app, !Hskip by congruence.
  rewrite !filter_cons, !filter_nil.
  repeat case_decide; try congruence; cbn; by rewrite Hv1, N0, N1, Hv3.
Qed.

Lemma success_item_outcome op children uid :
  in_int32 op → Forall well_encoded children → fits (buildBatchItemSuccess op children) →
  (audit_outcome uid (buildBatchItemSuccess op children)).1 = ("success", EmptyString).
Proof.
  intros Hop Hch Hfits. destruct status_numbers as [N0 N1].
  destruct tags_distinct as (? & ? & ? & ? & ? & ? & ? & ?).
  set (tail := match children with [] => [] | _ => [EncodeStructure TagResponsePayload children] end).
  assert (∃ cs, Forall2 decodes tail cs ∧
    filter (λ c, Tag c = TagResultStatus) cs = []) as (cs & Hcs & Hskip).
  { subst tail. destruct (well_encoded_all _ Hch) as [cs Hcs].
    destruct children as [|e children]; [by exists []|].
    destruct (decode_structure TagResponsePayload (e :: children) cs) as (i & Hi & Ht & _);
      [apply tag_ok; set_solver| |done|].
    { eapply fits_structure; [|exact Hfits]. apply elem_of_app. right. by left. }
    exists [i]. split; [by repeat constructor|]. by rewrite filter_cons_False by congruence. }
  destruct (decode_enum TagOperation op) as (i0 & Hi0 & Ht0 & _); [apply tag_ok; set_solver|done|].
  destruct (decode_enum TagResultStatus ResultStatusSuccess) as (i1 & Hi1 & Ht1 & Hv1);
    [apply tag_ok; set_solver|by rewrite N0|].
  destruct (decode_structure TagBatchItem ([EncodeEnum TagOperation op;
    EncodeEnum TagResultStatus ResultStatusSuccess] ++ tail) ([i0; i1] ++ cs)) as (i & Hi & _ & _ & Hfind);
    [apply tag_ok; set_solver|done|by apply Forall2_app; [repeat constructor|]|].
  unfold audit_outcome, buildBatchItemSuccess. fold tail. unfold decodes in Hi.
  rewrite Hi, (Hfind TagResultStatus), filter_app, Hskip.
  rewrite (filter_cons_False _ i0), (filter_cons_True _ i1) by congruence. cbn.
  by rewrite Hv1, Z.eqb_refl.
Qed.
End responses.

(** ** What the server remembers of an item *)
Section records.
Context {W S : Type} `{RuntimeLaws W} `{!SqlDriver W} `{Hkdf} `{!Storage W S}.
Context {Inv : W → S → Prop} {view : S → Vault} {faulty : Prop}.
Context `{!StorageSpec W S Inv view faulty} `{KmipLib} `{!CryptoLib W} `{!CryptoLaws W}.
Context `{!KmipLaws}.
Implicit Types (h : HandlerState S) (w : W).

(** What the entry of an item with operation [op] and response [res] says. *)
Definition entry_of_item (cn remoteAddr : string) (op : Z) (res : bytes) (e : Entry) : Prop :=
  e_Source e = "kmip" ∧ e_Operation e = operationName op ∧ e_ClientID e = cn ∧
  e_RemoteAddr e = remoteAddr ∧
  (∀ reason msg, in_int32 reason → fits res → res = buildBatchItemError op reason msg →
     e_Status e = "failure" ∧ e_Message e = msg) ∧
  (∀ children, Forall well_encoded children → fits res → res = buildBatchItemSuccess op children →
     e_Status e = "success" ∧ e_Message e = EmptyString).

(** C22: Every item with an operation leaves exactly one entry at the end of the audit
    queue of 256, if there is room for it (nothing otherwise); the entry names the
    operation, the client and its address, and its status is that of the response:
    "failure" with the response's message for a refusal, "success" otherwise. *)
Theorem audit_matches_response bi opItem cn remoteAddr connID h w a :
  Requests.audit h = Some a → handler_inv (Inv:=Inv) w h →
  FindChild bi TagOperation = Some opItem →
  ∃ res w' h' a', processBatchItem bi cn remoteAddr connID (w, h) = (Ok res, (w', h')) ∧
    Requests.audit h' = Some a' ∧ audit_log a' = audit_log a ∧
    if (length (ch a) <? ch_cap)%nat
    then ∃ e, ch a' = ch a ++ [e] ∧ entry_of_item cn remoteAddr (IntValue opItem) res e
    else ch a' = ch a.
Proof.
  intros Ha HI Hop.
  destruct (wp_returns _ _ _ _ (wp_processBatchItem bi cn remoteAddr connID h w HI))
    as (res & w' & h' & Hrun & _ & _ & Hproc).
  destruct (Hproc _ Hop) as (t1 & t2 & st & ->). clear Hproc.
  set (payload := FindChild bi TagRequestPayload) in *. unfold processed, logged in *.
  pose proof (IntValue_int32 opItem) as Hint.
  pose proof (λ reason msg Hr Hf, error_item_outcome _ reason msg (request_uid payload) Hint Hr Hf) as Herr.
  pose proof (λ ch Hc Hf, success_item_outcome _ ch (request_uid payload) Hint Hc Hf) as Hok.
  destruct (audit_outcome (request_uid payload) res) as [[status message] uid] eqn:Hout.
  do 4 eexists. split; [exact Hrun|]. cbn [Requests.audit]. rewrite Ha. split; [done|].
  unfold enqueued. destruct (length (ch a) <? ch_cap)%nat; cbn; [|done].
  split; [done|]. eexists. split; [done|]. split_and!; try done.
  - intros reason msg Hr Hf ->. specialize (Herr reason msg Hr Hf). rewrite Hout in Herr.
    by injection Herr.
  - intros children Hc Hf ->. specialize (Hok children Hc Hf). rewrite Hout in Hok.
    by injection Hok.
Qed.

(** Every item with an operation counts once on its connection: the counter of
    the connection goes up by one (as a 64-bit integer), its last operation is this
    one, and no other connection changes. *)
Theorem connection_counts_items bi opItem cn remoteAddr connID h w ct info :
  tracker h = Some ct → conns ct !! connID = Some info → handler_inv (Inv:=Inv) w h →
  FindChild bi TagOperation = Some opItem →
  ∃ res w' h' ct' info', processBatchItem bi cn remoteAddr connID (w, h) = (Ok res, (w', h')) ∧
    tracker h' = Some ct' ∧ conns ct' !! connID = Some info' ∧
    Operations info' = int64 (Operations info + 1) ∧
    LastOp info' = operationName (IntValue opItem) ∧ ClientCN info' = ClientCN info ∧
    ∀ id, id ≠ connID → conns ct' !! id = conns ct !! id.
Proof.
  intros Ht Hinfo HI Hop.
  destruct (wp_returns _ _ _ _ (wp_processBatchItem bi cn remoteAddr connID h w HI))
    as (res & w' & h' & Hrun & _ & _ & Hproc).
  destruct (Hproc _ Hop) as (t1 & t2 & st & ->). unfold processed in *.
  destruct (audit_outcome _ res) as [[status message] uid].
  do 5 eexists. split; [exact Hrun|]. cbn. rewrite Ht. cbn. split; [done|].
  unfold recorded. rewrite Hinfo. cbn. rewrite lookup_insert_eq. split; [done|].
  split_and!; try done. intros id Hid. by rewrite lookup_insert_ne.
Qed.
End records.

Definition test_item : @Item test_kmip := test_batch_item 18 [test_uid_item "uuid-0"].

Lemma audit_matches_response_witness :
  ∃ res w' h' a' e,
    processBatchItem test_item "client" "10.0.0.1" "conn" (test_world, test_handler) = (Ok res, (w', h')) ∧
    Requests.audit h' = Some a' ∧ ch a' = [e] ∧ entry_of_item "client" "10.0.0.1" 18 res e.
Proof.
  destruct (audit_matches_response test_item (TInt TagOperation 18) "client" "10.0.0.1" "conn"
    test_handler test_world test_logger eq_refl (test_handler_inv _) eq_refl)
    as (res & w' & h' & a' & Hrun & Ha & _ & e & He & Hentry).
  by exists res, w', h', a', e.
Defined.

Definition test_connection : ConnectionInfo :=
  mkConnectionInfo "conn" "client" "10.0.0.1" 0 41 "Get" 0.
Definition test_connected : HandlerState MemoryStore :=
  NewHandler NewMemoryStore (Some test_logger) (Some (mkConnectionTracker {["conn" := test_connection]})).

Lemma connection_counts_items_witness :
  ∃ res w' h' ct' info',
    processBatchItem test_item "client" "10.0.0.1" "conn" (test_world, test_connected) = (Ok res, (w', h')) ∧
    tracker h' = Some ct' ∧ conns ct' !! "conn" = Some info' ∧
    Operations info' = 42 ∧ LastOp info' = "Activate" ∧ ClientCN info' = "client".
Proof.
  assert (test_inv test_world test_connected) as HI by (split; [apply NewMemoryStore_inv|done]).
  destruct (connection_counts_items test_item (TInt TagOperation 18) "client" "10.0.0.1" "conn"
    test_connected test_world _ test_connection eq_refl eq_refl HI eq_refl)
    as (res & w' & h' & ct' & info' & Hrun & Hct & Hinfo & Hn & Hop & Hcn & _).
  by exists res, w', h', ct', info'.
Defined.
