(* ===== verification/ObjectTheorems.v ===== *)
(** * Properties of the operations on objects

    The transition table, what Get discloses, the cryptographic round trips, key
    generation and key derivation; over any backend without failures of its own. *)

From Stdlib Require Import ZArith Lia.
From stdpp Require Import relations.
From S2P Require Import Prelude GoRuntime Storage MemoryStore MemoryStoreProofs SQLiteStore.
From S2P Require Import KmipLib CryptoLib Testbed Lifecycle Handler HandlerSpec HandlerProofs.
Local Open Scope Z_scope.
Local Open Scope go_scope.

(** ** The transition table, state by state *)
Inductive transition := TActivate | TRevoke | TDestroy | TArchive | TRecover.

Definition allowed (t : transition) (st : KeyState) : bool :=
  match t with
  | TActivate => st =? 1
  | TRevoke => (st =? 1) || (st =? 2) || (st =? 3)
  | TDestroy => negb ((st =? 5) || (st =? 6))
  | TArchive => st =? 3
  | TRecover => st =? 100
  end.
Definition target (t : transition) : KeyState :=
  match t with TActivate => 2 | TRevoke => 4 | TDestroy => 5 | TArchive => 100 | TRecover => 1 end.
Definition code_name (t : transition) : string :=
  match t with
  | TActivate => "Activate" | TRevoke => "Revoke" | TDestroy => "Destroy"
  | TArchive => "Archive" | TRecover => "Recover"
  end.

Lemma validate_table t st : (validateStateTransition st (code_name t)).2 = allowed t st.
Proof.
  destruct t; cbn; unfold StatePreActive, StateActive, StateDeactivated, StateArchived.
  - by destruct (st =? 1), (st =? 2).
  - case_bool_decide as Hst; rewrite !elem_of_cons, elem_of_nil in Hst; cbn; symmetry;
      unfold StatePreActive, StateActive, StateDeactivated in *; lia.
  - case_bool_decide as Hst; rewrite !elem_of_cons, elem_of_nil in Hst; cbn; symmetry;
      unfold StateDestroyed, StateDestroyedCompromised in *; lia.
  - by destruct (st =? 3).
  - by destruct (st =? 100).
Qed.

Lemma validate_reason st name :
  (validateStateTransition st name).2 = false →
  (validateStateTransition st name).1.1 = ReasonIllegalOperation.
Proof.
  unfold validateStateTransition.
  repeat match goal with |- context [if ?b then _ else _] => destruct b end; by try intros [=].
Qed.

Section objects.
Context {W S : Type} `{RuntimeLaws W} `{Hkdf} `{!Storage W S}.
Context {Inv : W → S → Prop} {view : S → Vault} {faulty : Prop}.
Context `{!StorageSpec W S Inv view faulty} `{KmipLib} `{!CryptoLib W} `{!CryptoLaws W}.
Implicit Types (v : Vault) (op : Z) (w : W) (s : S) (p : Item).

(** A healthy backend: the specification is met outright. *)
Lemma handled_run op v sp (m : M W S bytes) w s :
  ¬ faulty → handled (Inv:=Inv) (view:=view) (faulty:=faulty) op v sp m → Inv w s → view s = v →
  ∃ res w' s', m (w, s) = (Ok res, (w', s')) ∧ Inv w' s' ∧ sp res (view s').
Proof.
  intros Hf Hm HI Hv. destruct (wp_returns _ _ _ _ (Hm w s HI Hv)) as (res & w' & s' & ? & ? & Hsp).
  exists res, w', s'. split_and!; [done..|]. destruct Hsp as [?|[? _]]; done.
Qed.

Definition handler_of (t : transition) : Z → option Item → M W S bytes :=
  match t with
  | TActivate => handleActivate
  | TRevoke => handleRevoke
  | TDestroy => handleDestroy
  | TArchive => handleArchive
  | TRecover => handleRecover
  end.
Definition record_after (t : transition) p (r : KeyRecord) : KeyRecord :=
  match t with
  | TDestroy => destroy_record r
  | TRevoke => revoke_record (revocation_reason p) r
  | _ => set_State (target t) r
  end.

Lemma handler_of_ok t op payload v :
  handled (Inv:=Inv) (view:=view) (faulty:=faulty) op v
    (transition_spec (code_name t) (record_after t) op payload v) (handler_of t op payload).
Proof.
  destruct t; [apply handleActivate_ok|apply handleRevoke_ok|apply handleDestroy_ok
    |apply handleArchive_ok|apply handleRecover_ok].
Qed.

(** C14: The state machine of the five lifecycle operations, exactly as the KMIP table
    has it: on a live object whose state allows the operation, the handler succeeds
    and the object moves to the target state (a destroyed one loses its key
    material); in every other state it answers "illegal operation" and nothing
    changes. *)
Theorem transition_table t op p u r w s :
  ¬ faulty → Inv w s →
  FindChild p TagUniqueIdentifier = Some u → lookup_live (view s) (StringValue u) = Some r →
  ∃ res w' s', handler_of t op (Some p) (w, s) = (Ok res, (w', s')) ∧ Inv w' s' ∧
    if allowed t (State r)
    then res = buildBatchItemSuccess op [EncodeTextString TagUniqueIdentifier (StringValue u)] ∧
         view s' = put_object (record_after t p r) (view s) ∧
         State (record_after t p r) = target t ∧
         (t = TDestroy → Material (record_after t p r) = [])
    else (∃ msg, res = buildBatchItemError op ReasonIllegalOperation msg) ∧ view s' = view s.
Proof.
  intros Hf HI Hu Hr.
  destruct (handled_run _ _ _ _ _ _ Hf (handler_of_ok t op (Some p) (view s)) HI eq_refl)
    as (res & w' & s' & Hrun & HI' & Hsp).
  exists res, w', s'. split_and!; [done..|]. revert Hsp.
  unfold transition_spec, need_uid, need_payload, need, need_object, need_state, update, refuse.
  rewrite Hu, Hr, <-validate_table.
  pose proof (validate_reason (State r) (code_name t)) as Hreason.
  destruct (validateStateTransition (State r) (code_name t)) as [[reason msg] []]; cbn in *.
  - intros [-> ->]. split_and!; [done..|by destruct t|by intros ->].
  - intros [-> ->]. rewrite Hreason by done. split; [by exists msg|done].
Qed.

(** C23: Get hands out key material exactly in the states KMIP allows: for a live
    object that is pre-active, active, deactivated or compromised it returns the
    object with its material, in any other state it refuses; an unknown or destroyed
    identifier is "not found".  The vault never changes. *)
Theorem get_discloses op p u w s :
  ¬ faulty → Inv w s → FindChild p TagUniqueIdentifier = Some u →
  ∃ res w' s', handleGet op (Some p) (w, s) = (Ok res, (w', s')) ∧ view s' = view s ∧
    match lookup_live (view s) (StringValue u) with
    | None => res = buildBatchItemError op ReasonItemNotFound ("object not found: " +:+ StringValue u)
    | Some r =>
        if (State r =? 1) || (State r =? 2) || (State r =? 3) || (State r =? 4)
        then res = buildBatchItemSuccess op
               [EncodeEnum TagObjectType (ObjectType r);
                EncodeTextString TagUniqueIdentifier (UID r); object_data r]
        else ∃ msg, res = buildBatchItemError op ReasonIllegalOperation msg
    end.
Proof.
  intros Hf HI Hu.
  destruct (handled_run _ _ _ _ _ _ Hf (handleGet_ok op (Some p) (view s)) HI eq_refl)
    as (res & w' & s' & Hrun & _ & Hsp).
  exists res, w', s'. split; [done|]. revert Hsp.
  unfold get_spec, need_uid, need_payload, need, need_object, need_state, answer, refuse. rewrite Hu.
  destruct (lookup_live (view s) (StringValue u)) as [r|]; [|done].
  cbn. case_bool_decide as Hst; rewrite !elem_of_cons, elem_of_nil in Hst;
    unfold StatePreActive, StateActive, StateDeactivated, StateCompromised in Hst; cbn.
  - intros [-> ->]. split; [done|]. destruct Hst as [->|[->|[->|[->|?]]]]; done.
  - intros [-> ->]. split; [done|].
    destruct (Z.eqb_spec (State r) 1), (Z.eqb_spec (State r) 2), (Z.eqb_spec (State r) 3),
      (Z.eqb_spec (State r) 4); cbn; first [by eexists|lia].
Qed.

(** ** Cryptography *)
Lemma active_valid name (r : KeyRecord) :
  name ∈ ["Encrypt"; "Decrypt"; "Sign"; "SignatureVerify"; "MAC"] → State r = StateActive →
  validateStateTransition (State r) name = (0, EmptyString, true).
Proof.
  rewrite !elem_of_cons, elem_of_nil. by intros [->|[->|[->|[->|[->|?]]]]] ->.
Qed.

(** The checks of a cryptographic operation on an active key pass. *)
Lemma need_key_passes v op name ty msg uid r (k : KeyRecord → spec) res v' :
  name ∈ ["Encrypt"; "Decrypt"; "Sign"; "SignatureVerify"; "MAC"] →
  lookup_live v uid = Some r → State r = StateActive → ObjectType r = ty →
  need_key v op name ty msg uid k res v' → k r res v'.
Proof.
  intros Hname Hr Hst Hty. unfold need_key, need_object, need_state, need_type.
  by rewrite Hr, (active_valid _ _ Hname Hst), Hty, Z.eqb_refl.
Qed.
Lemma need_data_passes v op p u d (k : Item → string → bytes → spec) res v' :
  FindChild p TagUniqueIdentifier = Some u → FindChild p TagData = Some d →
  need_data v op (Some p) k res v' → k p (StringValue u) (default [] (BytesValue d)) res v'.
Proof. intros Hu Hd. unfold need_data, need_uid, need_payload, need. by rewrite Hu, Hd. Qed.

Definition aes_key (bs : bytes) : Prop := byte_len bs = 16 ∨ byte_len bs = 24 ∨ byte_len bs = 32.
Lemma aes_key_accepted key : aes_key key → aes_NewCipher key = Val key.
Proof. intros Hkey. unfold aes_NewCipher. by rewrite bool_decide_true. Qed.

(** C15: Encrypt and Decrypt are inverse: encrypting under an active AES key succeeds
    with a 12-byte nonce and leaves the vault alone; and in any later state in which
    the key is active with the same material, Decrypt on the returned ciphertext and
    nonce returns exactly the plaintext. *)
Theorem encrypt_decrypt_roundtrip op1 p1 u1 d1 r w s :
  ¬ faulty → Inv w s →
  FindChild p1 TagUniqueIdentifier = Some u1 → FindChild p1 TagData = Some d1 →
  lookup_live (view s) (StringValue u1) = Some r → State r = StateActive →
  ObjectType r = ObjectTypeSymmetricKey → aes_key (Material r) →
  ∃ ct nonce w1 s1,
    handleEncrypt op1 (Some p1) (w, s) =
      (Ok (buildBatchItemSuccess op1 [EncodeTextString TagUniqueIdentifier (UID r);
         EncodeByteString TagData ct; EncodeByteString TagIVCounterNonce nonce]), (w1, s1)) ∧
    byte_len nonce = 12 ∧ view s1 = view s ∧
    ∀ op2 p2 u2 d2 n2 r2 w2 s2, Inv w2 s2 →
      FindChild p2 TagUniqueIdentifier = Some u2 → FindChild p2 TagData = Some d2 →
      FindChild p2 TagIVCounterNonce = Some n2 →
      default [] (BytesValue d2) = ct → default [] (BytesValue n2) = nonce →
      lookup_live (view s2) (StringValue u2) = Some r2 → State r2 = StateActive →
      ObjectType r2 = ObjectTypeSymmetricKey → Material r2 = Material r →
      ∃ w3 s3, handleDecrypt op2 (Some p2) (w2, s2) =
        (Ok (buildBatchItemSuccess op2 [EncodeTextString TagUniqueIdentifier (UID r2);
           EncodeByteString TagData (default [] (BytesValue d1))]), (w3, s3)) ∧ view s3 = view s2.
Proof.
  intros Hf HI Hu Hd Hr Hst Hty Hkey.
  destruct (handled_run _ _ _ _ _ _ Hf (handleEncrypt_ok op1 (Some p1) (view s)) HI eq_refl)
    as (res & w1 & s1 & Hrun & _ & Hsp).
  apply (need_data_passes _ _ _ _ _ _ _ _ Hu Hd) in Hsp.
  eapply need_key_passes in Hsp; [|by left|done..]. unfold need_val in Hsp.
  rewrite aes_key_accepted in Hsp by done. destruct Hsp as (nonce & Hlen & Hv & ->).
  do 4 eexists. split_and!; [exact Hrun|done|done|].
  intros op2 p2 u2 d2 n2 r2 w2 s2 HI2 Hu2 Hd2 Hn2 Hct Hnonce Hr2 Hst2 Hty2 Hmat2.
  destruct (handled_run _ _ _ _ _ _ Hf (handleDecrypt_ok op2 (Some p2) (view s2)) HI2 eq_refl)
    as (res2 & w3 & s3 & Hrun2 & _ & Hsp2).
  apply (need_data_passes _ _ _ _ _ _ _ _ Hu2 Hd2) in Hsp2. unfold need in Hsp2.
  rewrite Hn2 in Hsp2. cbv zeta in Hsp2.
  eapply need_key_passes in Hsp2; [|by right; left|done..]. unfold need_val, need_type in Hsp2.
  rewrite Hmat2, aes_key_accepted, Hct, Hnonce, gcm_open_seal, (proj2 (Z.eqb_eq _ _) Hlen) in Hsp2 by done.
  destruct Hsp2 as [? ->]. by exists w3, s3.
Qed.

(** A nonce that is not 12 bytes long never reaches the cipher (which would
    panic): Decrypt answers "invalid field". *)
Theorem decrypt_rejects_bad_nonce op p u d n r w s :
  ¬ faulty → Inv w s →
  FindChild p TagUniqueIdentifier = Some u → FindChild p TagData = Some d →
  FindChild p TagIVCounterNonce = Some n → byte_len (default [] (BytesValue n)) ≠ 12 →
  lookup_live (view s) (StringValue u) = Some r → State r = StateActive →
  ObjectType r = ObjectTypeSymmetricKey → aes_key (Material r) →
  ∃ msg w' s', handleDecrypt op (Some p) (w, s) =
    (Ok (buildBatchItemError op ReasonInvalidField msg), (w', s')) ∧ view s' = view s.
Proof.
  intros Hf HI Hu Hd Hn Hlen Hr Hst Hty Hkey.
  destruct (handled_run _ _ _ _ _ _ Hf (handleDecrypt_ok op (Some p) (view s)) HI eq_refl)
    as (res & w' & s' & Hrun & _ & Hsp).
  apply (need_data_passes _ _ _ _ _ _ _ _ Hu Hd) in Hsp. unfold need in Hsp.
  rewrite Hn in Hsp. cbv zeta in Hsp.
  eapply need_key_passes in Hsp; [|by right; left|done..]. unfold need_val, need_type in Hsp.
  rewrite aes_key_accepted, (proj2 (Z.eqb_neq _ _) Hlen) in Hsp by done.
  destruct Hsp as [? ->]. by do 3 eexists.
Qed.

(** A verifier of the pair's public half accepts the signatures of the private half. *)
Lemma matching_verifies privDER pubDER hash sig :
  matching_pair (W:=W) privDER pubDER →
  (∀ key, ParsePKCS8PrivateKey privDER = Val key → signed (W:=W) key hash sig) →
  ∃ key, ParsePKIXPublicKey pubDER = Val key ∧ verify_hash key hash sig = Val 0.
Proof.
  intros [(k & Hp & Hq)|(k & Hp & Hq)] Hsig; destruct (Hsig _ Hp) as [w' Hw]; eexists; (split; [exact Hq|]); cbn.
  - by rewrite (rsa_Verify_Sign _ _ _ _ Hw).
  - by rewrite (ecdsa_Verify_Sign _ _ _ _ Hw).
Qed.

(** C17: Signatures verify: what Sign returns under an active private key, Signature
    Verify accepts (indicator 0) under the matching active public key and the same
    data.  Sign itself either returns a signature or reports the library's failure. *)
Theorem sign_verify_roundtrip op1 p1 u1 d1 priv pubDER w s :
  ¬ faulty → Inv w s →
  FindChild p1 TagUniqueIdentifier = Some u1 → FindChild p1 TagData = Some d1 →
  lookup_live (view s) (StringValue u1) = Some priv → State priv = StateActive →
  ObjectType priv = ObjectTypePrivateKey → matching_pair (W:=W) (Material priv) pubDER →
  ∃ res w1 s1, handleSign op1 (Some p1) (w, s) = (Ok res, (w1, s1)) ∧ view s1 = view s ∧
    ((∃ msg, res = buildBatchItemError op1 ReasonCryptographicFailure msg) ∨
     ∃ sig, res = buildBatchItemSuccess op1 [EncodeTextString TagUniqueIdentifier (UID priv);
              EncodeByteString TagSignatureData sig] ∧
       ∀ op2 p2 u2 d2 s2i pub w2 s2, Inv w2 s2 →
         FindChild p2 TagUniqueIdentifier = Some u2 → FindChild p2 TagData = Some d2 →
         FindChild p2 TagSignatureData = Some s2i →
         default [] (BytesValue d2) = default [] (BytesValue d1) →
         default [] (BytesValue s2i) = sig →
         lookup_live (view s2) (StringValue u2) = Some pub → State pub = StateActive →
         ObjectType pub = ObjectTypePublicKey → Material pub = pubDER →
         ∃ w3 s3, handleSignatureVerify op2 (Some p2) (w2, s2) =
           (Ok (buildBatchItemSuccess op2 [EncodeTextString TagUniqueIdentifier (UID pub);
              EncodeEnum TagValidityIndicator 0]), (w3, s3)) ∧ view s3 = view s2).
Proof.
  intros Hf HI Hu Hd Hr Hst Hty Hpair.
  destruct (handled_run _ _ _ _ _ _ Hf (handleSign_ok op1 (Some p1) (view s)) HI eq_refl)
    as (res & w1 & s1 & Hrun & _ & Hsp).
  apply (need_data_passes _ _ _ _ _ _ _ _ Hu Hd) in Hsp.
  eapply need_key_passes in Hsp; [|by right; right; left|done..]. unfold need_val in Hsp.
  assert (∃ key, ParsePKCS8PrivateKey (Material priv) = Val key) as [key Hkey]
    by (destruct Hpair as [(k & ? & _)|(k & ? & _)]; eauto).
  rewrite Hkey in Hsp. exists res, w1, s1.
  destruct Hsp as [(_ & msg & Hv & ->)|(sig & Hsig & Hv & ->)];
    (split_and!; [done..|]); [left; by exists msg|right]. exists sig. split; [done|].
  intros op2 p2 u2 d2 s2i pub w2 s2 HI2 Hu2 Hd2 Hs2 Hdata Hsigeq Hr2 Hst2 Hty2 Hmat2.
  destruct (matching_verifies _ _ (sha256_Sum256 (default [] (BytesValue d1))) sig Hpair)
    as (pk & Hpk & Hver); [intros key' ?; by replace key' with key by congruence|].
  destruct (handled_run _ _ _ _ _ _ Hf (handleSignatureVerify_ok op2 (Some p2) (view s2)) HI2 eq_refl)
    as (res2 & w3 & s3 & Hrun2 & _ & Hsp2).
  apply (need_data_passes _ _ _ _ _ _ _ _ Hu2 Hd2) in Hsp2. unfold need in Hsp2.
  rewrite Hs2 in Hsp2.
  eapply need_key_passes in Hsp2; [|by do 3 right; left|done..]. unfold need_val in Hsp2.
  rewrite Hmat2, Hpk, Hdata, Hsigeq, Hver in Hsp2. destruct Hsp2 as [? ->]. by exists w3, s3.
Qed.

(** ** New keys *)
Definition pair_template p : Template :=
  foldl create_attr (mkTemplate EmptyString AlgorithmRSA 2048 (Z.lor UsageMaskSign UsageMaskVerify))
    (template_attributes p).

(** C24: Create Key Pair is all or nothing.  It either refuses and leaves the vault
    alone, or adds two pre-active objects with fresh, different identifiers, a private
    and a public key whose encodings parse back to the two halves of one key, and
    returns both identifiers. *)
Theorem create_key_pair_matches `{!KmipLaws} op p w s :
  ¬ faulty → Inv w s →
  ∃ res w' s', handleCreateKeyPair op (Some p) (w, s) = (Ok res, (w', s')) ∧
    ((view s' = view s ∧ ∃ reason msg, res = buildBatchItemError op reason msg) ∨
     ∃ priv pub, view s' = put_object pub (put_object priv (view s)) ∧
       objects (view s) !! UID priv = None ∧ objects (view s) !! UID pub = None ∧
       UID priv ≠ UID pub ∧ new_object priv ∧ new_object pub ∧
       ObjectType priv = ObjectTypePrivateKey ∧ ObjectType pub = ObjectTypePublicKey ∧
       Name priv = tpl_name (pair_template p) ∧ Name pub = tpl_name (pair_template p) ∧
       matching_pair (W:=W) (Material priv) (Material pub) ∧
       res = buildBatchItemSuccess op
         [EncodeTextString TagPrivateKeyUniqueIdentifier (UID priv);
          EncodeTextString TagPublicKeyUniqueIdentifier (UID pub)]).
Proof.
  intros Hf HI. destruct object_type_numbers as (_ & _ & N3 & N4).
  destruct (handled_run _ _ _ _ _ _ Hf (handleCreateKeyPair_ok op (Some p) (view s)
    ltac:(by rewrite N4) ltac:(by rewrite N3)) HI eq_refl) as (res & w' & s' & Hrun & _ & Hsp).
  exists res, w', s'. split; [done|]. unfold create_key_pair_spec, need_payload in Hsp.
  cbv zeta in Hsp. fold (pair_template p) in Hsp. set (t := pair_template p) in *.
  destruct (_ || _); [|destruct Hsp as [? ->]; left; by eauto].
  destruct Hsp as [(_ & msg & ? & ->)|[(_ & msg & ? & ->)|Hsp]]; [left; by eauto..|right].
  destruct Hsp as (privDER & pubDER & priv & Hpair & _ & Hfresh & Hnew & (uid & now & Hpriv) & Hsnd).
  destruct Hsnd as [[? _]|(pub & Hfresh2 & Hnew2 & (uid2 & now2 & Hpub) & Hv & ->)]; [done|].
  cbn in Hfresh2. apply lookup_insert_None in Hfresh2 as [Hfresh2 Hne].
  exists priv, pub. split_and!; try done; by rewrite ?Hpriv, ?Hpub.
Qed.

(** C25: Derive Key computes HKDF-SHA256 of the source's material: on a live source
    and a length of at most 512 bytes it adds one pre-active symmetric key whose
    material is the HKDF output of exactly the requested length (32 bytes when none is
    requested), inheriting algorithm, usage mask and owner; a longer request or an
    unknown source is refused.  Nothing else changes. *)
Theorem derive_key_derives `{!HkdfLaws} op p u w s :
  ¬ faulty → Inv w s → FindChild p TagUniqueIdentifier = Some u →
  let t := foldl derive_attr (mkTemplate EmptyString 0 256 0) (template_attributes p) in
  let keyLen := derive_keyLen (tpl_length t) in
  ∃ res w' s', handleDeriveKey op (Some p) (w, s) = (Ok res, (w', s')) ∧
    match lookup_live (view s) (StringValue u) with
    | Some src =>
        if keyLen <=? 512
        then ∃ rec, view s' = put_object rec (view s) ∧ objects (view s) !! UID rec = None ∧
          hkdf_sha256 (Material src) (derivation_data p) kmip_derive (Z.to_nat keyLen)
            = Val (Material rec) ∧
          Z.of_nat (length (Material rec)) = keyLen ∧ new_object rec ∧ ObjectType rec = 2 ∧
          Name rec = tpl_name t ∧ Algorithm rec = Algorithm src ∧ UsageMask rec = UsageMask src ∧
          Owner rec = Owner src ∧
          res = buildBatchItemSuccess op [EncodeTextString TagUniqueIdentifier (UID rec)]
        else view s' = view s ∧ ∃ msg, res = buildBatchItemError op ReasonGeneralFailure msg
    | None => view s' = view s ∧ ∃ msg, res = buildBatchItemError op ReasonGeneralFailure msg
    end.
Proof.
  intros Hf HI Hu t keyLen.
  destruct (handled_run _ _ _ _ _ _ Hf (handleDeriveKey_ok op (Some p) (view s)) HI eq_refl)
    as (res & w' & s' & Hrun & _ & Hsp).
  exists res, w', s'. split; [done|]. revert Hsp.
  unfold derive_key_spec, need_uid, need_payload, need. rewrite Hu. cbv zeta. fold t keyLen.
  assert (0 ≤ keyLen) as Hpos by (unfold keyLen, derive_keyLen; destruct (Z.leb_spec (Z.quot (tpl_length t) 8) 0); lia).
  unfold MaxDerivedKeyBytes. intros [([Hn|Hn] & msg & Hv & ->)|(Hle & src & mat & Hsrc & Hmat & Hadds)].
  - rewrite Hn. by eauto.
  - destruct (lookup_live _ _); [|by eauto]. destruct (Z.leb_spec keyLen 512); [lia|]. by eauto.
  - rewrite Hsrc. destruct (Z.leb_spec keyLen 512); [|lia].
    destruct Hadds as (rec & Hfresh & Hnew & (uid & now & Hrec) & Hv & ->).
    destruct (hkdf_sha256_fills (Material src) (derivation_data p) kmip_derive (Z.to_nat keyLen))
      as (out & Hout & Hlen); [lia|].
    exists rec. rewrite Hrec in *. cbn in *. split_and!; try done.
    replace mat with out by congruence. lia.
Qed.
End objects.

(** ** Witnesses: a vault with active keys, built by the handlers themselves *)
Definition run_all {W S A} (l : list (M W S A)) (w : W) (s : S) : W * S :=
  snd (mapM_ id l (w, s)).
Definition test_attr (name : string) (v : TestItem) : TestItem :=
  TStruct TagAttribute [TText TagAttributeName name; v].
Definition test_keys : TestWorld * MemoryStore :=
  run_all [handleCreate 1 (Some (test_payload [] : @Item test_kmip)) "client";
           handleCreateKeyPair 2 (Some (test_payload [] : @Item test_kmip));
           handleActivate 18 (Some (test_payload [test_uid_item "uuid-0"] : @Item test_kmip));
           handleActivate 18 (Some (test_payload [test_uid_item "uuid-1"] : @Item test_kmip));
           handleActivate 18 (Some (test_payload [test_uid_item "uuid-2"] : @Item test_kmip))]
    test_world NewMemoryStore.
Definition test_object (uid : string) : KeyRecord :=
  default (created EmptyString EmptyString 0 0 [] 0 EmptyString 0)
    (lookup_live (mem_view test_keys.2) uid).

Example test_keys_active :
  (λ u, (State (test_object u), ObjectType (test_object u), List.length (Material (test_object u))))
    <$> ["uuid-0"; "uuid-1"; "uuid-2"] = [(2, 2, 32%nat); (2, 4, 3%nat); (2, 3, 3%nat)].
Proof. vm_compute. reflexivity. Qed.

(** Running handlers keeps the invariant. *)
Lemma run_all_inv l w s :
  Forall (λ m, ∃ op sp, ∀ v, handled (Inv:=mem_inv (W:=TestWorld)) (view:=mem_view) (faulty:=False)
    op v (sp v) m) l →
  mem_inv w s → mem_inv (run_all l w s).1 (run_all l w s).2.
Proof.
  intros Hl HI. assert (wp (mapM_ id l) (λ _ w' s', mem_inv w' s') w s) as Hwp.
  { revert w s HI. induction Hl as [|m l (op & sp & Hm) _ IH]; intros w s HI; cbn [mapM_].
    { by apply wp_ret. }
    wp_use Hm as res w1 s1 [HI1 _]; [done|reflexivity|].
    wp_use IH as ress w2 s2 HI2; [done|]. by apply wp_ret. }
  destruct (wp_returns _ _ _ _ Hwp) as (ress & w' & s' & Hrun & ?).
  unfold run_all. by rewrite Hrun.
Qed.
Lemma test_keys_inv : mem_inv test_keys.1 test_keys.2.
Proof.
  apply run_all_inv; [|apply NewMemoryStore_inv].
  repeat (constructor; [do 2 eexists; intros v; first
    [apply handleCreate_ok|apply handleActivate_ok|apply handleCreateKeyPair_ok; done]|]).
  constructor.
Qed.
Lemma test_key_lookup uid : bool_decide (is_Some (lookup_live (mem_view test_keys.2) uid)) = true →
  lookup_live (mem_view test_keys.2) uid = Some (test_object uid).
Proof. intros [r Hr]%bool_decide_eq_true. unfold test_object. by rewrite Hr. Qed.

Definition test_data : bytes := [Byte.x68; Byte.x69].
Definition encrypt_payload : @Item test_kmip :=
  test_payload [test_uid_item "uuid-0"; TBytes TagData test_data].
Definition decrypt_payload (ct nonce : bytes) : @Item test_kmip :=
  test_payload [test_uid_item "uuid-0"; TBytes TagData ct; TBytes TagIVCounterNonce nonce].

Lemma transition_table_witness :
  ∃ res w' s', handleRevoke 19 (Some encrypt_payload) test_keys = (Ok res, (w', s')) ∧
    res = buildBatchItemSuccess 19 [EncodeTextString TagUniqueIdentifier "uuid-0"] ∧
    mem_view s' = put_object (revoke_record 0 (test_object "uuid-0")) (mem_view test_keys.2).
Proof.
  destruct (transition_table TRevoke 19 encrypt_payload (TText TagUniqueIdentifier "uuid-0")
    (test_object "uuid-0") test_keys.1 test_keys.2 id test_keys_inv eq_refl
    (test_key_lookup "uuid-0" ltac:(vm_compute; reflexivity))) as (res & w' & s' & Hrun & _ & Htab).
  assert (allowed TRevoke (State (test_object "uuid-0")) = true) as Hok by (vm_compute; reflexivity).
  rewrite Hok in Htab. destruct Htab as (Hres & Hv & _).
  exists res, w', s'. rewrite <-surjective_pairing in Hrun. by split_and!.
Defined.

Lemma get_discloses_witness :
  ∃ res w' s', handleGet 10 (Some encrypt_payload) test_keys = (Ok res, (w', s')) ∧
    mem_view s' = mem_view test_keys.2 ∧
    res = buildBatchItemSuccess 10 [EncodeEnum TagObjectType 2;
      EncodeTextString TagUniqueIdentifier "uuid-0"; object_data (test_object "uuid-0")].
Proof.
  destruct (get_discloses 10 encrypt_payload (TText TagUniqueIdentifier "uuid-0")
    test_keys.1 test_keys.2 id test_keys_inv eq_refl) as (res & w' & s' & Hrun & Hv & Hget).
  cbn [StringValue test_kmip] in Hget.
  rewrite (test_key_lookup "uuid-0" ltac:(vm_compute; reflexivity)) in Hget.
  assert (State (test_object "uuid-0") = 2) as Hst by (vm_compute; reflexivity).
  assert (ObjectType (test_object "uuid-0") = 2) as Hty by (vm_compute; reflexivity).
  assert (UID (test_object "uuid-0") = "uuid-0") as Huid by (vm_compute; reflexivity).
  rewrite Hst, Hty, Huid in Hget.
  exists res, w', s'. rewrite <-surjective_pairing in Hrun. by split_and!.
Defined.

Lemma encrypt_decrypt_roundtrip_witness :
  ∃ ct nonce w1 s1 w3 s3,
    handleEncrypt 31 (Some encrypt_payload) test_keys =
      (Ok (buildBatchItemSuccess 31 [EncodeTextString TagUniqueIdentifier (UID (test_object "uuid-0"));
        EncodeByteString TagData ct; EncodeByteString TagIVCounterNonce nonce]), (w1, s1)) ∧
    handleDecrypt 32 (Some (decrypt_payload ct nonce)) test_keys =
      (Ok (buildBatchItemSuccess 32 [EncodeTextString TagUniqueIdentifier (UID (test_object "uuid-0"));
        EncodeByteString TagData test_data]), (w3, s3)).
Proof.
  assert (lookup_live (mem_view test_keys.2) "uuid-0" = Some (test_object "uuid-0")) as Hr
    by (apply test_key_lookup; vm_compute; reflexivity).
  assert (State (test_object "uuid-0") = StateActive) as Hst by (vm_compute; reflexivity).
  assert (ObjectType (test_object "uuid-0") = ObjectTypeSymmetricKey) as Hty by (vm_compute; reflexivity).
  assert (aes_key (Material (test_object "uuid-0"))) as Hkey by (right; right; vm_compute; reflexivity).
  destruct (encrypt_decrypt_roundtrip 31 encrypt_payload (TText TagUniqueIdentifier "uuid-0")
    (TBytes TagData test_data) _ _ _ id test_keys_inv eq_refl eq_refl Hr Hst Hty Hkey)
    as (ct & nonce & w1 & s1 & Hrun & _ & _ & Hdec).
  destruct (Hdec 32 (decrypt_payload ct nonce) (TText TagUniqueIdentifier "uuid-0") (TBytes TagData ct)
    (TBytes TagIVCounterNonce nonce) _ _ _ test_keys_inv eq_refl eq_refl eq_refl eq_refl eq_refl
    Hr Hst Hty eq_refl) as (w3 & s3 & Hrun3 & _).
  exists ct, nonce, w1, s1, w3, s3. rewrite <-surjective_pairing in Hrun, Hrun3. by split.
Defined.

Lemma decrypt_rejects_bad_nonce_witness :
  ∃ msg w' s', handleDecrypt 32 (Some (decrypt_payload test_data test_data)) test_keys =
    (Ok (buildBatchItemError 32 ReasonInvalidField msg), (w', s')) ∧ mem_view s' = mem_view test_keys.2.
Proof.
  destruct (decrypt_rejects_bad_nonce 32 (decrypt_payload test_data test_data)
    (TText TagUniqueIdentifier "uuid-0") (TBytes TagData test_data) (TBytes TagIVCounterNonce test_data)
    (test_object "uuid-0") test_keys.1 test_keys.2 id test_keys_inv eq_refl eq_refl eq_refl
    ltac:(done) (test_key_lookup "uuid-0" ltac:(vm_compute; reflexivity))
    ltac:(vm_compute; reflexivity) ltac:(vm_compute; reflexivity) ltac:(right; right; vm_compute; reflexivity))
    as (msg & w' & s' & Hrun & Hv).
  exists msg, w', s'. rewrite <-surjective_pairing in Hrun. by split.
Defined.

Definition sign_payload : @Item test_kmip :=
  test_payload [test_uid_item "uuid-1"; TBytes TagData test_data].
Definition verify_payload (sig : bytes) : @Item test_kmip :=
  test_payload [test_uid_item "uuid-2"; TBytes TagData test_data; TBytes TagSignatureData sig].

Lemma sign_verify_roundtrip_witness :
  ∃ res w1 s1, handleSign 33 (Some sign_payload) test_keys = (Ok res, (w1, s1)) ∧
    ((∃ msg, res = buildBatchItemError 33 ReasonCryptographicFailure msg) ∨
     ∃ sig w3 s3, handleSignatureVerify 34 (Some (verify_payload sig)) test_keys =
       (Ok (buildBatchItemSuccess 34 [EncodeTextString TagUniqueIdentifier (UID (test_object "uuid-2"));
          EncodeEnum TagValidityIndicator 0]), (w3, s3))).
Proof.
  assert (lookup_live (mem_view test_keys.2) "uuid-1" = Some (test_object "uuid-1")) as Hr1
    by (apply test_key_lookup; vm_compute; reflexivity).
  assert (lookup_live (mem_view test_keys.2) "uuid-2" = Some (test_object "uuid-2")) as Hr2
    by (apply test_key_lookup; vm_compute; reflexivity).
  assert (matching_pair (W:=TestWorld) (Material (test_object "uuid-1")) (Material (test_object "uuid-2")))
    as Hpair by (left; exists 1; split; vm_compute; reflexivity).
  destruct (sign_verify_roundtrip 33 sign_payload (TText TagUniqueIdentifier "uuid-1")
    (TBytes TagData test_data) (test_object "uuid-1") (Material (test_object "uuid-2")) test_keys.1
    test_keys.2 id test_keys_inv eq_refl eq_refl Hr1 ltac:(vm_compute; reflexivity)
    ltac:(vm_compute; reflexivity) Hpair) as (res & w1 & s1 & Hrun & _ & Hres).
  exists res, w1, s1. rewrite <-surjective_pairing in Hrun. split; [done|].
  destruct Hres as [?|(sig & _ & Hver)]; [by left|right].
  destruct (Hver 34 (verify_payload sig) (TText TagUniqueIdentifier "uuid-2") (TBytes TagData test_data)
    (TBytes TagSignatureData sig) _ _ _ test_keys_inv eq_refl eq_refl eq_refl eq_refl eq_refl Hr2
    ltac:(vm_compute; reflexivity) ltac:(vm_compute; reflexivity) eq_refl) as (w3 & s3 & Hrun3 & _).
  exists sig, w3, s3. by rewrite <-surjective_pairing in Hrun3.
Defined.

Lemma create_key_pair_matches_witness :
  ∃ res w' s', handleCreateKeyPair 2 (Some (test_payload [] : @Item test_kmip)) (test_world, NewMemoryStore)
    = (Ok res, (w', s')) ∧
    (mem_view s' = mkVault ∅ ∅ ∨
     ∃ priv pub, mem_view s' = put_object pub (put_object priv (mkVault ∅ ∅)) ∧
       matching_pair (W:=TestWorld) (Material priv) (Material pub)).
Proof.
  destruct (create_key_pair_matches 2 (test_payload [] : @Item test_kmip) test_world NewMemoryStore id
    (NewMemoryStore_inv _)) as (res & w' & s' & Hrun & Hres).
  exists res, w', s'. split; [exact Hrun|].
  destruct Hres as [[Hv _]|(priv & pub & Hv & _ & _ & _ & _ & _ & _ & _ & _ & _ & Hp & _)]; [by left|right].
  exists priv, pub. rewrite NewMemoryStore_view in Hv. split; [exact Hv|exact Hp].
Defined.

Lemma derive_key_derives_witness :
  ∃ res w' s' rec, handleDeriveKey 5 (Some encrypt_payload) test_keys = (Ok res, (w', s')) ∧
    mem_view s' = put_object rec (mem_view test_keys.2) ∧ List.length (Material rec) = 32%nat.
Proof.
  destruct (derive_key_derives 5 encrypt_payload (TText TagUniqueIdentifier "uuid-0") test_keys.1
    test_keys.2 id test_keys_inv eq_refl) as (res & w' & s' & Hrun & Hres).
  cbn [StringValue test_kmip] in Hres.
  rewrite (test_key_lookup "uuid-0" ltac:(vm_compute; reflexivity)) in Hres.
  destruct Hres as (rec & Hv & _ & _ & Hlen & _).
  exists res, w', s', rec. rewrite <-surjective_pairing in Hrun. split_and!; [done..|].
  change (Z.of_nat (List.length (Material rec)) = 32) in Hlen. lia.
Defined.
