(* ===== verification/StoreTheorems.v ===== *)
(** * Properties of the storage backends

    That both backends implement the vault; what only one of them promises (the memory
    store wipes key material in place, the SQLite store lists newest first); and the
    round trips any backend of the contract gives. *)

From Stdlib Require Import ZArith Lia Sorting.Sorted.
From S2P Require Import Prelude GoRuntime Storage MemoryStore MemoryStoreProofs SQLiteStore.
From S2P Require Import SQLiteStoreProofs KmipLib CryptoLib Testbed.
Local Open Scope Z_scope.
Local Open Scope go_scope.

Section refinement.
Context {W : Type} `{RuntimeLaws W} `{HkdfLaws}.

(** C9: The memory store implements the vault: every operation of the [Storage]
    interface returns without panic, keeps the heap well formed (no dangling and no
    shared buffer), and its result and effect are those of the abstract vault; it
    never fails for reasons of its own. *)
Theorem memory_store_refines_vault : StorageSpec W MemoryStore mem_inv mem_view False.
Proof. apply MemoryStore_spec. Qed.

Context `{!SqlDriver W} `{!SqlLaws W} `{TimeTextLaws}.

End refinement.

Lemma memory_store_refines_vault_witness :
  StorageSpec TestWorld MemoryStore mem_inv mem_view False ∧ mem_inv test_world NewMemoryStore.
Proof. split; [apply memory_store_refines_vault|apply NewMemoryStore_inv]. Defined.

(** ** Key material in memory *)
Section memory.
Context {W : Type} `{RuntimeLaws W} `{Hkdf}.

(** C26: Destroy overwrites the key material where it lies: the buffer of the destroyed
    record holds only zeros afterwards (also for whoever still has the slice), the
    record keeps no reference to it, and no other buffer changes. *)
Theorem destroy_wipes_material uid l r b bs (w : W) m :
  keys m !! uid = Some l → recs (heap m) !! l = Some r → is_live r = true →
  Material r = Some b → bufs (heap m) !! b = Some bs →
  ∃ m', mem_Destroy uid (w, m) = (Ok (Val tt), (w, m')) ∧
    bufs (heap m') !! b = Some (replicate (length bs) Byte.x00) ∧
    recs (heap m') !! l = Some (set_State StateDestroyed (set_Material None r)) ∧
    (∀ b', b' ≠ b → bufs (heap m') !! b' = bufs (heap m) !! b') ∧
    (∀ l', l' ≠ l → recs (heap m') !! l' = recs (heap m) !! l').
Proof.
  intros Hk Hr Hl Hm Hb. unfold is_live in Hl. apply negb_true_iff in Hl.
  set (h := store_rec l (set_State StateDestroyed (set_Material None r)) (wipe (Some b) (heap m))).
  assert (wp (mem_Destroy uid) (λ res w' m', res = Val tt ∧ w' = w ∧ m' = set_heap h m) w m) as Hwp.
  { unfold mem_Destroy, lookup_key. apply wp_bind, wp_bind, wp_get_state, wp_ret. rewrite Hk.
    apply wp_bind, (wp_load l r); [done|]. rewrite Hl, Hm. apply wp_bind, wp_with_heap. cbn [fst snd].
    apply (wp_store_then l (set_Material None r) (set_State StateDestroyed)), wp_ret. done. }
  destruct (wp_returns _ _ _ _ Hwp) as (res & w' & m' & Hrun & -> & -> & ->).
  exists (set_heap h m). split; [done|]. cbn. split_and!.
  - rewrite lookup_alter_eq, Hb. cbn. f_equal. clear. induction bs; cbn; congruence.
  - by rewrite lookup_insert_eq.
  - intros b' ?. by rewrite lookup_alter_ne.
  - intros l' ?. by rewrite lookup_insert_ne.
Qed.

(** Rekey never reuses a buffer: on an active length it puts the new material in a
    buffer no record used before, of exactly [Length / 8] bytes, and counts the
    version up; the old buffer is left as it was (it is dropped, not wiped). *)
Theorem rekey_uses_fresh_buffer uid l r (w : W) m :
  mem_inv w m → keys m !! uid = Some l → recs (heap m) !! l = Some r → is_live r = true →
  0 < Length r ≤ 32768 →
  ∃ b bs w' m', mem_Rekey uid (w, m) = (Ok (Val l), (w', m')) ∧
    bufs (heap m) !! b = None ∧ bufs (heap m') !! b = Some bs ∧
    Z.of_nat (length bs) = Z.quot (Length r) 8 ∧
    recs (heap m') !! l = Some (set_Version (int64 (Version r + 1)) (set_Material (Some b) r)) ∧
    (∀ b', b' ≠ b → bufs (heap m') !! b' = bufs (heap m) !! b').
Proof.
  intros Hinv Hk Hr Hl Hlen. unfold is_live in Hl. apply negb_true_iff in Hl.
  assert (0 ≤ Z.quot (Length r) 8) as Hq by (apply Z.quot_pos; lia).
  set (r' := set_Version (int64 (Version r + 1)) (set_Material (Some (brk (heap m))) r)).
  assert (wp (mem_Rekey uid) (λ res w' m', res = Val l ∧ ∃ bs,
    Z.of_nat (length bs) = Z.quot (Length r) 8 ∧
    m' = set_heap (store_rec l r' (alloc_buf bs (heap m)).2) m) w m) as Hwp.
  { unfold mem_Rekey, lookup_key. apply wp_bind, wp_bind, wp_get_state, wp_ret. rewrite Hk.
    apply wp_bind, (wp_load l r); [done|]. rewrite Hl.
    rewrite (proj2 (Z.leb_gt _ _)), (proj2 (Z.ltb_ge _ _)) by (unfold MaxKeyLengthBits; lia).
    apply wp_bind, wp_go_make; [done|]. rewrite length_replicate.
    apply wp_bind, wp_rand. intros bs w1 _ Hbs. apply wp_bind, wp_with_heap. cbn [fst snd alloc_buf].
    apply (wp_store_then l (set_Material (Some (brk (heap m))) r)
      (λ r, set_Version (int64 (Version r + 1)) r)), wp_ret.
    split; [done|]. exists bs. split; [lia|done]. }
  destruct (wp_returns _ _ _ _ Hwp) as (res & w' & m' & Hrun & -> & bs & Hbs & ->).
  do 4 eexists. split; [exact Hrun|]. cbn. rewrite !lookup_insert_eq. split_and!; [|done..|].
  - destruct (bufs (heap m) !! brk (heap m)) as [x|] eqn:E; [|done].
    pose proof (ok_bufs _ (inv_heap _ _ Hinv) (brk (heap m)) ltac:(by eexists)). lia.
  - intros b' ?. by rewrite lookup_insert_ne.
Qed.
End memory.

Definition test_record : HeapRecord := created "uuid-0" "k" 3 128 (Some 1%positive) 12 "client" 0.
Definition test_store : MemoryStore :=
  mkMemoryStore {["uuid-0" := 2%positive]} ∅
    (mkHeap {[2%positive := test_record]} {[1%positive := [Byte.x41; Byte.x42]]} 3%positive).
Lemma test_store_inv : mem_inv (mkTestWorld 0 1) test_store.
Proof.
  split; [split|..]; unfold test_store; cbn.
  - intros l r b. rewrite lookup_singleton_Some. intros [<- <-] [= <-]. by exists [Byte.x41; Byte.x42].
  - intros l1 l2 r1 r2 b. rewrite !lookup_singleton_Some. by intros [<- _] [<- _].
  - intros l [r Hr]. apply lookup_singleton_Some in Hr as [<- _]. done.
  - intros b [x Hx]. apply lookup_singleton_Some in Hx as [<- _]. done.
  - intros uid l. rewrite lookup_singleton_Some. intros [<- <-]. exists test_record.
    by rewrite lookup_singleton_eq.
  - intros uid [l Hl]. apply lookup_singleton_Some in Hl as [<- _]. set_solver.
Qed.

Lemma destroy_wipes_material_witness :
  ∃ m', mem_Destroy "uuid-0" (test_world, test_store) = (Ok (Val tt), (test_world, m')) ∧
    bufs (heap m') !! 1%positive = Some [Byte.x00; Byte.x00].
Proof.
  destruct (destroy_wipes_material "uuid-0" 2%positive test_record 1%positive [Byte.x41; Byte.x42]
    test_world test_store eq_refl eq_refl eq_refl eq_refl eq_refl) as (m' & Hrun & Hb & _).
  by exists m'.
Defined.
Lemma rekey_uses_fresh_buffer_witness :
  ∃ b bs w' m', mem_Rekey "uuid-0" (mkTestWorld 0 1, test_store) = (Ok (Val 2%positive), (w', m')) ∧
    bufs (heap test_store) !! b = None ∧ bufs (heap m') !! b = Some bs ∧ Z.of_nat (length bs) = 16.
Proof.
  destruct (rekey_uses_fresh_buffer "uuid-0" 2%positive test_record _ _ test_store_inv eq_refl eq_refl
    eq_refl ltac:(cbn; lia)) as (b & bs & w' & m' & Hrun & Hb & Hbs & Hlen & _).
  by exists b, bs, w', m'.
Defined.

(** ** The order of the SQLite listing *)
Section listing.
Context {W : Type} `{RuntimeLaws W} `{!SqlDriver W} `{!SqlLaws W} `{!TimeText} `{!Hkdf}.

Lemma created_desc_order : total_order created_desc.
Proof.
  split; unfold created_desc.
  - intros x y. apply String.leb_total.
  - intros x y z Hxy Hyz. apply Is_true_true_1.
    assert (String.le (k_created_at z) (k_created_at x)) as Hle; [|exact Hle].
    transitivity (k_created_at y); by apply Is_true_true_2.
Qed.

(** With a working database, List returns every live object exactly once, newest
    first in the order of the stored timestamps (their text), and changes nothing. *)
Theorem sqlite_list_newest_first (w : W) db :
  ¬ sql_faulty → sql_inv w db →
  ∃ rows w', sql_List (w, db) = (Ok (map scan_row rows), (w', db)) ∧
    map scan_row rows ≡ₚ live_objects (sql_view db) ∧
    StronglySorted (λ r1 r2, String.leb (k_created_at r2) (k_created_at r1) = true) rows.
Proof.
  intros Hf Hinv. unfold sql_List, query_keys, world, get_state. unfold mbind, M_bind. cbn.
  set (sel := filter _ (t_keys db)).
  destruct (sql_query created_desc sel w) as [[rows|e] w'] eqn:Hq; cbn.
  - exists rows, w'. split; [done|].
    destruct (sql_query_rows _ created_desc sel w rows) as [_ [Hperm|?]]; [by rewrite Hq| |done].
    split; [by rewrite Hperm, (sql_live_objects w db)|].
    apply (sql_query_sorted _ created_desc sel w); [apply created_desc_order|by rewrite Hq].
  - destruct Hf. apply (sql_query_err _ created_desc sel w e). by rewrite Hq.
Qed.
End listing.

Definition test_database : Database :=
  mkDatabase [mkKeyRow "uuid-0" "a" 2 3 256 [] 12 1 0 "c" "2024" 1;
              mkKeyRow "uuid-1" "b" 2 3 256 [] 12 5 0 "c" "2025" 1;
              mkKeyRow "uuid-2" "c" 2 3 256 [] 12 2 0 "c" "2026" 1] [].
Lemma test_database_inv : sql_inv (mkTestWorld 0 3) test_database.
Proof.
  split; [by apply (bool_decide_unpack _); vm_compute|constructor|].
  intros r Hr. unfold test_database in Hr. cbn [t_keys] in Hr. rewrite !elem_of_cons, elem_of_nil in Hr.
  destruct Hr as [->|[->|[->|?]]]; [..|done]; apply (bool_decide_unpack _); vm_compute; exact I.
Qed.
Lemma sqlite_list_newest_first_witness :
  map UID <$> (match (sql_List (mkTestWorld 0 3, test_database)).1 with Ok l => Some l | _ => None end)
    = Some ["uuid-2"; "uuid-0"] ∧
  ∃ rows w', sql_List (mkTestWorld 0 3, test_database) = (Ok (map scan_row rows), (w', test_database)) ∧
    StronglySorted (λ r1 r2, String.leb (k_created_at r2) (k_created_at r1) = true) rows.
Proof.
  split; [vm_compute; reflexivity|].
  destruct (sqlite_list_newest_first (SqlLaws0:=test_driver_laws) (mkTestWorld 0 3) test_database (λ f : False, f) test_database_inv)
    as (rows & w' & Hrun & _ & Hs).
  by exists rows, w'.
Defined.

(** ** Round trips over any backend *)
Section roundtrips.
Context {W S : Type} `{RuntimeLaws W} `{Hkdf} `{!Storage W S}.
Context {Inv : W → S → Prop} {view : S → Vault} {faulty : Prop}.
Context `{!StorageSpec W S Inv view faulty}.
Implicit Types (w : W) (s : S).

(** What [GetCustomAttributes] answers for a live object of a healthy backend. *)
Lemma get_attributes_total uid r w s :
  ¬ faulty → Inv w s → lookup_live (view s) uid = Some r →
  ∃ m w' s', GetCustomAttributes uid (w, s) = (Ok (Val m), (w', s')) ∧ Inv w' s' ∧
    view s' = view s ∧ ∀ name, m !! name = cattrs (view s) !! (uid, name).
Proof.
  intros Hf HI Hr.
  destruct (wp_returns _ _ _ _ (GetCustomAttributes_spec uid w s HI)) as (res & w' & s' & Hrun & _ & HI' & Hv & Hres).
  destruct res as [m|e]; [|destruct Hres; congruence].
  exists m, w', s'. split_and!; [done..|]. destruct Hres as [_ [?|[? _]]]; done.
Qed.

(** C27: Custom attributes round trip: after a successful Set, Get returns the value
    under its name, every other attribute of the object as it was, and the objects
    themselves are untouched; after a successful Delete the name is gone. *)
Theorem attributes_roundtrip uid name value r w s :
  ¬ faulty → Inv w s → lookup_live (view s) uid = Some r →
  ∃ w1 s1 m1 w2 s2 w3 s3 m3 w4 s4,
    SetCustomAttribute uid name value (w, s) = (Ok (Val tt), (w1, s1)) ∧
    GetCustomAttributes uid (w1, s1) = (Ok (Val m1), (w2, s2)) ∧
    m1 !! name = Some value ∧
    (∀ n, n ≠ name → m1 !! n = cattrs (view s) !! (uid, n)) ∧
    DeleteCustomAttribute uid name (w2, s2) = (Ok (Val tt), (w3, s3)) ∧
    GetCustomAttributes uid (w3, s3) = (Ok (Val m3), (w4, s4)) ∧
    m3 !! name = None ∧ (∀ n, n ≠ name → m3 !! n = m1 !! n) ∧
    objects (view s4) = objects (view s).
Proof.
  intros Hf HI Hr.
  destruct (wp_returns _ _ _ _ (SetCustomAttribute_spec uid name value w s HI))
    as ([[]|e] & w1 & s1 & Hset & _ & HI1 & Hp); [|destruct Hp as [_ [?|?]]; congruence].
  destruct Hp as [_ Hv1].
  assert (lookup_live (view s1) uid = Some r) as Hr1 by (by rewrite Hv1).
  destruct (get_attributes_total uid r w1 s1 Hf HI1 Hr1) as (m1 & w2 & s2 & Hg1 & HI2 & Hv2 & Hm1).
  destruct (wp_returns _ _ _ _ (DeleteCustomAttribute_spec uid name w2 s2 HI2))
    as ([[]|e] & w3 & s3 & Hdel & _ & HI3 & Hp); [|destruct Hp as [_ [Hn|?]]; [rewrite Hv2 in Hn; congruence|done]].
  destruct Hp as [_ Hv3]. rewrite Hv2 in Hv3.
  assert (lookup_live (view s3) uid = Some r) as Hr3 by (by rewrite Hv3, Hv1).
  destruct (get_attributes_total uid r w3 s3 Hf HI3 Hr3) as (m3 & w4 & s4 & Hg3 & _ & Hv4 & Hm3).
  exists w1, s1, m1, w2, s2, w3, s3, m3, w4, s4. split_and!; try done.
  - rewrite Hm1, Hv1. cbn. by rewrite lookup_insert_eq.
  - intros n Hn. rewrite Hm1, Hv1. cbn. by rewrite lookup_insert_ne by congruence.
  - rewrite Hm3, Hv3. cbn. by rewrite lookup_delete_eq.
  - intros n Hn. rewrite Hm3, Hm1, Hv3. cbn. by rewrite lookup_delete_ne by congruence.
  - by rewrite Hv4, Hv3, Hv1.
Qed.
End roundtrips.

#[local] Instance test_sqlite_spec : StorageSpec TestWorld Database sql_inv sql_view False.
Proof. exact (SQLiteStore_spec (W:=TestWorld)). Qed.

Lemma attributes_roundtrip_witness :
  ∃ w1 s1 m1 w2 s2, SetCustomAttribute "uuid-0" "x" "1" (mkTestWorld 0 3, test_database) = (Ok (Val tt), (w1, s1)) ∧
    GetCustomAttributes "uuid-0" (w1, s1) = (Ok (Val m1), (w2, s2)) ∧ m1 !! "x" = Some "1".
Proof.
  destruct (attributes_roundtrip (Inv:=sql_inv) (view:=sql_view) (faulty:=False) "uuid-0" "x" "1" _ (mkTestWorld 0 3) test_database (λ f : False, f) test_database_inv eq_refl)
    as (w1 & s1 & m1 & w2 & s2 & w3 & s3 & m3 & w4 & s4 & Hset & Hget & Hm & _).
  by exists w1, s1, m1, w2, s2.
Defined.
