(* ===== verification/AuditTheorems.v ===== *)
(** * Properties of the audit log

    The queue between the producers and the writer under any interleaving, shutdown,
    and the answers of a query. *)

From Stdlib Require Import ZArith Lia Sorting.Sorted.
From stdpp Require Import sorting.
From S2P Require Import Prelude GoRuntime Storage SQLiteStore KmipLib AuditLog Connections.
From S2P Require Import Testbed Handler HandlerSpec HandlerProofs Requests RequestProofs.
Local Open Scope Z_scope.
Local Open Scope go_scope.

(** One step of the system: a producer logs, or the writer takes one turn. *)
Inductive audit_event := ELog (e : Entry) | EWrite.
#[global] Instance audit_event_eq_dec : EqDecision audit_event.
Proof. solve_decision. Defined.

(** An entry up to what the logger fills in. *)
Definition content (e : Entry) : Entry := set_e_ID 0 (set_e_Timestamp 0 e).
Definition logged_entries (evs : list audit_event) : list Entry :=
  omap (λ ev, match ev with ELog e => Some e | EWrite => None end) evs.
(** Written, then queued. *)
Definition pipeline (a : Logger) : list Entry := map content (audit_log a ++ ch a).

(** Row identifiers grow along the table. *)
Definition id_lt (e1 e2 : Entry) : Prop := e_ID e1 < e_ID e2.
Record logger_ok (a : Logger) : Prop := {
  lok_cap : (length (ch a) ≤ 256)%nat;
  lok_ids : StronglySorted id_lt (audit_log a);
  lok_next : Forall (λ e, e_ID e < next_id a) (audit_log a);
}.

Section audit.
Context {W : Type} `{RuntimeLaws W} `{!SqlDriver W} `{!SqlLaws W}.
Implicit Types (a : Logger) (w : W).

Definition audit_step (ev : audit_event) : M W Logger unit :=
  match ev with
  | ELog e => Log e
  | EWrite => writer_step;; mret tt
  end.
Definition audit_run (evs : list audit_event) : M W Logger (list unit) := mapM_ audit_step evs.

Lemma sorted_snoc (l : list Entry) e :
  StronglySorted id_lt l → Forall (λ x, e_ID x < e_ID e) l → StronglySorted id_lt (l ++ [e]).
Proof.
  induction 1 as [|x l Hs IH Hx]; intros Hf; cbn; [by repeat constructor|].
  inversion Hf; subst. constructor; [by apply IH|].
  apply Forall_app. by repeat constructor.
Qed.

(** One write: the oldest queued entry goes to the table, or is lost to an error of
    the driver. *)
Lemma wp_writer_step a w (Q : bool → W → Logger → Prop) :
  writer_done a = false → logger_ok a →
  (ch a = [] → ch_closed a = false → Q false w a) →
  (ch a = [] → ch_closed a = true → Q true w (mkLogger [] true true (audit_log a) (next_id a))) →
  (∀ e rest w' log' n', ch a = e :: rest → later w w' →
     (log' = audit_log a ++ [set_e_ID (next_id a) e] ∨ sql_faulty ∧ log' = audit_log a) →
     let a' := mkLogger rest (ch_closed a) false log' n' in logger_ok a' → Q true w' a') →
  wp writer_step Q w a.
Proof.
  intros Hdone [Hcap Hids Hnext] Hempty Hclosed Hstep. unfold writer_step.
  apply wp_bind, wp_get_state. rewrite Hdone. destruct (ch a) as [|e rest] eqn:Hch.
  { destruct (ch_closed a) eqn:Hc; [|by apply wp_ret, Hempty].
    apply wp_bind, wp_put_state, wp_ret. by apply Hclosed. }
  apply wp_bind, wp_world. pose proof (sql_exec_issued w) as Hw.
  pose proof (sql_exec_reliable w) as Hrel.
  destruct (sql_exec_err w) as [[err|] w']; cbn [fst snd] in *;
    apply wp_bind, wp_put_state, wp_ret; eapply Hstep; try done.
  - right. split; [by eapply Hrel|done].
  - split; cbn in *; [lia|done|done].
  - by left.
  - split; cbn in *; [lia|by apply sorted_snoc|].
    apply Forall_app. split; [|repeat constructor; cbn; lia].
    eapply Forall_impl; [exact Hnext|]. cbn. lia.
Qed.

Lemma content_fill t e : content (set_e_Timestamp t e) = content e.
Proof. done. Qed.
Lemma content_id n e : content (set_e_ID n e) = content e.
Proof. done. Qed.

(** One step: nothing is reordered, and nothing is lost while the queue has room. *)
Lemma wp_audit_step ev a w :
  logger_ok a → ch_closed a = false → writer_done a = false →
  wp (audit_step ev) (λ _ w' a', logger_ok a' ∧ ch_closed a' = false ∧ writer_done a' = false ∧
    sublist (pipeline a') (pipeline a ++ map content (logged_entries [ev])) ∧
    (length (ch a') ≤ length (ch a) + length (logged_entries [ev]))%nat ∧
    (¬ sql_faulty → (length (ch a) + length (logged_entries [ev]) ≤ 256)%nat →
       pipeline a' = pipeline a ++ map content (logged_entries [ev]))) w a.
Proof.
  intros Hok Hopen Hrun. destruct ev as [e|]; cbn [audit_step logged_entries omap].
  - apply wp_Log; [done|]. intros t w' _ _. unfold enqueued, pipeline, ch_cap.
    destruct (Nat.ltb_spec (length (ch a)) 256) as [Hlt|Hge].
    + split_and!; cbn; try done.
      * destruct Hok. split; cbn; [rewrite length_app; cbn; lia|done|done].
      * rewrite (app_assoc (audit_log a)), (map_app _ (_ ++ _)). reflexivity.
      * rewrite length_app. cbn. lia.
      * intros _ _. rewrite (app_assoc (audit_log a)), (map_app _ (_ ++ _)). reflexivity.
    + split_and!; try done; cbn; [by apply sublist_inserts_r|lia|lia].
  - rewrite !app_nil_r, Nat.add_0_r. apply wp_bind, wp_writer_step; [done..| | |].
    + intros Hch _. apply wp_ret. by split_and!.
    + congruence.
    + intros e rest w' log' n' Hch _ Hlog a' Hok'. apply wp_ret.
      split_and!; cbn; try done; unfold pipeline; rewrite ?Hch; cbn; [|lia|].
      * destruct Hlog as [->|[_ ->]]; rewrite !map_app; cbn; rewrite <-?app_assoc; cbn; [done|].
        apply sublist_app; [done|]. by constructor.
      * intros Hf _. destruct Hlog as [->|[? _]]; [|done].
        rewrite <-app_assoc, !map_app, ?app_nil_r. reflexivity.
Qed.

(** C34: Under any interleaving of producers and the writer, the audit pipeline is
    first in, first out and bounded: logging never blocks or panics, the queue never
    exceeds 256 entries, what is written and queued is an in-order selection of what
    was logged, and nothing is lost as long as the queue has room and the database
    works. *)
Theorem audit_pipeline_fifo evs a w :
  logger_ok a → ch_closed a = false → writer_done a = false →
  ∃ us w' a', audit_run evs (w, a) = (Ok us, (w', a')) ∧ logger_ok a' ∧
    sublist (pipeline a') (pipeline a ++ map content (logged_entries evs)) ∧
    (¬ sql_faulty → (length (ch a) + length (logged_entries evs) ≤ 256)%nat →
       pipeline a' = pipeline a ++ map content (logged_entries evs)).
Proof.
  intros Hok Hopen Hrun.
  enough (wp (audit_run evs) (λ _ w' a', logger_ok a' ∧
    sublist (pipeline a') (pipeline a ++ map content (logged_entries evs)) ∧
    (¬ sql_faulty → (length (ch a) + length (logged_entries evs) ≤ 256)%nat →
       pipeline a' = pipeline a ++ map content (logged_entries evs))) w a) as Hwp.
  { destruct (wp_returns _ _ _ _ Hwp) as (us & w' & a' & ? & ?). by exists us, w', a'. }
  revert a w Hok Hopen Hrun. unfold audit_run.
  induction evs as [|ev evs IH]; intros a w Hok Hopen Hrun; cbn [mapM_].
  { apply wp_ret. cbn. rewrite app_nil_r. done. }
  assert (logged_entries (ev :: evs) = logged_entries [ev] ++ logged_entries evs) as ->
    by (by destruct ev).
  wp_use wp_audit_step as ? w1 a1 (Hok1 & Hopen1 & Hrun1 & Hsub1 & Hlen1 & Heq1); [done..|].
  wp_use IH as ? w2 a2 (Hok2 & Hsub2 & Heq2); [done..|]. apply wp_ret.
  rewrite map_app, app_assoc, length_app. split_and!; [done| |].
  - etrans; [exact Hsub2|]. by apply sublist_app.
  - intros Hf Hroom. rewrite Heq2, Heq1 by (done || lia). done.
Qed.

(** One step, seen by an entry in the queue: a write brings it one place forward, or
    into the table; a producer does not move it.  The table only grows. *)
Lemma wp_step_queued ev a w :
  ¬ sql_faulty → logger_ok a → ch_closed a = false → writer_done a = false →
  wp (audit_step ev) (λ _ w' a', logger_ok a' ∧ ch_closed a' = false ∧ writer_done a' = false ∧
    audit_log a ⊆ audit_log a' ∧
    ∀ j e, ch a !! j = Some e →
      match ev, j with
      | ELog _, _ => ch a' !! j = Some e
      | EWrite, O => ∃ n, set_e_ID n e ∈ audit_log a'
      | EWrite, S j => ch a' !! j = Some e
      end) w a.
Proof.
  intros Hf Hok Hopen Hrun. destruct ev as [x|]; cbn [audit_step].
  - apply wp_Log; [done|]. intros t w' _ _. unfold enqueued, ch_cap.
    destruct (Nat.ltb_spec (length (ch a)) 256) as [Hlt|Hge]; [|by split_and!].
    split_and!; cbn; try done.
    + destruct Hok. split; cbn; [rewrite length_app; cbn; lia|done|done].
    + intros j e Hj. by apply lookup_app_l_Some.
  - apply wp_bind, wp_writer_step; [done..| | |].
    + intros Hch _. apply wp_ret. split_and!; try done. intros j e. by rewrite Hch.
    + congruence.
    + intros e rest w' log' n' Hch _ [->|[? _]] a' Hok'; [|done]. apply wp_ret.
      split_and!; cbn; try done; [set_solver|]. intros [|j] x; rewrite Hch; cbn; [|done].
      intros [= ->]. exists (next_id a). set_solver.
Qed.

Definition writes (evs : list audit_event) : nat :=
  length (filter (λ ev, ev = EWrite) evs).

Lemma wp_run_queued evs a w e :
  ¬ sql_faulty → logger_ok a → ch_closed a = false → writer_done a = false →
  (∃ n, set_e_ID n e ∈ audit_log a) ∨ (∃ j, ch a !! j = Some e ∧ (j < writes evs)%nat) →
  wp (audit_run evs) (λ _ _ a', ∃ n, set_e_ID n e ∈ audit_log a') w a.
Proof.
  unfold audit_run, writes. revert a w.
  induction evs as [|ev evs IH]; intros a w Hf Hok Hopen Hrun He; cbn [mapM_].
  { apply wp_ret. destruct He as [?|(j & _ & Hj)]; [done|cbn in Hj; lia]. }
  wp_use wp_step_queued as ? w1 a1 (Hok1 & Hopen1 & Hrun1 & Hlog & Hq); [done..|].
  apply wp_bind. eapply wp_mono; [apply IH; [done..|]|].
  2:{ intros us w2 a2 Hw. by apply wp_ret. }
  destruct He as [[n Hn]|(j & Hj & Hlt)]; [left; exists n; by apply Hlog|].
  specialize (Hq j e Hj). destruct ev as [x|].
  - right. exists j. split; [done|]. by rewrite filter_cons_False in Hlt by done.
  - rewrite filter_cons_True in Hlt by done. cbn in Hlt. destruct j as [|j]; [by left|].
    right. exists j. split; [done|lia].
Qed.

(** C35: A queued entry is eventually written.  Whatever the producers do meanwhile,
    once the writer has taken one turn more than there are entries before it, the
    entry is in the table, if the database works. *)
Theorem queued_entry_written evs a w i e :
  ¬ sql_faulty → logger_ok a → ch_closed a = false → writer_done a = false →
  ch a !! i = Some e → (i < writes evs)%nat →
  ∃ us w' a' n, audit_run evs (w, a) = (Ok us, (w', a')) ∧ set_e_ID n e ∈ audit_log a'.
Proof.
  intros Hf Hok Hopen Hrun Hi Hlt.
  destruct (wp_returns _ _ _ _ (wp_run_queued evs a w e Hf Hok Hopen Hrun ltac:(eauto)))
    as (us & w' & a' & Hr & n & Hn). by exists us, w', a', n.
Qed.

(** ** Shutdown *)
Lemma wp_writer_done fuel a w (Q : unit → W → Logger → Prop) :
  writer_done a = true → Q tt w a → wp (writer fuel) Q w a.
Proof.
  intros Hdone HQ. destruct fuel as [|fuel]; cbn [writer]; [by apply wp_ret|].
  unfold writer_step. apply wp_bind, wp_bind, wp_get_state. rewrite Hdone. by apply wp_ret, wp_ret.
Qed.

Lemma wp_writer_closed fuel a w :
  logger_ok a → ch_closed a = true → writer_done a = false → (length (ch a) < fuel)%nat →
  wp (writer fuel) (λ _ w' a', ch a' = [] ∧ ch_closed a' = true ∧ writer_done a' = true ∧
    sublist (map content (audit_log a')) (pipeline a) ∧
    (¬ sql_faulty → map content (audit_log a') = pipeline a)) w a.
Proof.
  revert a w. induction fuel as [|fuel IH]; intros a w Hok Hclosed Hrun Hfuel; [lia|].
  cbn [writer]. apply wp_bind, wp_writer_step; [done..| | |].
  - congruence.
  - intros Hch _. apply wp_writer_done; [done|]. unfold pipeline. rewrite Hch, app_nil_r.
    by split_and!.
  - intros e rest w' log' n' Hch _ Hlog a' Hok'. rewrite Hch in Hfuel. cbn in Hfuel.
    eapply wp_mono; [apply IH; cbn; [done|done|done|lia]|].
    intros _ w2 a2 (? & ? & ? & Hsub & Heq). split_and!; [done..| |].
    + etrans; [exact Hsub|]. unfold pipeline, a'. cbn. rewrite Hch, !map_app.
      destruct Hlog as [->|[_ ->]]; rewrite ?map_app; cbn; rewrite <-?app_assoc; [done|].
      apply sublist_app; [done|]. by constructor.
    + intros Hf. rewrite Heq by done. unfold pipeline, a'. cbn. rewrite Hch.
      destruct Hlog as [->|[? _]]; [|done]. rewrite <-app_assoc, !map_app. reflexivity.
Qed.

(** C36: Close drains the queue: it always terminates, leaving the channel closed and
    empty and the writer finished; the table then holds, in order, what was written
    and queued before, all of it if the database works. *)
Theorem close_drains a w :
  logger_ok a → ch_closed a = false → writer_done a = false →
  ∃ w' a', Logger_Close (w, a) = (Ok tt, (w', a')) ∧
    ch a' = [] ∧ ch_closed a' = true ∧ writer_done a' = true ∧
    sublist (map content (audit_log a')) (pipeline a) ∧
    (¬ sql_faulty → map content (audit_log a') = pipeline a).
Proof.
  intros [Hcap Hids Hnext] Hopen Hrun.
  assert (wp Logger_Close (λ _ w' a', ch a' = [] ∧ ch_closed a' = true ∧ writer_done a' = true ∧
    sublist (map content (audit_log a')) (pipeline a) ∧
    (¬ sql_faulty → map content (audit_log a') = pipeline a)) w a) as Hwp.
  { unfold Logger_Close. apply wp_bind, wp_get_state. rewrite Hopen. apply wp_bind, wp_put_state.
    eapply wp_mono; [apply wp_writer_closed; cbn; [by split|done|done|lia]|]. done. }
  destruct (wp_returns _ _ _ _ Hwp) as ([] & w' & a' & ? & ?). by exists w', a'.
Qed.

(** ** Queries *)
Lemma id_desc_order : total_order id_desc.
Proof. split; unfold id_desc; intros *; rewrite !Z.leb_le; lia. Qed.

Lemma filter_sorted (P : Entry → Prop) `{∀ e, Decision (P e)} l :
  StronglySorted id_lt l → StronglySorted id_lt (filter P l).
Proof.
  induction 1 as [|e l Hs IH He]; [constructor|]. rewrite filter_cons.
  destruct (decide (P e)); [|done]. constructor; [done|].
  rewrite Forall_forall in He |- *. intros x [_ Hx]%list_elem_of_filter. by apply He.
Qed.

Lemma rev_sorted l : StronglySorted id_lt l → StronglySorted (λ x y, id_desc x y = true) (rev l).
Proof.
  induction 1 as [|e l Hs IH He]; cbn; [constructor|].
  assert (∀ x, x ∈ rev l → id_desc x e = true) as Hx.
  { intros x Hx. rewrite elem_of_rev in Hx. rewrite Forall_forall in He. specialize (He x Hx).
    apply Z.leb_le. unfold id_lt in He. lia. }
  clear -IH Hx. induction IH as [|x l' _ IH Hf]; cbn; [by repeat constructor|].
  constructor; [apply IH; intros y ?; apply Hx; by right|].
  apply Forall_app. split; [done|]. repeat constructor. apply Hx. left.
Qed.

Lemma sorted_id_inj l x y : StronglySorted id_lt l → x ∈ l → y ∈ l → e_ID x = e_ID y → x = y.
Proof.
  induction 1 as [|e l _ IH He]; intros Hx Hy Heq; [by apply not_elem_of_nil in Hx|].
  rewrite Forall_forall in He. unfold id_lt in He.
  apply elem_of_cons in Hx as [->|Hx], Hy as [->|Hy]; [done|..|by apply IH].
  - specialize (He y Hy). lia.
  - specialize (He x Hx). lia.
Qed.

Lemma sorted_desc_unique l l' :
  StronglySorted id_lt l → l' ≡ₚ l → StronglySorted (λ x y, id_desc x y = true) l' → l' = rev l.
Proof.
  intros Hl Hperm Hl'.
  apply (StronglySorted_unique_strong (λ x y, id_desc x y = true)); [|done|by apply rev_sorted|].
  - intros x y Hx Hy Hxy Hyx. rewrite Hperm in Hx. rewrite elem_of_rev in Hy.
    apply (sorted_id_inj l); [done..|]. unfold id_desc in *. apply Z.leb_le in Hxy, Hyx. lia.
  - rewrite Hperm. apply Permutation_rev.
Qed.

(** C37: A query answers from the table alone: with a working database it returns the
    number of entries that match the filters (an empty filter matches everything),
    and of those, newest first, the page that starts at [offset] and holds at most
    [limit] entries.  It changes nothing. *)
Theorem query_pages limit offset operation status a w :
  ¬ sql_faulty → logger_ok a →
  let matching := filter (λ e, (operation = EmptyString ∨ e_Operation e = operation) ∧
                               (status = EmptyString ∨ e_Status e = status)) (audit_log a) in
  ∃ w', Query limit offset operation status (w, a) =
    (Ok (sql_limit limit offset (rev matching), Z.of_nat (length matching)), (w', a)).
Proof.
  intros Hf [_ Hids _] matching.
  assert (filter (λ e, entry_matches operation status e = true) (audit_log a) = matching) as Hm.
  { unfold matching. apply list_filter_iff. intros e. unfold entry_matches.
    by rewrite andb_true_iff, !orb_true_iff, !String.eqb_eq. }
  unfold Query, world, get_state. unfold mbind, M_bind. cbn. rewrite Hm.
  destruct (sql_query _ [Z.of_nat (length matching)] w) as [cnt w1] eqn:Hc. cbn.
  destruct (sql_query id_desc matching w1) as [rows w2] eqn:Hq. cbn. exists w2.
  destruct cnt as [ns|e]; [|destruct Hf; apply (sql_query_err Z (λ _ _, true) [Z.of_nat (length matching)] w e); by rewrite Hc].
  destruct rows as [rows|e]; [|destruct Hf; apply (sql_query_err Entry id_desc matching w1 e); by rewrite Hq].
  destruct (sql_query_rows Z (λ _ _, true) [Z.of_nat (length matching)] w ns (f_equal fst Hc)) as [_ [Hns|?]]; [|done].
  destruct (sql_query_rows Entry id_desc matching w1 rows (f_equal fst Hq)) as [_ [Hrows|?]]; [|done].
  apply Permutation_singleton_r in Hns as ->.
  rewrite (sorted_desc_unique matching rows); [done| |done|].
  - by apply filter_sorted.
  - apply (sql_query_sorted _ id_desc matching w1); [apply id_desc_order|by rewrite Hq].
Qed.
End audit.

(** ** Witnesses *)
Definition test_entry (op status : string) : Entry :=
  mkEntry 0 7 "kmip" op "client" "uuid-0" EmptyString status EmptyString "10.0.0.1".
Definition test_audit : Logger :=
  mkLogger [test_entry "Get" "success"; test_entry "Destroy" "failure"] false false
    [set_e_ID 1 (test_entry "Create" "success"); set_e_ID 2 (test_entry "Get" "failure")] 3.
Lemma test_audit_ok : logger_ok test_audit.
Proof. split; cbn; [lia|repeat constructor|repeat constructor; cbn; lia]. Qed.

Lemma audit_pipeline_fifo_witness :
  ∃ us w' a', audit_run [ELog (test_entry "Revoke" "success"); EWrite; EWrite; ELog (test_entry "Get" "success")]
      (test_world, test_audit) = (Ok us, (w', a')) ∧
    map e_Operation (audit_log a' ++ ch a') = ["Create"; "Get"; "Get"; "Destroy"; "Revoke"; "Get"].
Proof.
  destruct (audit_pipeline_fifo [ELog (test_entry "Revoke" "success"); EWrite; EWrite;
    ELog (test_entry "Get" "success")] test_audit test_world test_audit_ok eq_refl eq_refl)
    as (us & w' & a' & Hrun & _ & _ & Heq).
  exists us, w', a'. split; [done|].
  specialize (Heq (λ f : False, f) ltac:(cbn; lia)). unfold pipeline in Heq.
  apply (f_equal (map e_Operation)) in Heq. rewrite map_map in Heq. exact Heq.
Defined.

Lemma queued_entry_written_witness :
  ∃ us w' a' n, audit_run [ELog (test_entry "Revoke" "success"); EWrite; EWrite]
      (test_world, test_audit) = (Ok us, (w', a')) ∧
    set_e_ID n (test_entry "Destroy" "failure") ∈ audit_log a'.
Proof.
  exact (queued_entry_written (SqlLaws0:=test_driver_laws)
    [ELog (test_entry "Revoke" "success"); EWrite; EWrite] test_audit test_world 1 _ (λ f : False, f)
    test_audit_ok eq_refl eq_refl eq_refl ltac:(vm_compute; lia)).
Defined.

Lemma close_drains_witness :
  ∃ w' a', Logger_Close (test_world, test_audit) = (Ok tt, (w', a')) ∧ ch a' = [] ∧
    map e_Operation (audit_log a') = ["Create"; "Get"; "Get"; "Destroy"].
Proof.
  destruct (close_drains test_audit test_world test_audit_ok eq_refl eq_refl)
    as (w' & a' & Hrun & Hch & _ & _ & _ & Heq).
  exists w', a'. split_and!; [done..|]. specialize (Heq (λ f : False, f)).
  apply (f_equal (map e_Operation)) in Heq. unfold pipeline in Heq. rewrite !map_map in Heq. exact Heq.
Defined.

Lemma query_pages_witness :
  ∃ w', Query 1 0 "Get" EmptyString (test_world, test_audit) =
    (Ok ([set_e_ID 2 (test_entry "Get" "failure")], 1), (w', test_audit)).
Proof. exact (query_pages (SqlLaws0:=test_driver_laws) 1 0 "Get" EmptyString test_audit test_world (λ f : False, f) test_audit_ok). Defined.
