(* ===== verification/Server.v ===== *)
(** * The KMIP listener (src/internal/kmip/server.go)

    The loop that accepts connections under a semaphore, and the life of one
    connection: handshake, registration with the tracker, the loop that frames
    messages, and the deferred cleanup and panic recovery. *)

From Stdlib Require Import ZArith Lia.
From Stdlib.Strings Require Import Byte.
From S2P Require Import Prelude GoRuntime Storage KmipLib CryptoLib SQLiteStore AuditLog.
From S2P Require Import Connections Handler Requests.
Local Open Scope Z_scope.
Local Open Scope go_scope.

Definition maxTTLVMessageSize : Z := Z.shiftl 10 20.
Definition maxConnections : nat := 1000.
Definition connectionTimeout : Z := 5 * Minute.

(** [net.Conn] with TLS: what the code calls of it. *)
Class NetConn (W : Type) := {
  conn_RemoteAddr : W → string;
  (** The handshake: the peer certificate's common name, if it sent one. *)
  conn_Handshake : W → result (option string) * W;
  conn_SetDeadline : Time → W → W;
  (** [io.ReadFull(conn, buf)] for a buffer of the given length. *)
  conn_ReadFull : nat → W → result bytes * W;
  conn_Write : bytes → W → option string * W;
  conn_Close : W → W;
}.
(** None of it concerns the UUIDs; a successful read fills the buffer. *)
Class NetConnLaws (W : Type) `{RuntimeLaws W} `{!NetConn W} : Prop := {
  conn_Handshake_issued w : later w (conn_Handshake w).2;
  conn_SetDeadline_issued t w : later w (conn_SetDeadline t w);
  conn_ReadFull_issued n w : later w (conn_ReadFull n w).2;
  conn_Write_issued bs w : later w (conn_Write bs w).2;
  conn_Close_issued w : later w (conn_Close w);
  conn_ReadFull_fills n w bs : (conn_ReadFull n w).1 = Val bs → length bs = n;
}.

(** [binary.BigEndian.Uint32] *)
Definition byte_val (b : Byte.byte) : Z := Z.of_N (Byte.to_N b).
Definition BigEndian_Uint32 (b : bytes) : Z :=
  match b with
  | b0 :: b1 :: b2 :: b3 :: _ =>
      Z.lor (Z.lor (Z.lor (byte_val b3) (Z.shiftl (byte_val b2) 8))
        (Z.shiftl (byte_val b1) 16)) (Z.shiftl (byte_val b0) 24)
  | _ => 0
  end.

(** [defer]: [cleanup] runs whether [m] returns or panics; [recovering m] is the
    deferred [recover()]: a panic ends the call like a return. *)
Definition deferring {W S A} (cleanup : M W S unit) (m : M W S A) : M W S A :=
  λ σ, let '(r, σ1) := m σ in
       match cleanup σ1 with
       | (Ok _, σ2) => (r, σ2)
       | (Panic e, σ2) => (Panic e, σ2)
       end.
Definition recovering {W S} (m : M W S unit) : M W S unit :=
  λ σ, let '(_, σ1) := m σ in (Ok tt, σ1).

Section server.
Context {W S : Type} `{Runtime W} `{!SqlDriver W} `{!Storage W S} `{KmipLib} `{!CryptoLib W}.
Context `{!NetConn W}.

Definition effect {T} (f : W → W) : M W T unit := world (λ w, (tt, f w)).

(** One turn of the loop of [handleConnection]; [false] when it returns. *)
Definition serve_message (clientCN remoteAddr connID : string) : M W (HandlerState S) bool :=
  now ← world time_Now;
  effect (conn_SetDeadline (now + connectionTimeout));;
  r ← world (conn_ReadFull 8);
  val header := r else _err => mret false;;
  let valueLen := BigEndian_Uint32 (drop 4 header) in
  if maxTTLVMessageSize <? valueLen then mret false
  else
    r ← world (conn_ReadFull (Z.to_nat valueLen));
    val body := r else _err => mret false;;
    response ← HandleRequest (header ++ body) clientCN remoteAddr connID;
    e ← world (conn_Write response);
    match e with Some _ => mret false | None => mret true end.

(** The loop, for at most [fuel] messages. *)
Fixpoint serve_messages (fuel : nat) (clientCN remoteAddr connID : string) :
    M W (HandlerState S) unit :=
  match fuel with
  | O => mret tt
  | Datatypes.S fuel =>
      more ← serve_message clientCN remoteAddr connID;
      if more : bool then serve_messages fuel clientCN remoteAddr connID else mret tt
  end.

(** [handleConnection]; the deferred calls run in reverse order. *)
Definition handleConnection (fuel : nat) : M W (HandlerState S) unit :=
  deferring (effect conn_Close) (recovering (
    connID ← world uuid_New;
    remoteAddr ← world (λ w, (conn_RemoteAddr w, w));
    r ← world conn_Handshake;
    val peer := r else _err => mret tt;;
    let clientCN := default EmptyString peer in
    with_tracker (Add connID clientCN remoteAddr);;
    deferring (with_tracker (Remove connID))
      (serve_messages fuel clientCN remoteAddr connID))).
End server.

(** ** The accept loop: a connection takes a slot of the semaphore or is closed. *)
Record Listener := mkListener { sem : nat; serving : list nat; rejected : list nat }.
Inductive listen_event := EvAccept (conn : nat) | EvAcceptError | EvDone (conn : nat).
(** A connection ends once. *)
Fixpoint remove_one (c : nat) (l : list nat) : list nat :=
  match l with
  | [] => []
  | x :: l => if (x =? c)%nat then l else x :: remove_one c l
  end.
Definition listen_step (l : Listener) (ev : listen_event) : Listener :=
  match ev with
  | EvAccept c =>
      if (sem l <? maxConnections)%nat
      then mkListener (S (sem l)) (c :: serving l) (rejected l)
      else mkListener (sem l) (serving l) (c :: rejected l)
  | EvAcceptError => l
  | EvDone c =>
      if bool_decide (c ∈ serving l)
      then mkListener (pred (sem l)) (remove_one c (serving l)) (rejected l)
      else l
  end.
Definition Serve (evs : list listen_event) : Listener := foldl listen_step (mkListener 0 [] []) evs.
