(* ===== verification/ServerTheorems.v ===== *)
(** * Properties of the KMIP listener

    A connection leaves no trace in the tracker, the framing reads back what a client
    wrote and bounds what the server reads, and the accept loop respects its limit. *)

From Stdlib Require Import ZArith Lia.
From Stdlib.Strings Require Import Byte.
From stdpp Require Import relations.
From S2P Require Import Prelude GoRuntime Storage MemoryStore MemoryStoreProofs SQLiteStore.
From S2P Require Import KmipLib CryptoLib AuditLog Connections Testbed Lifecycle Handler.
From S2P Require Import HandlerSpec HandlerProofs Requests RequestProofs RequestTheorems Server.
Local Open Scope Z_scope.
Local Open Scope go_scope.

Lemma bind_world {W S A B} (f : W → A * W) (k : A → M W S B) w s :
  (world f ≫= k) (w, s) = k (f w).1 ((f w).2, s).
Proof. unfold mbind, M_bind, world. cbn. by destruct (f w). Qed.
Lemma M_bind_ext {W S A B} (m : M W S A) (k1 k2 : A → M W S B) σ :
  (∀ a σ', k1 a σ' = k2 a σ') → (m ≫= k1) σ = (m ≫= k2) σ.
Proof. intros Hk. unfold mbind, M_bind. destruct (m σ) as [[a|e] σ']; [apply Hk|done]. Qed.

(** Disjoint bits add up. *)
Lemma lor_shiftl_add x y k :
  0 ≤ k → 0 ≤ x < 2 ^ k → Z.lor x (Z.shiftl y k) = x + 2 ^ k * y.
Proof.
  intros Hk Hx. pose proof (Z.add_lor_land x (Z.shiftl y k)) as Heq.
  assert (Z.land x (Z.shiftl y k) = 0) as Hz.
  { apply Z.bits_inj'. intros i Hi. rewrite Z.land_spec, Z.bits_0.
    destruct (Z.lt_ge_cases i k).
    - by rewrite Z.shiftl_spec_low, andb_false_r by done.
    - rewrite <-(Z.mod_small x (2 ^ k)), Z.mod_pow2_bits_high by lia. done. }
  rewrite Z.shiftl_mul_pow2 in * by done. lia.
Qed.

(** Two trackers that agree on every connection but one. *)
Definition tracks (connID : string) (o o' : option ConnectionTracker) : Prop :=
  match o, o' with
  | Some ct, Some ct' => ∀ id, id ≠ connID → conns ct' !! id = conns ct !! id
  | None, None => True
  | _, _ => False
  end.
#[local] Instance tracks_preorder connID : PreOrder (tracks connID).
Proof.
  split; [by intros [ct|]|]. intros [c1|] [c2|] [c3|]; cbn; try done.
  intros H12 H23 id Hid. by rewrite H23, H12.
Qed.

Section connection.
Context {W S : Type} `{RuntimeLaws W} `{!SqlDriver W} `{Hkdf} `{!Storage W S}.
Context {Inv : W → S → Prop} {view : S → Vault} {faulty : Prop}.
Context `{!StorageSpec W S Inv view faulty} `{KmipLib} `{!CryptoLib W} `{!CryptoLaws W}.
Context `{!KmipLaws} `{!NetConn W} `{!NetConnLaws W}.
Implicit Types (h : HandlerState S) (w : W).
Local Abbreviation handler_inv := (handler_inv (Inv:=Inv)).
Local Abbreviation handler_view := (handler_view (view:=view)).

Lemma processBatchItem_tracks bi cn remoteAddr connID h w :
  handler_inv w h →
  wp (processBatchItem bi cn remoteAddr connID)
    (λ _ _ h', tracks connID (tracker h) (tracker h')) w h.
Proof.
  intros HI. pose proof (wp_processBatchItem bi cn remoteAddr connID h w HI) as Hwp.
  destruct (FindChild bi TagOperation) as [opItem|] eqn:Hop.
  - eapply wp_mono; [exact Hwp|]. intros res w' h' (_ & _ & Hproc).
    destruct (Hproc _ eq_refl) as (t1 & t2 & st & ->). unfold processed.
    destruct (audit_outcome _ _) as [[??]?]. cbn. destruct (tracker h) as [ct|]; [|done]. cbn.
    intros id Hid. unfold recorded. destruct (conns ct !! connID); [|done]. cbn.
    by rewrite lookup_insert_ne.
  - unfold processBatchItem. rewrite Hop. by apply wp_ret.
Qed.

Lemma HandleRequest_tracks data cn remoteAddr connID h w :
  handler_inv w h →
  wp (HandleRequest data cn remoteAddr connID)
    (λ _ _ h', tracks connID (tracker h) (tracker h')) w h.
Proof.
  intros HI. unfold HandleRequest. destruct (DecodeTTLV data 0) as [msg|e].
  2: { apply wp_bind, wp_logOperation; [by destruct HI|]. intros. by apply wp_ret. }
  destruct (Tag msg =? TagRequestMessage); [|by apply wp_ret].
  destruct (rejected_version msg); [by apply wp_ret|]. cbv zeta.
  destruct (negb _); [|by apply wp_ret]. destruct (negb _); [|by apply wp_ret].
  apply wp_bind. eapply (wp_mapM _ (λ w' h', handler_inv w' h' ∧
    tracks connID (tracker h) (tracker h')) (λ _ _, True)); [done| |].
  - intros bi w1 h1 _ [HI1 Ht1]. eapply wp_mono;
      [apply (wp_and _ _ _ _ _ (processBatchItem_ok bi cn remoteAddr connID h1 w1 HI1)
         (processBatchItem_tracks bi cn remoteAddr connID h1 w1 HI1))|].
    intros res w2 h2 [[HI2 _] Ht2]. split; [|done]. split; [done|]. by etrans.
  - intros ress w' h' [_ Ht] _. by apply wp_ret.
Qed.

Lemma wp_effect {T} (f : W → W) (Q : unit → W → T → Prop) w t : Q tt (f w) t → wp (effect f) Q w t.
Proof. intros HQ. by apply wp_world. Qed.

Lemma serve_message_ok cn remoteAddr connID h w :
  handler_inv w h →
  wp (serve_message cn remoteAddr connID) (λ _ w' h', handler_inv w' h' ∧
    evolves (handler_view h) (handler_view h') ∧ tracks connID (tracker h) (tracker h')) w h.
Proof.
  intros HI. unfold serve_message. apply wp_bind, wp_now. intros now w1 Hw1.
  apply wp_bind, wp_effect, wp_bind, wp_world.
  set (w2 := conn_SetDeadline _ w1).
  assert (later w w2) as Hw2 by (etrans; [exact Hw1|apply conn_SetDeadline_issued]).
  pose proof (conn_ReadFull_issued 8 w2) as Hw3.
  destruct (conn_ReadFull 8 w2) as [[header|e] w3]; cbn [fst snd] in *.
  2: { apply wp_ret. split_and!; [|apply rtc_refl|done].
       eapply handler_inv_later; [|done]. by etrans. }
  destruct (maxTTLVMessageSize <? _).
  { apply wp_ret. split_and!; [|apply rtc_refl|done].
    eapply handler_inv_later; [|done]. by etrans. }
  apply wp_bind, wp_world. set (n := Z.to_nat _). pose proof (conn_ReadFull_issued n w3) as Hw4.
  destruct (conn_ReadFull n w3) as [[body|e] w4]; cbn [fst snd] in *.
  2: { apply wp_ret. split_and!; [|apply rtc_refl|done].
       eapply handler_inv_later; [|done]. etrans; [exact Hw2|]. by etrans. }
  assert (handler_inv w4 h) as HI4.
  { eapply handler_inv_later; [|done]. etrans; [exact Hw2|]. by etrans. }
  apply wp_bind. eapply wp_mono; [apply (wp_and _ _ _ _ _
    (HandleRequest_ok (header ++ body) cn remoteAddr connID h w4 HI4)
    (HandleRequest_tracks (header ++ body) cn remoteAddr connID h w4 HI4))|].
  intros res w5 h5 [[HI5 Hspec] Ht]. apply wp_bind, wp_world.
  pose proof (conn_Write_issued res w5) as Hw6.
  assert (handler_inv (conn_Write res w5).2 h5) as HI6 by (by eapply handler_inv_later).
  assert (evolves (handler_view h) (handler_view h5)) as Hev.
  { eapply request_within; [|exact Hspec]. destruct HI as [HI _]. by eapply (spec_wf w (store h)). }
  destruct (conn_Write res w5).1; by apply wp_ret.
Qed.

Lemma serve_messages_ok fuel cn remoteAddr connID h w :
  handler_inv w h →
  wp (serve_messages fuel cn remoteAddr connID) (λ _ w' h', handler_inv w' h' ∧
    evolves (handler_view h) (handler_view h') ∧ tracks connID (tracker h) (tracker h')) w h.
Proof.
  revert h w. induction fuel as [|fuel IH]; intros h w HI; cbn [serve_messages].
  { apply wp_ret. split_and!; [done|apply rtc_refl|done]. }
  wp_use serve_message_ok as more w1 h1 (HI1 & Hev1 & Ht1); [done|].
  destruct more; [|by apply wp_ret]. eapply wp_mono; [by apply IH|].
  intros _ w2 h2 (HI2 & Hev2 & Ht2). split_and!; [done|by etrans|by etrans].
Qed.

Lemma wp_deferring {T A} (cleanup : M W T unit) (m : M W T A) (Q : A → W → T → Prop) w t :
  wp m (λ a w' t', wp cleanup (λ _, Q a) w' t') w t → wp (deferring cleanup m) Q w t.
Proof.
  unfold wp, deferring. destruct (m (w, t)) as [[a|e] [w1 t1]]; [|done].
  destruct (cleanup (w1, t1)) as [[u|e] [w2 t2]]; done.
Qed.
Lemma wp_recovering {T} (m : M W T unit) (Q : unit → W → T → Prop) w t :
  wp m Q w t → wp (recovering m) Q w t.
Proof. unfold wp, recovering. by destruct (m (w, t)) as [[[]|e] [w1 t1]]. Qed.

(** Adding and removing a connection. *)
Lemma wp_tracker_Add id cn addr h w (Q : unit → W → HandlerState S → Prop) :
  (∀ w' o, later w w' → tracks id (tracker h) o → Q tt w' (mkHandler (store h) (audit h) o)) →
  wp (with_tracker (Add id cn addr)) Q w h.
Proof.
  intros HQ. unfold with_tracker. apply wp_bind, wp_get_state. destruct h as [st a [ct|]]; cbn in *.
  - apply wp_zoom. unfold Add. apply wp_bind, wp_now. intros now w' Hw.
    apply wp_bind, wp_get_state, wp_put_state. apply (HQ w' (Some _)); [done|].
    intros id' Hne. cbn. by rewrite lookup_insert_ne.
  - apply wp_ret. by apply (HQ w None).
Qed.
Lemma wp_tracker_Remove id h w (Q : unit → W → HandlerState S → Prop) :
  Q tt w (mkHandler (store h) (audit h)
    ((λ ct, mkConnectionTracker (delete id (conns ct))) <$> tracker h)) →
  wp (with_tracker (Remove id)) Q w h.
Proof.
  intros HQ. unfold with_tracker. apply wp_bind, wp_get_state. by destruct h as [st a [ct|]].
Qed.

Lemma tracks_delete id ct o :
  tracks id (Some ct) o → conns ct !! id = None →
  (λ ct, mkConnectionTracker (delete id (conns ct))) <$> o = Some ct.
Proof.
  destruct o as [ct'|]; [|done]. cbn. intros Heq Hn. f_equal. destruct ct as [m]. cbn in *. f_equal.
  apply map_eq. intros i. destruct (decide (i = id)) as [->|Hne].
  - by rewrite lookup_delete_eq.
  - rewrite lookup_delete_ne by done. by apply Heq.
Qed.

(** C38: A connection leaves only its effect on the vault: however many messages the
    client sends (and whatever the network does), handling the connection ends
    without a panic, the vault has evolved along the KMIP lifecycle, and the tracker
    is exactly as before the connection, its own entry removed again. *)
Theorem connection_leaves_no_trace fuel ct h w :
  handler_inv w h → tracker h = Some ct →
  (∀ id, is_Some (conns ct !! id) → id ∈ uuids_issued w) →
  ∃ w' h', handleConnection fuel (w, h) = (Ok tt, (w', h')) ∧ handler_inv w' h' ∧
    evolves (handler_view h) (handler_view h') ∧ tracker h' = Some ct.
Proof.
  intros HI Ht Hids.
  enough (wp (handleConnection fuel) (λ _ w' h', handler_inv w' h' ∧
    evolves (handler_view h) (handler_view h') ∧ tracker h' = Some ct) w h) as Hwp.
  { destruct (wp_returns _ _ _ _ Hwp) as ([] & w' & h' & ? & ?). by exists w', h'. }
  unfold handleConnection. apply wp_deferring.
  eapply (wp_mono _ (λ _ w' h', handler_inv w' h' ∧
    evolves (handler_view h) (handler_view h') ∧ tracker h' = Some ct)).
  2: { intros _ w' h' (? & ? & ?). apply wp_effect. split_and!; [|done..].
       eapply handler_inv_later; [apply conn_Close_issued|done]. }
  apply wp_recovering, wp_bind, wp_uuid. intros connID w1 Hw1 Hfresh _.
  apply wp_bind, wp_world. cbn [fst snd]. apply wp_bind, wp_world.
  pose proof (conn_Handshake_issued w1) as Hw2.
  assert (handler_inv (conn_Handshake w1).2 h) as HI2.
  { eapply handler_inv_later; [|done]. by etrans. }
  destruct (conn_Handshake w1) as [[peer|e] w2]; cbn [fst snd] in *.
  2: { apply wp_ret. split_and!; [done|apply rtc_refl|done]. }
  apply wp_bind, wp_tracker_Add. intros w3 o Hw3 Ho. apply wp_deferring.
  eapply wp_mono; [apply serve_messages_ok|].
  { destruct HI2 as [??]. split; [by eapply spec_later|done]. }
  intros _ w4 h4 (HI4 & Hev & Ht4). apply wp_tracker_Remove. split_and!; [done|done|].
  cbn [tracker] in Ht4. eapply (tracks_delete connID ct (tracker h4)); [rewrite <-Ht; by etrans|].
  destruct (conns ct !! connID) eqn:E; [|done]. destruct Hfresh. apply Hids. by eexists.
Qed.

(** C39: The framing: a turn of the loop reads 8 header bytes, takes the body length
    from the big-endian bytes 4 to 7, and hands header and body to the handler as one
    message.  A length above 10 MiB ends the connection with nothing read beyond the
    header, and no message reaches the handler. *)
Theorem framing header body cn remoteAddr connID h w :
  let w1 := conn_SetDeadline ((time_Now w).1 + connectionTimeout) (time_Now w).2 in
  let n := BigEndian_Uint32 (drop 4 header) in
  (conn_ReadFull 8 w1).1 = Val header →
  (10 * 1024 * 1024 < n →
     serve_message cn remoteAddr connID (w, h) = (Ok false, ((conn_ReadFull 8 w1).2, h))) ∧
  (n ≤ 10 * 1024 * 1024 →
     let w2 := (conn_ReadFull 8 w1).2 in
     (conn_ReadFull (Z.to_nat n) w2).1 = Val body →
     serve_message cn remoteAddr connID (w, h) =
       (response ← HandleRequest (header ++ body) cn remoteAddr connID;
        e ← world (conn_Write response);
        mret (match e with Some _ => false | None => true end)) ((conn_ReadFull (Z.to_nat n) w2).2, h)).
Proof.
  intros w1 n Hheader. unfold serve_message. rewrite bind_world.
  unfold effect. rewrite bind_world. cbn [fst snd]. fold w1.
  rewrite bind_world, Hheader. cbv zeta. fold n.
  change maxTTLVMessageSize with (10 * 1024 * 1024). split; intros Hn.
  - by rewrite (proj2 (Z.ltb_lt _ _) Hn).
  - intros Hbody. rewrite (proj2 (Z.ltb_ge _ _) Hn).
    rewrite bind_world, Hbody. apply M_bind_ext. intros response [w5 h5].
    rewrite !bind_world. by destruct (conn_Write response w5).1.
Qed.
End connection.

(** The length field is the unsigned big-endian value of its four bytes, so it is
    below 2^32 and every 32-bit length is read back from its encoding. *)
Theorem length_field_value b0 b1 b2 b3 rest :
  let n := BigEndian_Uint32 (b0 :: b1 :: b2 :: b3 :: rest) in
  n = 256 ^ 3 * byte_val b0 + 256 ^ 2 * byte_val b1 + 256 * byte_val b2 + byte_val b3 ∧
  0 ≤ n < 2 ^ 32.
Proof.
  intros n. assert (∀ b, 0 ≤ byte_val b < 256) as Hb.
  { intros b. unfold byte_val. pose proof (Byte.to_N_bounded b). lia. }
  pose proof (Hb b0); pose proof (Hb b1); pose proof (Hb b2); pose proof (Hb b3).
  enough (n = 256 ^ 3 * byte_val b0 + 256 ^ 2 * byte_val b1 + 256 * byte_val b2 + byte_val b3)
    as Heq by (split; [done|rewrite Heq; lia]).
  unfold n, BigEndian_Uint32.
  rewrite (lor_shiftl_add (byte_val b3) (byte_val b2) 8) by lia.
  rewrite (lor_shiftl_add _ (byte_val b1) 16) by lia.
  rewrite (lor_shiftl_add _ (byte_val b0) 24) by lia. lia.
Qed.

(** C40: The accept loop never serves more than 1000 connections at a time: its
    semaphore counts exactly the connections being served, whatever the order of
    arrivals and departures. *)
Theorem accept_limit evs :
  sem (Serve evs) = length (serving (Serve evs)) ∧ (length (serving (Serve evs)) ≤ 1000)%nat.
Proof.
  unfold Serve. change 1000%nat with maxConnections.
  assert (∀ l, sem l = length (serving l) ∧ (length (serving l) ≤ maxConnections)%nat →
    sem (foldl listen_step l evs) = length (serving (foldl listen_step l evs)) ∧
    (length (serving (foldl listen_step l evs)) ≤ maxConnections)%nat) as Hinv.
  { induction evs as [|ev evs IH]; intros l Hl; [done|]. cbn [foldl]. apply IH. clear IH.
    destruct Hl as [Hsem Hcap]. destruct ev as [c| |c]; cbn [listen_step].
    - destruct (Nat.ltb_spec (sem l) maxConnections); cbn [sem serving length]; lia.
    - done.
    - case_bool_decide as Hc; [|done]. cbn [sem serving].
      assert (S (length (remove_one c (serving l))) = length (serving l)) as Hlen; [|lia].
      clear -Hc. induction (serving l) as [|x xs IH]; [by apply not_elem_of_nil in Hc|]. cbn.
      destruct (Nat.eqb_spec x c) as [|Hne]; [done|]. cbn. rewrite IH; [done|].
      apply elem_of_cons in Hc as [?|?]; [congruence|done]. }
  apply Hinv. cbn. split; [done|]. apply Nat.le_0_l.
Qed.

(** ** Witnesses: a client that keeps sending 16-byte messages of zeros *)
#[local] Instance test_net : NetConn TestWorld := {
  conn_RemoteAddr _ := "10.0.0.1";
  conn_Handshake w := (Val (Some "client"), w);
  conn_SetDeadline _ w := w;
  conn_ReadFull n w :=
    (Val (if (n =? 8)%nat then replicate 7 Byte.x00 ++ [Byte.x10] else replicate n Byte.x00), w);
  conn_Write _ w := (None, w);
  conn_Close w := w;
}.
#[local] Instance test_net_laws : NetConnLaws TestWorld.
Proof.
  split; try done. intros n w bs [= <-].
  destruct (Nat.eqb_spec n 8) as [->|]; [done|]. by rewrite length_replicate.
Qed.

Lemma connection_leaves_no_trace_witness :
  ∃ w' h', handleConnection 3 (test_world, test_handler) = (Ok tt, (w', h')) ∧
    evolves (mkVault ∅ ∅) (mem_view (store h')) ∧ tracker h' = Some NewConnectionTracker.
Proof.
  destruct (connection_leaves_no_trace 3 NewConnectionTracker test_handler test_world
    (test_handler_inv test_world) eq_refl) as (w' & h' & Hrun & _ & Hev & Ht).
  { intros id [x Hx]. unfold NewConnectionTracker in Hx. cbn in Hx. by rewrite lookup_empty in Hx. }
  exists w', h'. split_and!; [exact Hrun|exact Hev|exact Ht].
Defined.

Lemma framing_witness :
  serve_message "client" "10.0.0.1" "conn" (test_world, test_handler) =
    (response ← HandleRequest (replicate 7 Byte.x00 ++ [Byte.x10] ++ replicate 16 Byte.x00)
       "client" "10.0.0.1" "conn";
     e ← world (conn_Write response);
     mret (match e with Some _ => false | None => true end)) (mkTestWorld 1 0, test_handler).
Proof.
  refine (proj2 (framing (replicate 7 Byte.x00 ++ [Byte.x10]) (replicate 16 Byte.x00) "client" "10.0.0.1"
    "conn" test_handler test_world eq_refl) _ eq_refl).
  vm_compute. discriminate.
Defined.
