(* ===== verification/Interference.v ===== *)
(** * Requests that run at the same time

    Every call of the [Storage] interface is atomic (the stores hold their mutex), but a
    handler makes several, and other clients' calls fall in between.  [Shared] is a
    store with a schedule of such calls: before each call a request makes, the next
    burst of the schedule runs.  As it is a [Storage] itself, the handlers of Handler and
    Requests run on it unchanged.

    A record is read when [Get] returns it.  The SQLite store returns a fresh record;
    MemoryStore returns a pointer into its map, whose fields the handlers read later
    without the mutex, and what such a read sees under a concurrent write (a data race)
    is outside the model. *)

From Stdlib Require Import ZArith Lia.
From stdpp Require Import relations.
From S2P Require Import Prelude GoRuntime Storage KmipLib CryptoLib SQLiteStore AuditLog.
From S2P Require Import Connections Lifecycle Handler Requests RequestProofs.
Local Open Scope Z_scope.
Local Open Scope go_scope.

(** A call that may change the store. *)
Inductive StoreCall :=
| CallCreate (name : string) (algorithm length usageMask : Z) (owner : string)
| CallActivate (uid : string)
| CallDestroy (uid : string)
| CallRegister (rec : KeyRecord)
| CallRevoke (uid : string) (reason : Z)
| CallRekey (uid : string)
| CallArchive (uid : string)
| CallRecover (uid : string)
| CallDeriveKey (sourceUID : string) (derivationData : bytes) (name : string) (length : Z)
| CallSetCustomAttribute (uid name value : string)
| CallDeleteCustomAttribute (uid name : string).

Record Shared (S : Type) := mkShared { shared : S; schedule : list (list StoreCall) }.
Arguments mkShared {S}. Arguments shared {S}. Arguments schedule {S}.

Section shared.
Context {W S : Type} `{!Storage W S}.

Definition run_call (c : StoreCall) : M W S unit :=
  match c with
  | CallCreate name algorithm length usageMask owner =>
      Create name algorithm length usageMask owner;; mret tt
  | CallActivate uid => Activate uid;; mret tt
  | CallDestroy uid => Destroy uid;; mret tt
  | CallRegister rec => Register rec;; mret tt
  | CallRevoke uid reason => Revoke uid reason;; mret tt
  | CallRekey uid => Rekey uid;; mret tt
  | CallArchive uid => Archive uid;; mret tt
  | CallRecover uid => Recover uid;; mret tt
  | CallDeriveKey sourceUID derivationData name length =>
      DeriveKey sourceUID derivationData name length;; mret tt
  | CallSetCustomAttribute uid name value => SetCustomAttribute uid name value;; mret tt
  | CallDeleteCustomAttribute uid name => DeleteCustomAttribute uid name;; mret tt
  end.

Definition on_shared {A} (m : M W S A) : M W (Shared S) A :=
  zoom shared (λ s sh, mkShared s (schedule sh)) m.
Definition next_burst : M W (Shared S) (list StoreCall) :=
  sh ← get_state;
  match schedule sh with
  | [] => mret []
  | calls :: rest => put_state (mkShared (shared sh) rest);; mret calls
  end.
(** One call of a request, after what the others do before it. *)
Definition exposed {A} (m : M W S A) : M W (Shared S) A :=
  calls ← next_burst;
  on_shared (mapM_ run_call calls);;
  on_shared m.

#[global] Instance shared_storage : Storage W (Shared S) := {
  Create name algorithm length usageMask owner :=
    exposed (Create name algorithm length usageMask owner);
  Get uid := exposed (Get uid);
  Locate name := exposed (Locate name);
  List_ := exposed List_;
  Activate uid := exposed (Activate uid);
  Destroy uid := exposed (Destroy uid);
  Register rec := exposed (Register rec);
  Revoke uid reason := exposed (Revoke uid reason);
  GetAttributes uid := exposed (GetAttributes uid);
  Rekey uid := exposed (Rekey uid);
  Archive uid := exposed (Archive uid);
  Recover uid := exposed (Recover uid);
  DeriveKey sourceUID derivationData name length :=
    exposed (DeriveKey sourceUID derivationData name length);
  GetCustomAttributes uid := exposed (GetCustomAttributes uid);
  SetCustomAttribute uid name value := exposed (SetCustomAttribute uid name value);
  DeleteCustomAttribute uid name := exposed (DeleteCustomAttribute uid name);
  Close := exposed Close;
}.
End shared.

Section exposed.
Context {W S : Type} `{!Storage W S}.

Lemma wp_exposed {A} (m : M W S A) (Q : A → W → Shared S → Prop) w s calls rest :
  wp (mapM_ run_call calls)
    (λ _ w1 s1, wp m (λ a w2 s2, Q a w2 (mkShared s2 rest)) w1 s1) w s →
  wp (exposed m) Q w (mkShared s (calls :: rest)).
Proof.
  intros H. unfold exposed, next_burst. apply wp_bind, wp_bind, wp_get_state. cbn [schedule shared].
  apply wp_bind, wp_put_state, wp_ret, wp_bind, wp_zoom. cbn [schedule shared].
  eapply wp_mono; [exact H|]. intros u w1 s1 H1. by apply wp_zoom.
Qed.
End exposed.

(** ** What the store alone guarantees

    Without the checks of the handlers: the change one call makes to one object. *)
Inductive store_step : KeyRecord → KeyRecord → Prop :=
| store_set r st : is_live r = true →
    st ∈ [StatePreActive; StateActive; StateArchived] → store_step r (set_State st r)
| store_revoke r reason : is_live r = true → store_step r (revoke_record reason r)
| store_destroy r : is_live r = true → store_step r (destroy_record r)
| store_rekey r mat : is_live r = true → store_step r (rekey_record mat r).
Inductive store_effect (v : Vault) : Vault → Prop :=
| store_new r : objects v !! UID r = None → store_effect v (put_object r v)
| store_one uid r r' : objects v !! uid = Some r → UID r = uid → store_step r r' →
    store_effect v (put_object r' v)
| store_attr attrs : store_effect v (mkVault (objects v) attrs).
Definition store_evolves : Vault → Vault → Prop := rtc store_effect.

Lemma store_step_identity r r' : store_step r r' → same_identity r r' ∧ is_live r = true.
Proof. unfold same_identity. by destruct 1. Qed.
Lemma store_steps_identity r r' : rtc store_step r r' →
  same_identity r r' ∧ (State r = StateDestroyed → r' = r).
Proof.
  induction 1 as [r|r r1 r2 Hs _ [IH _]]; [done|]. apply store_step_identity in Hs as [Hid Hlive].
  split; [by etrans|]. intros Hd. unfold is_live in Hlive. by rewrite Hd in Hlive.
Qed.

Lemma store_effect_object v v' uid r :
  store_effect v v' → objects v !! uid = Some r →
  ∃ r', objects v' !! uid = Some r' ∧ rtc store_step r r'.
Proof.
  destruct 1 as [x Hx|u x x' Hx <- Hs|]; intros Hr; cbn; [| |by exists r].
  - exists r. split; [|done]. rewrite lookup_insert_ne; [done|congruence].
  - destruct (store_step_identity _ _ Hs) as [(HU & _) _].
    destruct (decide (UID x' = uid)) as [<-|].
    + rewrite lookup_insert_eq. exists x'. split; [done|]. rewrite HU in Hr.
      replace r with x by congruence. by apply rtc_once.
    + rewrite lookup_insert_ne by done. by exists r.
Qed.

Lemma store_evolves_object v v' uid r :
  store_evolves v v' → objects v !! uid = Some r →
  ∃ r', objects v' !! uid = Some r' ∧ rtc store_step r r'.
Proof.
  intros Hv. revert r. induction Hv as [v|v v1 v2 He _ IH]; intros r Hr; [by exists r|].
  destruct (store_effect_object _ _ _ _ He Hr) as (r1 & Hr1 & ?).
  destruct (IH _ Hr1) as (r2 & ? & ?). exists r2. split; [done|]. by etrans.
Qed.

(** ** Every request, exposed *)
Section guarantee.
Context {W S : Type} `{RuntimeLaws W} `{!SqlDriver W} `{!SqlLaws W} `{Hkdf} `{!Storage W S}.
Context {Inv : W → S → Prop} {view : S → Vault} {faulty : Prop}.
Context `{!StorageSpec W S Inv view faulty} `{KmipLib} `{!CryptoLib W} `{!CryptoLaws W}.
Implicit Types (w : W) (s : S).

(** Calls on the store itself. *)
Definition guaranteed {A} (m : M W S A) : Prop := ∀ w s, Inv w s →
  wp m (λ _ w' s', Inv w' s' ∧ store_evolves (view s) (view s')) w s.

Lemma post_update_evolves {A} pre (rel : KeyRecord → A → KeyRecord → Prop) v uid res v' :
  vault_wf v → (∀ r a r', pre r → rel r a r' → store_step r r') →
  post_update faulty pre rel v uid res v' → store_evolves v v'.
Proof.
  intros Hwf Hstep. destruct res as [a|e]; cbn; [|intros [-> _]; apply rtc_refl].
  intros (r & r' & Hr & Hpre & Hrel & ->). apply rtc_once. eapply store_one; [done|by apply Hwf|eauto].
Qed.
Lemma post_new_evolves v r v' : post_new v r v' → store_evolves v v'.
Proof. intros [? ->]. by apply rtc_once, store_new. Qed.
Lemma post_attr_evolves f v uid res v' : post_attr faulty f v uid res v' → store_evolves v v'.
Proof.
  destruct res as [u|e]; cbn; [intros [_ ->]; apply rtc_once, store_attr|intros [-> _]; apply rtc_refl].
Qed.

(** Runs an operation by its specification and keeps its postcondition. *)
Ltac store_op spec :=
  let w := fresh "w" in let s := fresh "s" in let HI := fresh "HI" in
  intros w s HI; eapply wp_mono; [by apply spec|];
  let a := fresh "a" in let w' := fresh "w" in let s' := fresh "s" in
  intros a w' s' (_ & HI' & Hpost); split; [exact HI'|];
  assert (vault_wf (view s)) as Hwf by (by eapply spec_wf);
  revert Hpost; generalize dependent (view s); intros v Hwf.

Lemma guaranteed_Create name algorithm length usageMask owner :
  guaranteed (Create name algorithm length usageMask owner).
Proof.
  store_op Create_spec.
  destruct a as [r|e]; cbn; [intros (_ & Hn & _); by eapply post_new_evolves|intros [-> _]; apply rtc_refl].
Qed.
Lemma guaranteed_Register rec : guaranteed (Register rec).
Proof.
  store_op Register_spec.
  destruct a as [r|e]; cbn; [intros (_ & Hn & _); by eapply post_new_evolves|intros [-> _]; apply rtc_refl].
Qed.
Lemma guaranteed_DeriveKey sourceUID derivationData name length :
  guaranteed (DeriveKey sourceUID derivationData name length).
Proof.
  store_op DeriveKey_spec.
  destruct a as [r|e]; cbn; [intros (_ & Hn & _); by eapply post_new_evolves|intros [-> _]; apply rtc_refl].
Qed.
Ltac update_op step := apply post_update_evolves; [done|]; intros r x r' Hpre ->; step.
Lemma guaranteed_Activate uid : guaranteed (Activate uid).
Proof.
  store_op Activate_spec.
  update_op ltac:(apply store_set; [done|by repeat constructor]).
Qed.
Lemma guaranteed_Archive uid : guaranteed (Archive uid).
Proof.
  store_op Archive_spec.
  update_op ltac:(apply store_set; [done|by repeat constructor]).
Qed.
Lemma guaranteed_Recover uid : guaranteed (Recover uid).
Proof.
  store_op Recover_spec.
  update_op ltac:(apply store_set; [unfold is_live; by rewrite Hpre|by repeat constructor]).
Qed.
Lemma guaranteed_Revoke uid reason : guaranteed (Revoke uid reason).
Proof. store_op Revoke_spec. update_op ltac:(by apply store_revoke). Qed.
Lemma guaranteed_Destroy uid : guaranteed (Destroy uid).
Proof. store_op Destroy_spec. update_op ltac:(by apply store_destroy). Qed.
Lemma guaranteed_Rekey uid : guaranteed (Rekey uid).
Proof.
  store_op Rekey_spec.
  apply post_update_evolves; [done|]. intros r x r' [Hlive _] (-> & mat & -> & _).
  by apply store_rekey.
Qed.
Lemma guaranteed_SetCustomAttribute uid name value : guaranteed (SetCustomAttribute uid name value).
Proof.
  store_op SetCustomAttribute_spec. by apply post_attr_evolves.
Qed.
Lemma guaranteed_DeleteCustomAttribute uid name : guaranteed (DeleteCustomAttribute uid name).
Proof.
  store_op DeleteCustomAttribute_spec. by apply post_attr_evolves.
Qed.
Lemma guaranteed_Get uid : guaranteed (Get uid).
Proof. store_op Get_spec. intros [-> _]. apply rtc_refl. Qed.
Lemma guaranteed_GetAttributes uid : guaranteed (GetAttributes uid).
Proof. store_op GetAttributes_spec. intros [-> _]. apply rtc_refl. Qed.
Lemma guaranteed_Locate name : guaranteed (Locate name).
Proof. store_op Locate_spec. intros [-> _]. apply rtc_refl. Qed.
Lemma guaranteed_List : guaranteed List_.
Proof. store_op List_spec. intros [-> _]. apply rtc_refl. Qed.
Lemma guaranteed_GetCustomAttributes uid : guaranteed (GetCustomAttributes uid).
Proof.
  store_op GetCustomAttributes_spec. intros [-> _]. apply rtc_refl.
Qed.

Lemma guaranteed_bind_ret {A B} (m : M W S A) (b : B) : guaranteed m → guaranteed (m;; mret b).
Proof. intros Hm w s HI. wp_use Hm as a w' s' Hres; [done|]. by apply wp_ret. Qed.
Lemma guaranteed_call c : guaranteed (run_call c).
Proof.
  destruct c; apply guaranteed_bind_ret; auto using guaranteed_Create, guaranteed_Activate,
    guaranteed_Destroy, guaranteed_Register, guaranteed_Revoke, guaranteed_Rekey, guaranteed_Archive,
    guaranteed_Recover, guaranteed_DeriveKey, guaranteed_SetCustomAttribute,
    guaranteed_DeleteCustomAttribute.
Qed.
Lemma guaranteed_calls calls : guaranteed (mapM_ run_call calls).
Proof.
  induction calls as [|c calls IH]; intros w s HI; cbn [mapM_].
  { apply wp_ret. split; [done|apply rtc_refl]. }
  wp_use guaranteed_call as u w1 s1 [HI1 Hev1]; [done|].
  wp_use IH as us w2 s2 [HI2 Hev2]; [done|]. apply wp_ret. split; [done|by etrans].
Qed.

(** The same on the shared store, with what the others do before. *)
Definition safe : relation (W * Shared S) := λ σ σ',
  Inv σ.1 (shared σ.2) →
  Inv σ'.1 (shared σ'.2) ∧ store_evolves (view (shared σ.2)) (view (shared σ'.2)).
#[global] Instance safe_preorder : PreOrder safe.
Proof.
  split; [intros σ ?; split; [done|apply rtc_refl]|].
  intros σ1 σ2 σ3 H12 H23 HI. destruct (H12 HI) as [HI2 ?]. destruct (H23 HI2) as [? ?].
  split; [done|by etrans].
Qed.
Lemma safe_on_shared {A} (m : M W S A) : guaranteed m → preserves safe (on_shared m).
Proof.
  intros Hm [w sh] HI. cbn in HI.
  apply (wp_preserves (on_shared m) (λ σ', Inv σ'.1 (shared σ'.2) ∧
    store_evolves (view (shared sh)) (view (shared σ'.2)))).
  apply wp_zoom. eapply wp_mono; [by apply Hm|]. by intros a w' s' [? ?].
Qed.
Lemma safe_next_burst : preserves safe next_burst.
Proof.
  intros [w [s [|calls rest]]]; cbn; [reflexivity|]. intros HI. split; [done|apply rtc_refl].
Qed.
Lemma safe_exposed {A} (m : M W S A) : guaranteed m → preserves safe (exposed m).
Proof.
  intros Hm. unfold exposed. apply preserves_bind; [apply _|apply safe_next_burst|]. intros calls.
  apply preserves_bind; [apply _|apply safe_on_shared, guaranteed_calls|]. intros _.
  by apply safe_on_shared.
Qed.
Lemma safe_world {A} (f : W → A * W) : (∀ w, later w (f w).2) → preserves safe (world f).
Proof.
  intros Hf. apply preserves_world. intros w sh HI. cbn in *.
  split; [eapply spec_later; [apply Hf|exact HI]|apply rtc_refl].
Qed.

Lemma safe_Create name algorithm length usageMask owner :
  preserves safe (Create (S:=Shared S) name algorithm length usageMask owner).
Proof. apply safe_exposed, guaranteed_Create. Qed.
Lemma safe_Get uid : preserves safe (Get (S:=Shared S) uid).
Proof. apply safe_exposed, guaranteed_Get. Qed.
Lemma safe_Locate name : preserves safe (Locate (S:=Shared S) name).
Proof. apply safe_exposed, guaranteed_Locate. Qed.
Lemma safe_Activate uid : preserves safe (Activate (S:=Shared S) uid).
Proof. apply safe_exposed, guaranteed_Activate. Qed.
Lemma safe_Destroy uid : preserves safe (Destroy (S:=Shared S) uid).
Proof. apply safe_exposed, guaranteed_Destroy. Qed.
Lemma safe_Register rec : preserves safe (Register (S:=Shared S) rec).
Proof. apply safe_exposed, guaranteed_Register. Qed.
Lemma safe_Revoke uid reason : preserves safe (Revoke (S:=Shared S) uid reason).
Proof. apply safe_exposed, guaranteed_Revoke. Qed.
Lemma safe_GetAttributes uid : preserves safe (GetAttributes (S:=Shared S) uid).
Proof. apply safe_exposed, guaranteed_GetAttributes. Qed.
Lemma safe_Rekey uid : preserves safe (Rekey (S:=Shared S) uid).
Proof. apply safe_exposed, guaranteed_Rekey. Qed.
Lemma safe_Archive uid : preserves safe (Archive (S:=Shared S) uid).
Proof. apply safe_exposed, guaranteed_Archive. Qed.
Lemma safe_Recover uid : preserves safe (Recover (S:=Shared S) uid).
Proof. apply safe_exposed, guaranteed_Recover. Qed.
Lemma safe_DeriveKey sourceUID derivationData name length :
  preserves safe (DeriveKey (S:=Shared S) sourceUID derivationData name length).
Proof. apply safe_exposed, guaranteed_DeriveKey. Qed.
Lemma safe_GetCustomAttributes uid : preserves safe (GetCustomAttributes (S:=Shared S) uid).
Proof. apply safe_exposed, guaranteed_GetCustomAttributes. Qed.
Lemma safe_SetCustomAttribute uid name value :
  preserves safe (SetCustomAttribute (S:=Shared S) uid name value).
Proof. apply safe_exposed, guaranteed_SetCustomAttribute. Qed.
Lemma safe_DeleteCustomAttribute uid name :
  preserves safe (DeleteCustomAttribute (S:=Shared S) uid name).
Proof. apply safe_exposed, guaranteed_DeleteCustomAttribute. Qed.
#[local] Hint Resolve safe_Create safe_Get safe_Locate safe_Activate safe_Destroy safe_Register
  safe_Revoke safe_GetAttributes safe_Rekey safe_Archive safe_Recover safe_DeriveKey
  safe_GetCustomAttributes safe_SetCustomAttribute safe_DeleteCustomAttribute : sound.

(** What a request takes from the world. *)
Lemma safe_random_nonce n : preserves safe (random_nonce n).
Proof.
  unfold random_nonce, go_make.
  apply preserves_bind; [apply _|destruct (n <? 0); [apply preserves_panic|apply preserves_ret]; apply _|].
  intros zeroed. apply preserves_bind; [apply _|apply safe_world; intros; apply rand_Read_issued|].
  intros [r|e]; apply preserves_ret; apply _.
Qed.
Lemma safe_sign_hash key hash : preserves safe (sign_hash key hash).
Proof.
  destruct key as [k|k|]; cbn [sign_hash]; [apply safe_world, rsa_Sign_issued
    |apply safe_world, ecdsa_Sign_issued|apply preserves_ret; apply _].
Qed.
Lemma safe_rsa_GenerateKey n : preserves safe (world (rsa_GenerateKey n)).
Proof. apply safe_world, rsa_GenerateKey_issued. Qed.
Lemma safe_ecdsa_GenerateKey c : preserves safe (world (ecdsa_GenerateKey c)).
Proof. apply safe_world, ecdsa_GenerateKey_issued. Qed.
Lemma safe_map_range {A} (l : list A) : preserves safe (world (map_range l)).
Proof. apply safe_world. intros w. apply map_range_issued. Qed.
#[local] Hint Resolve safe_random_nonce safe_sign_hash safe_rsa_GenerateKey safe_ecdsa_GenerateKey
  safe_map_range : sound.

Lemma safe_generate_pair algorithm length : preserves safe (generate_pair algorithm length).
Proof. unfold generate_pair. preserves_steps. Qed.
#[local] Hint Resolve safe_generate_pair : sound.

Lemma dispatch_safe operation payload clientCN :
  preserves safe (dispatch (S:=Shared S) operation payload clientCN).
Proof.
  unfold dispatch.
  repeat match goal with |- preserves _ (if ?b then _ else _) => destruct b end.
  all: unfold handleCreate, handleCreateKeyPair, handleGet, handleLocate, handleDestroy, handleActivate,
    handleCheck, handleRegister, handleRevoke, handleGetAttributes, handleQuery, handleDiscoverVersions,
    handleEncrypt, handleDecrypt, handleSign, handleSignatureVerify, handleMAC, handleReKey,
    handleGetAttributeList, handleModifyAttribute, handleAddAttribute, handleDeleteAttribute,
    handleDeriveKey, handleObtainLease, handlePoll, handleArchive, handleRecover.
  all: preserves_steps.
Qed.

(** ** Whole requests *)
Definition safe_request : relation (W * HandlerState (Shared S)) := λ σ σ',
  safe (σ.1, store σ.2) (σ'.1, store σ'.2).
#[global] Instance safe_request_preorder : PreOrder safe_request.
Proof. split; unfold safe_request; [intros σ; reflexivity|]. intros σ1 σ2 σ3 ??. by etrans. Qed.

Lemma safe_with_store {A} (m : M W (Shared S) A) : preserves safe m → preserves safe_request (with_store m).
Proof. intros Hm. eapply preserves_zoom; [exact Hm|]. by intros w w' s h Hs. Qed.
Lemma safe_later w w' (h h' : HandlerState (Shared S)) :
  later w w' → store h' = store h → safe_request (w, h) (w', h').
Proof.
  intros Hw Heq HI. cbn in *. rewrite Heq.
  split; [eapply spec_later; [exact Hw|exact HI]|apply rtc_refl].
Qed.

Lemma waits_Log e : preserves waits (Log e).
Proof.
  unfold Log. apply preserves_bind; [apply _| |intros]; preserves_steps.
  all: apply waits_world; intros; apply time_Now_issued.
Qed.
Lemma waits_RecordOp id op : preserves waits (RecordOp id op).
Proof.
  unfold RecordOp. preserves_steps. apply waits_world. intros. apply time_Now_issued.
Qed.

Lemma logOperation_safe source operation clientID objectUID objectName status message remoteAddr :
  preserves safe_request (logOperation (S:=Shared S) source operation clientID objectUID objectName
    status message remoteAddr).
Proof.
  unfold logOperation, with_audit. apply preserves_bind; [apply _|apply preserves_get_state; apply _|].
  intros h0. destruct (audit h0); [|apply preserves_ret; apply _].
  eapply (preserves_zoom _ _ _ _ waits).
  - apply preserves_bind; [apply _|apply waits_world; intros; apply time_Now_issued|]. intros. apply waits_Log.
  - intros w w' a h Hw. by apply safe_later.
Qed.
Lemma with_tracker_safe (m : M W ConnectionTracker unit) :
  preserves waits m → preserves safe_request (with_tracker (S:=Shared S) m).
Proof.
  intros Hm. unfold with_tracker. apply preserves_bind; [apply _|apply preserves_get_state; apply _|].
  intros h0. destruct (tracker h0); [|apply preserves_ret; apply _].
  eapply (preserves_zoom _ _ _ _ waits); [exact Hm|]. intros w w' a h Hw. by apply safe_later.
Qed.

Lemma processBatchItem_safe bi clientCN remoteAddr connID :
  preserves safe_request (processBatchItem (S:=Shared S) bi clientCN remoteAddr connID).
Proof.
  unfold processBatchItem, process_after. preserves_steps.
  - apply safe_with_store, dispatch_safe.
  - apply logOperation_safe.
  - apply with_tracker_safe, waits_RecordOp.
Qed.

Lemma preserves_mapM {T A B} (R : relation (W * T)) `{!PreOrder R} (f : A → M W T B) l :
  (∀ x, preserves R (f x)) → preserves R (mapM_ f l).
Proof.
  intros Hf. induction l as [|x l IH]; cbn [mapM_]; [by apply preserves_ret|].
  apply preserves_bind; [done|apply Hf|]. intros y. apply preserves_bind; [done|exact IH|].
  intros ys. by apply preserves_ret.
Qed.

Lemma HandleRequest_safe data clientCN remoteAddr connID :
  preserves safe_request (HandleRequest (S:=Shared S) data clientCN remoteAddr connID).
Proof.
  unfold HandleRequest. preserves_steps.
  - apply preserves_mapM; [apply _|]. intros bi. apply processBatchItem_safe.
  - apply logOperation_safe.
Qed.
End guarantee.
