(* ===== verification/InterferenceTheorems.v ===== *)
(** * Properties of requests that run at the same time

    What survives any interleaving of store calls, and a race that does not: the
    handlers check the state of an object and change it in two calls. *)

From Stdlib Require Import ZArith Lia.
From stdpp Require Import relations.
From S2P Require Import Prelude GoRuntime Storage SQLiteStore SQLiteStoreProofs.
From S2P Require Import KmipLib CryptoLib AuditLog Connections Testbed Lifecycle Handler Requests.
From S2P Require Import RequestProofs RequestTheorems StoreTheorems Server Interference.
Local Open Scope Z_scope.
Local Open Scope go_scope.

Section theorems.
Context {W S : Type} `{RuntimeLaws W} `{!SqlDriver W} `{!SqlLaws W} `{Hkdf} `{!Storage W S}.
Context {Inv : W → S → Prop} {view : S → Vault} {faulty : Prop}.
Context `{!StorageSpec W S Inv view faulty} `{KmipLib} `{!CryptoLib W} `{!CryptoLaws W}.
Implicit Types (w : W) (h : HandlerState (Shared S)).

(** A request as a connection serves it: the panic of its handler is recovered. *)
Definition serve_recovering (rq : Request) : M W (HandlerState (Shared S)) unit :=
  recovering (HandleRequest (rq_data rq) (rq_clientCN rq) (rq_remoteAddr rq) (rq_connID rq);; mret tt).

Lemma serve_recovering_safe rq :
  preserves (safe_request (Inv:=Inv) (view:=view)) (serve_recovering rq).
Proof.
  intros σ. unfold serve_recovering, recovering.
  pose proof (HandleRequest_safe (Inv:=Inv) (view:=view) (faulty:=faulty) (rq_data rq) (rq_clientCN rq)
    (rq_remoteAddr rq) (rq_connID rq) σ) as Hs.
  unfold mbind, M_bind, mret, M_ret in *. by destruct (HandleRequest _ _ _ _ σ) as [[a|e] σ'].
Qed.

Lemma served_to_the_end reqs w h : wp (mapM_ serve_recovering reqs) (λ _ _ _, True) w h.
Proof.
  revert w h. induction reqs as [|rq reqs IH]; intros w h; cbn [mapM_]; [by apply wp_ret|].
  apply wp_bind. unfold serve_recovering at 1, recovering, wp.
  destruct ((HandleRequest _ _ _ _ ≫= _) (w, h)) as [x [w1 h1]]. apply wp_bind.
  eapply wp_mono; [apply IH|]. intros us w2 h2 _. by apply wp_ret.
Qed.

(** C5: However the store calls of other clients fall between those of the requests, at
    any point and in any number, the requests are served to the end, every object keeps
    its identity, and a destroyed object is never touched again. *)
Theorem interleaving_keeps_objects reqs w h :
  Inv w (shared (store h)) →
  ∃ us w' h', mapM_ serve_recovering reqs (w, h) = (Ok us, (w', h')) ∧
    Inv w' (shared (store h')) ∧
    ∀ uid r, objects (view (shared (store h))) !! uid = Some r →
      ∃ r', objects (view (shared (store h'))) !! uid = Some r' ∧ same_identity r r' ∧
        (State r = StateDestroyed → r' = r).
Proof.
  intros HI. destruct (wp_returns _ _ _ _ (served_to_the_end reqs w h)) as (us & w' & h' & Hrun & _).
  exists us, w', h'. split; [done|].
  pose proof (preserves_mapM _ serve_recovering reqs serve_recovering_safe (w, h)) as Hs.
  rewrite Hrun in Hs. destruct (Hs HI) as [HI' Hev]. split; [exact HI'|]. intros uid r Hr.
  destruct (store_evolves_object _ _ _ _ Hev Hr) as (r' & Hr' & Hsteps). exists r'.
  destruct (store_steps_identity _ _ Hsteps). by split_and!.
Qed.

(** C6: Activate races with Revoke: when a Revoke call of another client falls between the
    check and the change of an Activate request on a pre-active object, the request
    succeeds and the object, revoked in between, ends up active. *)
Theorem activate_races_with_revoke op payload uidItem reason r w s :
  ¬ faulty → Inv w s → FindChild payload TagUniqueIdentifier = Some uidItem →
  lookup_live (view s) (StringValue uidItem) = Some r → State r = StatePreActive →
  ∃ w' sh', handleActivate op (Some payload)
      (w, mkShared s [[]; [CallRevoke (StringValue uidItem) reason]]) =
    (Ok (buildBatchItemSuccess op [EncodeTextString TagUniqueIdentifier (StringValue uidItem)]), (w', sh')) ∧
    view (shared sh') = put_object (set_State StateActive (revoke_record reason r))
      (put_object (revoke_record reason r) (view s)).
Proof.
  intros Hf HI Huid Hr Hst. set (uid := StringValue uidItem) in *.
  pose proof (proj1 (lookup_live_Some _ _ _) Hr) as [Hlk Hlive].
  assert (UID r = uid) as HU by (eapply spec_wf; [exact HI|exact Hlk]).
  destruct (wp_returns (handleActivate op (Some payload)) (λ res _ sh',
      res = buildBatchItemSuccess op [EncodeTextString TagUniqueIdentifier uid] ∧
      view (shared sh') = put_object (set_State StateActive (revoke_record reason r))
        (put_object (revoke_record reason r) (view s))) w (mkShared s [[]; [CallRevoke uid reason]]))
    as (res & w' & sh' & Hrun & -> & Hv); [|by exists w', sh'].
  unfold handleActivate. rewrite Huid. fold uid.
  apply wp_bind, wp_exposed, wp_ret. wp_use Get_spec as o w1 s1 (_ & HI1 & Hv1 & Ho); [exact HI|].
  destruct o as [r1|]; [|by destruct Ho; [congruence|]]. assert (r1 = r) as -> by congruence.
  rewrite Hst. change (validateStateTransition StatePreActive "Activate") with (0, EmptyString, true).
  apply wp_bind, wp_exposed. cbn [mapM_]. apply wp_bind, wp_bind.
  wp_use Revoke_spec as [u|e] w2 s2 (_ & HI2 & Hrev); [exact HI1| |].
  2: { exfalso. destruct Hrev as [_ [Hn|]]; [|done]. apply (Hn r); [congruence|done]. }
  destruct Hrev as (r2 & ? & Hr2 & _ & -> & Hv2). assert (r2 = r) as -> by congruence.
  apply wp_ret, wp_bind, wp_ret, wp_ret.
  assert (objects (view s2) !! uid = Some (revoke_record reason r)) as Hlk2.
  { rewrite Hv2. cbn. replace (UID r) with uid. apply lookup_insert_eq. }
  wp_use Activate_spec as [u'|e] w3 s3 (_ & HI3 & Hact); [exact HI2| |].
  2: { exfalso. destruct Hact as [_ [Hn|]]; [|done]. by apply (Hn _ Hlk2). }
  destruct Hact as (r3 & ? & Hr3 & _ & -> & Hv3). assert (r3 = revoke_record reason r) as -> by congruence.
  apply wp_ret. split; [done|]. cbn [shared]. rewrite Hv3, Hv2, Hv1. done.
Qed.
End theorems.

(** ** Witnesses, on the database: Get returns a fresh record there *)
#[local] Instance test_sqlite : StorageSpec TestWorld Database sql_inv sql_view False.
Proof. exact (SQLiteStore_spec (W:=TestWorld)). Qed.
Definition test_shared (calls : list (list StoreCall)) : HandlerState (Shared Database) :=
  NewHandler (mkShared test_database calls) (Some test_logger) (Some NewConnectionTracker).
Lemma test_shared_inv calls : sql_inv (mkTestWorld 0 3) (shared (store (test_shared calls))).
Proof. unfold test_shared, NewHandler. cbn [store shared]. apply test_database_inv. Qed.
Definition test_key_record : KeyRecord :=
  default (created EmptyString EmptyString 0 0 [] 0 EmptyString 0)
    (lookup_live (sql_view test_database) "uuid-0").
Example test_key_found : lookup_live (sql_view test_database) "uuid-0" = Some test_key_record.
Proof. vm_compute. reflexivity. Qed.
Example test_key_object : objects (sql_view test_database) !! "uuid-0" = Some test_key_record.
Proof. vm_compute. reflexivity. Qed.
Example test_key_fresh : State test_key_record = StatePreActive ∧ UID test_key_record = "uuid-0".
Proof. vm_compute. done. Qed.
Definition test_races : list (list StoreCall) :=
  [[]; [CallRevoke "uuid-0" 1]; [CallDestroy "uuid-1"; CallDestroy "uuid-0"]].

Lemma interleaving_keeps_objects_witness :
  ∃ us w' h', mapM_ serve_recovering [test_reactivate; test_destroy; test_create_request]
      (mkTestWorld 0 3, test_shared test_races) = (Ok us, (w', h')) ∧
    ∃ r', objects (sql_view (shared (store h'))) !! "uuid-0" = Some r' ∧
      same_identity test_key_record r'.
Proof.
  destruct (interleaving_keeps_objects (Inv:=sql_inv) (view:=sql_view) (faulty:=False)
    [test_reactivate; test_destroy; test_create_request] (mkTestWorld 0 3) (test_shared test_races)
    (test_shared_inv _)) as (us & w' & h' & Hrun & _ & Hobj).
  exists us, w', h'. split; [exact Hrun|].
  destruct (Hobj "uuid-0" test_key_record test_key_object) as (r' & Hr' & Hid & _). exact (ex_intro _ r' (conj Hr' Hid)).
Defined.

Lemma activate_races_with_revoke_witness :
  ∃ w' sh', handleActivate 18 (Some (test_payload [test_uid_item "uuid-0"] : @Item test_kmip))
      (mkTestWorld 0 3, mkShared test_database [[]; [CallRevoke "uuid-0" 1]]) =
    (Ok (buildBatchItemSuccess 18 [EncodeTextString TagUniqueIdentifier "uuid-0"]), (w', sh')) ∧
    State <$> objects (sql_view (shared sh')) !! "uuid-0" = Some StateActive.
Proof.
  destruct (activate_races_with_revoke (Inv:=sql_inv) (view:=sql_view) (faulty:=False) 18
    (test_payload [test_uid_item "uuid-0"] : @Item test_kmip) (test_uid_item "uuid-0") 1
    test_key_record (mkTestWorld 0 3) test_database (λ f : False, f) test_database_inv eq_refl test_key_found
    (proj1 test_key_fresh)) as (w' & sh' & Hrun & Hv).
  exists w', sh'. split; [exact Hrun|]. rewrite Hv. unfold put_object at 1. cbn [objects].
  change (UID (set_State _ _)) with (UID test_key_record).
  rewrite (proj2 test_key_fresh), lookup_insert_eq. reflexivity.
Defined.
