(* ===== verification/RateLimiter.v ===== *)
(** * The rate limiter of the REST API (src/internal/api/api.go)

    A token bucket per address.  The refill is computed in float64, with the
    specification floats of the Standard Library (53 bits of precision). *)

From Stdlib Require Import ZArith Lia.
From Stdlib Require Import Floats.SpecFloat.
From S2P Require Import Prelude GoRuntime.
Local Open Scope Z_scope.
Local Open Scope go_scope.

(** ** float64 *)
Abbreviation float64 := spec_float.
Definition float64_of (z : Z) : float64 := binary_normalize 53 1024 z 0 false.
Definition float64_add : float64 → float64 → float64 := SFadd 53 1024.
Definition float64_mul : float64 → float64 → float64 := SFmul 53 1024.
Definition float64_div : float64 → float64 → float64 := SFdiv 53 1024.
(** [int(f)] discards the fraction. *)
Definition int_of_float64 (f : float64) : Z :=
  match f with
  | S754_finite negative m e => (if negative then -1 else 1) * Z.shiftl (Z.pos m) e
  | _ => 0
  end.
(** [d.Seconds()] *)
Definition Seconds (d : Z) : float64 :=
  float64_add (float64_of (Z.quot d Second))
    (float64_div (float64_of (Z.rem d Second)) (float64_of (10 ^ 9))).
(** [now.Sub(t)] *)
Definition time_Sub (now t : Time) : Z := Z.max (- 2 ^ 63) (Z.min (now - t) (2 ^ 63 - 1)).

Example refill_60s : int_of_float64 (float64_mul (Seconds (60 * Second))
  (float64_div (float64_of 100) (float64_of 60))) = 100.
Proof. vm_compute. reflexivity. Qed.

(** ** Buckets *)
Record rateBucket := mkBucket { tokens : Z; lastSeen : Time }.
Record ipRateLimiter := mkLimiter { visitors : gmap string rateBucket }.
Definition newIPRateLimiter : ipRateLimiter := mkLimiter ∅.

(** [int(elapsed * (100.0 / 60.0))] *)
Definition refill (elapsed : Z) : Z :=
  int_of_float64 (float64_mul (Seconds elapsed) (float64_div (float64_of 100) (float64_of 60))).

(** One request of an address at a time: whether it is allowed, and its bucket. *)
Definition take_token (now : Time) (b : option rateBucket) : bool * rateBucket :=
  some b := b else (true, mkBucket 99 now);;
  let tokens := tokens b + refill (time_Sub now (lastSeen b)) in
  let tokens := if 100 <? tokens then 100 else tokens in
  if tokens <=? 0 then (false, mkBucket tokens now)
  else (true, mkBucket (tokens - 1) now).

Definition allow_at (now : Time) (ip : string) (rl : ipRateLimiter) : bool * ipRateLimiter :=
  let '(ok, b) := take_token now (visitors rl !! ip) in
  (ok, mkLimiter (<[ip := b]> (visitors rl))).
Definition allow {W} `{Runtime W} (ip : string) : M W ipRateLimiter bool :=
  now ← world time_Now;
  rl ← get_state;
  let '(ok, rl) := allow_at now ip rl in
  put_state rl;;
  mret ok.

(** ** Sequences of requests *)
(** The answers to requests of any addresses at given times. *)
Fixpoint limiter_run (rl : ipRateLimiter) (calls : list (string * Time)) : list bool :=
  match calls with
  | [] => []
  | (ip, now) :: calls => let '(ok, rl) := allow_at now ip rl in ok :: limiter_run rl calls
  end.
(** The same for one address and its bucket. *)
Fixpoint bucket_run (b : option rateBucket) (times : list Time) : list bool :=
  match times with
  | [] => []
  | now :: times => let '(ok, b) := take_token now b in ok :: bucket_run (Some b) times
  end.
Definition count_true (bs : list bool) : Z := Z.of_nat (length (filter (λ b, b = true) bs)).
Definition times_of (ip : string) (calls : list (string * Time)) : list Time :=
  map snd (filter (λ c, fst c = ip) calls).
(** The answers to one address among those to all. *)
Definition answers_of (ip : string) (calls : list (string * Time)) (answers : list bool) : list bool :=
  map snd (filter (λ p, fst (fst p) = ip) (zip calls answers)).
(** The tokens the gaps between the requests earn. *)
Fixpoint earned (last : Time) (times : list Time) : Z :=
  match times with
  | [] => 0
  | now :: times => Z.max 0 (refill (time_Sub now last)) + earned now times
  end.

(** Addresses do not interfere. *)
Lemma limiter_run_address ip calls rl :
  answers_of ip calls (limiter_run rl calls) = bucket_run (visitors rl !! ip) (times_of ip calls).
Proof.
  unfold answers_of, times_of. revert rl. induction calls as [|[ip' now] calls IH]; intros rl; [done|].
  cbn [limiter_run]. unfold allow_at. destruct (take_token now (visitors rl !! ip')) as [ok b] eqn:Ht.
  cbn [zip zip_with]. rewrite !filter_cons. cbn [fst]. destruct (decide (ip' = ip)) as [->|Hne]; cbn.
  - rewrite Ht, IH. cbn. by rewrite lookup_insert_eq.
  - rewrite IH. cbn. by rewrite lookup_insert_ne.
Qed.

Lemma count_true_cons (b : bool) bs : count_true (b :: bs) = (if b then 1 else 0) + count_true bs.
Proof.
  unfold count_true. destruct b.
  - rewrite filter_cons_True by done. cbn [length]. lia.
  - by rewrite filter_cons_False by done.
Qed.

Lemma bucket_budget times b :
  count_true (bucket_run (Some b) times) ≤ Z.max 0 (tokens b) + earned (lastSeen b) times.
Proof.
  revert b. induction times as [|now times IH]; intros b.
  { change (count_true _) with 0. cbn [earned]. lia. }
  cbn [bucket_run earned].
  unfold take_token. set (r := refill _). set (n := if 100 <? tokens b + r then 100 else tokens b + r).
  assert (n ≤ tokens b + r) by (unfold n; destruct (Z.ltb_spec 100 (tokens b + r)); lia).
  destruct (Z.leb_spec n 0); rewrite count_true_cons.
  - specialize (IH (mkBucket n now)). cbn [tokens lastSeen] in IH. lia.
  - specialize (IH (mkBucket (n - 1) now)). cbn [tokens lastSeen] in IH. lia.
Qed.

(** Half a second earns nothing, so a bucket drains and then stays empty. *)
Lemma refill_half_second : refill (Second / 2) = 0.
Proof. vm_compute. reflexivity. Qed.
Definition every_half_second (t : Time) (n : nat) : list Time :=
  map (λ i, t + Z.of_nat i * (Second / 2)) (seq 1 n).

Lemma every_half_second_S t n :
  every_half_second t (S n) = (t + Second / 2) :: every_half_second (t + Second / 2) n.
Proof.
  unfold every_half_second. cbn [seq map].
  replace (t + Z.of_nat 1 * (Second / 2)) with (t + Second / 2) by lia. f_equal.
  rewrite <-seq_shift, map_map. apply map_ext. intros i. lia.
Qed.

Lemma bucket_drains n k t :
  0 ≤ k ≤ 100 →
  count_true (bucket_run (Some (mkBucket k t)) (every_half_second t n)) = Z.min (Z.of_nat n) k.
Proof.
  revert k t. induction n as [|n IH]; intros k t Hk.
  { change (count_true _) with 0. lia. }
  rewrite every_half_second_S. cbn [bucket_run take_token tokens lastSeen].
  assert (time_Sub (t + Second / 2) t = Second / 2) as ->.
  { unfold time_Sub. replace (t + Second / 2 - t) with (Second / 2) by lia. done. }
  rewrite refill_half_second, Z.add_0_r. rewrite (proj2 (Z.ltb_ge 100 k)) by lia.
  destruct (Z.leb_spec k 0); rewrite count_true_cons, IH by lia; lia.
Qed.
