(* ===== verification/RestAPI.v ===== *)
(** * The REST API (src/internal/api/api.go)

    The middleware, the routes and the handlers, over the same handler state (store,
    audit logger, connection tracker) the KMIP listener uses.  A handler returns the
    response it writes; the panic of a handler ends its request without a response
    ([serve_request]), as net/http does. *)

From Stdlib Require Import ZArith Lia.
From S2P Require Import Prelude GoRuntime Storage SQLiteStore KmipLib CryptoLib Http.
From S2P Require Import DashAuth RateLimiter Connections AuditLog Handler Requests.
Local Open Scope Z_scope.
Local Open Scope go_scope.

(** What the API takes from encoding/pem, crypto/x509, time and x/crypto. *)
Record Certificate := mkCertificate {
  cert_CommonName : string;
  cert_Subject : string;
  cert_Issuer : string;
  cert_NotAfter : Time;
}.
Class RestLib := {
  (** The first block of a PEM text: its type and its bytes. *)
  pem_Decode : bytes → option (string * bytes);
  x509_ParseCertificate : bytes → result Certificate;
  FormatRFC3339 : Time → string;
  chacha_seal : bytes → bytes → bytes → bytes;
  chacha_open : bytes → bytes → bytes → option bytes;
  (** The file server over the embedded dashboard page. *)
  dashboard_Handler : HttpRequest → HttpResponse;
}.
Class RestLaws `{RestLib} : Prop :=
  chacha_open_seal key nonce pt : chacha_open key nonce (chacha_seal key nonce pt) = Some pt.

(** [ListInventory], which handleInventory finds on a SQLite store only. *)
Class InventoryStore (W S : Type) := sql_inventory : option (M W S (result Json)).

(** [chacha20poly1305.New]: 32 byte keys, 12 byte nonces; a wrong nonce panics. *)
Definition chacha_of_key `{RestLib} (key : bytes) : AEAD := {|
  NonceSize := 12;
  Seal nonce pt :=
    if byte_len nonce =? 12 then Ok (chacha_seal key nonce pt)
    else Panic "chacha20poly1305: bad nonce length passed to Seal";
  Open nonce ct :=
    if byte_len nonce =? 12 then
      Ok (match chacha_open key nonce ct with
          | Some pt => Val pt
          | None => Err "chacha20poly1305: message authentication failed"
          end)
    else Panic "chacha20poly1305: bad nonce length passed to Open";
|}.
Definition chacha20poly1305_New `{RestLib} (key : bytes) : result AEAD :=
  if byte_len key =? 32 then Val (chacha_of_key key) else Err "chacha20poly1305: bad key length".

(** ** Helpers *)
Definition maxRequestBodySize : Z := 2 ^ 20.

Definition writeJSON (status : Z) (data : Json) : HttpResponse :=
  mkResponse status [("Content-Type", "application/json")] [] (JsonBody data).
Definition writeError (status : Z) (message : string) : HttpResponse :=
  writeJSON status (JObject [("error", JString message)]).

Definition stateString (s : KeyState) : string :=
  if s =? StatePreActive then "pre-active"
  else if s =? StateActive then "active"
  else if s =? StateDeactivated then "deactivated"
  else if s =? StateCompromised then "compromised"
  else if s =? StateDestroyed then "destroyed"
  else if s =? StateDestroyedCompromised then "destroyed-compromised"
  else if s =? StateArchived then "archived"
  else "unknown".

Definition resolveAlgorithm (name : string) : Z :=
  let n := ToUpper name in
  if bool_decide (n ∈ ["AES"; EmptyString]) then 0x03
  else if bool_decide (n ∈ ["RSA"]) then 0x04
  else if bool_decide (n ∈ ["EC"; "ECDSA"]) then 0x06
  else if bool_decide (n ∈ ["CHACHA20"; "CHACHA20-POLY1305"]) then 0x1E
  else if bool_decide (n ∈ ["DES"; "3DES"; "TRIPLEDES"]) then -1
  else 0x03.

Definition createAEADFromMaterial `{RestLib} `{CryptoLib W} (material : bytes) (algorithm : Z)
    (method : string) : result AEAD :=
  let m := ToLower method in
  if String.eqb m "chacha20-poly1305" || (algorithm =? 0x1E) then chacha20poly1305_New material
  else
    val block := aes_NewCipher material else err => Err err;;
    cipher_NewGCM block.
Definition createAEAD `{RestLib} `{CryptoLib W} (rec : KeyRecord) : result AEAD :=
  createAEADFromMaterial (Material rec) (Algorithm rec) EmptyString.

(** ** The API object *)
Record API (S : Type) := mkAPI {
  (** The store, the audit logger and the tracker, shared with the KMIP listener. *)
  api_handler : HandlerState S;
  rateLimiter : ipRateLimiter;
  dashAuth : DashAuth;
  apiKey : string;
  corsOrigin : string;
  start : Time;
}.
Arguments mkAPI {S}. Arguments api_handler {S}. Arguments rateLimiter {S}.
Arguments dashAuth {S}. Arguments apiKey {S}. Arguments corsOrigin {S}. Arguments start {S}.

Section setters.
Context {S : Type}.
Implicit Types a : API S.
Definition set_api_handler (h : HandlerState S) a : API S :=
  mkAPI h (rateLimiter a) (dashAuth a) (apiKey a) (corsOrigin a) (start a).
Definition set_rateLimiter (rl : ipRateLimiter) a : API S :=
  mkAPI (api_handler a) rl (dashAuth a) (apiKey a) (corsOrigin a) (start a).
Definition set_dashAuth (d : DashAuth) a : API S :=
  mkAPI (api_handler a) (rateLimiter a) d (apiKey a) (corsOrigin a) (start a).
End setters.

Definition NewAPI {W S} `{Runtime W} (store : S) (apiKey corsOrigin : string)
    (auditLog : option Logger) (tracker : option ConnectionTracker) (devMode : bool) :
    M W unit (API S) :=
  let da := if devMode then NewDevMode else New apiKey true in
  now ← world time_Now;
  mret (mkAPI (NewHandler store auditLog tracker) newIPRateLimiter da apiKey corsOrigin now).

(** [r.PathValue("uid")] of the routes /v1/keys/{uid}/... *)
Definition path_uid (r : HttpRequest) : string := default EmptyString (r_Path r !! 2%nat).

(** The first eight characters of the bearer token, when there is an API key. *)
Definition audit_clientID (apiKey : string) (r : HttpRequest) : string :=
  if String.eqb apiKey EmptyString then EmptyString
  else
    let token := TrimPrefix (r_Authorization r) "Bearer " in
    if (8 <=? String.length token)%nat then String.substring 0 8 token +:+ "..." else EmptyString.

Definition key_summary `{RestLib} (rec : KeyRecord) : list (string * Json) :=
  [("uid", JString (UID rec)); ("name", JString (Name rec)); ("object_type", JInt (ObjectType rec));
   ("algorithm", JInt (Algorithm rec)); ("length", JInt (Length rec));
   ("state", JString (stateString (State rec)))].

(** ** Handlers *)
Section handlers.
Context {W S : Type} `{Runtime W} `{!SqlDriver W} `{!Storage W S} `{KmipLib} `{!CryptoLib W}.
Context `{JsonText} `{RestLib} `{!TimeText} `{!InventoryStore W S}.
Abbreviation Handling := (M W (API S) HttpResponse).

Definition on_handler {A} (m : M W (HandlerState S) A) : M W (API S) A :=
  zoom api_handler set_api_handler m.
Definition on_store {A} (m : M W S A) : M W (API S) A := on_handler (with_store m).
Definition on_tracker {A} (m : M W ConnectionTracker A) (none : A) : M W (API S) A :=
  a ← get_state;
  some t := tracker (api_handler a) else mret none;;
  zoom (λ _, t) (λ t a, set_api_handler
    (mkHandler (store (api_handler a)) (audit (api_handler a)) (Some t)) a) m.

Definition logAudit (r : HttpRequest) (operation objectUID objectName status message : string) :
    M W (API S) unit :=
  a ← get_state;
  on_handler (logOperation "rest" operation (audit_clientID (apiKey a) r) objectUID objectName
    status message (r_RemoteAddr r)).

Definition handleListKeys (r : HttpRequest) : Handling :=
  records ← on_store List_;
  let items := map (λ rec, JObject (key_summary rec ++
    [("usage_mask", JInt (UsageMask rec)); ("created_at", JString (FormatRFC3339 (CreatedAt rec)))]))
    records in
  let total := Z.of_nat (length items) in
  logAudit r "List" EmptyString EmptyString "success" (fmt_d total +:+ " keys");;
  mret (writeJSON StatusOK (JObject [("keys", JArray items); ("total", JInt total)])).

(** The key generation of [handleCreateKeyPair]; a failed encoding leaves nil. *)
Definition der_or_nil (res : result bytes) : bytes :=
  val der := res else _err => [];; der.
Definition rest_generate (keyType : string) (length : Z) :
    M W (API S) (result (bytes * bytes * Z * Z)) :=
  if String.eqb keyType "rsa" then
    let length := if length =? 0 then 2048 else length in
    k ← world (rsa_GenerateKey length);
    val k := k else genErr => mret (Err genErr);;
    mret (Val (der_or_nil (MarshalPKCS8PrivateKey (RSAKey k)),
               der_or_nil (MarshalPKIXPublicKey (RSAKey (rsa_Public k))), AlgorithmRSA, length))
  else
    let '(curve, length) :=
      if length =? 384 then (P384, length)
      else if length =? 521 then (P521, length)
      else (P256, 256) in
    k ← world (ecdsa_GenerateKey curve);
    val k := k else genErr => mret (Err genErr);;
    mret (Val (der_or_nil (MarshalPKCS8PrivateKey (ECDSAKey k)),
               der_or_nil (MarshalPKIXPublicKey (ECDSAKey (ecdsa_Public k))), AlgorithmECDSA, length)).

Definition rest_handleCreateKeyPair (r : HttpRequest) (name keyType : string) (length : Z) : Handling :=
  g ← rest_generate keyType length;
  val p := g else err => mret (writeError StatusInternalServerError err);;
  let '(privDER, pubDER, algorithm, length) := p in
  let usageMask := Z.lor UsageMaskSign UsageMaskVerify in
  res ← on_store (Register (new_key_record ObjectTypePrivateKey name algorithm length privDER usageMask));
  val privRec := res else err => mret (writeError StatusInternalServerError err);;
  res ← on_store (Register (new_key_record ObjectTypePublicKey name algorithm length pubDER usageMask));
  val pubRec := res else err => mret (writeError StatusInternalServerError err);;
  logAudit r "CreateKeyPair" (UID privRec) name "success" EmptyString;;
  mret (writeJSON StatusCreated (JObject
    [("private_key_uid", JString (UID privRec)); ("public_key_uid", JString (UID pubRec));
     ("name", JString name); ("algorithm", JInt algorithm); ("length", JInt length);
     ("state", JString (stateString (State privRec)));
     ("created_at", JString (FormatRFC3339 (CreatedAt privRec)))])).

Definition decode_create (j : Json) : option (string * string * Z * string) :=
  name ← string_field "name" j;
  algorithm ← string_field "algorithm" j;
  length ← int_field 32 "length" j;
  type ← string_field "type" j;
  Some (name, algorithm, length, type).

Definition handleCreateKey (r : HttpRequest) : Handling :=
  some req := decode_body decode_create r
  else mret (writeError StatusBadRequest "invalid JSON body");;
  let '(name, algorithm, length, type) := req in
  require negb (String.eqb name EmptyString)
  else mret (writeError StatusBadRequest "name is required");;
  let keyType := ToLower type in
  let keyType := if String.eqb keyType EmptyString then "symmetric" else keyType in
  if bool_decide (keyType ∈ ["rsa"; "ec"]) then rest_handleCreateKeyPair r name keyType length
  else
    let algo := resolveAlgorithm algorithm in
    require negb (algo <? 0) else mret (writeError StatusBadRequest "unsupported algorithm");;
    let length := if length =? 0 then 256 else length in
    res ← on_store (Create name algo length (Z.lor UsageMaskEncrypt UsageMaskDecrypt) "rest");
    val rec := res
    else err =>
      (logAudit r "CreateKey" EmptyString name "failure" err;;
       mret (writeError StatusInternalServerError err));;
    logAudit r "CreateKey" (UID rec) name "success" EmptyString;;
    mret (writeJSON StatusCreated (JObject (key_summary rec ++
      [("created_at", JString (FormatRFC3339 (CreatedAt rec)))]))).

(** At most a megabyte of the body is read; a PEM certificate is unwrapped. *)
Definition certificate_body (body : bytes) : bytes :=
  some block := pem_Decode body else body;;
  if String.eqb (fst block) "CERTIFICATE" then snd block else body.
Definition handleUploadCertificate (r : HttpRequest) : Handling :=
  let body := take (Z.to_nat (2 ^ 20)) (r_Body r) in
  require negb (r_BodyFails r && (Z.of_nat (length (r_Body r)) <? 2 ^ 20) ||
                (length body =? 0)%nat)
  else mret (writeError StatusBadRequest "empty or invalid body");;
  let certDER := certificate_body body in
  val cert := x509_ParseCertificate certDER
  else err => mret (writeError StatusBadRequest ("invalid certificate: " +:+ err));;
  let name := query_Get "name" r in
  let name := if String.eqb name EmptyString then cert_CommonName cert else name in
  res ← on_store (Register (new_key_record ObjectTypeCertificate name 0 0 certDER 0));
  val rec := res else err => mret (writeError StatusInternalServerError err);;
  logAudit r "UploadCertificate" (UID rec) name "success" EmptyString;;
  mret (writeJSON StatusCreated (JObject
    [("uid", JString (UID rec)); ("name", JString name); ("subject", JString (cert_Subject cert));
     ("issuer", JString (cert_Issuer cert));
     ("not_after", JString (FormatRFC3339 (cert_NotAfter cert)))])).

Definition handleGetKey (r : HttpRequest) : Handling :=
  let uid := path_uid r in
  o ← on_store (Get uid);
  some rec := o else mret (writeError StatusNotFound "key not found");;
  logAudit r "Get" (UID rec) (Name rec) "success" EmptyString;;
  mret (writeJSON StatusOK (JObject (key_summary rec ++
    [("usage_mask", JInt (UsageMask rec)); ("created_at", JString (FormatRFC3339 (CreatedAt rec)))]))).

Definition uid_state (uid state : string) : Json :=
  JObject [("uid", JString uid); ("state", JString state)].

Definition handleActivateKey (r : HttpRequest) : Handling :=
  let uid := path_uid r in
  res ← on_store (Activate uid);
  val _ := res else err => mret (writeError StatusNotFound err);;
  logAudit r "Activate" uid EmptyString "success" EmptyString;;
  mret (writeJSON StatusOK (uid_state uid "active")).

Definition handleRevokeKey (r : HttpRequest) : Handling :=
  let uid := path_uid r in
  some reason := decode_body (int_field 64 "reason") r
  else mret (writeError StatusBadRequest "invalid JSON body");;
  res ← on_store (Revoke uid reason);
  val _ := res else err => mret (writeError StatusNotFound err);;
  logAudit r "Revoke" uid EmptyString "success" EmptyString;;
  mret (writeJSON StatusOK (uid_state uid "revoked")).

Definition handleDestroyKey (r : HttpRequest) : Handling :=
  let uid := path_uid r in
  res ← on_store (Destroy uid);
  val _ := res else err => mret (writeError StatusNotFound err);;
  logAudit r "Destroy" uid EmptyString "success" EmptyString;;
  mret (writeJSON StatusOK (uid_state uid "destroyed")).

(** ** Cryptographic operations *)
Definition handleEncryptKey (r : HttpRequest) : Handling :=
  let uid := path_uid r in
  some data := decode_body (string_field "data") r
  else mret (writeError StatusBadRequest "invalid JSON body");;
  some plaintext := base64_DecodeString data
  else mret (writeError StatusBadRequest "invalid base64 data");;
  o ← on_store (Get uid);
  some rec := o else mret (writeError StatusNotFound "key not found");;
  require ObjectType rec =? ObjectTypeSymmetricKey
  else mret (writeError StatusBadRequest "encrypt requires a symmetric key");;
  require State rec =? StateActive
  else mret (writeError StatusConflict "key must be Active to encrypt");;
  val aead := createAEAD rec else err => mret (writeError StatusInternalServerError err);;
  nonce ← random_nonce (NonceSize aead);
  ciphertext ← from_outcome (Seal aead nonce plaintext);
  logAudit r "Encrypt" uid (Name rec) "success" EmptyString;;
  mret (writeJSON StatusOK (JObject
    [("data", JString (base64_EncodeToString ciphertext)); ("nonce", JString (hex_EncodeToString nonce))])).

Definition decode_decrypt (j : Json) : option (string * string) :=
  data ← string_field "data" j; nonce ← string_field "nonce" j; Some (data, nonce).
Definition handleDecryptKey (r : HttpRequest) : Handling :=
  let uid := path_uid r in
  some req := decode_body decode_decrypt r
  else mret (writeError StatusBadRequest "invalid JSON body");;
  some ciphertext := base64_DecodeString (fst req)
  else mret (writeError StatusBadRequest "invalid base64 data");;
  some nonce := hex_DecodeString (snd req)
  else mret (writeError StatusBadRequest "invalid hex nonce");;
  o ← on_store (Get uid);
  some rec := o else mret (writeError StatusNotFound "key not found");;
  require ObjectType rec =? ObjectTypeSymmetricKey
  else mret (writeError StatusBadRequest "decrypt requires a symmetric key");;
  require State rec =? StateActive
  else mret (writeError StatusConflict "key must be Active to decrypt");;
  val aead := createAEAD rec else err => mret (writeError StatusInternalServerError err);;
  res ← from_outcome (Open aead nonce ciphertext);
  val plaintext := res
  else err => mret (writeError StatusBadRequest ("decryption failed: " +:+ err));;
  logAudit r "Decrypt" uid (Name rec) "success" EmptyString;;
  mret (writeJSON StatusOK (JObject [("data", JString (base64_EncodeToString plaintext))])).

Definition decode_wrap (j : Json) : option (string * string) :=
  wrappingKeyUID ← string_field "wrapping_key_uid" j; method ← string_field "method" j;
  Some (wrappingKeyUID, method).
Definition handleWrapKey (r : HttpRequest) : Handling :=
  let uid := path_uid r in
  some req := decode_body decode_wrap r
  else mret (writeError StatusBadRequest "invalid JSON body");;
  let '(wrappingKeyUID, method) := req in
  require negb (String.eqb wrappingKeyUID EmptyString)
  else mret (writeError StatusBadRequest "wrapping_key_uid required");;
  o ← on_store (Get uid);
  some targetRec := o else mret (writeError StatusNotFound "target key not found");;
  o ← on_store (Get wrappingKeyUID);
  some wrapRec := o else mret (writeError StatusNotFound "wrapping key not found");;
  require ObjectType wrapRec =? ObjectTypeSymmetricKey
  else mret (writeError StatusBadRequest "wrapping key must be symmetric");;
  val aead := createAEADFromMaterial (Material wrapRec) (Algorithm wrapRec) method
  else err => mret (writeError StatusInternalServerError err);;
  nonce ← random_nonce (NonceSize aead);
  wrapped ← from_outcome (Seal aead nonce (Material targetRec));
  logAudit r "WrapKey" uid (Name targetRec) "success" EmptyString;;
  mret (writeJSON StatusOK (JObject
    [("wrapped_key", JString (base64_EncodeToString wrapped));
     ("nonce", JString (hex_EncodeToString nonce))])).

Record UnwrapRequest := mkUnwrap {
  u_WrappingKeyUID : string; u_WrappedKey : string; u_Nonce : string; u_Method : string;
  u_Name : string; u_Algorithm : string; u_Length : Z }.
Definition decode_unwrap (j : Json) : option UnwrapRequest :=
  wrappingKeyUID ← string_field "wrapping_key_uid" j;
  wrappedKey ← string_field "wrapped_key" j;
  nonce ← string_field "nonce" j;
  method ← string_field "method" j;
  name ← string_field "name" j;
  algorithm ← string_field "algorithm" j;
  length ← int_field 32 "length" j;
  Some (mkUnwrap wrappingKeyUID wrappedKey nonce method name algorithm length).
(** The record literal of [handleUnwrapKey], whose state and time [Register] assigns. *)
Definition unwrapped_record (name : string) (algo length : Z) (keyMaterial : bytes) (now : Time) :
    KeyRecord :=
  mkKeyRecord EmptyString name ObjectTypeSymmetricKey algo length keyMaterial
    (Z.lor UsageMaskEncrypt UsageMaskDecrypt) StatePreActive 0 EmptyString now 0.
Definition handleUnwrapKey (r : HttpRequest) : Handling :=
  some req := decode_body decode_unwrap r
  else mret (writeError StatusBadRequest "invalid JSON body");;
  some wrappedKey := base64_DecodeString (u_WrappedKey req)
  else mret (writeError StatusBadRequest "invalid base64 wrapped_key");;
  some nonce := hex_DecodeString (u_Nonce req)
  else mret (writeError StatusBadRequest "invalid hex nonce");;
  o ← on_store (Get (u_WrappingKeyUID req));
  some wrapRec := o else mret (writeError StatusNotFound "wrapping key not found");;
  val aead := createAEADFromMaterial (Material wrapRec) (Algorithm wrapRec) (u_Method req)
  else err => mret (writeError StatusInternalServerError err);;
  res ← from_outcome (Open aead nonce wrappedKey);
  val keyMaterial := res
  else err => mret (writeError StatusBadRequest ("unwrap failed: " +:+ err));;
  let name := if String.eqb (u_Name req) EmptyString then "unwrapped-key" else u_Name req in
  let algo := resolveAlgorithm (u_Algorithm req) in
  require negb (algo <? 0) else mret (writeError StatusBadRequest "unsupported algorithm");;
  let length := if u_Length req =? 0 then int32 (int64 (byte_len keyMaterial * 8)) else u_Length req in
  now ← world time_Now;
  res ← on_store (Register (unwrapped_record name algo length keyMaterial now));
  val registered := res else err => mret (writeError StatusInternalServerError err);;
  logAudit r "UnwrapKey" (UID registered) name "success" EmptyString;;
  mret (writeJSON StatusCreated (JObject
    [("uid", JString (UID registered)); ("name", JString name); ("algorithm", JInt algo);
     ("length", JInt length); ("state", JString (stateString (State registered)))])).

Definition handleSignKey (r : HttpRequest) : Handling :=
  let uid := path_uid r in
  some data := decode_body (string_field "data") r
  else mret (writeError StatusBadRequest "invalid JSON body");;
  some data := base64_DecodeString data
  else mret (writeError StatusBadRequest "invalid base64 data");;
  o ← on_store (Get uid);
  some rec := o else mret (writeError StatusNotFound "key not found");;
  require (State rec =? StateActive) && (ObjectType rec =? ObjectTypePrivateKey)
  else mret (writeError StatusBadRequest "sign requires an active private key");;
  val privKey := ParsePKCS8PrivateKey (Material rec)
  else err => mret (writeError StatusInternalServerError err);;
  match privKey with
  | OtherKey => mret (writeError StatusBadRequest "unsupported key type")
  | _ =>
      res ← sign_hash privKey (sha256_Sum256 data);
      val signature := res else err => mret (writeError StatusInternalServerError err);;
      logAudit r "Sign" uid (Name rec) "success" EmptyString;;
      mret (writeJSON StatusOK (JObject [("signature", JString (base64_EncodeToString signature))]))
  end.

Definition decode_verify (j : Json) : option (string * string) :=
  data ← string_field "data" j; signature ← string_field "signature" j; Some (data, signature).
(** The type switch: a key of another type leaves [valid] true. *)
Definition signature_valid (key : ParsedKey RsaPub EcPub) (hash sig : bytes) : bool :=
  match key with
  | RSAKey k => match rsa_VerifyPKCS1v15 k hash sig with Val _ => true | Err _ => false end
  | ECDSAKey k => ecdsa_VerifyASN1 k hash sig
  | OtherKey => true
  end.
Definition handleVerifyKey (r : HttpRequest) : Handling :=
  let uid := path_uid r in
  some req := decode_body decode_verify r
  else mret (writeError StatusBadRequest "invalid JSON body");;
  some data := base64_DecodeString (fst req)
  else mret (writeError StatusBadRequest "invalid base64 data");;
  some sig := base64_DecodeString (snd req)
  else mret (writeError StatusBadRequest "invalid base64 signature");;
  o ← on_store (Get uid);
  some rec := o else mret (writeError StatusNotFound "key not found");;
  require ObjectType rec =? ObjectTypePublicKey
  else mret (writeError StatusBadRequest "verify requires a public key");;
  val pubKey := ParsePKIXPublicKey (Material rec)
  else err => mret (writeError StatusInternalServerError err);;
  let valid := signature_valid pubKey (sha256_Sum256 data) sig in
  logAudit r "Verify" uid (Name rec) "success"
    ("valid=" +:+ (if valid then "true" else "false"));;
  mret (writeJSON StatusOK (JObject [("valid", JBool valid)])).

Definition handleMACKey (r : HttpRequest) : Handling :=
  let uid := path_uid r in
  some data := decode_body (string_field "data") r
  else mret (writeError StatusBadRequest "invalid JSON body");;
  some data := base64_DecodeString data
  else mret (writeError StatusBadRequest "invalid base64 data");;
  o ← on_store (Get uid);
  some rec := o else mret (writeError StatusNotFound "key not found");;
  require (State rec =? StateActive) && (ObjectType rec =? ObjectTypeSymmetricKey)
  else mret (writeError StatusBadRequest "MAC requires an active symmetric key");;
  logAudit r "MAC" uid (Name rec) "success" EmptyString;;
  mret (writeJSON StatusOK (JObject
    [("mac", JString (base64_EncodeToString (hmac_sha256 (Material rec) data)))])).

Definition handleRekeyKey (r : HttpRequest) : Handling :=
  let uid := path_uid r in
  o ← on_store (Get uid);
  some existing := o else mret (writeError StatusNotFound "key not found");;
  require State existing =? StateActive
  else mret (writeError StatusConflict "key must be Active to rekey");;
  res ← on_store (Rekey uid);
  val rec := res else err => mret (writeError StatusNotFound err);;
  logAudit r "Rekey" uid (Name rec) "success" EmptyString;;
  mret (writeJSON StatusOK (JObject
    [("uid", JString (UID rec)); ("name", JString (Name rec)); ("version", JInt (Version rec));
     ("state", JString (stateString (State rec)))])).

(** ** Audit and status *)
Definition entry_json (e : Entry) : Json := JObject
  [("id", JInt (e_ID e)); ("timestamp", JString (FormatRFC3339Nano (e_Timestamp e)));
   ("source", JString (e_Source e)); ("operation", JString (e_Operation e));
   ("client_id", JString (e_ClientID e)); ("object_uid", JString (e_ObjectUID e));
   ("object_name", JString (e_ObjectName e)); ("status", JString (e_Status e));
   ("message", JString (e_Message e)); ("remote_addr", JString (e_RemoteAddr e))].
(** A query parameter that is a number satisfying [p], or the default. *)
Definition int_param (p : Z → bool) (name : string) (default : Z) (r : HttpRequest) : Z :=
  some n := Atoi (query_Get name r) else default;; if p n then n else default.
Definition audit_limit (r : HttpRequest) : Z :=
  let limit := int_param (λ n, 0 <? n) "limit" 50 r in
  if 1000 <? limit then 1000 else limit.
Definition audit_offset (r : HttpRequest) : Z := int_param (λ n, 0 <=? n) "offset" 0 r.

Definition handleAuditLog (r : HttpRequest) : Handling :=
  a ← get_state;
  some log := audit (api_handler a)
  else mret (writeJSON StatusOK (JObject [("entries", JArray []); ("total", JInt 0)]));;
  let limit := audit_limit r in
  let offset := audit_offset r in
  res ← zoom (λ _, log) (λ log a, set_api_handler
      (mkHandler (store (api_handler a)) (Some log) (tracker (api_handler a))) a)
    (Query limit offset (query_Get "operation" r) (query_Get "status" r));
  let '(entries, total) := res in
  mret (writeJSON StatusOK (JObject
    [("entries", match entries with [] => JNull | _ => JArray (map entry_json entries) end);
     ("total", JInt total); ("limit", JInt limit); ("offset", JInt offset)])).

Definition connection_json (c : ConnectionInfo) : Json := JObject
  [("id", JString (ID c)); ("client_cn", JString (ClientCN c)); ("remote_addr", JString (RemoteAddr c));
   ("connected_at", JString (FormatRFC3339Nano (ConnectedAt c))); ("operations", JInt (Operations c));
   ("last_op", JString (LastOp c)); ("last_op_at", JString (FormatRFC3339Nano (LastOpAt c)))].
Definition handleConnections (r : HttpRequest) : Handling :=
  conns ← on_tracker List_conns [];
  mret (writeJSON StatusOK (JObject
    [("connections", JArray (map connection_json conns)); ("total", JInt (Z.of_nat (length conns)))])).

Definition count_state (st : KeyState) (records : list KeyRecord) : Z :=
  Z.of_nat (length (filter (λ rec, State rec = st) records)).
(** The map of counters: a state nobody is in has no entry. *)
Definition state_counts (records : list KeyRecord) : list (string * Json) :=
  ("total", JInt (Z.of_nat (length records))) ::
  omap (λ p, if count_state (snd p) records =? 0 then None
             else Some (fst p, JInt (count_state (snd p) records)))
    [("pre_active", StatePreActive); ("active", StateActive);
     ("deactivated", StateDeactivated); ("compromised", StateCompromised)].
Definition rest_handleStatus (r : HttpRequest) : Handling :=
  records ← on_store List_;
  connCount ← on_tracker Count 0;
  a ← get_state;
  now ← world time_Now;
  mret (writeJSON StatusOK (JObject
    [("status", JString "ok"); ("version", JString "0.1.0"); ("connections", JInt connCount);
     ("kmip", JObject [("protocol", JString "1.4"); ("port", JInt 5696)]);
     ("uptime_seconds", JInt (int_of_float64 (Seconds (time_Sub now (start a)))));
     ("keys", JObject (state_counts records))])).

Definition handleInventory (r : HttpRequest) : Handling :=
  some ListInventory := sql_inventory (W:=W) (S:=S)
  else mret (writeJSON StatusOK (JArray []));;
  res ← on_store ListInventory;
  val views := res else err => mret (writeError StatusInternalServerError err);;
  mret (writeJSON StatusOK views).

Definition handleHealthz (r : HttpRequest) : Handling :=
  mret (writeJSON StatusOK (JObject [("status", JString "ok")])).

Definition gauge (name help : string) (value : Z) : list string :=
  ["# HELP " +:+ name +:+ " " +:+ help; "# TYPE " +:+ name +:+ " gauge";
   name +:+ " " +:+ fmt_d value].
Definition handleMetrics (r : HttpRequest) : Handling :=
  records ← on_store List_;
  connCount ← on_tracker Count 0;
  mret (mkResponse StatusOK [("Content-Type", "text/plain; charset=utf-8")] [] (TextBody
    (gauge "open_kmip_keys_total" "Total managed keys" (Z.of_nat (length records)) ++
     gauge "open_kmip_keys_active" "Active keys" (count_state StateActive records) ++
     gauge "open_kmip_keys_pre_active" "Pre-active keys" (count_state StatePreActive records) ++
     gauge "open_kmip_keys_revoked" "Revoked keys" (count_state StateCompromised records) ++
     gauge "open_kmip_connections_active" "Active KMIP connections" connCount))).

(** ** Routes *)
Definition on_auth (m : M W DashAuth HttpResponse) : Handling := zoom dashAuth set_dashAuth m.
Definition protected (next : HttpRequest → Handling) : HttpRequest → Handling :=
  RequireAPIAuth dashAuth set_dashAuth next.

(** The routes of a key: the last segment and the handler. *)
Definition key_actions : list (string * (HttpRequest → Handling)) :=
  [("activate", handleActivateKey); ("revoke", handleRevokeKey); ("encrypt", handleEncryptKey);
   ("decrypt", handleDecryptKey); ("sign", handleSignKey); ("verify", handleVerifyKey);
   ("mac", handleMACKey); ("rekey", handleRekeyKey); ("wrap", handleWrapKey);
   ("unwrap", handleUnwrapKey)].
(** The protected endpoints of a method and a path.  GET patterns also match HEAD; a
    wildcard matches one segment that is not empty. *)
Definition is_get (method : string) : bool := bool_decide (method ∈ ["GET"; "HEAD"]).
Definition api_route (method : string) (path : list string) : option (HttpRequest → Handling) :=
  match path with
  | ["v1"; "keys"] =>
      if is_get method then Some handleListKeys
      else if String.eqb method "POST" then Some handleCreateKey else None
  | ["v1"; "keys"; uid] =>
      if String.eqb uid EmptyString then None
      else if is_get method then Some handleGetKey
      else if String.eqb method "DELETE" then Some handleDestroyKey else None
  | ["v1"; "keys"; uid; action] =>
      if String.eqb uid EmptyString || negb (String.eqb method "POST") then None
      else snd <$> find (λ p, String.eqb (fst p) action) key_actions
  | ["v1"; "certificates"] => if String.eqb method "POST" then Some handleUploadCertificate else None
  | ["v1"; "connections"] => if is_get method then Some handleConnections else None
  | ["v1"; "status"] => if is_get method then Some rest_handleStatus else None
  | ["v1"; "audit"] => if is_get method then Some handleAuditLog else None
  | ["v1"; "inventory"] => if is_get method then Some handleInventory else None
  | _ => None
  end.
(** The public endpoints. *)
Definition public_route (method : string) (path : list string) : option (HttpRequest → Handling) :=
  let on b handler := if b : bool then Some handler else None in
  match path with
  | ["healthz"] => on (is_get method) handleHealthz
  | ["metrics"] => on (is_get method) handleMetrics
  | ["auth"; "login"] => on (String.eqb method "POST") (λ r, on_auth (handleLogin r))
  | ["auth"; "logout"] => on (String.eqb method "POST") (λ r, on_auth (handleLogout r))
  | ["auth"; "status"] => on (is_get method) (λ r, on_auth (dash_handleStatus r))
  | _ => None
  end.
(** The mux of [Serve]; everything else is the dashboard's. *)
Definition mux (r : HttpRequest) : Handling :=
  match api_route (r_Method r) (r_Path r) with
  | Some handler => protected handler r
  | None =>
      match public_route (r_Method r) (r_Path r) with
      | Some handler => handler r
      | None => mret (dashboard_Handler r)
      end
  end.

(** ** Middleware *)
Definition rateLimitMiddleware (next : HttpRequest → Handling) (r : HttpRequest) : Handling :=
  allowed ← zoom rateLimiter set_rateLimiter (allow (host_of (r_RemoteAddr r)));
  if allowed : bool then next r
  else
    logAudit r "RATE_LIMITED" EmptyString EmptyString "failure" "too many requests";;
    mret (add_headers [("Retry-After", "5")]
      (writeError StatusTooManyRequests "rate limit exceeded")).

Definition limitBodyMiddleware (next : HttpRequest → Handling) (r : HttpRequest) : Handling :=
  next (MaxBytesReader maxRequestBodySize r).

Definition corsMiddleware (next : HttpRequest → Handling) (r : HttpRequest) : Handling :=
  a ← get_state;
  if String.eqb (corsOrigin a) EmptyString then next r
  else
    let headers := [("Access-Control-Allow-Origin", corsOrigin a);
                    ("Access-Control-Allow-Methods", "GET, POST, PUT, DELETE, OPTIONS");
                    ("Access-Control-Allow-Headers", "Authorization, Content-Type")] in
    if String.eqb (r_Method r) "OPTIONS" then mret (mkResponse StatusNoContent headers [] NoBody)
    else
      res ← next r;
      mret (add_headers headers res).

Definition ServeHTTP : HttpRequest → Handling :=
  rateLimitMiddleware (limitBodyMiddleware (corsMiddleware mux)).

(** net/http recovers the panic of a handler: the client gets no response. *)
Definition serve_request (r : HttpRequest) : M W (API S) (option HttpResponse) :=
  λ σ, match ServeHTTP r σ with
       | (Ok res, σ') => (Ok (Some res), σ')
       | (Panic _, σ') => (Ok None, σ')
       end.
End handlers.
