(* ===== verification/RestProofs.v ===== *)
(** * The REST API and the vault

    What REST requests may do to the objects ([rest_step], [system_effect]: the effects
    of both interfaces), and that every endpoint keeps the invariant and evolves the
    vault accordingly, even when its handler panics. *)

From Stdlib Require Import ZArith Lia.
From stdpp Require Import relations.
From S2P Require Import Prelude GoRuntime Storage KmipLib CryptoLib SQLiteStore Http.
From S2P Require Import DashAuth RateLimiter AuditLog Connections Lifecycle Handler.
From S2P Require Import HandlerSpec HandlerProofs Requests RequestProofs RestAPI.
Local Open Scope Z_scope.
Local Open Scope go_scope.

(** ** The effects of both interfaces *)
Inductive rest_step : KeyRecord → KeyRecord → Prop :=
| rest_activate r : is_live r = true → rest_step r (set_State StateActive r)
| rest_revoke r reason : is_live r = true → rest_step r (revoke_record reason r)
| rest_destroy r : is_live r = true → rest_step r (destroy_record r).
Definition any_step (r r' : KeyRecord) : Prop := kmip_step r r' ∨ rest_step r r'.

Inductive system_effect (v : Vault) : Vault → Prop :=
| sys_kmip v' : kmip_effect v v' → system_effect v v'
| sys_rest uid r r' : objects v !! uid = Some r → UID r = uid → rest_step r r' →
    system_effect v (put_object r' v).
Definition system_evolves : Vault → Vault → Prop := rtc system_effect.

Lemma rest_step_identity r r' : rest_step r r' → same_identity r r'.
Proof. unfold same_identity. by destruct 1. Qed.
Lemma any_steps_identity r r' : rtc any_step r r' → same_identity r r'.
Proof.
  induction 1 as [r|r r1 r2 [Hs|Hs] _ IH]; [done| |].
  - etrans; [by apply kmip_step_identity|done].
  - etrans; [by apply rest_step_identity|done].
Qed.

Lemma evolves_system v v' : evolves v v' → system_evolves v v'.
Proof. induction 1; [apply rtc_refl|]. eapply rtc_l; [by apply sys_kmip|done]. Qed.

Lemma system_effect_wf v v' : system_effect v v' → vault_wf v → vault_wf v'.
Proof.
  destruct 1 as [v' He|uid r r' Hr HU Hs]; [by apply kmip_effect_wf|].
  intros Hwf u y. cbn. rewrite lookup_insert_Some. intros [[<- <-]|[_ ?%Hwf]]; done.
Qed.

Lemma system_effect_object v v' uid r :
  system_effect v v' → objects v !! uid = Some r →
  ∃ r', objects v' !! uid = Some r' ∧ rtc any_step r r'.
Proof.
  destruct 1 as [v' He|u x x' Hx <- Hs]; intros Hr.
  - destruct (kmip_effect_object _ _ _ _ He Hr) as (r' & ? & Hsteps). exists r'.
    split; [done|]. eapply rtc_subrel; [|exact Hsteps]. intros ???. by left.
  - pose proof (rest_step_identity _ _ Hs) as (HU & _). cbn.
    destruct (decide (UID x' = uid)) as [<-|].
    + rewrite lookup_insert_eq. exists x'. split; [done|]. rewrite HU in Hr.
      replace r with x by congruence. apply rtc_once. by right.
    + rewrite lookup_insert_ne by done. by exists r.
Qed.

Lemma system_evolves_object v v' uid r :
  system_evolves v v' → objects v !! uid = Some r →
  ∃ r', objects v' !! uid = Some r' ∧ rtc any_step r r'.
Proof.
  intros Hv. revert r. induction Hv as [v|v v1 v2 He _ IH]; intros r Hr; [by exists r|].
  destruct (system_effect_object _ _ _ _ He Hr) as (r1 & Hr1 & ?).
  destruct (IH _ Hr1) as (r2 & ? & ?). exists r2. split; [done|]. by etrans.
Qed.

(** Over both interfaces, too, destruction is final. *)
Lemma kmip_step_live r r' : kmip_step r r' → is_live r = true.
Proof.
  unfold is_live. destruct 1 as [? Hst|? ? Hst|? Hst ?|? Hst|? Hst|? ? Hst]; try by rewrite Hst.
  - revert Hst. rewrite !elem_of_cons, elem_of_nil. intros [-> | [-> | [-> | []]]]; done.
  - by apply negb_true_iff, Z.eqb_neq.
Qed.
Lemma any_step_live r r' : any_step r r' → is_live r = true.
Proof. intros [Hs|Hs]; [by eapply kmip_step_live|by destruct Hs]. Qed.
Lemma any_destroyed_final r r' : rtc any_step r r' → State r = StateDestroyed → r' = r.
Proof.
  induction 1 as [r|r r1 r2 Hs _ IH]; [done|]; intros Hd. apply any_step_live in Hs.
  unfold is_live in Hs. by rewrite Hd in Hs.
Qed.

(** The states of objects that entered pre-active: neither interface deactivates or
    archives. *)
Lemma any_reachable r r' : rtc any_step r r' → reachable_state r → reachable_state r'.
Proof.
  induction 1 as [r|r r1 r2 [Hs|Hs] _ IH]; [done| |]; intros Hr; apply IH.
  - by eapply reachable_stays; [apply rtc_once|].
  - unfold reachable_state. destruct Hs; cbn; rewrite !elem_of_cons; auto.
Qed.

(** ** The store operations, as effects *)
Section effects.
Context `{Hkdf} (faulty : Prop).

Lemma post_set_system pre f v uid res v' :
  vault_wf v → (∀ r, pre r → rest_step r (f r)) →
  post_set faulty pre f v uid res v' → system_evolves v v'.
Proof.
  intros Hwf Hf. destruct res as [u|e]; cbn; [|intros [-> _]; apply rtc_refl].
  intros (r & r' & Hr & Hpre & -> & ->). apply rtc_once. eapply sys_rest; [done|by apply Hwf|auto].
Qed.

Lemma post_new_system v r v' : new_object r → post_new v r v' → system_evolves v v'.
Proof. intros ? [? ->]. by apply rtc_once, sys_kmip, effect_new. Qed.

Lemma post_Create_system v name algorithm length usageMask owner res v' :
  post_Create faulty v name algorithm length usageMask owner res v' → system_evolves v v'.
Proof.
  destruct res as [r|e]; cbn; [|intros [-> _]; apply rtc_refl].
  intros (_ & Hnew & uid & mat & now & -> & _).
  by eapply post_new_system; [|exact Hnew].
Qed.

Lemma post_Register_system v rec res v' :
  RevocationReason rec = 0 → Version rec = 0 →
  post_Register faulty v rec res v' → system_evolves v v'.
Proof.
  intros Hr Hv. destruct res as [r|e]; cbn; [|intros [-> _]; apply rtc_refl].
  intros (_ & Hnew & uid & now & ->). eapply post_new_system; [|exact Hnew].
  unfold new_object, registered; cbn. by rewrite Hv, Hr.
Qed.
End effects.

(** ** Every endpoint *)
Class InventorySpec (W S : Type) `{RuntimeLaws W} `{!InventoryStore W S}
    (Inv : W → S → Prop) (view : S → Vault) : Prop :=
  inventory_spec m w s : sql_inventory = Some m → Inv w s →
    wp m (λ _ w' s', Inv w' s' ∧ view s' = view s) w s.

Section endpoints.
Context {W S : Type} `{RuntimeLaws W} `{!SqlDriver W} `{!SqlLaws W} `{Hkdf} `{!Storage W S}.
Context {Inv : W → S → Prop} {view : S → Vault} {faulty : Prop}.
Context `{!StorageSpec W S Inv view faulty} `{KmipLib} `{!CryptoLib W} `{!CryptoLaws W}.
Context `{JsonText} `{RestLib} `{!TimeText} `{!InventoryStore W S} `{!InventorySpec W S Inv view}.
Implicit Types (a : API S) (w : W).

Definition api_inv w a : Prop := handler_inv (Inv:=Inv) w (api_handler a).
Definition api_view a : Vault := handler_view (view:=view) (api_handler a).

(** The invariant is kept, and the vault evolves. *)
Definition sound : relation (W * API S) := λ σ σ',
  api_inv σ.1 σ.2 → api_inv σ'.1 σ'.2 ∧ system_evolves (api_view σ.2) (api_view σ'.2).
#[global] Instance sound_preorder : PreOrder sound.
Proof.
  split; [intros σ ?; split; [done|apply rtc_refl]|].
  intros σ1 σ2 σ3 H12 H23 HI. destruct (H12 HI) as [HI2 ?]. destruct (H23 HI2) as [? ?].
  split; [done|]. by etrans.
Qed.

Lemma sound_same w w' a a' :
  later w w' → api_handler a' = api_handler a → sound (w, a) (w', a').
Proof.
  intros Hw Heq HI. unfold api_inv, api_view in *. cbn in *. rewrite Heq.
  split; [by eapply handler_inv_later|apply rtc_refl].
Qed.

Lemma sound_world {A} (f : W → A * W) :
  (∀ w, later w (f w).2) → preserves sound (world f).
Proof. intros Hf. apply preserves_world. intros w a. by apply sound_same. Qed.

(** A part of the API that is not the handler. *)
Lemma sound_part {A T} (get : API S → T) (put : T → API S → API S) (m : M W T A) :
  preserves waits m → (∀ t a, api_handler (put t a) = api_handler a) →
  preserves sound (zoom get put m).
Proof.
  intros Hm Hput. eapply preserves_zoom; [exact Hm|]. intros w w' t a Hw. by apply sound_same.
Qed.

Lemma sound_store {A} (m : M W S A) :
  (∀ w s, Inv w s → wp m (λ _ w' s', Inv w' s' ∧ system_evolves (view s) (view s')) w s) →
  preserves sound (on_store m).
Proof.
  intros Hm [w a] [HI Hopen]. cbn in HI, Hopen. unfold on_store, on_handler, with_store.
  apply (wp_preserves (zoom api_handler set_api_handler (zoom store _ m))
    (λ σ', api_inv σ'.1 σ'.2 ∧ system_evolves (api_view a) (api_view σ'.2))).
  apply wp_zoom, wp_zoom. eapply wp_mono; [by apply Hm|]. intros x w' s' [HI' Hev]. cbn.
  split; [by split|done].
Qed.

Lemma sound_Get uid : preserves sound (on_store (Get uid)).
Proof.
  apply sound_store. intros w s HI. wp_use Get_spec as x w' s' (_ & ? & -> & _); [done|].
  split; [done|apply rtc_refl].
Qed.
Lemma sound_List : preserves sound (on_store List_).
Proof.
  apply sound_store. intros w s HI. wp_use List_spec as x w' s' (_ & ? & -> & _); [done|].
  split; [done|apply rtc_refl].
Qed.
Lemma sound_Activate uid : preserves sound (on_store (Activate uid)).
Proof.
  apply sound_store. intros w s HI. wp_use Activate_spec as x w' s' (_ & ? & Hp); [done|].
  split; [done|]. eapply post_set_system; [by eapply spec_wf|apply rest_activate|exact Hp].
Qed.
Lemma sound_Revoke uid reason : preserves sound (on_store (Revoke uid reason)).
Proof.
  apply sound_store. intros w s HI. wp_use Revoke_spec as x w' s' (_ & ? & Hp); [done|].
  split; [done|]. eapply post_set_system; [by eapply spec_wf| |exact Hp].
  intros r. apply rest_revoke.
Qed.
Lemma sound_Destroy uid : preserves sound (on_store (Destroy uid)).
Proof.
  apply sound_store. intros w s HI. wp_use Destroy_spec as x w' s' (_ & ? & Hp); [done|].
  split; [done|]. eapply post_set_system; [by eapply spec_wf|apply rest_destroy|exact Hp].
Qed.
Lemma sound_Create name algorithm length usageMask owner :
  preserves sound (on_store (Create name algorithm length usageMask owner)).
Proof.
  apply sound_store. intros w s HI. wp_use Create_spec as x w' s' (_ & ? & Hp); [done|].
  split; [done|]. by eapply post_Create_system.
Qed.
Lemma sound_Register rec : RevocationReason rec = 0 → Version rec = 0 →
  preserves sound (on_store (Register rec)).
Proof.
  intros ??. apply sound_store. intros w s HI. wp_use Register_spec as x w' s' (_ & ? & Hp); [done|].
  split; [done|]. by eapply post_Register_system.
Qed.
Lemma sound_inventory m : sql_inventory = Some m → preserves sound (on_store m).
Proof.
  intros Hm. apply sound_store. intros w s HI.
  eapply wp_mono; [by apply inventory_spec|]. cbn. intros x w' s' [? ->]. split; [done|apply rtc_refl].
Qed.

Lemma sound_logAudit r operation uid name status message :
  preserves sound (logAudit r operation uid name status message).
Proof.
  intros [w a] [HI Hopen]. unfold logAudit, on_handler. cbn in HI, Hopen.
  apply (wp_preserves (a ← get_state; zoom api_handler set_api_handler _)
    (λ σ', api_inv σ'.1 σ'.2 ∧ system_evolves (api_view a) (api_view σ'.2))).
  apply wp_bind, wp_get_state, wp_zoom, wp_logOperation; [done|]. intros now w' Hw. cbn.
  split; [|apply rtc_refl]. split; [by eapply spec_later|by apply logged_open].
Qed.

(** Reading the tracker and the log. *)
Definition reads {T} : relation (W * T) := λ σ σ', later σ.1 σ'.1 ∧ σ'.2 = σ.2.
#[global] Instance reads_preorder {T} : PreOrder (reads (T:=T)).
Proof.
  split; unfold reads; [by intros σ; split|].
  intros σ1 σ2 σ3 [? E1] [? E2]. split; [by etrans|congruence].
Qed.
Lemma reads_world {A T} (f : W → A * W) :
  (∀ w, later w (f w).2) → preserves (reads (T:=T)) (world f).
Proof. intros Hf. apply preserves_world. intros w t. by split; [apply Hf|]. Qed.

Lemma reads_Query limit offset op status : preserves reads (Query limit offset op status).
Proof.
  unfold Query. apply preserves_bind; [apply _|apply preserves_get_state; apply _|]. intros log.
  cbv zeta. apply preserves_bind; [apply _|apply reads_world; intros; apply sql_query_issued|].
  intros count. apply preserves_bind; [apply _|apply reads_world; intros; apply sql_query_issued|].
  intros [rows|err]; apply preserves_ret; apply _.
Qed.
Lemma reads_List_conns : preserves reads List_conns.
Proof.
  unfold List_conns. apply preserves_bind; [apply _|apply preserves_get_state; apply _|]. intros ct.
  apply reads_world. intros. apply map_range_issued.
Qed.

Lemma reads_Count : preserves reads (Count (W:=W)).
Proof.
  unfold Count. apply preserves_bind; [apply _|apply preserves_get_state; apply _|]. intros ct.
  apply preserves_ret; apply _.
Qed.

Lemma sound_get {A} (k : API S → M W (API S) A) :
  (∀ a, audit_open (api_handler a) → ∀ w, sound (w, a) (k a (w, a)).2) →
  preserves sound (get_state ≫= k).
Proof.
  intros Hk [w a] HI. apply (Hk a); [by destruct HI|done].
Qed.
Lemma sound_on_tracker {A} (m : M W ConnectionTracker A) none :
  preserves reads m → preserves sound (on_tracker m none).
Proof.
  intros Hm. unfold on_tracker. apply preserves_bind; [apply _|apply preserves_get_state; apply _|].
  intros a0. destruct (tracker (api_handler a0)); [|apply preserves_ret; apply _].
  eapply preserves_zoom; [exact Hm|]. intros w w' ct' a [Hw _] [HI Hopen]. cbn in *.
  split; [|apply rtc_refl]. split; [by eapply spec_later|done].
Qed.
Lemma sound_allow ip : preserves sound (zoom rateLimiter set_rateLimiter (allow ip)).
Proof.
  apply sound_part; [|done]. unfold allow.
  apply preserves_bind; [apply _|apply waits_world; intros; apply time_Now_issued|]. intros now.
  apply preserves_bind; [apply _|apply preserves_get_state; apply _|]. intros rl.
  destruct (allow_at _ _ _) as [ok rl'].
  apply preserves_bind; [apply _| |intros; apply preserves_ret; apply _].
  intros [w t]. unfold waits. cbn. done.
Qed.

Lemma sound_random_nonce n : preserves sound (random_nonce n).
Proof.
  unfold random_nonce, go_make. apply preserves_bind; [apply _| |].
  { destruct (n <? 0); [apply preserves_panic|apply preserves_ret]; apply _. }
  intros zeroed. apply preserves_bind; [apply _|apply sound_world; intros; apply rand_Read_issued|].
  intros [r|e]; apply preserves_ret; apply _.
Qed.
Lemma sound_sign_hash key hash : preserves sound (sign_hash key hash).
Proof.
  destruct key as [k|k|]; cbn [sign_hash]; [apply sound_world, rsa_Sign_issued
    |apply sound_world, ecdsa_Sign_issued|apply preserves_ret; apply _].
Qed.
Lemma sound_time_Now : preserves sound (world time_Now).
Proof. apply sound_world, time_Now_issued. Qed.
Lemma sound_rsa_GenerateKey n : preserves sound (world (rsa_GenerateKey n)).
Proof. apply sound_world, rsa_GenerateKey_issued. Qed.
Lemma sound_ecdsa_GenerateKey c : preserves sound (world (ecdsa_GenerateKey c)).
Proof. apply sound_world, ecdsa_GenerateKey_issued. Qed.
End endpoints.

#[export] Hint Resolve sound_Get sound_List sound_Activate sound_Revoke sound_Destroy sound_Create
  sound_Register sound_inventory sound_logAudit sound_on_tracker sound_allow sound_random_nonce
  sound_sign_hash sound_time_Now sound_rsa_GenerateKey sound_ecdsa_GenerateKey
  reads_Query reads_List_conns reads_Count : sound.

Section handlers.
Context {W S : Type} `{RuntimeLaws W} `{!SqlDriver W} `{!SqlLaws W} `{Hkdf} `{!Storage W S}.
Context {Inv : W → S → Prop} {view : S → Vault} {faulty : Prop}.
Context `{!StorageSpec W S Inv view faulty} `{KmipLib} `{!CryptoLib W} `{!CryptoLaws W}.
Context `{JsonText} `{RestLib} `{!TimeText} `{!InventoryStore W S} `{!InventorySpec W S Inv view}.
Implicit Types (a : API S) (w : W).
Local Abbreviation sound := (sound (Inv:=Inv) (view:=view)).

Lemma handleListKeys_sound r : preserves sound (handleListKeys r).
Proof. unfold handleListKeys. preserves_steps. Qed.
Lemma rest_generate_sound keyType length : preserves sound (rest_generate (S:=S) keyType length).
Proof. unfold rest_generate. preserves_steps. Qed.
#[local] Hint Resolve rest_generate_sound : sound.
Lemma handleCreateKeyPair_sound r name keyType length :
  preserves sound (rest_handleCreateKeyPair r name keyType length).
Proof. unfold rest_handleCreateKeyPair. preserves_steps. Qed.
#[local] Hint Resolve handleCreateKeyPair_sound : sound.
Lemma handleCreateKey_sound r : preserves sound (handleCreateKey r).
Proof. unfold handleCreateKey. preserves_steps. Qed.
Lemma handleUploadCertificate_sound r : preserves sound (handleUploadCertificate r).
Proof. unfold handleUploadCertificate. preserves_steps. Qed.
Lemma handleGetKey_sound r : preserves sound (handleGetKey r).
Proof. unfold handleGetKey. preserves_steps. Qed.
Lemma handleActivateKey_sound r : preserves sound (handleActivateKey r).
Proof. unfold handleActivateKey. preserves_steps. Qed.
Lemma handleRevokeKey_sound r : preserves sound (handleRevokeKey r).
Proof. unfold handleRevokeKey. preserves_steps. Qed.
Lemma handleDestroyKey_sound r : preserves sound (handleDestroyKey r).
Proof. unfold handleDestroyKey. preserves_steps. Qed.
Lemma handleEncryptKey_sound r : preserves sound (handleEncryptKey r).
Proof. unfold handleEncryptKey. preserves_steps. Qed.
Lemma handleDecryptKey_sound r : preserves sound (handleDecryptKey r).
Proof. unfold handleDecryptKey. preserves_steps. Qed.
Lemma handleWrapKey_sound r : preserves sound (handleWrapKey r).
Proof. unfold handleWrapKey. preserves_steps. Qed.
Lemma handleUnwrapKey_sound r : preserves sound (handleUnwrapKey r).
Proof. unfold handleUnwrapKey. preserves_steps. Qed.
Lemma handleSignKey_sound r : preserves sound (handleSignKey r).
Proof. unfold handleSignKey. preserves_steps. Qed.
Lemma handleVerifyKey_sound r : preserves sound (handleVerifyKey r).
Proof. unfold handleVerifyKey. preserves_steps. Qed.
Lemma handleMACKey_sound r : preserves sound (handleMACKey r).
Proof. unfold handleMACKey. preserves_steps. Qed.
Lemma handleConnections_sound r : preserves sound (handleConnections r).
Proof. unfold handleConnections. preserves_steps. Qed.
Lemma handleStatus_sound r : preserves sound (rest_handleStatus r).
Proof. unfold rest_handleStatus. preserves_steps. Qed.
Lemma handleMetrics_sound r : preserves sound (handleMetrics r).
Proof. unfold handleMetrics. preserves_steps. Qed.
Lemma handleInventory_sound r : preserves sound (handleInventory r).
Proof. unfold handleInventory. preserves_steps. Qed.

Lemma bind_run {S' A B} (m : M W S' A) (k : A → M W S' B) σ x σ' :
  m σ = (Ok x, σ') → (m ≫= k) σ = k x σ'.
Proof. unfold mbind, M_bind. by intros ->. Qed.

Lemma handleRekeyKey_sound r : preserves sound (handleRekeyKey r).
Proof.
  intros [w a] [HI Hopen]. cbn in HI, Hopen. unfold handleRekeyKey. cbv zeta.
  assert (∀ {A} (m : M W (API S) A) w1 a1, preserves sound m →
    api_inv (Inv:=Inv) w1 a1 → system_evolves (api_view (view:=view) a) (api_view (view:=view) a1) →
    api_inv (Inv:=Inv) (m (w1, a1)).2.1 (m (w1, a1)).2.2 ∧
    system_evolves (api_view (view:=view) a) (api_view (view:=view) (m (w1, a1)).2.2)) as Hrest.
  { intros A m w1 a1 Hm HI1 Hev. destruct (Hm (w1, a1) HI1) as [? ?]. split; [done|]. by etrans. }
  destruct (wp_returns (on_store (Get (path_uid r))) (λ o w1 a1, api_inv (Inv:=Inv) w1 a1 ∧
    api_view (view:=view) a1 = api_view (view:=view) a ∧
    ∀ rec, o = Some rec → lookup_live (api_view (view:=view) a1) (path_uid r) = Some rec) w a)
    as (o & w1 & a1 & Hget & HI1 & Hv1 & Ho).
  { apply wp_zoom, wp_zoom. wp_use Get_spec as x w' s' (_ & ? & Hv & Hx); [done|]. cbn.
    split_and!; [by split|done|]. intros rec ->. unfold api_view, handler_view; cbn.
    rewrite Hv. exact Hx. }
  cbn [fst snd]. rewrite (bind_run _ _ _ _ _ Hget). destruct o as [existing|].
  2:{ apply Hrest; [apply preserves_ret; apply _|done|]. rewrite Hv1. apply rtc_refl. }
  destruct (Z.eqb_spec (State existing) StateActive) as [Hst|].
  2:{ apply Hrest; [apply preserves_ret; apply _|done|]. rewrite Hv1. apply rtc_refl. }
  specialize (Ho existing eq_refl). apply lookup_live_Some in Ho as [Ho _].
  destruct HI1 as [HI1 Hopen1].
  destruct (wp_returns (on_store (Rekey (path_uid r))) (λ res w2 a2, api_inv (Inv:=Inv) w2 a2 ∧
    system_evolves (api_view (view:=view) a) (api_view (view:=view) a2)) w1 a1)
    as (res & w2 & a2 & Hrekey & HI2 & Hev).
  { apply wp_zoom, wp_zoom. wp_use Rekey_spec as x w' s' (_ & ? & Hx); [done|]. cbn.
    split; [by split|]. rewrite <-Hv1. unfold api_view, handler_view in *. cbn in *.
    destruct x as [rec|e]; [|destruct Hx as [-> _]; apply rtc_refl].
    destruct Hx as (r0 & r' & Hr & [_ Hlen] & (_ & mat & -> & Hmat) & ->).
    replace r0 with existing in * by congruence.
    apply rtc_once, sys_kmip. eapply effect_step; [done| |by apply step_rekey].
    by apply (spec_wf w1 (store (api_handler a1)) HI1). }
  rewrite (bind_run _ _ _ _ _ Hrekey). destruct res as [rec|e]; apply Hrest; try done; preserves_steps.
Qed.

Lemma handleAuditLog_sound r : preserves sound (handleAuditLog r).
Proof.
  unfold handleAuditLog. apply sound_get. intros a Hopen w. destruct (audit (api_handler a)) as [log|] eqn:Hlog;
    [|by intros ?; split; [|apply rtc_refl]].
  cbv zeta. assert (Hq := reads_Query (audit_limit r) (audit_offset r)
    (query_Get "operation" r) (query_Get "status" r) (w, log)).
  unfold mbind, M_bind, zoom. cbn. destruct (Query _ _ _ _ (w, log)) as [[[entries total]|e] [w' log']];
    destruct Hq as [Hw Heq]; cbn in Hw, Heq |- *; subst log'; intros [HI _]; cbn in HI |- *;
    (split; [|apply rtc_refl]); (split; [by eapply spec_later|]);
    unfold audit_open in *; cbn; by rewrite Hlog in Hopen.
Qed.

(** ** The authenticator never touches the handler *)
Ltac waits_step :=
  cbv zeta;
  lazymatch goal with
  | |- preserves _ (mbind _ _) => apply preserves_bind; [apply _| |intros ?]
  | |- preserves _ (mret _) => apply preserves_ret; apply _
  | |- preserves _ (go_panic _) => apply preserves_panic; apply _
  | |- preserves _ get_state => apply preserves_get_state; apply _
  | |- preserves _ (put_state _) => intros [? ?]; unfold waits; cbn; reflexivity
  | |- preserves _ (world time_Now) => apply waits_world; intros; apply time_Now_issued
  | |- preserves _ (world (rand_Read _)) => apply waits_world; intros; apply rand_Read_issued
  | |- preserves _ (match ?x with _ => _ end) => destruct x eqn:?
  end.
Lemma waits_validSession tok : preserves waits (validSession tok).
Proof. unfold validSession. repeat waits_step. Qed.
Lemma waits_authorized r : preserves waits (authorized r).
Proof. unfold authorized. repeat waits_step. apply waits_validSession. Qed.
Lemma waits_login r : preserves waits (handleLogin r).
Proof.
  unfold handleLogin, allowLogin, createSession, recordFailedLogin, go_make. repeat waits_step.
Qed.
Lemma waits_logout r : preserves waits (handleLogout r).
Proof. unfold handleLogout. repeat waits_step. Qed.
Lemma waits_status r : preserves waits (dash_handleStatus r).
Proof. unfold dash_handleStatus. repeat waits_step. apply waits_validSession. Qed.
#[local] Hint Resolve waits_login waits_logout waits_status : sound.

Lemma on_auth_sound m : preserves waits m → preserves sound (on_auth m).
Proof. intros Hm. by apply sound_part. Qed.

Lemma protected_sound handler r :
  preserves sound (handler r) → preserves sound (protected handler r).
Proof.
  intros Hh. unfold protected, RequireAPIAuth. apply preserves_bind; [apply _| |].
  - apply sound_part; [apply waits_authorized|done].
  - intros []; [done|]. apply preserves_ret; apply _.
Qed.

Create HintDb route discriminated.
#[local] Hint Resolve handleListKeys_sound handleCreateKey_sound handleUploadCertificate_sound
  handleGetKey_sound handleActivateKey_sound handleRevokeKey_sound handleDestroyKey_sound
  handleEncryptKey_sound handleDecryptKey_sound handleWrapKey_sound handleUnwrapKey_sound
  handleSignKey_sound handleVerifyKey_sound handleMACKey_sound handleRekeyKey_sound
  handleAuditLog_sound handleConnections_sound handleStatus_sound handleInventory_sound : route.

Lemma key_actions_sound p r : In p key_actions → preserves sound (snd p r).
Proof.
  unfold key_actions. cbn [In].
  repeat match goal with |- _ ∨ _ → _ => intros [<-|Hp]; [cbn [snd]; auto with route|revert Hp] end. done.
Qed.

Lemma api_route_sound method path handler r :
  api_route method path = Some handler → preserves sound (handler r).
Proof.
  unfold api_route. intros Hr.
  repeat case_match; simplify_eq; auto with route.
  apply fmap_Some in Hr as (p & Hfind & ->). apply key_actions_sound.
  by apply find_some in Hfind as [? _].
Qed.

Lemma mux_sound r : preserves sound (mux r).
Proof.
  unfold mux. destruct (api_route _ _) as [handler|] eqn:Hroute.
  { apply protected_sound. by eapply api_route_sound. }
  destruct (public_route _ _) as [handler|] eqn:Hpublic; [|apply preserves_ret; apply _].
  unfold public_route in Hpublic.
  repeat case_match; simplify_eq; try (apply on_auth_sound; auto with sound); try apply handleMetrics_sound.
  apply preserves_ret; apply _.
Qed.

Lemma ServeHTTP_sound r : preserves sound (ServeHTTP r).
Proof.
  unfold ServeHTTP, rateLimitMiddleware. apply preserves_bind; [apply _|apply sound_allow|].
  intros []; [|preserves_steps]. unfold limitBodyMiddleware, corsMiddleware.
  apply preserves_bind; [apply _|apply preserves_get_state; apply _|]. intros a.
  destruct (String.eqb _ _); [apply mux_sound|].
  cbv zeta. destruct (String.eqb _ _); [apply preserves_ret; apply _|].
  apply preserves_bind; [apply _|apply mux_sound|]. intros res. apply preserves_ret; apply _.
Qed.

(** A request over HTTP always ends, with a response or a recovered panic. *)
Lemma serve_request_ok r w a :
  api_inv (Inv:=Inv) w a →
  wp (serve_request r) (λ _ w' a', api_inv (Inv:=Inv) w' a' ∧
    system_evolves (api_view (view:=view) a) (api_view (view:=view) a')) w a.
Proof.
  intros HI. pose proof (ServeHTTP_sound r (w, a) HI) as Hs. revert Hs.
  unfold wp, serve_request. by destruct (ServeHTTP r (w, a)) as [[res|e] [w' a']].
Qed.
End handlers.
