(* ===== verification/Assets.v ===== *)
(** * The asset inventory (src/internal/storage/assets.go)

    The asset tables of the SQLite database, apart from the columns no query reads (row
    numbers, updated_at), and the operations on them.  [PRAGMA foreign_keys] holds for
    one connection of the pool only, so whether a statement checks its references is
    the world's choice ([fk_enforced]).  No other part of the server calls the
    operations that write. *)

From Stdlib Require Import ZArith Lia.
From S2P Require Import Prelude GoRuntime Storage MemoryStore SQLiteStore AuditLog Http RestAPI.
Local Open Scope Z_scope.
Local Open Scope go_scope.

Class AssetLib (W : Type) := {
  fk_enforced : W → bool * W;
  (** [datetime('now')] of SQLite, and [time.Parse(time.RFC3339, s)]. *)
  sqlite_datetime : Time → string;
  ParseRFC3339 : string → result Time;
  (** [json.Marshal] of a map, as text. *)
  json_Marshal : Json → string;
}.
(** SQLite's text has a blank where RFC 3339 has a T. *)
Class AssetLaws (W : Type) `{RuntimeLaws W} `{!AssetLib W} : Prop := {
  fk_enforced_issued w : later w (fk_enforced w).2;
  datetime_is_not_rfc3339 t : ∃ e, ParseRFC3339 (sqlite_datetime t) = Err e;
}.

(** ** Tables *)
Record AssetRow := mkAssetRow {
  as_id : string;
  as_asset_type : string;
  as_native_id : string;
  as_source : string;
  as_name : string;
  as_status : string;
  as_created_at : string;
}.
Record RelationshipRow := mkRelationshipRow {
  rel_from : string; rel_type : string; rel_to : string; rel_metadata_json : string }.
Record EventRow := mkEventRow {
  ev_id : Z; ev_asset_id : string; ev_event_type : string; ev_actor : string;
  ev_timestamp : string; ev_result : string; ev_details_json : string }.
Record AssetTables := mkAssetTables {
  t_assets : list AssetRow;
  (** asset_metadata, with its UNIQUE pair (asset_id, key). *)
  t_metadata : list ((string * string) * string);
  (** tags: id and name; asset_tags: asset and tag id. *)
  t_tags : list (Z * string);
  t_next_tag : Z;
  t_asset_tags : list (string * Z);
  t_relationships : list RelationshipRow;
  t_events : list EventRow;
  t_next_event : Z;
}.
Definition createAssetTables : AssetTables := mkAssetTables [] [] [] 1 [] [] [] 1.

Definition set_assets (x : list AssetRow) (t : AssetTables) : AssetTables :=
  mkAssetTables x (t_metadata t) (t_tags t) (t_next_tag t) (t_asset_tags t) (t_relationships t)
    (t_events t) (t_next_event t).
Definition set_metadata (x : list ((string * string) * string)) (t : AssetTables) : AssetTables :=
  mkAssetTables (t_assets t) x (t_tags t) (t_next_tag t) (t_asset_tags t) (t_relationships t)
    (t_events t) (t_next_event t).
Definition set_tags (x : list (Z * string)) (next : Z) (t : AssetTables) : AssetTables :=
  mkAssetTables (t_assets t) (t_metadata t) x next (t_asset_tags t) (t_relationships t)
    (t_events t) (t_next_event t).
Definition set_asset_tags (x : list (string * Z)) (t : AssetTables) : AssetTables :=
  mkAssetTables (t_assets t) (t_metadata t) (t_tags t) (t_next_tag t) x (t_relationships t)
    (t_events t) (t_next_event t).
Definition set_relationships (x : list RelationshipRow) (t : AssetTables) : AssetTables :=
  mkAssetTables (t_assets t) (t_metadata t) (t_tags t) (t_next_tag t) (t_asset_tags t) x
    (t_events t) (t_next_event t).
Definition set_events (x : list EventRow) (next : Z) (t : AssetTables) : AssetTables :=
  mkAssetTables (t_assets t) (t_metadata t) (t_tags t) (t_next_tag t) (t_asset_tags t)
    (t_relationships t) x next.

(** ** Statements *)
Definition asset_exists (id : string) (t : AssetTables) : bool :=
  bool_decide (id ∈ map as_id (t_assets t)).
Definition fk_failed : string := "FOREIGN KEY constraint failed".

(** INSERT ... ON CONFLICT(key) DO UPDATE *)
Definition upsert {R K : Type} `{EqDecision K} (key : R → K) (update : R → R) (row : R) (l : list R) :
    list R :=
  if decide (key row ∈ map key l)
  then map (λ r, if decide (key r = key row) then update r else r) l
  else l ++ [row].
(** SET name = excluded.name, status = excluded.status *)
Definition upsert_asset (row : AssetRow) : list AssetRow → list AssetRow :=
  upsert as_id (λ r, mkAssetRow (as_id r) (as_asset_type r) (as_native_id r) (as_source r)
    (as_name row) (as_status row) (as_created_at r)) row.
(** SET value = excluded.value *)
Definition upsert_metadata (k : string * string) (value : string) :
    list ((string * string) * string) → list ((string * string) * string) :=
  upsert fst (λ r, (fst r, value)) (k, value).
(** INSERT OR IGNORE *)
Definition insert_tag (name : string) (t : AssetTables) : AssetTables :=
  if decide (name ∈ map snd (t_tags t)) then t
  else set_tags (t_tags t ++ [(t_next_tag t, name)]) (t_next_tag t + 1) t.
Definition insert_asset_tag (p : string * Z) (l : list (string * Z)) : list (string * Z) :=
  if decide (p ∈ l) then l else l ++ [p].
Definition tag_ids (name : string) (t : AssetTables) : list Z :=
  map fst (filter (λ p, snd p = name) (t_tags t)).

Section operations.
Context {W : Type} `{Runtime W} `{!SqlDriver W} `{!AssetLib W} `{JsonText}.

(** [db.Exec] of a statement that succeeds in the engine. *)
Definition asset_exec (f : AssetTables → AssetTables) : M W AssetTables (result unit) :=
  e ← world sql_exec_err;
  match e with
  | Some err => mret (Err err)
  | None => t ← get_state; put_state (f t);; mret (Val tt)
  end.
(** The same for a statement that, when [inserts] holds, inserts a row with a reference to
    the asset [id]. *)
Definition asset_exec_fk (id : string) (inserts : AssetTables → bool) (f : AssetTables → AssetTables) :
    M W AssetTables (result unit) :=
  fk ← world fk_enforced;
  t ← get_state;
  if (fk : bool) && inserts t && negb (asset_exists id t) then mret (Err fk_failed)
  else asset_exec f.

Definition RegisterAsset (id assetType nativeID name status : string) :
    M W AssetTables (result unit) :=
  now ← world time_Now;
  asset_exec (λ t, set_assets (upsert_asset
    (mkAssetRow id assetType nativeID "open-kmip-server" name status (sqlite_datetime now))
    (t_assets t)) t).

Definition SetMetadata (assetID key value : string) : M W AssetTables (result unit) :=
  asset_exec_fk assetID (λ t, bool_decide ((assetID, key) ∉ map fst (t_metadata t)))
    (λ t, set_metadata (upsert_metadata (assetID, key) value (t_metadata t)) t).

Definition GetMetadata (assetID : string) : M W AssetTables (result (gmap string string)) :=
  t ← get_state;
  rows ← world (sql_query unordered (filter (λ a, (fst a).1 = assetID) (t_metadata t)));
  val rows := rows else err => mret (Err err);;
  mret (Val (fold_left (λ m a, <[(fst a).2 := snd a]> m) rows ∅)).

(** The error of the first statement is not looked at. *)
Definition TagAsset (assetID tagName : string) : M W AssetTables (result unit) :=
  asset_exec (insert_tag tagName);;
  asset_exec_fk assetID
    (λ t, existsb (λ id, bool_decide ((assetID, id) ∉ t_asset_tags t)) (tag_ids tagName t))
    (λ t, set_asset_tags (fold_left (λ l id, insert_asset_tag (assetID, id) l)
      (tag_ids tagName t) (t_asset_tags t)) t).

(** tags t JOIN asset_tags at ON t.id = at.tag_id WHERE at.asset_id = ? *)
Definition joined_tags (assetID : string) (t : AssetTables) : list string :=
  concat (map (λ tag, map (λ _, snd tag)
    (filter (λ p, p = (assetID, fst tag)) (t_asset_tags t))) (t_tags t)).
Definition GetTags (assetID : string) : M W AssetTables (result (list string)) :=
  t ← get_state; world (sql_query unordered (joined_tags assetID t)).

Definition AddRelationship (fromAssetID relType toAssetID : string) (metadata : Json) :
    M W AssetTables (result unit) :=
  asset_exec_fk fromAssetID (λ _, true) (λ t, set_relationships
    (t_relationships t ++ [mkRelationshipRow fromAssetID relType toAssetID (json_Marshal metadata)]) t).

Record AssetRelationship := mkRelationship { r_Type : string; r_Target : string; r_Metadata : Json }.
(** [json.Unmarshal] into a map: anything but an object leaves it nil. *)
Definition unmarshal_map (text : string) : Json :=
  match json_Decode (String.list_byte_of_string text) false with
  | Val (JObject fields) => JObject fields
  | _ => JNull
  end.
Definition GetRelationships (assetID : string) : M W AssetTables (result (list AssetRelationship)) :=
  t ← get_state;
  rows ← world (sql_query unordered (filter (λ r, rel_from r = assetID) (t_relationships t)));
  val rows := rows else err => mret (Err err);;
  mret (Val (map (λ r, mkRelationship (rel_type r) (rel_to r) (unmarshal_map (rel_metadata_json r))) rows)).

Definition EmitLifecycleEvent (assetID eventType actor : string) (details : Json) :
    M W AssetTables (result unit) :=
  now ← world time_Now;
  asset_exec (λ t, set_events (t_events t ++
    [mkEventRow (t_next_event t) assetID eventType actor (sqlite_datetime now) "success"
       (json_Marshal details)]) (t_next_event t + 1) t).

Record LifecycleEvent := mkEvent {
  le_ID : Z; le_AssetID : string; le_EventType : string; le_Actor : string; le_Timestamp : Time;
  le_Result : string; le_Details : Json }.
Definition scan_event (r : EventRow) : LifecycleEvent :=
  mkEvent (ev_id r) (ev_asset_id r) (ev_event_type r) (ev_actor r)
    (match ParseRFC3339 (ev_timestamp r) with Val t => t | Err _ => zero_time end)
    (ev_result r) (unmarshal_map (ev_details_json r)).
(** ORDER BY timestamp DESC *)
Definition timestamp_desc (r1 r2 : EventRow) : bool := String.leb (ev_timestamp r2) (ev_timestamp r1).
Definition ListLifecycleEvents (assetID : string) (limit : Z) :
    M W AssetTables (result (list LifecycleEvent)) :=
  let limit := if limit <=? 0 then 50 else limit in
  t ← get_state;
  rows ← world (sql_query timestamp_desc
    (filter (λ r, String.eqb assetID EmptyString || String.eqb (ev_asset_id r) assetID = true) (t_events t)));
  val rows := rows else err => mret (Err err);;
  mret (Val (map scan_event (sql_limit limit 0 rows))).

Record AssetView := mkAssetView {
  v_ID : string; v_Type : string; v_Source : string; v_Name : string; v_Status : string;
  v_CreatedAt : string; v_Metadata : gmap string string; v_Tags : list string;
  v_Relationships : list AssetRelationship }.
Definition result_or {A} (none : A) (r : result A) : A := match r with Val a => a | Err _ => none end.
(** ORDER BY created_at DESC *)
Definition asset_desc (r1 r2 : AssetRow) : bool := String.leb (as_created_at r2) (as_created_at r1).
Definition asset_view (r : AssetRow) : M W AssetTables AssetView :=
  metadata ← GetMetadata (as_id r);
  tags ← GetTags (as_id r);
  relationships ← GetRelationships (as_id r);
  mret (mkAssetView (as_id r) (as_asset_type r) "open-kmip-server" (as_name r) (as_status r)
    (as_created_at r) (result_or ∅ metadata) (result_or [] tags) (result_or [] relationships)).
Definition ListInventory : M W AssetTables (result (list AssetView)) :=
  t ← get_state;
  rows ← world (sql_query asset_desc (t_assets t));
  val rows := rows else err => mret (Err err);;
  views ← mapM_ asset_view rows;
  mret (Val views).
End operations.

(** ** The views as JSON: empty fields are left out, no views are null *)
Definition omit_empty (name : string) (empty : bool) (j : Json) : list (string * Json) :=
  if empty then [] else [(name, j)].
Definition relationship_json (r : AssetRelationship) : Json := JObject
  ([("type", JString (r_Type r)); ("target", JString (r_Target r))] ++
   omit_empty "metadata" (match r_Metadata r with JObject (_ :: _) => false | _ => true end) (r_Metadata r)).
Definition view_json (v : AssetView) : Json := JObject
  ([("id", JString (v_ID v)); ("type", JString (v_Type v)); ("source", JString (v_Source v));
    ("name", JString (v_Name v)); ("status", JString (v_Status v));
    ("created_at", JString (v_CreatedAt v))] ++
   omit_empty "metadata" (bool_decide (v_Metadata v = ∅))
     (JObject (map (λ p, (fst p, JString (snd p))) (map_to_list (v_Metadata v)))) ++
   omit_empty "tags" (bool_decide (v_Tags v = [])) (JArray (map JString (v_Tags v))) ++
   omit_empty "relationships" (match v_Relationships v with [] => true | _ => false end)
     (JArray (map relationship_json (v_Relationships v)))).
Definition views_json (views : list AssetView) : Json :=
  match views with [] => JNull | _ => JArray (map view_json views) end.

(** ** The SQLite store with its asset tables

    The keys and the assets are tables of one database; the operations of one leave the
    tables of the other alone. *)
Section paired.
Context {W S T : Type} `{!Storage W S}.
Definition on_fst {A} (m : M W S A) : M W (S * T) A := zoom fst (λ s p, (s, snd p)) m.
Definition on_snd {A} (m : M W T A) : M W (S * T) A := zoom snd (λ t p, (fst p, t)) m.

#[global] Instance paired_Storage : Storage W (S * T) := {
  Create name algorithm length usageMask owner :=
    on_fst (Create name algorithm length usageMask owner);
  Get uid := on_fst (Get uid);
  Locate name := on_fst (Locate name);
  List_ := on_fst List_;
  Activate uid := on_fst (Activate uid);
  Destroy uid := on_fst (Destroy uid);
  Register rec := on_fst (Register rec);
  Revoke uid reason := on_fst (Revoke uid reason);
  GetAttributes uid := on_fst (GetAttributes uid);
  Rekey uid := on_fst (Rekey uid);
  Archive uid := on_fst (Archive uid);
  Recover uid := on_fst (Recover uid);
  DeriveKey sourceUID derivationData name length :=
    on_fst (DeriveKey sourceUID derivationData name length);
  GetCustomAttributes uid := on_fst (GetCustomAttributes uid);
  SetCustomAttribute uid name value := on_fst (SetCustomAttribute uid name value);
  DeleteCustomAttribute uid name := on_fst (DeleteCustomAttribute uid name);
  Close := on_fst Close;
}.

Lemma wp_on_fst {A} (m : M W S A) (Q : A → W → S * T → Prop) w p :
  wp m (λ a w' s', Q a w' (s', snd p)) w (fst p) → wp (on_fst m) Q w p.
Proof. intros Hm. unfold on_fst. apply wp_zoom. exact Hm. Qed.
Lemma wp_on_snd {A} (m : M W T A) (Q : A → W → S * T → Prop) w p :
  wp m (λ a w' t', Q a w' (fst p, t')) w (snd p) → wp (on_snd m) Q w p.
Proof. intros Hm. unfold on_snd. apply wp_zoom. exact Hm. Qed.

(** The pair meets the contract its first component meets. *)
Lemma paired_spec `{RuntimeLaws W} `{Hkdf} {Inv : W → S → Prop} {view : S → Vault} {faulty : Prop} :
  StorageSpec W S Inv view faulty →
  StorageSpec W (S * T) (λ w p, Inv w (fst p)) (λ p, view (fst p)) faulty.
Proof.
  intros Hspec. split; intros.
  - by eapply spec_later.
  - by eapply spec_wf.
  - by apply wp_on_fst, Create_spec.
  - by apply wp_on_fst, Get_spec.
  - by apply wp_on_fst, Locate_spec.
  - by apply wp_on_fst, List_spec.
  - by apply wp_on_fst, Activate_spec.
  - by apply wp_on_fst, Destroy_spec.
  - by apply wp_on_fst, Register_spec.
  - by apply wp_on_fst, Revoke_spec.
  - by apply wp_on_fst, GetAttributes_spec.
  - by apply wp_on_fst, Rekey_spec.
  - by apply wp_on_fst, Archive_spec.
  - by apply wp_on_fst, Recover_spec.
  - by apply wp_on_fst, DeriveKey_spec.
  - by apply wp_on_fst, GetCustomAttributes_spec.
  - by apply wp_on_fst, SetCustomAttribute_spec.
  - by apply wp_on_fst, DeleteCustomAttribute_spec.
Qed.
End paired.

#[global] Instance memory_inventory {W} : InventoryStore W MemoryStore := None.
#[global] Instance sqlite_inventory {W} `{Runtime W} `{!SqlDriver W} `{!AssetLib W} `{JsonText} :
  InventoryStore W (Database * AssetTables) :=
  Some (res ← on_snd ListInventory;
        mret (match res with Val views => Val (views_json views) | Err e => Err e end)).
