(* ===== verification/DashAuthTheorems.v ===== *)
(** * Properties of the dashboard authentication

    The calls an authenticator serves, one after the other ([auth_run]), and what any
    sequence of them does to the sessions and the failed logins.  The theorems need the
    clock to be monotonic ([ClockLaws]). *)

From Stdlib Require Import ZArith Lia.
From S2P Require Import Prelude GoRuntime Http DashAuth KmipLib CryptoLib Testbed.
Local Open Scope Z_scope.
Local Open Scope go_scope.

Inductive AuthCall :=
| CallLogin (r : HttpRequest)
| CallLogout (r : HttpRequest)
| CallStatus (r : HttpRequest)
| CallAPI (r : HttpRequest)
| CallCleanup.

Section calls.
Context {W : Type} `{Runtime W} `{JsonText}.

Definition auth_call (c : AuthCall) : M W DashAuth (option HttpResponse) :=
  match c with
  | CallLogin r => res ← handleLogin r; mret (Some res)
  | CallLogout r => res ← handleLogout r; mret (Some res)
  | CallStatus r => res ← dash_handleStatus r; mret (Some res)
  | CallAPI r =>
      res ← RequireAPIAuth id (λ d _, d) (λ _, mret (json_response StatusOK [])) r; mret (Some res)
  | CallCleanup => cleanup;; mret None
  end.
Definition auth_run (calls : list AuthCall) : M W DashAuth (list (option HttpResponse)) :=
  mapM_ auth_call calls.

Definition is_login (key tok : string) (tls : bool) (c : AuthCall) (res : option HttpResponse) : Prop :=
  ∃ r, c = CallLogin r ∧ decode_body (string_field "api_key") r = Some key ∧
    res = Some (login_accepted tok tls).
Definition is_logout (tok : string) (c : AuthCall) : Prop :=
  ∃ r, c = CallLogout r ∧ r_SessionCookie r = Some tok.
Definition is_failed_login (ip : string) (cr : AuthCall * option HttpResponse) : bool :=
  match cr with
  | (CallLogin r, Some res) =>
      String.eqb (extractIP r) ip && (rs_Status res =? StatusUnauthorized)
  | _ => false
  end.
End calls.

Definition same_config (d d' : DashAuth) : Prop :=
  d_apiKey d' = d_apiKey d ∧ d_devMode d' = d_devMode d ∧ d_tls d' = d_tls d.
#[export] Instance same_config_preorder : PreOrder same_config.
Proof.
  split; unfold same_config; [done|]. intros d1 d2 d3 H1 H2. intuition congruence.
Qed.
Definition attempts (d : DashAuth) (ip : string) : list Time := default [] (loginAttempts d !! ip).
Definition attempts_bounded (d : DashAuth) : Prop :=
  ∀ ip, (length (attempts d ip) ≤ maxLoginPerMin)%nat.
Definition since (t0 : Time) (d : DashAuth) (ip : string) : nat :=
  length (filter (λ t, t0 ≤ t) (attempts d ip)).

Section effects.
Context {W : Type} `{RuntimeLaws W} `{!ClockLaws W} `{JsonText}.
Implicit Types (w : W) (d : DashAuth).

Lemma wp_clock_now {S} (Q : Time → W → S → Prop) w s :
  Q (time_Now w).1 (time_Now w).2 s → wp (world time_Now) Q w s.
Proof. apply wp_world. Qed.

(** What becomes of one session. *)
Definition kept (w' : W) (d d' : DashAuth) : Prop :=
  ∀ tok s, sessions d !! tok = Some s →
    sessions d' !! tok = Some s ∨ sessions d' !! tok = None ∧ s_ExpiresAt s < clock w'.

Lemma kept_refl w d : kept w d d.
Proof. intros tok s ?. by left. Qed.

Lemma kept_same w d d' : sessions d' = sessions d → kept w d d'.
Proof. intros Heq tok s ?. left. by rewrite Heq. Qed.

Lemma validSession_ok tok w d (Q : bool → W → DashAuth → Prop) :
  (∀ b w' d', clock w ≤ clock w' → same_config d d' → loginAttempts d' = loginAttempts d →
    sessions d' ⊆ sessions d → kept w' d d' →
    (b = true ↔ ∃ s, sessions d !! tok = Some s ∧ (time_Now w).1 ≤ s_ExpiresAt s) → Q b w' d') →
  wp (validSession tok) Q w d.
Proof.
  intros HQ. unfold validSession. apply wp_bind, wp_get_state.
  destruct (sessions d !! tok) as [s|] eqn:Hs.
  2:{ apply wp_ret, HQ; [lia|done..|apply kept_refl|]. split; [done|]. by intros (s & [=] & _). }
  apply wp_bind, wp_clock_now. pose proof (time_Now_clock w) as Hc.
  destruct (Z.ltb_spec (s_ExpiresAt s) (time_Now w).1) as [Hlt|Hge].
  - apply wp_bind, wp_put_state, wp_ret, HQ; [lia|done|done| | |].
    + cbn. apply delete_subseteq.
    + intros t x Hx. cbn. destruct (decide (tok = t)) as [<-|].
      * right. rewrite lookup_delete_eq. split; [done|]. replace x with s by congruence. lia.
      * left. by rewrite lookup_delete_ne.
    + split; [done|]. intros (x & [= <-] & ?). lia.
  - apply wp_ret, HQ; [lia|done..|apply kept_refl|]. split; [|done]. intros _. by exists s.
Qed.

Lemma authorized_ok r w d (Q : bool → W → DashAuth → Prop) :
  (∀ b w' d', clock w ≤ clock w' → same_config d d' → loginAttempts d' = loginAttempts d →
    sessions d' ⊆ sessions d → kept w' d d' →
    (b = true ↔ IsDevMode d = true ∨ bearer_token r = Some (d_apiKey d) ∨
      ∃ tok s, r_SessionCookie r = Some tok ∧ sessions d !! tok = Some s ∧
        (time_Now w).1 ≤ s_ExpiresAt s) → Q b w' d') →
  wp (authorized r) Q w d.
Proof.
  intros HQ. unfold authorized. apply wp_bind, wp_get_state.
  destruct (IsDevMode d) eqn:Hdev.
  { apply wp_ret, HQ; [lia|done..|apply kept_refl|naive_solver]. }
  case_bool_decide as Hb.
  { apply wp_ret, HQ; [lia|done..|apply kept_refl|naive_solver]. }
  destruct (r_SessionCookie r) as [tok|] eqn:Hcookie.
  2:{ apply wp_ret, HQ; [lia|done..|apply kept_refl|naive_solver]. }
  apply validSession_ok. intros b w' d' ? ? ? ? ? Hiff. apply HQ; [done..|]. rewrite Hiff.
  split.
  - intros (s & ? & ?). right. right. by exists tok, s.
  - intros [?|[?|(t & s & [= <-] & ? & ?)]]; [done|done|]. by exists s.
Qed.

(** ** The effect of a call *)
Definition call_effect (c : AuthCall) (res : option HttpResponse) (w w' : W) (d d' : DashAuth) : Prop :=
  same_config d d' ∧
  (sessions d' ⊆ sessions d ∧ (∀ r, c = CallLogin r → from_option rs_Cookies [] res = []) ∧ (kept w' d d' ∧ (∀ r, c ≠ CallLogout r) ∨ ∃ r, c = CallLogout r ∧
     sessions d' = from_option (λ tok, delete tok (sessions d)) (sessions d) (r_SessionCookie r)) ∨
   ∃ tok s, is_login (d_apiKey d) tok (d_tls d) c res ∧ sessions d' = <[tok := s]> (sessions d) ∧
     clock w ≤ s_CreatedAt s ≤ clock w' ∧ s_ExpiresAt s = s_CreatedAt s + sessionDuration) ∧
  (attempts_bounded d → attempts_bounded d') ∧
  (∀ t0 ip, t0 ≤ clock w → clock w' < t0 + Minute →
    (since t0 d' ip >= since t0 d ip + if is_failed_login ip (c, res) then 1 else 0)%nat).

(** A call that opens no session and logs nobody out. *)
Lemma kept_effect c res w' d d' :
  sessions d' ⊆ sessions d → kept w' d d' → (∀ r, c ≠ CallLogout r) →
  (∀ r, c = CallLogin r → from_option rs_Cookies [] res = []) →
  sessions d' ⊆ sessions d ∧ (∀ r, c = CallLogin r → from_option rs_Cookies [] res = []) ∧
  (kept w' d d' ∧ (∀ r, c ≠ CallLogout r) ∨ ∃ r, c = CallLogout r ∧
     sessions d' = from_option (λ tok, delete tok (sessions d)) (sessions d) (r_SessionCookie r)).
Proof. intros ????. split_and!; [done..|]. by left. Qed.

Lemma recent_length now l : (length (recent_attempts now l) ≤ length l)%nat.
Proof. apply length_filter. Qed.

Lemma recent_since t0 now l : now < t0 + Minute →
  filter (λ t, t0 ≤ t) (recent_attempts now l) = filter (λ t, t0 ≤ t) l.
Proof.
  intros Hnow. unfold recent_attempts. rewrite list_filter_filter. apply list_filter_iff.
  intros t. lia.
Qed.

(** Calls that leave the failed logins alone, and answer no login with 401. *)
Lemma quiet_attempts c res w w' d d' :
  loginAttempts d' = loginAttempts d → (∀ ip, is_failed_login ip (c, res) = false) →
  (attempts_bounded d → attempts_bounded d') ∧
  (∀ t0 ip, t0 ≤ clock w → clock w' < t0 + Minute →
    (since t0 d' ip >= since t0 d ip + if is_failed_login ip (c, res) then 1 else 0)%nat).
Proof.
  intros Heq Hf. unfold attempts_bounded, since, attempts. rewrite Heq. split; [done|].
  intros t0 ip _ _. rewrite Hf. lia.
Qed.

Lemma attempts_insert d ip l ip' :
  attempts (set_loginAttempts (<[ip := l]> (loginAttempts d)) d) ip' =
  if decide (ip = ip') then l else attempts d ip'.
Proof.
  unfold attempts. cbn. destruct (decide (ip = ip')) as [<-|].
  - by rewrite lookup_insert_eq.
  - by rewrite lookup_insert_ne.
Qed.

Lemma cleanup_ok w d :
  wp (res ← cleanup; mret None) (λ res w' d', clock w ≤ clock w' ∧ call_effect CallCleanup res w w' d d') w d.
Proof.
  apply wp_bind. unfold cleanup. apply wp_bind, wp_clock_now. pose proof (time_Now_clock w) as Hc.
  apply wp_bind, wp_get_state, wp_put_state, wp_ret. split; [lia|]. split_and!; [done| | |].
  - left. apply kept_effect; [apply map_filter_subseteq| |done|done]. intros tok s Hs. cbn.
    destruct (decide (s_ExpiresAt s < (time_Now w).1)).
    + right. split; [|lia]. apply map_lookup_filter_None. right. intros s' Hs'. cbn.
      replace s' with s by congruence. auto.
    + left. by apply map_lookup_filter_Some.
  - intros Hb ip. specialize (Hb ip). unfold attempts in *. cbn. rewrite lookup_omap.
    destruct (loginAttempts d !! ip) as [l|]; cbn in *; [|lia].
    pose proof (recent_length (time_Now w).1 l).
    destruct (recent_attempts _ l) eqn:E; cbn in *; lia.
  - intros t0 ip Ht0 Hw'. unfold since, attempts. cbn. rewrite lookup_omap.
    destruct (loginAttempts d !! ip) as [l|]; cbn; [|lia].
    rewrite <-(recent_since t0 (time_Now w).1 l) by lia.
    destruct (recent_attempts _ l); cbn; lia.
Qed.

Lemma login_ok r w d :
  wp (res ← handleLogin r; mret (Some res))
    (λ res w' d', clock w ≤ clock w' ∧ call_effect (CallLogin r) res w w' d d') w d.
Proof.
  apply wp_bind. unfold handleLogin. apply wp_bind, wp_get_state.
  destruct (IsDevMode d) eqn:Hdev.
  { apply wp_ret, wp_ret. split; [lia|]. split; [done|]. split.
    - left. by apply kept_effect; [|apply kept_refl| |].
    - apply quiet_attempts; [done|]. intros ip. cbn. by rewrite andb_false_r. }
  apply wp_bind. unfold allowLogin. apply wp_bind, wp_clock_now.
  pose proof (time_Now_clock w) as Hc. set (w1 := (time_Now w).2) in *.
  set (now := (time_Now w).1) in *. apply wp_bind, wp_get_state, wp_bind, wp_put_state, wp_ret.
  set (ip := extractIP r). set (l := recent_attempts now (attempts d ip)).
  fold (attempts d ip). fold l. set (d1 := set_loginAttempts _ d).
  assert (∀ res w' d', loginAttempts d' = loginAttempts d1 → clock w1 ≤ clock w' →
    (∀ ip, is_failed_login ip (CallLogin r, Some res) = false) →
    (attempts_bounded d → attempts_bounded d') ∧
    (∀ t0 ip', t0 ≤ clock w → clock w' < t0 + Minute →
      (since t0 d' ip' >= since t0 d ip' +
        if is_failed_login ip' (CallLogin r, Some res) then 1 else 0)%nat)) as Hquiet.
  { intros res w' d' Heq Hw' Hf.
    assert (∀ ip', attempts d' ip' = if decide (ip = ip') then l else attempts d ip') as Ha.
    { intros ip'. rewrite <-attempts_insert. unfold attempts. by rewrite Heq. }
    split.
    - intros Hb ip'. rewrite Ha. destruct (decide _) as [<-|]; [|apply Hb].
      etrans; [apply recent_length|apply Hb].
    - intros t0 ip' Ht0 Hlt. rewrite Hf. unfold since. rewrite Ha.
      destruct (decide _) as [<-|]; [|lia]. unfold l. rewrite recent_since by lia. lia. }
  assert (kept w1 d d1) as Hk by by apply kept_same.
  destruct (Nat.ltb_spec (length l) maxLoginPerMin) as [Hroom|_].
  2:{ apply wp_ret, wp_ret. split; [lia|]. split; [done|]. split.
      - left. apply kept_effect; [done|by apply kept_same|done|done].
      - apply Hquiet; [done|lia|]. intros ip'. cbn. by rewrite andb_false_r. }
  destruct (decode_body _ r) as [key|] eqn:Hkey.
  2:{ apply wp_ret, wp_ret. split; [lia|]. split; [done|]. split.
      - left. apply kept_effect; [done|by apply kept_same|done|done].
      - apply Hquiet; [done|lia|]. intros ip'. cbn. by rewrite andb_false_r. }
  destruct (String.eqb_spec key (d_apiKey d)) as [->|Hne]; cbn [negb].
  - apply wp_bind. unfold createSession. apply wp_bind, wp_go_make; [done|].
    apply wp_bind, wp_world. rewrite length_replicate.
    destruct (rand_Read_fills (Z.to_nat tokenBytes) w1) as (bs & -> & Hbs).
    pose proof (rand_Read_clock (Z.to_nat tokenBytes) w1) as Hc2.
    set (w2 := (rand_Read _ w1).2) in *.
    apply wp_bind, wp_clock_now. pose proof (time_Now_clock w2) as Hc3.
    apply wp_bind, wp_get_state, wp_bind, wp_put_state, wp_ret, wp_ret, wp_ret.
    split; [lia|]. split; [done|]. split.
    + right. eexists (hex_EncodeToString bs), _. split; [by eexists|]. split; [done|]. cbn. lia.
    + apply Hquiet; [done|lia|]. intros ip'. cbn. by rewrite andb_false_r.
  - apply wp_bind. unfold recordFailedLogin. apply wp_bind, wp_get_state, wp_bind, wp_clock_now.
    pose proof (time_Now_clock w1) as Hc2. set (now2 := (time_Now w1).1) in *.
    set (w2 := (time_Now w1).2) in *.
    apply wp_put_state, wp_ret, wp_ret. split; [lia|]. split; [done|]. split.
    { left. apply kept_effect; [done|by apply kept_same|done|done]. }
    assert (∀ ip', attempts (set_loginAttempts
        (<[ip := default [] (loginAttempts d1 !! ip) ++ [now2]]> (loginAttempts d1)) d1) ip' =
      if decide (ip = ip') then l ++ [now2] else attempts d ip') as Ha.
    { intros ip'. rewrite attempts_insert. unfold d1.
      destruct (decide (ip = ip')) as [<-|].
      - cbn. by rewrite lookup_insert_eq.
      - rewrite attempts_insert. by rewrite decide_False. }
    split.
    + intros Hb ip'. rewrite Ha. destruct (decide _) as [<-|]; [|apply Hb].
      rewrite length_app. cbn. lia.
    + intros t0 ip' Ht0 Hlt. unfold since. rewrite Ha. cbn [is_failed_login].
      destruct (decide _) as [<-|Hip].
      * unfold ip. rewrite String.eqb_refl. cbn. rewrite filter_app, length_app. unfold l.
        rewrite recent_since by lia. fold ip. rewrite filter_cons_True by lia. cbn. lia.
      * rewrite (proj2 (String.eqb_neq _ _)) by done. cbn. lia.
Qed.

Lemma auth_call_ok c w d :
  wp (auth_call c) (λ res w' d', clock w ≤ clock w' ∧ call_effect c res w w' d d') w d.
Proof.
  destruct c as [r|r|r|r|]; cbn [auth_call].
  - apply login_ok.
  - apply wp_bind. unfold handleLogout. apply wp_bind, wp_get_state, wp_bind, wp_put_state.
    apply wp_ret, wp_ret. split; [lia|]. split; [by destruct (r_SessionCookie r)|]. split.
    + left. split; [destruct (r_SessionCookie r); cbn; [apply delete_subseteq|done]|].
      split; [done|]. right. exists r. split; [done|]. by destruct (r_SessionCookie r).
    + apply quiet_attempts; [by destruct (r_SessionCookie r)|done].
  - apply wp_bind. unfold dash_handleStatus. apply wp_bind, wp_get_state.
    destruct (IsDevMode d).
    { apply wp_ret, wp_ret. split; [lia|]. split; [done|]. split; [|by apply quiet_attempts].
      left. by apply kept_effect; [|apply kept_refl| |]. }
    apply wp_bind. destruct (r_SessionCookie r) as [tok|].
    + apply validSession_ok. intros b w' d' ? ? ? ? ? _. apply wp_ret, wp_ret. split; [done|].
      split; [done|]. split; [by left; apply kept_effect|by apply quiet_attempts].
    + apply wp_ret, wp_ret, wp_ret. split; [lia|]. split; [done|]. split; [|by apply quiet_attempts].
      left. by apply kept_effect; [|apply kept_refl| |].
  - apply wp_bind. unfold RequireAPIAuth. apply wp_bind, wp_zoom, authorized_ok.
    intros b w' d' ? ? ? ? ? _.
    assert (∀ res, call_effect (CallAPI r) res w w' d d') as He.
    { intros res. split; [done|]. split; [by left; apply kept_effect|by apply quiet_attempts]. }
    destruct b; apply wp_ret, wp_ret; auto.
  - apply cleanup_ok.
Qed.
End effects.

Section theorems.
Context {W : Type} `{RuntimeLaws W} `{!ClockLaws W} `{JsonText}.
Implicit Types (w : W) (d : DashAuth).

Lemma auth_run_cons c calls rs w d w' d' :
  auth_run (c :: calls) (w, d) = (Ok rs, (w', d')) →
  ∃ res rs' w1 d1, rs = res :: rs' ∧ clock w ≤ clock w1 ∧ call_effect c res w w1 d d1 ∧
    auth_run calls (w1, d1) = (Ok rs', (w', d')).
Proof.
  unfold auth_run. cbn [mapM_]. unfold mbind at 1, M_bind at 1.
  destruct (wp_returns _ _ _ _ (auth_call_ok c w d)) as (res & w1 & d1 & -> & ? & ?).
  unfold mbind at 1, M_bind at 1. destruct (mapM_ auth_call calls (w1, d1)) as [[rs'|e] [w2 d2]] eqn:E;
    intros [= <- <- <-]. exists res, rs', w1, d1. by rewrite <-E.
Qed.

Lemma auth_run_total calls w d :
  wp (auth_run calls) (λ _ w' d', clock w ≤ clock w' ∧ same_config d d' ∧
    (attempts_bounded d → attempts_bounded d')) w d.
Proof.
  unfold auth_run. revert w d. induction calls as [|c calls IH]; intros w d; cbn [mapM_].
  { apply wp_ret. split_and!; [lia|done..]. }
  wp_use auth_call_ok as res w1 d1 (? & Hcfg & _ & ? & _).
  wp_use IH as rs w2 d2 (? & ? & ?). apply wp_ret. split_and!; [lia|by etrans|auto].
Qed.

(** Where a session comes from. *)
Lemma auth_run_sessions key tls tok calls rs w d w' d' :
  d_apiKey d = key → d_tls d = tls →
  auth_run calls (w, d) = (Ok rs, (w', d')) → is_Some (sessions d' !! tok) →
  (∃ i c res, calls !! i = Some c ∧ rs !! i = Some res ∧ is_login key tok tls c res ∧
     ∀ j c', (i < j)%nat → calls !! j = Some c' → ¬ is_logout tok c') ∨
  is_Some (sessions d !! tok) ∧ ∀ j c', calls !! j = Some c' → ¬ is_logout tok c'.
Proof.
  revert rs w d. induction calls as [|c calls IH]; intros rs w d Hkey Htls Hrun Hs.
  { injection Hrun as <- <- <-. by right. }
  apply auth_run_cons in Hrun as (res & rs' & w1 & d1 & -> & _ & (Hcfg & Heff & _) & Hrun).
  destruct Hcfg as (Hc1 & Hc2 & Hc3).
  destruct (IH rs' w1 d1) as [(i & c' & r' & ? & ? & ? & Hlast)|[Hs1 Hno]]; [congruence..|done|done| |].
  { left. exists (S i), c', r'. split_and!; [done..|]. intros [|j] x Hj; [lia|]. apply Hlast. lia. }
  assert (∀ i, i = O → ∀ j c', (i < j)%nat → (c :: calls) !! j = Some c' → ¬ is_logout tok c') as Hlater.
  { intros ? -> [|j] c' ?; [lia|]. apply Hno. }
  destruct Heff as [(Hsub & _ & Hkept)|(t & s & Hlogin & Hins & _)].
  - right. split.
    { destruct Hs1 as [s Hs1]. exists s. by eapply lookup_weaken. }
    intros [|j] c' Hj; [|by eapply Hno]. injection Hj as <-. intros (r & -> & Hcookie).
    destruct Hkept as [[_ Hno']|(r' & [= <-] & Heq)]; [by destruct (Hno' r)|].
    rewrite Hcookie in Heq. cbn in Heq. rewrite Heq, lookup_delete_eq in Hs1. by destruct Hs1.
  - destruct (decide (t = tok)) as [->|Hne].
    + left. exists O, c, res. rewrite <-Hkey, <-Htls. split_and!; [done..|]. by apply Hlater.
    + right. rewrite Hins, lookup_insert_ne in Hs1 by done. split; [done|].
      intros [|j] c' Hj; [|by eapply Hno]. injection Hj as <-. intros (r & -> & _).
      by destruct Hlogin as (? & [=] & _).
Qed.


(** A session and its token, through calls that do not end it. *)
Lemma auth_run_keeps tok s calls rs w d w' d' :
  auth_run calls (w, d) = (Ok rs, (w', d')) →
  (∀ i c, calls !! i = Some c → ¬ is_logout tok c) →
  (∀ i res key tls c, calls !! i = Some c → rs !! i = Some res → ¬ is_login key tok tls c res) →
  sessions d !! tok = Some s ∨ sessions d !! tok = None ∧ s_ExpiresAt s < clock w →
  sessions d' !! tok = Some s ∨ sessions d' !! tok = None ∧ s_ExpiresAt s < clock w'.
Proof.
  revert rs w d. induction calls as [|c calls IH]; intros rs w d Hrun Hlogout Hlogin Hs.
  { by injection Hrun as <- <- <-. }
  apply auth_run_cons in Hrun as (res & rs' & w1 & d1 & -> & Hw1 & (_ & Heff & _) & Hrun).
  eapply IH; [exact Hrun| | |]; clear IH.
  { intros i. apply (Hlogout (S i)). }
  { intros i r key tls c'. apply (Hlogin (S i)). }
  destruct Heff as [(Hsub & _ & [[Hkept _]|(r & -> & Heq)])|(t & x & Hl & Hins & _)].
  - destruct Hs as [Hs|[Hs ?]].
    + by apply Hkept.
    + right. split; [|lia]. by eapply lookup_weaken_None.
  - rewrite Heq. destruct (r_SessionCookie r) as [t|] eqn:Hr; cbn.
    + rewrite lookup_delete_ne; [destruct Hs as [?|[? ?]]; [by left|right; split; [done|lia]]|].
      intros ->. by apply (Hlogout O _ eq_refl); exists r.
    + destruct Hs as [?|[? ?]]; [by left|right; split; [done|lia]].
  - rewrite Hins, lookup_insert_ne; [destruct Hs as [?|[? ?]]; [by left|right; split; [done|lia]]|].
    intros ->. by eapply (Hlogin O).
Qed.

(** C11: No access without the key.  In production mode, after any sequence of calls, a
    request is let through only if it carries the API key as a bearer token, or the
    cookie of a session that an earlier login with the API key opened and that was not
    logged out since. *)
Theorem session_requires_login key tls calls rs w w1 d r σ :
  key ≠ EmptyString →
  auth_run calls (w, New key tls) = (Ok rs, (w1, d)) →
  authorized r (w1, d) = (Ok true, σ) →
  bearer_token r = Some key ∨
  ∃ tok i c res, r_SessionCookie r = Some tok ∧ calls !! i = Some c ∧ rs !! i = Some res ∧
    is_login key tok tls c res ∧
    ∀ j c', (i < j)%nat → calls !! j = Some c' → ¬ is_logout tok c'.
Proof.
  intros Hkey Hrun Hauth.
  destruct (wp_run _ _ _ _ _ _ _ Hrun (auth_run_total _ _ _)) as (_ & (Hc1 & Hc2 & Hc3) & _).
  destruct σ as [w2 d2].
  assert (IsDevMode d = false) as Hdev.
  { unfold IsDevMode. rewrite Hc1, Hc2. by apply String.eqb_neq. }
  eapply wp_run in Hauth; [|apply authorized_ok; intros b ? ? _ _ _ _ _ Hb; exact Hb].
  cbn in Hauth. destruct (proj1 Hauth eq_refl) as [?|[?|(tok & s & Hcookie & Hs & _)]];
    [congruence|left; cbn in *; congruence|right].
  destruct (auth_run_sessions key tls tok calls rs w (New key tls) w1 d)
    as [(i & c & res & ? & ? & ? & ?)|[Hn _]]; [done..| | |].
  - by exists s.
  - by exists tok, i, c, res.
  - cbn in Hn. rewrite lookup_empty in Hn. by destruct Hn.
Qed.

(** C12: A session lasts eight hours.  The cookie a login hands out opens the API, as
    long as nobody logs it out, exactly until eight hours after the login: earlier it
    is accepted, later it is refused, whatever else was called in between. *)
Theorem session_window key tls r0 tok calls rs w w1 w2 d d1 d2 r :
  IsDevMode d = false → d_apiKey d = key → d_tls d = tls →
  auth_call (CallLogin r0) (w, d) = (Ok (Some (login_accepted tok tls)), (w1, d1)) →
  auth_run calls (w1, d1) = (Ok rs, (w2, d2)) →
  (∀ i c, calls !! i = Some c → ¬ is_logout tok c) →
  (∀ i res key' tls' c, calls !! i = Some c → rs !! i = Some res → ¬ is_login key' tok tls' c res) →
  r_SessionCookie r = Some tok → bearer_token r ≠ Some key →
  ∃ opened b σ, clock w ≤ opened ≤ clock w1 ∧ authorized r (w2, d2) = (Ok b, σ) ∧
    (b = true ↔ (time_Now w2).1 ≤ opened + 8 * Hour).
Proof.
  intros Hdev Hkey Htls Hlogin Hrun Hno Hnew Hcookie Hbearer.
  eapply wp_run in Hlogin; [|apply auth_call_ok]. destruct Hlogin as (Hw1 & Hcfg & Heff & _).
  assert (∃ s, sessions d1 !! tok = Some s ∧ clock w ≤ s_CreatedAt s ≤ clock w1 ∧
    s_ExpiresAt s = s_CreatedAt s + sessionDuration) as (s & Hs & Hcr & Hexp).
  { destruct Heff as [(_ & Hn & _)|(t & s & (r' & _ & _ & Hres) & Hins & Hc & He)].
    - by specialize (Hn r0 eq_refl).
    - injection Hres as <-. exists s. by rewrite Hins, lookup_insert_eq. }
  assert (Hk := auth_run_keeps tok s calls rs w1 d1 w2 d2 Hrun Hno Hnew (or_introl Hs)).
  destruct (wp_run _ _ _ _ _ _ _ Hrun (auth_run_total _ _ _)) as (_ & Hcfg2 & _).
  assert (IsDevMode d2 = false ∧ d_apiKey d2 = key) as [Hdev2 Hkey2].
  { destruct (transitivity Hcfg Hcfg2) as (E1 & E2 & _). unfold IsDevMode in *. by rewrite E1, E2. }
  destruct (wp_returns (authorized r) (λ b _ _, b = true ↔ (time_Now w2).1 ≤ s_ExpiresAt s) w2 d2)
    as (b & w3 & d3 & Hb & Hiff).
  { apply authorized_ok. intros b w' d' _ _ _ _ _ ->. rewrite Hdev2, Hkey2, Hcookie. split.
    - intros [?|[?|(t & x & [= <-] & Hx & ?)]]; [done..|]. destruct Hk as [Hk|[Hk _]]; congruence.
    - intros Hle. right. right. exists tok, s. split; [done|]. split; [|done].
      destruct Hk as [?|[_ ?]]; [done|]. pose proof (time_Now_clock w2). lia. }
  exists (s_CreatedAt s), b, (w3, d3). split_and!; [lia|lia|done|].
  rewrite Hiff, Hexp. done.
Qed.

End theorems.

(** ** Witnesses *)
Definition test_login (key : string) : HttpRequest :=
  mkHttpRequest "POST" ["auth"; "login"] "10.0.0.1:4000" EmptyString None []
    (test_json_body [("api_key", key)]) false.
Definition test_access (cookie : string) : HttpRequest :=
  mkHttpRequest "GET" ["v1"; "keys"] "10.0.0.1:4000" EmptyString (Some cookie) [] [] false.
(** The token the random source of the testbed leads to. *)
Definition test_token : string := hex_EncodeToString (replicate 32 Byte.x2a).
Definition test_auth : DashAuth := New "secret" true.

Definition test_session_calls : list AuthCall := [CallLogin (test_login "secret"); CallCleanup].
Definition test_session_state : TestWorld * DashAuth :=
  Eval vm_compute in (auth_run test_session_calls (test_world, test_auth)).2.

Lemma session_requires_login_witness :
  (auth_run test_session_calls (test_world, test_auth)).2 = test_session_state ∧
  (authorized (test_access test_token) test_session_state).1 = Ok true ∧
  ∃ tok i c res, r_SessionCookie (test_access test_token) = Some tok ∧
    test_session_calls !! i = Some c ∧ is_login "secret" tok true c res.
Proof.
  split; [by vm_compute|]. split; [by vm_compute|].
  destruct (session_requires_login (W:=TestWorld) "secret" true test_session_calls
    [Some (login_accepted test_token true); None] test_world test_session_state.1
    test_session_state.2 (test_access test_token) (authorized (test_access test_token) test_session_state).2)
    as [Hb|(tok & i & c & res & ? & ? & ? & ? & _)];
    [done|by vm_compute|by vm_compute|discriminate Hb|].
  by exists tok, i, c, res.
Defined.

Definition test_login_state : TestWorld * DashAuth :=
  Eval vm_compute in (auth_call (CallLogin (test_login "secret")) (test_world, test_auth)).2.
Definition test_later_calls : list AuthCall := [CallCleanup; CallStatus (test_access test_token)].
Definition test_later_state : TestWorld * DashAuth :=
  Eval vm_compute in (auth_run test_later_calls test_login_state).2.

Lemma session_window_witness : ∃ opened b σ,
  authorized (test_access test_token) test_later_state = (Ok b, σ) ∧
  (b = true ↔ (time_Now (W:=TestWorld) test_later_state.1).1 ≤ opened + 8 * Hour).
Proof.
  destruct (session_window (W:=TestWorld) "secret" true (test_login "secret") test_token
    test_later_calls [None; Some (auth_status true false)] test_world test_login_state.1
    test_later_state.1 test_auth test_login_state.2 test_later_state.2 (test_access test_token))
    as (opened & b & σ & _ & Ha & Hb); [done|done|done|by vm_compute|by vm_compute| | |done|done|].
  - intros [|[|i]] c [= <-] (r & [=] & _).
  - intros [|[|i]] res key tls c [= <-] _ (r & [=] & _).
  - exists opened, b, σ. split; [exact Ha|exact Hb].
Defined.


