(* ===== verification/RestTheorems.v ===== *)
(** * Properties of the REST API

    The two interfaces together, authentication, the lifecycle as REST leaves it, the
    cryptographic endpoints and the rate limiter.  The backend is any that meets
    [StorageSpec]; the witnesses run the API on the in-memory store. *)

From Stdlib Require Import ZArith Lia.
From stdpp Require Import relations.
From S2P Require Import Prelude GoRuntime Storage MemoryStore MemoryStoreProofs SQLiteStore.
From S2P Require Import KmipLib CryptoLib Http Testbed DashAuth RateLimiter AuditLog Connections.
From S2P Require Import Lifecycle Handler HandlerSpec HandlerProofs Requests RequestProofs.
From S2P Require Import RequestTheorems ObjectTheorems RestAPI RestProofs DashAuthTheorems.
Local Open Scope Z_scope.
Local Open Scope go_scope.

(** ** Both interfaces on one server *)
Inductive ServerEvent := EvKmip (rq : Request) | EvRest (r : HttpRequest).

Section server.
Context {W S : Type} `{Runtime W} `{!SqlDriver W} `{!Storage W S} `{KmipLib} `{!CryptoLib W}.
Context `{JsonText} `{RestLib} `{!TimeText} `{!InventoryStore W S}.

Definition server_event (e : ServerEvent) : M W (API S) unit :=
  match e with
  | EvKmip rq =>
      on_handler (HandleRequest (rq_data rq) (rq_clientCN rq) (rq_remoteAddr rq) (rq_connID rq));;
      mret tt
  | EvRest r => serve_request r;; mret tt
  end.
Definition run_server (evs : list ServerEvent) : M W (API S) (list unit) := mapM_ server_event evs.
End server.

(** A vault as both interfaces leave it: every object under its identifier, in one of
    four states, without material once destroyed. *)
Definition well_formed (v : Vault) : Prop :=
  ∀ uid r, objects v !! uid = Some r →
    UID r = uid ∧ reachable_state r ∧ (State r = StateDestroyed → Material r = []).

Lemma any_step_material r r' : any_step r r' → State r' = StateDestroyed → Material r' = [].
Proof.
  intros [Hs|Hs] Hd; destruct Hs as [r Hst|r ? Hst|r Hst ?|r Hst|r Hst|r ? Hst]
    || destruct Hs; cbn in *; try discriminate Hd; try done.
  rewrite Hst in Hd. discriminate Hd.
Qed.

Lemma kmip_effect_well_formed v v' : kmip_effect v v' → well_formed v → well_formed v'.
Proof.
  intros He Hwf. assert (vault_wf v) as Hv by (intros u x Hx; by destruct (Hwf u x Hx)).
  intros uid r' Hr'. split; [by apply (kmip_effect_wf _ _ He Hv)|].
  destruct (objects v !! uid) as [r|] eqn:Hr.
  - destruct (Hwf uid r Hr) as (_ & Hreach & Hmat).
    destruct (kmip_effect_object _ _ _ _ He Hr) as (r2 & Hr2 & Hs). replace r2 with r' in * by congruence.
    split; [by eapply reachable_stays|].
    apply rtc_inv_r in Hs as [->|(r1 & _ & Hs)]; [done|]. apply (any_step_material r1). by left.
  - destruct (evolves_new v v' uid r' (rtc_once _ _ He) Hr' Hr) as (r0 & (Hst & _) & _ & Hs).
    split; [eapply reachable_stays; [exact Hs|]; unfold reachable_state; rewrite Hst; set_solver|].
    apply rtc_inv_r in Hs as [->|(r1 & _ & Hs)]; [by rewrite Hst|]. apply (any_step_material r1). by left.
Qed.

Lemma system_effect_well_formed v v' : system_effect v v' → well_formed v → well_formed v'.
Proof.
  destruct 1 as [v' He|uid r r' Hr HU Hs]; [by apply kmip_effect_well_formed|]. intros Hwf u x. cbn.
  rewrite lookup_insert_Some. intros [[<- <-]|[_ Hx]]; [|by apply Hwf].
  destruct (Hwf uid r Hr) as (_ & Hreach & _). split; [done|]. split.
  - eapply any_reachable; [|exact Hreach]. apply rtc_once. by right.
  - apply (any_step_material r). by right.
Qed.

Lemma system_evolves_well_formed v v' : system_evolves v v' → well_formed v → well_formed v'.
Proof. induction 1; eauto using system_effect_well_formed. Qed.

Section theorems.
Context {W S : Type} `{RuntimeLaws W} `{!SqlDriver W} `{!SqlLaws W} `{Hkdf} `{!Storage W S}.
Context {Inv : W → S → Prop} {view : S → Vault} {faulty : Prop}.
Context `{!StorageSpec W S Inv view faulty} `{KmipLib} `{!KmipLaws} `{!CryptoLib W} `{!CryptoLaws W}.
Context `{JsonText} `{RestLib} `{!RestLaws} `{!TimeText} `{!InventoryStore W S}.
Context `{!InventorySpec W S Inv view}.
Implicit Types (a : API S) (w : W).
Local Abbreviation api_inv := (api_inv (Inv:=Inv)).
Local Abbreviation api_view := (api_view (view:=view)).

Lemma server_event_ok e w a :
  api_inv w a →
  wp (server_event e) (λ _ w' a', api_inv w' a' ∧ system_evolves (api_view a) (api_view a')) w a.
Proof.
  intros HI. destruct e as [rq|r]; cbn [server_event].
  - apply wp_bind, wp_zoom. wp_use HandleRequest_ok as res w1 h1 [HI1 Hres]; [exact HI|].
    apply wp_ret. split; [exact HI1|]. apply evolves_system.
    apply request_within in Hres; [exact Hres|]. exact (spec_wf w (store (api_handler a)) (proj1 HI)).
  - apply wp_bind. wp_use serve_request_ok as res w1 a1 [HI1 Hev]; [exact HI|]. by apply wp_ret.
Qed.

Lemma run_server_ok evs w a :
  api_inv w a →
  wp (run_server evs) (λ _ w' a', api_inv w' a' ∧ system_evolves (api_view a) (api_view a')) w a.
Proof.
  unfold run_server. revert w a. induction evs as [|e evs IH]; intros w a HI; cbn [mapM_].
  { apply wp_ret. split; [done|apply rtc_refl]. }
  wp_use server_event_ok as x w1 a1 [HI1 Hev1]; [done|].
  wp_use IH as xs w2 a2 [HI2 Hev2]; [done|]. apply wp_ret. split; [done|]. by etrans.
Qed.

(** C3: The two interfaces cannot corrupt an object between them.  Over any
    interleaving of KMIP requests and REST requests, handlers that panic included, the
    server goes on; an object keeps its identity, every change of it is a transition
    of one of the interfaces, and a destroyed object is never touched again. *)
Theorem interfaces_share_objects evs w a :
  api_inv w a →
  ∃ us w' a', run_server evs (w, a) = (Ok us, (w', a')) ∧
    ∀ uid r, objects (api_view a) !! uid = Some r →
      ∃ r', objects (api_view a') !! uid = Some r' ∧ rtc any_step r r' ∧ same_identity r r' ∧
        (State r = StateDestroyed → r' = r).
Proof.
  intros HI. destruct (wp_returns _ _ _ _ (run_server_ok evs w a HI)) as (us & w' & a' & Hrun & _ & Hev).
  exists us, w', a'. split; [done|]. intros uid r Hr.
  destruct (system_evolves_object _ _ _ _ Hev Hr) as (r' & Hr' & Hs). exists r'.
  split_and!; [done|done|by apply any_steps_identity|by apply any_destroyed_final].
Qed.

(** C8: Typing of the vault.  From a server with an empty vault, whatever KMIP and REST
    clients do, every object is stored under its own identifier, is pre-active, active,
    compromised or destroyed, and holds no key material once destroyed. *)
Theorem vault_well_formed evs w a us w' a' :
  api_inv w a → objects (api_view a) = ∅ → run_server evs (w, a) = (Ok us, (w', a')) →
  well_formed (api_view a').
Proof.
  intros HI Hempty Hrun. eapply wp_run in Hrun; [|by apply run_server_ok].
  destruct Hrun as [_ Hev]. eapply system_evolves_well_formed; [exact Hev|].
  intros uid r. by rewrite Hempty, lookup_empty.
Qed.

(** ** The handlers, when the backend is healthy *)
Lemma wp_on_Get uid w a (Q : option KeyRecord → W → API S → Prop) :
  ¬ faulty → api_inv w a →
  (∀ w' a', api_inv w' a' → api_view a' = api_view a → Q (lookup_live (api_view a) uid) w' a') →
  wp (on_store (Get uid)) Q w a.
Proof.
  intros Hf [HI Hopen] HQ. apply wp_zoom, wp_zoom. wp_use Get_spec as o w' s' (_ & HI' & Hv & Ho); [done|].
  cbn. replace o with (lookup_live (api_view a) uid).
  - apply HQ; [by split|exact Hv].
  - unfold RestProofs.api_view, handler_view. destruct o as [r|]; [done|]. by destruct Ho.
Qed.

Lemma wp_rest_log r operation uid name status message w a (Q : unit → W → API S → Prop) :
  api_inv w a → (∀ w' a', api_inv w' a' → api_view a' = api_view a → Q tt w' a') →
  wp (logAudit r operation uid name status message) Q w a.
Proof.
  intros [HI Hopen] HQ. apply wp_bind, wp_get_state, wp_zoom, wp_logOperation; [done|].
  intros now w' Hw. cbn. apply HQ; [|done]. split; [by eapply spec_later|by apply logged_open].
Qed.

Lemma wp_rest_nonce n w a (Q : bytes → W → API S → Prop) :
  0 ≤ n → api_inv w a →
  (∀ nonce w', api_inv w' a → byte_len nonce = n → Q nonce w' a) → wp (random_nonce n) Q w a.
Proof.
  intros Hn HI HQ. apply wp_random_nonce; [done|]. intros nonce w' Hw Hlen. apply HQ; [|done].
  by eapply handler_inv_later.
Qed.

(** Every cipher of the API takes 12-byte nonces and opens what it sealed. *)
Lemma aead_ok material algorithm method aead :
  createAEADFromMaterial (W:=W) material algorithm method = Val aead →
  NonceSize aead = 12 ∧
  (∀ nonce pt, byte_len nonce = 12 →
     ∃ ct, Seal aead nonce pt = Ok ct ∧ Open aead nonce ct = Ok (Val pt)) ∧
  (∀ nonce ct, byte_len nonce ≠ 12 → ∃ msg, Open aead nonce ct = Panic msg).
Proof.
  unfold createAEADFromMaterial. cbv zeta.
  destruct (String.eqb _ _ || _).
  - unfold chacha20poly1305_New. destruct (byte_len material =? 32); [|done]. intros [= <-].
    cbn. split_and!; [done| |].
    + intros nonce pt ->. eexists. split; [done|]. cbn. by rewrite chacha_open_seal.
    + intros nonce ct Hn. rewrite (proj2 (Z.eqb_neq _ _)) by done. by eexists.
  - destruct (aes_NewCipher material) as [block|]; [|done]. intros [= <-]. cbn. split_and!; [done| |].
    + intros nonce pt ->. eexists. split; [done|]. cbn. by rewrite gcm_open_seal.
    + intros nonce ct Hn. rewrite (proj2 (Z.eqb_neq _ _)) by done. by eexists.
Qed.

Definition sealed_json (field : string) (ct nonce : bytes) : Json :=
  JObject [(field, JString (base64_EncodeToString ct)); ("nonce", JString (hex_EncodeToString nonce))].
Definition data_json (data : bytes) : Json := JObject [("data", JString (base64_EncodeToString data))].

(** An object the cryptographic endpoints accept, with its cipher. *)
Definition active_cipher (rec : KeyRecord) (aead : AEAD) : Prop :=
  ObjectType rec = ObjectTypeSymmetricKey ∧ State rec = StateActive ∧
  createAEAD (W:=W) rec = Val aead.

Lemma run_decrypt r rec aead ct nonce pt w a :
  ¬ faulty → api_inv w a →
  decode_body decode_decrypt r = Some (base64_EncodeToString ct, hex_EncodeToString nonce) →
  lookup_live (api_view a) (path_uid r) = Some rec → active_cipher rec aead →
  Open aead nonce ct = Ok (Val pt) →
  wp (handleDecryptKey r) (λ res w' a', res = writeJSON StatusOK (data_json pt) ∧
    api_inv w' a' ∧ api_view a' = api_view a) w a.
Proof.
  intros Hf HI Hbody Hrec (Hty & Hst & Haead) Hopen. unfold handleDecryptKey. cbv zeta.
  rewrite Hbody. cbn [fst snd]. rewrite base64_roundtrip, hex_roundtrip.
  apply wp_bind, wp_on_Get; [done..|]. intros w1 a1 HI1 Hv1. rewrite Hrec.
  rewrite (proj2 (Z.eqb_eq _ _) Hty), (proj2 (Z.eqb_eq _ _) Hst), Haead.
  apply wp_bind. rewrite Hopen. apply wp_ret. apply wp_bind, wp_rest_log; [done|].
  intros w2 a2 HI2 Hv2. apply wp_ret. split_and!; [done|done|congruence].
Qed.

Lemma run_encrypt r rec aead data pt w a :
  ¬ faulty → api_inv w a → decode_body (string_field "data") r = Some data →
  base64_DecodeString data = Some pt →
  lookup_live (api_view a) (path_uid r) = Some rec → active_cipher rec aead →
  wp (handleEncryptKey r) (λ res w' a', api_inv w' a' ∧ api_view a' = api_view a ∧
    ∃ ct nonce, res = writeJSON StatusOK (sealed_json "data" ct nonce) ∧
      Open aead nonce ct = Ok (Val pt)) w a.
Proof.
  intros Hf HI Hbody Hdata Hrec (Hty & Hst & Haead). unfold handleEncryptKey. cbv zeta.
  rewrite Hbody, Hdata. apply wp_bind, wp_on_Get; [done..|]. intros w1 a1 HI1 Hv1. rewrite Hrec.
  rewrite (proj2 (Z.eqb_eq _ _) Hty), (proj2 (Z.eqb_eq _ _) Hst), Haead.
  destruct (aead_ok _ _ _ _ Haead) as (Hsize & Hseal & _). rewrite Hsize.
  apply wp_bind, wp_rest_nonce; [done..|]. intros nonce w2 HI2 Hlen.
  destruct (Hseal nonce pt Hlen) as (ct & -> & Hopen).
  apply wp_bind, wp_ret, wp_bind, wp_rest_log; [done|]. intros w3 a3 HI3 Hv3.
  apply wp_ret. split_and!; [done|congruence|]. by exists ct, nonce.
Qed.

(** The wrapping key's state is never looked at. *)
Lemma run_wrap r target wrapper aead wuid w a :
  ¬ faulty → api_inv w a → decode_body decode_wrap r = Some (wuid, EmptyString) →
  wuid ≠ EmptyString →
  lookup_live (api_view a) (path_uid r) = Some target →
  lookup_live (api_view a) wuid = Some wrapper →
  ObjectType wrapper = ObjectTypeSymmetricKey → createAEAD (W:=W) wrapper = Val aead →
  wp (handleWrapKey r) (λ res w' a', api_inv w' a' ∧ api_view a' = api_view a ∧
    ∃ ct nonce, res = writeJSON StatusOK (sealed_json "wrapped_key" ct nonce) ∧
      Open aead nonce ct = Ok (Val (Material target))) w a.
Proof.
  intros Hf HI Hbody Hne Htarget Hwrapper Hty Haead. unfold handleWrapKey. cbv zeta.
  rewrite Hbody, (proj2 (String.eqb_neq _ _) Hne). cbn [negb].
  apply wp_bind, wp_on_Get; [done..|]. intros w1 a1 HI1 Hv1. rewrite Htarget.
  apply wp_bind, wp_on_Get; [done..|]. intros w2 a2 HI2 Hv2. rewrite Hv1, Hwrapper.
  rewrite (proj2 (Z.eqb_eq _ _) Hty). unfold createAEAD in Haead. rewrite Haead.
  destruct (aead_ok _ _ _ _ Haead) as (Hsize & Hseal & _). rewrite Hsize.
  apply wp_bind, wp_rest_nonce; [done..|]. intros nonce w3 HI3 Hlen.
  destruct (Hseal nonce (Material target) Hlen) as (ct & -> & Hopen).
  apply wp_bind, wp_ret, wp_bind, wp_rest_log; [done|]. intros w4 a4 HI4 Hv4.
  apply wp_ret. split_and!; [done|congruence|]. by exists ct, nonce.
Qed.

(** C16: Encryption over REST round-trips.  Under an active symmetric key (AES, or
    ChaCha20-Poly1305 for keys of that algorithm) the encrypt endpoint answers the
    base64 ciphertext and the hex nonce; feeding both to the decrypt endpoint, in any
    later state where the key is active with the same cipher, answers the plaintext.
    Neither changes the vault. *)
Theorem rest_encrypt_decrypt_roundtrip r1 rec aead data pt w a :
  ¬ faulty → api_inv w a → decode_body (string_field "data") r1 = Some data →
  base64_DecodeString data = Some pt →
  lookup_live (api_view a) (path_uid r1) = Some rec → active_cipher rec aead →
  ∃ ct nonce w1 a1,
    handleEncryptKey r1 (w, a) = (Ok (writeJSON StatusOK (sealed_json "data" ct nonce)), (w1, a1)) ∧
    api_view a1 = api_view a ∧
    ∀ r2 rec2 w2 a2, api_inv w2 a2 →
      decode_body decode_decrypt r2 = Some (base64_EncodeToString ct, hex_EncodeToString nonce) →
      lookup_live (api_view a2) (path_uid r2) = Some rec2 → active_cipher rec2 aead →
      ∃ w3 a3, handleDecryptKey r2 (w2, a2) = (Ok (writeJSON StatusOK (data_json pt)), (w3, a3)) ∧
        api_view a3 = api_view a2.
Proof.
  intros Hf HI Hbody Hdata Hrec Hkey.
  destruct (wp_returns _ _ _ _ (run_encrypt r1 rec aead data pt w a Hf HI Hbody Hdata Hrec Hkey))
    as (res & w1 & a1 & Hrun & _ & Hv & ct & nonce & -> & Hopen).
  exists ct, nonce, w1, a1. split_and!; [done|done|].
  intros r2 rec2 w2 a2 HI2 Hbody2 Hrec2 Hkey2.
  destruct (wp_returns _ _ _ _ (run_decrypt r2 rec2 aead ct nonce pt w2 a2 Hf HI2 Hbody2 Hrec2 Hkey2 Hopen))
    as (res & w3 & a3 & Hrun2 & -> & _ & Hv2). by exists w3, a3.
Qed.

(** C28: Wrap and decrypt together export key material.  For any live object (a private
    key, too, and in whatever state) and any active symmetric key, a wrap request
    followed by a decrypt request under the wrapping key answers the material of the
    object in the clear. *)
Theorem wrap_then_decrypt_exports r1 target wuid wrapper aead w a :
  ¬ faulty → api_inv w a → decode_body decode_wrap r1 = Some (wuid, EmptyString) →
  wuid ≠ EmptyString → lookup_live (api_view a) (path_uid r1) = Some target →
  lookup_live (api_view a) wuid = Some wrapper → active_cipher wrapper aead →
  ∃ ct nonce w1 a1,
    handleWrapKey r1 (w, a) = (Ok (writeJSON StatusOK (sealed_json "wrapped_key" ct nonce)), (w1, a1)) ∧
    ∀ r2, path_uid r2 = wuid →
      decode_body decode_decrypt r2 = Some (base64_EncodeToString ct, hex_EncodeToString nonce) →
      ∃ w2 a2, handleDecryptKey r2 (w1, a1) =
        (Ok (writeJSON StatusOK (data_json (Material target))), (w2, a2)).
Proof.
  intros Hf HI Hbody Hne Htarget Hwrapper Hkey.
  destruct (wp_returns _ _ _ _ (run_wrap r1 target wrapper aead wuid w a Hf HI Hbody Hne Htarget
    Hwrapper (proj1 Hkey) (proj2 (proj2 Hkey)))) as (res & w1 & a1 & Hrun & HI1 & Hv & ct & nonce & -> & Hopen).
  exists ct, nonce, w1, a1. split; [done|]. intros r2 Huid Hbody2. rewrite <-Hv, <-Huid in Hwrapper.
  destruct (wp_returns _ _ _ _ (run_decrypt r2 wrapper aead ct nonce _ w1 a1 Hf HI1 Hbody2 Hwrapper Hkey Hopen))
    as (res & w2 & a2 & Hrun2 & -> & _). by exists w2, a2.
Qed.

(** A nonce of the wrong length reaches the cipher, which panics: the request gets no
    response, and no audit entry. *)
Lemma rest_decrypt_bad_nonce r rec aead ct nonce w a :
  ¬ faulty → api_inv w a →
  decode_body decode_decrypt r = Some (base64_EncodeToString ct, hex_EncodeToString nonce) →
  lookup_live (api_view a) (path_uid r) = Some rec → active_cipher rec aead → byte_len nonce ≠ 12 →
  ∃ msg σ, handleDecryptKey r (w, a) = (Panic msg, σ).
Proof.
  intros Hf HI Hbody Hrec (Hty & Hst & Haead) Hlen. unfold handleDecryptKey. cbv zeta.
  rewrite Hbody. cbn [fst snd]. rewrite base64_roundtrip, hex_roundtrip.
  destruct (wp_returns _ _ _ _ (wp_on_Get (path_uid r) w a (λ o _ _, o = lookup_live (api_view a) (path_uid r))
    Hf HI ltac:(done))) as (o & w1 & a1 & Hget & ->).
  rewrite (bind_run _ _ _ _ _ Hget), Hrec.
  rewrite (proj2 (Z.eqb_eq _ _) Hty), (proj2 (Z.eqb_eq _ _) Hst), Haead.
  destruct (aead_ok _ _ _ _ Haead) as (_ & _ & Hpanic). destruct (Hpanic nonce ct Hlen) as [msg ->].
  by eexists msg, _.
Qed.

(** C29: Activate over REST looks at no state.  It activates every object that is not
    destroyed, a compromised one as well, and answers 200; only a missing or destroyed
    object is answered with 404, without effect. *)
Theorem rest_activate_any_state r w a :
  ¬ faulty → api_inv w a →
  ∃ res w' a', handleActivateKey r (w, a) = (Ok res, (w', a')) ∧
    match lookup_live (api_view a) (path_uid r) with
    | Some rec => res = writeJSON StatusOK (uid_state (path_uid r) "active") ∧
        api_view a' = put_object (set_State StateActive rec) (api_view a)
    | None => rs_Status res = StatusNotFound ∧ api_view a' = api_view a
    end.
Proof.
  intros Hf HI. apply wp_returns. unfold handleActivateKey. cbv zeta. destruct HI as [HI Hopen].
  apply wp_bind, wp_zoom, wp_zoom. wp_use Activate_spec as res w1 s1 (_ & HI1 & Hp); [done|]. cbn.
  unfold RestProofs.api_view, handler_view in *.
  destruct res as [[]|e].
  - destruct Hp as (rec & rec' & Hrec & Hlive & -> & Hv).
    rewrite (proj2 (lookup_live_Some _ _ rec)) by done.
    apply wp_bind, wp_rest_log; [by split|]. intros w2 a2 _ Hv2. apply wp_ret. split; [done|].
    unfold RestProofs.api_view, handler_view in Hv2. cbn in Hv2. congruence.
  - destruct Hp as [Hv [Hp|?]]; [|done]. rewrite (proj2 (lookup_live_None _ _)) by done.
    apply wp_ret. by split.
Qed.

(** Verify answers valid for every signature when the public key is neither RSA nor
    ECDSA. *)
Lemma rest_verify_unsupported_key r data sig d s rec w a :
  ¬ faulty → api_inv w a → decode_body decode_verify r = Some (data, sig) →
  base64_DecodeString data = Some d → base64_DecodeString sig = Some s →
  lookup_live (api_view a) (path_uid r) = Some rec → ObjectType rec = ObjectTypePublicKey →
  ParsePKIXPublicKey (Material rec) = Val OtherKey →
  ∃ w' a', handleVerifyKey r (w, a) =
    (Ok (writeJSON StatusOK (JObject [("valid", JBool true)])), (w', a')).
Proof.
  intros Hf HI Hbody Hdata Hsig Hrec Hty Hparse.
  destruct (wp_returns (handleVerifyKey r) (λ res _ _, res = writeJSON StatusOK (JObject [("valid", JBool true)])) w a)
    as (res & w' & a' & Hrun & ->); [|by exists w', a'].
  unfold handleVerifyKey. cbv zeta. rewrite Hbody. cbn [fst snd]. rewrite Hdata, Hsig.
  apply wp_bind, wp_on_Get; [done..|]. intros w1 a1 HI1 Hv1. rewrite Hrec.
  rewrite (proj2 (Z.eqb_eq _ _) Hty), Hparse. cbn [signature_valid].
  apply wp_bind, wp_rest_log; [done|]. intros. by apply wp_ret.
Qed.

(** ** Authentication *)
Context `{!ClockLaws W}.

Lemma api_route_method method path handler :
  api_route (W:=W) (S:=S) method path = Some handler → String.eqb method "OPTIONS" = false.
Proof.
  destruct (String.eqb_spec method "OPTIONS") as [->|]; [|done]. unfold api_route.
  change (is_get "OPTIONS") with false. change (String.eqb "OPTIONS" "POST") with false.
  change (String.eqb "OPTIONS" "DELETE") with false. cbn [negb].
  repeat case_match; try done; by rewrite orb_true_r in *.
Qed.

Lemma limited_body n r :
  r_Method (MaxBytesReader n r) = r_Method r ∧ r_Path (MaxBytesReader n r) = r_Path r ∧
  bearer_token (MaxBytesReader n r) = bearer_token r ∧
  r_SessionCookie (MaxBytesReader n r) = r_SessionCookie r.
Proof. unfold MaxBytesReader. by destruct (n <? _). Qed.

(** No valid credential at the time of world [w]: neither the key nor a live session. *)
Definition no_credentials (w : W) (d : DashAuth) (r : HttpRequest) : Prop :=
  bearer_token r ≠ Some (d_apiKey d) ∧
  ∀ tok s, r_SessionCookie r = Some tok → sessions d !! tok = Some s → s_ExpiresAt s < clock w.

Lemma wp_protected handler r w a (Q : HttpResponse → W → API S → Prop) :
  IsDevMode (dashAuth a) = false → no_credentials w (dashAuth a) r →
  (∀ w' d', Q unauthorized w' (set_dashAuth d' a)) → wp (protected handler r) Q w a.
Proof.
  intros Hdev [Hkey Hsess] HQ. apply wp_bind, wp_zoom, authorized_ok. intros b w' d' _ _ _ _ _ Hb.
  assert (b = false) as ->; [|by apply wp_ret].
  apply not_true_is_false. rewrite Hb. intros [?|[?|(tok & s & Hc & Hs & Ht)]]; [congruence|done|].
  specialize (Hsess tok s Hc Hs). pose proof (time_Now_clock w). lia.
Qed.

(** C7: No protected endpoint without credentials.  In production mode a request to any
    protected route that carries neither the API key nor the cookie of a live session is
    answered with 401 (or 429 when the address has no tokens left): its handler does
    not run, and store and connection tracker are as they were. *)
Theorem rest_requires_credentials r handler w a :
  api_inv w a → IsDevMode (dashAuth a) = false → no_credentials w (dashAuth a) r →
  api_route (W:=W) (S:=S) (r_Method r) (r_Path r) = Some handler →
  ∃ res w' a', ServeHTTP r (w, a) = (Ok res, (w', a')) ∧
    (rs_Status res = StatusUnauthorized ∨ rs_Status res = StatusTooManyRequests) ∧
    store (api_handler a') = store (api_handler a) ∧
    tracker (api_handler a') = tracker (api_handler a).
Proof.
  intros [HI Hopen] Hdev Hcred Hroute. apply wp_returns.
  unfold ServeHTTP, rateLimitMiddleware. apply wp_bind, wp_zoom. unfold allow.
  apply wp_bind, wp_clock_now. pose proof (time_Now_clock w) as Hc. set (w1 := (time_Now w).2) in *.
  apply wp_bind, wp_get_state. destruct (allow_at _ _ _) as [ok rl].
  apply wp_bind, wp_put_state, wp_ret. destruct ok.
  2:{ unfold logAudit. apply wp_bind, wp_bind, wp_get_state, wp_zoom, wp_logOperation; [exact Hopen|].
      intros now w2 _. apply wp_ret. cbn. auto. }
  set (a1 := set_rateLimiter rl a). assert (no_credentials w1 (dashAuth a1) r) as Hcred1.
  { destruct Hcred as [? Hs]. split; [done|]. intros tok s Ht Hm. specialize (Hs tok s Ht Hm). lia. }
  destruct (limited_body maxRequestBodySize r) as (Hm & Hp & Hb & Hck).
  unfold limitBodyMiddleware, corsMiddleware. set (r' := MaxBytesReader _ r) in *.
  assert (∀ Q : HttpResponse → W → API S → Prop, (∀ w' d', Q unauthorized w' (set_dashAuth d' a1)) →
    wp (mux r') Q w1 a1) as Hmux.
  { intros Q HQ. unfold mux. rewrite Hm, Hp, Hroute. apply wp_protected; [exact Hdev| |exact HQ].
    unfold no_credentials. by rewrite Hb, Hck. }
  apply wp_bind, wp_get_state. destruct (String.eqb (corsOrigin a1) EmptyString).
  { apply Hmux. intros w' d'. cbn. auto. }
  cbv zeta. rewrite Hm, (api_route_method _ _ _ Hroute).
  apply wp_bind, Hmux. intros w' d'. apply wp_ret. cbn. auto.
Qed.
End theorems.

(** C30: The rate limiter's budget.  Among any requests of any addresses, one address is
    allowed at most 100 requests plus the tokens the gaps between its own requests
    earn; the other addresses do not matter.  But a gap earns only whole tokens: an
    address that keeps sending every half second is allowed exactly its first 100
    requests and then refused forever. *)
Theorem rate_limiter_budget :
  (∀ ip t calls times, times_of ip calls = t :: times →
     count_true (answers_of ip calls (limiter_run newIPRateLimiter calls)) ≤ 100 + earned t times) ∧
  (∀ t n, count_true (bucket_run None (t :: every_half_second t n)) = 1 + Z.min (Z.of_nat n) 99).
Proof.
  split.
  - intros ip t calls times Ht. rewrite limiter_run_address, Ht. cbn [visitors newIPRateLimiter].
    rewrite lookup_empty. cbn [bucket_run take_token]. rewrite count_true_cons.
    pose proof (bucket_budget times (mkBucket 99 t)). cbn [tokens lastSeen] in *. lia.
  - intros t n. cbn [bucket_run take_token]. rewrite count_true_cons, bucket_drains by lia. lia.
Qed.

(** ** Witnesses: the API on the in-memory store, with the keys of ObjectTheorems *)
#[global] Instance test_rest : RestLib := {
  pem_Decode bs := None;
  x509_ParseCertificate bs := Val (mkCertificate "cn" "CN=cn" "CN=ca" 0);
  FormatRFC3339 := FormatRFC3339Nano;
  chacha_seal key nonce pt := key ++ nonce ++ pt;
  chacha_open key nonce ct := strip_prefix (key ++ nonce) ct;
  dashboard_Handler _ := mkResponse StatusOK [] [] StaticFile;
}.
#[global] Instance test_rest_laws : RestLaws.
Proof.
  intros key nonce pt. cbn. unfold strip_prefix. rewrite app_assoc.
  rewrite take_app_length, drop_app_length. by rewrite decide_True.
Qed.
#[global] Instance test_inventory : InventoryStore TestWorld MemoryStore := None.
#[global] Instance test_inventory_spec : InventorySpec TestWorld MemoryStore mem_inv mem_view.
Proof. intros m w s [=]. Qed.

Definition test_api (h : HandlerState MemoryStore) : API MemoryStore :=
  mkAPI h newIPRateLimiter (New "secret-key" true) "secret-key" EmptyString 0.
Definition test_keys_api : API MemoryStore :=
  test_api (NewHandler test_keys.2 (Some test_logger) (Some NewConnectionTracker)).
Abbreviation test_api_inv := (api_inv (W:=TestWorld) (Inv:=mem_inv)).
Abbreviation test_api_view := (api_view (view:=mem_view)).
Lemma test_keys_api_inv : test_api_inv test_keys.1 test_keys_api.
Proof. split; [apply test_keys_inv|done]. Qed.
Lemma test_revoked_api_inv : test_api_inv test_revoked.1 (test_api test_revoked.2).
Proof. apply test_revoked_inv. Qed.

Definition test_post (path : list string) (fields : list (string * string)) : HttpRequest :=
  mkHttpRequest "POST" path "10.0.0.1:4000" EmptyString None [] (test_json_body fields) false.
Definition test_key_post (uid action : string) : list (string * string) → HttpRequest :=
  test_post ["v1"; "keys"; uid; action].
Definition test_events : list ServerEvent :=
  [EvKmip test_create_request; EvRest (test_key_post "uuid-0" "activate" []);
   EvRest (test_post ["auth"; "login"] [("api_key", "secret-key")]); EvKmip test_destroy].

Lemma interfaces_share_objects_witness :
  ∃ us w' a' r r', run_server test_events (test_revoked.1, test_api test_revoked.2) = (Ok us, (w', a')) ∧
    objects (mem_view (store test_revoked.2)) !! "uuid-0" = Some r ∧
    objects (test_api_view a') !! "uuid-0" = Some r' ∧ same_identity r r'.
Proof.
  destruct (state_of_lookup _ _ test_revoked_state) as (r & Hr & _).
  destruct (interfaces_share_objects test_events _ _ test_revoked_api_inv) as (us & w' & a' & Hrun & Hall).
  destruct (Hall "uuid-0" r Hr) as (r' & Hr' & _ & Hid & _).
  exists us, w', a', r, r'. exact (conj Hrun (conj Hr (conj Hr' Hid))).
Defined.

Lemma vault_well_formed_witness :
  ∃ us w' a', run_server test_events (test_world, test_api test_handler) = (Ok us, (w', a')) ∧
    well_formed (test_api_view a').
Proof.
  assert (test_api_inv test_world (test_api test_handler)) as HI by apply test_handler_inv.
  destruct (wp_returns _ _ _ _ (run_server_ok test_events _ _ HI)) as (us & w' & a' & Hrun & _).
  exists us, w', a'. split; [exact Hrun|]. exact (vault_well_formed _ _ _ _ _ _ HI eq_refl Hrun).
Defined.

Lemma rest_activate_any_state_witness :
  ∃ w' a', handleActivateKey (test_key_post "uuid-0" "activate" []) (test_revoked.1, test_api test_revoked.2) =
      (Ok (writeJSON StatusOK (uid_state "uuid-0" "active")), (w', a')) ∧
    (State <$> objects (mem_view (store test_revoked.2)) !! "uuid-0") = Some StateCompromised ∧
    (State <$> objects (test_api_view a') !! "uuid-0") = Some StateActive.
Proof.
  destruct (rest_activate_any_state (test_key_post "uuid-0" "activate" []) _ _ (λ f, f)
    test_revoked_api_inv) as (res & w' & a' & Hrun & Hres).
  change (path_uid _) with "uuid-0" in Hres.
  assert (UID <$> lookup_live (test_api_view (test_api test_revoked.2)) "uuid-0" = Some "uuid-0") as Hu
    by (vm_compute; reflexivity).
  destruct (lookup_live _ _) as [r|]; [|discriminate Hu]. destruct Hres as [-> Hv].
  exists w', a'. split; [exact Hrun|]. split; [exact test_revoked_state|]. rewrite Hv.
  injection Hu as Hu. unfold put_object. cbn. by rewrite Hu, lookup_insert_eq.
Defined.

(** The responses of the encrypt and wrap endpoints, as the testbed computes them. *)
Definition response_fields (res : outcome HttpResponse) : list string :=
  match res with
  | Ok (mkResponse _ _ _ (JsonBody (JObject fs))) =>
      omap (λ f, match snd f with JString s => Some s | _ => None end) fs
  | _ => []
  end.
Definition test_encrypt : HttpRequest := test_key_post "uuid-0" "encrypt" [("data", "aGk=")].
Definition test_wrap : HttpRequest := test_key_post "uuid-1" "wrap" [("wrapping_key_uid", "uuid-0")].
Example test_encrypt_body : decode_body (string_field "data") test_encrypt = Some "aGk=".
Proof. vm_compute. reflexivity. Qed.
Example test_encrypt_data : base64_DecodeString "aGk=" = Some test_data.
Proof. vm_compute. reflexivity. Qed.
Example test_wrap_body : decode_body decode_wrap test_wrap = Some ("uuid-0", EmptyString).
Proof. vm_compute. reflexivity. Qed.
Definition test_decrypt (fields : list string) : HttpRequest :=
  test_key_post "uuid-0" "decrypt" (zip ["data"; "nonce"] fields).
Definition test_encrypted : list string :=
  Eval vm_compute in response_fields (handleEncryptKey test_encrypt (test_keys.1, test_keys_api)).1.
Definition test_wrapped : list string :=
  Eval vm_compute in response_fields (handleWrapKey test_wrap (test_keys.1, test_keys_api)).1.

Lemma test_active_cipher :
  active_cipher (W:=TestWorld) (test_object "uuid-0") (gcm_of_key (Material (test_object "uuid-0"))).
Proof. split_and!; vm_compute; reflexivity. Qed.

Lemma rest_encrypt_decrypt_roundtrip_witness : ∃ σ1 σ2,
  handleEncryptKey test_encrypt (test_keys.1, test_keys_api) =
    (Ok (writeJSON StatusOK (JObject (zip ["data"; "nonce"] (JString <$> test_encrypted)))), σ1) ∧
  handleDecryptKey (test_decrypt test_encrypted) σ1 =
    (Ok (writeJSON StatusOK (JObject [("data", JString "aGk=")])), σ2).
Proof.
  assert (lookup_live (test_api_view test_keys_api) "uuid-0" = Some (test_object "uuid-0")) as Hkey
    by (apply test_key_lookup; vm_compute; reflexivity).
  destruct (rest_encrypt_decrypt_roundtrip test_encrypt _ _ "aGk=" test_data _ _ (λ f, f)
    test_keys_api_inv test_encrypt_body test_encrypt_data Hkey
    test_active_cipher) as (ct & nonce & w1 & a1 & Hrun & Hv & Hdec).
  assert (response_fields (handleEncryptKey test_encrypt (test_keys.1, test_keys_api)).1 = test_encrypted)
    as Hfields by (vm_compute; reflexivity).
  rewrite Hrun in Hfields. injection Hfields as Hct Hnonce. unfold sealed_json in Hrun.
  exists (w1, a1). rewrite Hct, Hnonce in Hrun.
  destruct (wp_returns _ _ _ _ (run_encrypt test_encrypt _ _ "aGk=" test_data _ _ (λ f, f)
    test_keys_api_inv test_encrypt_body test_encrypt_data Hkey
    test_active_cipher)) as (res & w1' & a1' & Hrun' & HI1 & _).
  rewrite Hrun in Hrun'. injection Hrun' as _ <- <-.
  destruct (Hdec (test_decrypt test_encrypted) (test_object "uuid-0") w1 a1 HI1) as (w3 & a3 & Hrun3 & _).
  - rewrite Hct, Hnonce. vm_compute. reflexivity.
  - rewrite Hv. exact Hkey.
  - exact test_active_cipher.
  - exists (w3, a3). exact (conj Hrun Hrun3).
Defined.

(** The private key of the testbed, exported. *)
Lemma wrap_then_decrypt_exports_witness : ∃ σ1 σ2,
  handleWrapKey test_wrap (test_keys.1, test_keys_api) =
    (Ok (writeJSON StatusOK (JObject (zip ["wrapped_key"; "nonce"] (JString <$> test_wrapped)))), σ1) ∧
  handleDecryptKey (test_decrypt test_wrapped) σ1 =
    (Ok (writeJSON StatusOK (data_json (Material (test_object "uuid-1")))), σ2) ∧
  ObjectType (test_object "uuid-1") = ObjectTypePrivateKey.
Proof.
  assert (lookup_live (test_api_view test_keys_api) "uuid-0" = Some (test_object "uuid-0")) as Hkey
    by (apply test_key_lookup; vm_compute; reflexivity).
  assert (lookup_live (test_api_view test_keys_api) "uuid-1" = Some (test_object "uuid-1")) as Htarget
    by (apply test_key_lookup; vm_compute; reflexivity).
  destruct (wrap_then_decrypt_exports test_wrap _ "uuid-0" _ _ _ _ (λ f, f) test_keys_api_inv
    test_wrap_body ltac:(discriminate) Htarget Hkey test_active_cipher)
    as (ct & nonce & w1 & a1 & Hrun & Hdec).
  assert (response_fields (handleWrapKey test_wrap (test_keys.1, test_keys_api)).1 = test_wrapped)
    as Hfields by (vm_compute; reflexivity).
  rewrite Hrun in Hfields. injection Hfields as Hct Hnonce. unfold sealed_json in Hrun.
  rewrite Hct, Hnonce in Hrun. exists (w1, a1).
  destruct (Hdec (test_decrypt test_wrapped) eq_refl) as (w2 & a2 & Hrun2).
  { rewrite Hct, Hnonce. vm_compute. reflexivity. }
  exists (w2, a2). split; [exact Hrun|]. split; [exact Hrun2|]. vm_compute. reflexivity.
Defined.

(** An unauthenticated attempt to destroy a key. *)
Definition test_delete : HttpRequest :=
  mkHttpRequest "DELETE" ["v1"; "keys"; "uuid-0"] "10.0.0.1:4000" "Bearer guess" (Some "forged") [] [] false.

Lemma rest_requires_credentials_witness :
  ∃ res w' a', ServeHTTP test_delete (test_keys.1, test_keys_api) = (Ok res, (w', a')) ∧
    (rs_Status res = StatusUnauthorized ∨ rs_Status res = StatusTooManyRequests) ∧
    store (api_handler a') = test_keys.2.
Proof.
  destruct (rest_requires_credentials test_delete handleDestroyKey test_keys.1 test_keys_api
    test_keys_api_inv eq_refl) as (res & w' & a' & Hrun & Hst & Hstore & _).
  - split; [discriminate|]. intros tok s _ [=].
  - reflexivity.
  - exists res, w', a'. split; [exact Hrun|]. split; [exact Hst|exact Hstore].
Defined.

Definition test_calls : list (string * Time) :=
  [("10.0.0.1", 0); ("10.0.0.2", 1); ("10.0.0.1", 2 * Second)].
Lemma rate_limiter_budget_witness :
  count_true (answers_of "10.0.0.1" test_calls (limiter_run newIPRateLimiter test_calls)) ≤ 103.
Proof.
  etrans; [exact (proj1 rate_limiter_budget "10.0.0.1" 0 test_calls [2 * Second] eq_refl)|].
  vm_compute. discriminate.
Defined.
