(* ===== verification/AssetTheorems.v ===== *)
(** * Properties of the asset inventory

    The inventory as an abstract state ([Inventory]), the effect of each operation on
    it, and the theorem that the tables and the joins implement it. *)

From Stdlib Require Import ZArith Lia.
From S2P Require Import Prelude GoRuntime Storage SQLiteStore KmipLib CryptoLib Http Testbed.
From S2P Require Import SQLiteStoreProofs AuditLog RestAPI RestProofs Assets.
Local Open Scope Z_scope.
Local Open Scope go_scope.

(** ** Specification *)
Record Inventory := mkInventory {
  (** type, name and status of an asset *)
  inv_assets : gmap string (string * string * string);
  inv_meta : gmap (string * string) string;
  inv_tags : gset (string * string);
}.
Inductive asset_op :=
| OpRegister (id assetType nativeID name status : string)
| OpMetadata (id key value : string)
| OpTag (id tag : string).

(** The effect of an operation that succeeded; one that failed has none. *)
Definition inventory_step (op : asset_op) (i : Inventory) : Inventory :=
  match op with
  | OpRegister id assetType _ name status =>
      mkInventory
        (<[id := match inv_assets i !! id with
                 | Some (ty, _, _) => (ty, name, status)
                 | None => (assetType, name, status)
                 end]> (inv_assets i)) (inv_meta i) (inv_tags i)
  | OpMetadata id key value =>
      mkInventory (inv_assets i) (<[(id, key) := value]> (inv_meta i)) (inv_tags i)
  | OpTag id tag => mkInventory (inv_assets i) (inv_meta i) ({[ (id, tag) ]} ∪ inv_tags i)
  end.
Definition inventory_after (ops : list (asset_op * result unit)) (i : Inventory) : Inventory :=
  foldl (λ i p, match snd p with Val _ => inventory_step (fst p) i | Err _ => i end) i ops.

(** What a listing says of an inventory. *)
Record shows (views : list AssetView) (i : Inventory) : Prop := {
  shows_once : NoDup (map v_ID views);
  shows_assets id ty name status : inv_assets i !! id = Some (ty, name, status) ↔
    ∃ v, v ∈ views ∧ v_ID v = id ∧ v_Type v = ty ∧ v_Name v = name ∧ v_Status v = status;
  shows_metadata v : v ∈ views → ∀ key, v_Metadata v !! key = inv_meta i !! (v_ID v, key);
  shows_tags v : v ∈ views → NoDup (v_Tags v) ∧ ∀ tag, tag ∈ v_Tags v ↔ (v_ID v, tag) ∈ inv_tags i;
}.

(** ** Upserts *)
Section upsert.
Context {R K : Type} `{EqDecision K} (key : R → K) (update : R → R) (row : R).
Hypothesis update_key : ∀ r, key (update r) = key r.

Lemma upsert_keys l : NoDup (map key l) → NoDup (map key (upsert key update row l)).
Proof.
  intros Hl. unfold upsert. destruct (decide _) as [Hin|Hin].
  - rewrite map_map, (map_ext _ key); [done|]. intros r. by destruct (decide _).
  - rewrite map_app. apply NoDup_app. split_and!; [done| |apply NoDup_singleton].
    intros k Hk Hk'%list_elem_of_singleton. by subst.
Qed.

Lemma elem_of_upsert l x : x ∈ upsert key update row l ↔
  x ∈ l ∧ key x ≠ key row ∨ (∃ r, r ∈ l ∧ key r = key row ∧ x = update r) ∨
  key row ∉ map key l ∧ x = row.
Proof.
  unfold upsert. destruct (decide (key row ∈ map key l)) as [Hin|Hin].
  - rewrite list_elem_of_fmap. split.
    + intros (r & -> & Hr). destruct (decide (key r = key row)); [right; left; by exists r|by left].
    + intros [[Hx Hne]|[(r & Hr & Heq & ->)|[Hni _]]]; [| |by destruct Hni].
      * exists x. by rewrite decide_False.
      * exists r. by rewrite decide_True.
  - rewrite elem_of_app, list_elem_of_singleton. split.
    + intros [Hx| ->]; [left|by right; right]. split; [done|]. intros Heq. apply Hin. rewrite <-Heq.
      by apply list_elem_of_fmap_2.
    + intros [[? _]|[(r & Hr & Heq & _)|[_ ->]]]; [by left| |by right].
      destruct Hin. rewrite <-Heq. by apply list_elem_of_fmap_2.
Qed.
End upsert.

(** ** The tables implement the inventory *)
Record implements (t : AssetTables) (i : Inventory) : Prop := {
  im_ids : NoDup (map as_id (t_assets t));
  im_assets id ty name status : inv_assets i !! id = Some (ty, name, status) ↔
    ∃ r, r ∈ t_assets t ∧ as_id r = id ∧ as_asset_type r = ty ∧ as_name r = name ∧ as_status r = status;
  im_keys : NoDup (map fst (t_metadata t));
  im_meta k value : inv_meta i !! k = Some value ↔ (k, value) ∈ t_metadata t;
  im_tag_ids : NoDup (map fst (t_tags t));
  im_tag_names : NoDup (map snd (t_tags t));
  im_next p : p ∈ t_tags t → fst p < t_next_tag t;
  im_pairs : NoDup (t_asset_tags t);
  im_pairs_known p : p ∈ t_asset_tags t → snd p ∈ map fst (t_tags t);
  im_tags id name : (id, name) ∈ inv_tags i ↔
    ∃ tid, (tid, name) ∈ t_tags t ∧ (id, tid) ∈ t_asset_tags t;
}.

Lemma empty_implements : implements createAssetTables (mkInventory ∅ ∅ ∅).
Proof.
  split; cbn; try constructor; intros; try (by destruct (not_elem_of_nil _ H));
    rewrite ?lookup_empty; set_solver.
Qed.

Lemma register_implements t i id assetType nativeID name status created :
  implements t i →
  implements (set_assets (upsert_asset (mkAssetRow id assetType nativeID "open-kmip-server" name status created)
    (t_assets t)) t) (inventory_step (OpRegister id assetType nativeID name status) i).
Proof.
  intros []. split; cbn; try done; [by apply upsert_keys|].
  intros id' ty name' status'. rewrite lookup_insert_Some, im_assets0. unfold upsert_asset.
  setoid_rewrite elem_of_upsert. cbn. split.
  - intros [[<- Heq]|[Hne (r & Hr & <- & <- & <- & <-)]]; [|exists r; auto].
    destruct (inv_assets i !! id) as [[[ty0 n0] s0]|] eqn:Hi; injection Heq as -> -> ->.
    + apply im_assets0 in Hi as (r & Hr & <- & <- & _). eexists. split; [right; left; by exists r|done].
    + eexists. split; [right; right; split; [|done]|done]. intros Hin.
      apply list_elem_of_fmap in Hin as (r & Heq & Hr).
      assert (inv_assets i !! id = Some (as_asset_type r, as_name r, as_status r)); [|congruence].
      apply im_assets0. by exists r.
  - intros (r & [[Hr Hne]|[(r0 & Hr0 & Hid & ->)|[Hni ->]]] & <- & <- & <- & <-); cbn.
    + right. split; [done|]. by exists r.
    + left. split; [done|]. destruct (inv_assets i !! id) as [[[ty0 n0] s0]|] eqn:Hi.
      * apply im_assets0 in Hi as (r & Hr & Hid' & <- & _).
        assert (r = r0) as ->; [|done]. apply (NoDup_key_unique as_id (t_assets t)); [done..|congruence].
      * assert (inv_assets i !! id = Some (as_asset_type r0, as_name r0, as_status r0)); [|congruence].
        apply im_assets0. by exists r0.
    + left. split; [done|]. destruct (inv_assets i !! id) as [[[ty0 n0] s0]|] eqn:Hi; [|done].
      apply im_assets0 in Hi as (r & Hr & <- & _). destruct Hni. by apply list_elem_of_fmap_2.
Qed.

Lemma metadata_implements t i id key value :
  implements t i →
  implements (set_metadata (upsert_metadata (id, key) value (t_metadata t)) t)
    (inventory_step (OpMetadata id key value) i).
Proof.
  intros []. split; cbn; try done; [by apply upsert_keys|].
  intros k x. rewrite lookup_insert_Some, im_meta0. unfold upsert_metadata.
  rewrite elem_of_upsert. cbn. split.
  - intros [[<- <-]|[Hne Hin]]; [|left; by split].
    destruct (decide ((id, key) ∈ map fst (t_metadata t))) as [Hin|Hin]; [right; left|by right; right].
    apply list_elem_of_fmap in Hin as (r & Heq & Hr). exists r. by rewrite <-Heq.
  - intros [[Hin Hne]|[(r & Hr & Heq & [= -> ->])|[_ [= -> ->]]]]; [by right|by left|by left].
Qed.

Lemma insert_tag_implements t i name :
  implements t i → implements (insert_tag name t) i ∧ ∃ tid, tag_ids name (insert_tag name t) = [tid] ∧
    (tid, name) ∈ t_tags (insert_tag name t).
Proof.
  intros Hi. assert (implements (insert_tag name t) i ∧ name ∈ map snd (t_tags (insert_tag name t)))
    as [Hi' Hin].
  { destruct Hi. unfold insert_tag. destruct (decide (name ∈ map snd (t_tags t))) as [Hin|Hin].
    { split; [by split|done]. }
    split; [|cbn; rewrite map_app; set_solver]. split; cbn; try done.
    - rewrite map_app. apply NoDup_app. split_and!; [done| |apply NoDup_singleton]. cbn.
      intros n Hn Hn'%list_elem_of_singleton. apply list_elem_of_fmap in Hn as (p & -> & Hp).
      specialize (im_next0 p Hp). lia.
    - rewrite map_app. apply NoDup_app. split_and!; [done| |apply NoDup_singleton].
      intros n Hn Hn'%list_elem_of_singleton. by subst.
    - intros p [Hp|Hp]%elem_of_app; [specialize (im_next0 p Hp); lia|].
      apply list_elem_of_singleton in Hp as ->. cbn. lia.
    - intros p Hp. rewrite map_app. apply elem_of_app. left. by apply im_pairs_known0.
    - intros id n. rewrite im_tags0. split; intros (tid & Ht & Hp); exists tid; (split; [|done]).
      + apply elem_of_app. by left.
      + apply elem_of_app in Ht as [Ht|Ht]; [done|]. apply list_elem_of_singleton in Ht as [= -> ->].
        apply im_pairs_known0, list_elem_of_fmap in Hp as (p & Heq & Hp). specialize (im_next0 p Hp).
        cbn in Heq. lia. }
  split; [done|]. apply list_elem_of_fmap in Hin as ([tid n] & -> & Hin). exists tid.
  split; [|done]. unfold tag_ids. cbn [snd].
  by rewrite (filter_key_unique snd _ (tid, n) (im_tag_names _ _ Hi') Hin).
Qed.

Lemma pair_implements t i id name tid :
  implements t i → (tid, name) ∈ t_tags t →
  implements (set_asset_tags (insert_asset_tag (id, tid) (t_asset_tags t)) t)
    (inventory_step (OpTag id name) i).
Proof.
  intros [] Ht. assert (∀ p, p ∈ insert_asset_tag (id, tid) (t_asset_tags t) ↔
    p = (id, tid) ∨ p ∈ t_asset_tags t) as Hin.
  { intros p. unfold insert_asset_tag. destruct (decide _); [set_solver|].
    rewrite elem_of_app, list_elem_of_singleton. tauto. }
  split; cbn; try done.
  - unfold insert_asset_tag. destruct (decide _); [done|]. apply NoDup_app.
    split_and!; [done|set_solver|apply NoDup_singleton].
  - intros p [->|Hp]%Hin; [|by apply im_pairs_known0]. cbn. by apply (list_elem_of_fmap_2 fst _ (tid, name)).
  - intros id' n. rewrite elem_of_union, elem_of_singleton, im_tags0. setoid_rewrite Hin. split.
    + intros [[= -> ->]|(tid' & ? & ?)]; [exists tid|exists tid']; auto.
    + intros (tid' & Ht' & [[= -> ->]|Hp]); [left|right; by exists tid'].
      by injection (NoDup_key_unique fst _ _ _ im_tag_ids0 Ht Ht' eq_refl) as ->.
Qed.

(** The join of tags and asset_tags. *)
Lemma elem_of_joined id tag (tags : list (Z * string)) (pairs : list (string * Z)) :
  tag ∈ concat (map (λ tag, map (λ _, snd tag) (filter (λ p, p = (id, fst tag)) pairs)) tags) ↔
  ∃ tid, (tid, tag) ∈ tags ∧ (id, tid) ∈ pairs.
Proof.
  rewrite list_elem_of_In, in_concat. split.
  - intros (x & Hx & Hin). apply in_map_iff in Hx as ([tid n] & <- & Ht).
    apply in_map_iff in Hin as (p & <- & Hp). rewrite <-list_elem_of_In in Ht. rewrite <-list_elem_of_In in Hp.
    apply list_elem_of_filter in Hp as [-> Hp]. by exists tid.
  - intros (tid & Ht & Hp). exists (map (λ _, tag) (filter (λ p, p = (id, tid)) pairs)). split.
    + apply in_map_iff. exists (tid, tag). by rewrite <-list_elem_of_In.
    + apply in_map_iff. exists (id, tid). split; [done|]. rewrite <-list_elem_of_In.
      by apply list_elem_of_filter.
Qed.

Lemma NoDup_joined id (tags : list (Z * string)) (pairs : list (string * Z)) :
  NoDup (map snd tags) → NoDup pairs →
  NoDup (concat (map (λ tag, map (λ _, snd tag) (filter (λ p, p = (id, fst tag)) pairs)) tags)).
Proof.
  intros Htags Hpairs. induction tags as [|[tid n] tags IH]; cbn [map concat]; [constructor|].
  apply NoDup_cons in Htags as [Hn Htags]. apply NoDup_app. split_and!; [| |by apply IH].
  - destruct (decide ((id, tid) ∈ pairs)) as [Hin|Hin].
    + rewrite (filter_key_unique (λ p, p) pairs (id, tid)); [apply NoDup_singleton|by rewrite map_id|done].
    + cbn [fst snd]. destruct (filter _ pairs) as [|q l] eqn:Hf; [constructor|]. destruct Hin.
      assert (q ∈ filter (λ p, p = (id, tid)) pairs) as [-> ?]%list_elem_of_filter
        by (rewrite Hf; by left). done.
  - intros tag Htag (tid' & Ht & _)%elem_of_joined. apply list_elem_of_fmap in Htag as (p & -> & _).
    destruct Hn. exact (list_elem_of_fmap_2 snd _ (tid', n) Ht).
Qed.

Section refinement.
Context {W : Type} `{RuntimeLaws W} `{!SqlDriver W} `{!SqlLaws W} `{!AssetLib W} `{JsonText}.
Implicit Types (w : W) (t : AssetTables).

Definition run_asset_op (op : asset_op) : M W AssetTables (result unit) :=
  match op with
  | OpRegister id assetType nativeID name status => RegisterAsset id assetType nativeID name status
  | OpMetadata id key value => SetMetadata id key value
  | OpTag id tag => TagAsset id tag
  end.
Definition run_asset_ops : list asset_op → M W AssetTables (list (result unit)) := mapM_ run_asset_op.

Hypothesis reliable : ¬ sql_faulty.

Lemma wp_asset_exec f w t (Q : result unit → W → AssetTables → Prop) :
  (∀ w', Q (Val tt) w' (f t)) → wp (asset_exec f) Q w t.
Proof.
  intros HQ. unfold asset_exec. apply wp_bind, wp_world.
  pose proof (sql_exec_reliable w) as Hrel. destruct (sql_exec_err w) as [[e|] w']; cbn.
  - destruct reliable. by apply (Hrel e).
  - apply wp_bind, wp_get_state, wp_bind, wp_put_state, wp_ret, HQ.
Qed.

Lemma wp_asset_exec_fk id inserts f w t (Q : result unit → W → AssetTables → Prop) :
  (∀ w', Q (Err fk_failed) w' t) → (∀ w', Q (Val tt) w' (f t)) → wp (asset_exec_fk id inserts f) Q w t.
Proof.
  intros He HQ. unfold asset_exec_fk. apply wp_bind, wp_world, wp_bind, wp_get_state.
  destruct (_ && _); [apply wp_ret, He|]. by apply wp_asset_exec.
Qed.

Lemma asset_op_ok op w t i :
  implements t i →
  wp (run_asset_op op) (λ res _ t',
    implements t' (match res with Val _ => inventory_step op i | Err _ => i end)) w t.
Proof.
  intros Hi. destruct op as [id assetType nativeID name status|id key value|id tag]; cbn [run_asset_op].
  - apply wp_bind, wp_world, wp_asset_exec. intros _. by apply register_implements.
  - apply wp_asset_exec_fk; intros _; [done|]. by apply metadata_implements.
  - apply wp_bind, wp_asset_exec. intros w'.
    destruct (insert_tag_implements t i tag Hi) as (Hi' & tid & Hids & Hin).
    apply wp_asset_exec_fk; intros _; [done|]. rewrite Hids. by apply pair_implements.
Qed.

Lemma asset_ops_ok ops w t i :
  implements t i →
  wp (run_asset_ops ops) (λ ress _ t', implements t' (inventory_after (zip ops ress) i)) w t.
Proof.
  unfold run_asset_ops. revert w t i. induction ops as [|op ops IH]; intros w t i Hi; cbn [mapM_].
  { by apply wp_ret. }
  wp_use asset_op_ok as res w1 t1 Hi1; [done|]. wp_use IH as ress w2 t2 Hi2; [exact Hi1|]. by apply wp_ret.
Qed.

(** A query of a reliable driver returns exactly the selected rows. *)
Lemma wp_rows {A S} before (rows : list A) (Q : result (list A) → W → S → Prop) w (s : S) :
  (∀ l w', l ≡ₚ rows → Q (Val l) w' s) → wp (world (sql_query before rows)) Q w s.
Proof. intros HQ. apply wp_query; [intros; by destruct reliable|].
  intros l w' _ _ [Hp|?]; [by apply HQ|by destruct reliable]. Qed.

Lemma GetMetadata_ok id w t i :
  implements t i →
  wp (GetMetadata id) (λ res _ t', t' = t ∧ ∃ m, res = Val m ∧ ∀ key, m !! key = inv_meta i !! (id, key)) w t.
Proof.
  intros Hi. unfold GetMetadata. apply wp_bind, wp_get_state, wp_bind, wp_rows. intros rows w' Hrows.
  apply wp_ret. split; [done|]. eexists. split; [done|]. intros key. apply option_eq. intros x.
  rewrite fold_insert_lookup, (im_meta _ _ Hi), lookup_empty. split.
  - destruct (list_find _ _) as [[j [[id' k] y]]|] eqn:Hf; [|done]. intros [= <-].
    apply list_find_Some in Hf as (Hj & Hk & _). cbn in Hk. subst k.
    apply list_elem_of_lookup_2 in Hj. rewrite elem_of_rev, Hrows, list_elem_of_filter in Hj.
    by destruct Hj as [<- ?].
  - intros Hin. destruct (list_find _ _) as [[j a]|] eqn:Hf.
    + apply list_find_Some in Hf as (Hj & Hk & _). apply list_elem_of_lookup_2 in Hj.
      rewrite elem_of_rev, Hrows, list_elem_of_filter in Hj. destruct Hj as [Hid Hj].
      assert (a = ((id, key), x)) as ->; [|done].
      apply (NoDup_key_unique fst (t_metadata t)); [apply Hi|done..|].
      destruct a as [[? ?] ?]. cbn in *. by subst.
    + apply list_find_None in Hf. rewrite Forall_forall in Hf.
      destruct (Hf ((id, key), x)); [|done]. rewrite elem_of_rev, Hrows. by apply list_elem_of_filter.
Qed.

Lemma GetTags_ok id w t i :
  implements t i →
  wp (GetTags id) (λ res _ t', t' = t ∧ ∃ l, res = Val l ∧ NoDup l ∧
    ∀ tag, tag ∈ l ↔ (id, tag) ∈ inv_tags i) w t.
Proof.
  intros Hi. unfold GetTags. apply wp_bind, wp_get_state, wp_rows. intros l w' Hl. split; [done|].
  exists l. split; [done|]. rewrite Hl. setoid_rewrite Hl. unfold joined_tags. split.
  - apply NoDup_joined; apply Hi.
  - intros tag. rewrite (im_tags _ _ Hi). apply elem_of_joined.
Qed.

Definition row_shown (i : Inventory) (r : AssetRow) (v : AssetView) : Prop :=
  v_ID v = as_id r ∧ v_Type v = as_asset_type r ∧ v_Name v = as_name r ∧ v_Status v = as_status r ∧
  (∀ key, v_Metadata v !! key = inv_meta i !! (as_id r, key)) ∧
  NoDup (v_Tags v) ∧ ∀ tag, tag ∈ v_Tags v ↔ (as_id r, tag) ∈ inv_tags i.

Lemma asset_view_ok r w t i :
  implements t i → wp (asset_view r) (λ v _ t', t' = t ∧ row_shown i r v) w t.
Proof.
  intros Hi. unfold asset_view.
  wp_use GetMetadata_ok as res w1 t1 (-> & m & -> & Hm); [done|].
  wp_use GetTags_ok as res w2 t2 (-> & l & -> & Hnd & Hl); [done|].
  apply wp_bind. unfold GetRelationships. apply wp_bind, wp_get_state, wp_bind, wp_rows.
  intros rels w3 _. apply wp_ret, wp_ret. split; [done|]. by repeat split; try apply Hl.
Qed.

Lemma Forall2_keys {A B K} (f : A → K) (g : B → K) (R : A → B → Prop) xs ys :
  (∀ x y, R x y → g y = f x) → Forall2 R xs ys → map g ys = map f xs.
Proof. intros HR. induction 1; cbn; [done|]. f_equal; auto. Qed.

Lemma ListInventory_ok w t i :
  implements t i → wp ListInventory (λ res _ t', t' = t ∧ ∃ views, res = Val views ∧ shows views i) w t.
Proof.
  intros Hi. unfold ListInventory. apply wp_bind, wp_get_state, wp_bind, wp_rows. intros rows w1 Hrows.
  apply wp_bind. eapply (wp_mapM _ (λ _ t', t' = t) (row_shown i)); [done| |].
  { intros r w' t' _ ->. by apply asset_view_ok. }
  intros views w2 t2 -> Hviews. apply wp_ret. split; [done|]. exists views. split; [done|].
  assert (∀ v, v ∈ views → ∃ r, r ∈ rows ∧ row_shown i r v) as Hview.
  { intros v (j & Hj)%list_elem_of_lookup. destruct (Forall2_lookup_r _ _ _ _ _ Hviews Hj) as (r & Hr & Hs).
    exists r. split; [by eapply list_elem_of_lookup_2|done]. }
  split.
  - rewrite (Forall2_keys as_id v_ID (row_shown i) rows views); [|by intros ?? []|done].
    rewrite Hrows. apply Hi.
  - intros id ty name status. rewrite (im_assets _ _ Hi). split.
    + intros (r & Hr & Heqs). rewrite <-Hrows in Hr. apply list_elem_of_lookup in Hr as [j Hj].
      destruct (Forall2_lookup_l _ _ _ _ _ Hviews Hj) as (v & Hv & E1 & E2 & E3 & E4 & _).
      exists v. rewrite E1, E2, E3, E4. split; [by eapply list_elem_of_lookup_2|done].
    + intros (v & Hv & Heqs). destruct (Hview v Hv) as (r & Hr & E1 & E2 & E3 & E4 & _).
      exists r. rewrite <-Hrows, <-E1, <-E2, <-E3, <-E4. by split.
  - intros v Hv key. destruct (Hview v Hv) as (r & _ & E1 & _ & _ & _ & Hm & _). by rewrite E1.
  - intros v Hv. destruct (Hview v Hv) as (r & _ & E1 & _ & _ & _ & _ & ?). by rewrite E1.
Qed.

(** C31: The tables, the upserts and the joins implement an inventory.  On a driver that
    works, after any sequence of registrations, metadata and tags, of which a foreign
    key check may refuse some, a listing succeeds and says exactly what the operations
    that succeeded made of the inventory: every asset once, with the type of its first
    and the name and status of its last registration, its last metadata, and each of
    its tags once. *)
Theorem inventory_refines ops w ress w1 t1 :
  run_asset_ops ops (w, createAssetTables) = (Ok ress, (w1, t1)) →
  ∃ views w2, ListInventory (w1, t1) = (Ok (Val views), (w2, t1)) ∧
    shows views (inventory_after (zip ops ress) (mkInventory ∅ ∅ ∅)).
Proof.
  intros Hrun. eapply wp_run in Hrun; [|apply asset_ops_ok, empty_implements].
  destruct (wp_returns _ _ _ _ (ListInventory_ok w1 _ _ Hrun)) as (res & w2 & t2 & Hlist & -> & views & -> & Hs).
  by exists views, w2.
Qed.

(** An event's time never comes back: the text of the column is not the format it is
    parsed with. *)
Lemma event_time_lost `{!AssetLaws W} assetID eventType actor details w t res w' t' r :
  EmitLifecycleEvent assetID eventType actor details (w, t) = (Ok (Val res), (w', t')) →
  r ∈ t_events t' → r ∉ t_events t → le_Timestamp (scan_event r) = zero_time.
Proof.
  intros Hrun. refine (wp_run _ (λ _ _ t', r ∈ t_events t' → r ∉ t_events t →
    le_Timestamp (scan_event r) = zero_time) _ _ _ _ _ Hrun _).
  apply wp_bind, wp_world, wp_asset_exec. intros _ Hin Hn. cbn in Hin.
  apply elem_of_app in Hin as [?|Hin]; [done|]. apply list_elem_of_singleton in Hin as ->. cbn.
  by destruct (datetime_is_not_rfc3339 (time_Now w).1) as [e ->].
Qed.
End refinement.

(** ** Witness *)
#[global] Instance test_assets : AssetLib TestWorld := {
  fk_enforced w := (true, w);
  sqlite_datetime _ := "2024-01-01 00:00:00";
  ParseRFC3339 s := Err "cannot parse";
  json_Marshal _ := "{}";
}.
#[global] Instance test_asset_laws : AssetLaws TestWorld.
Proof. split; [done|]. intros t. by eexists. Qed.
Definition test_asset_ops : list asset_op :=
  [OpRegister "a" "key" "n" "first" "active"; OpTag "a" "prod"; OpMetadata "a" "owner" "ops";
   OpMetadata "b" "owner" "ops"; OpRegister "a" "certificate" "n" "second" "revoked"; OpTag "a" "prod"].
Definition test_asset_run : outcome (list (result unit)) * (TestWorld * AssetTables) :=
  Eval vm_compute in run_asset_ops test_asset_ops (test_world, createAssetTables).

Definition test_asset_results : list (result unit) :=
  [Val tt; Val tt; Val tt; Err fk_failed; Val tt; Val tt].
Example test_tags :
  inv_tags (inventory_after (zip test_asset_ops test_asset_results) (mkInventory ∅ ∅ ∅)) = {[("a", "prod")]}.
Proof. vm_compute. reflexivity. Qed.

Lemma inventory_refines_witness : ∃ views w2,
  ListInventory test_asset_run.2 = (Ok (Val views), (w2, test_asset_run.2.2)) ∧
  (∃ v, v ∈ views ∧ v_ID v = "a" ∧ v_Type v = "key" ∧ v_Name v = "second" ∧ v_Status v = "revoked") ∧
  ∀ v, v ∈ views → ∀ tag, tag ∈ v_Tags v ↔ (v_ID v, tag) = ("a", "prod").
Proof.
  assert (¬ sql_faulty (W:=TestWorld)) as Hrel by exact (λ f : False, f).
  destruct (inventory_refines Hrel test_asset_ops test_world
    test_asset_results test_asset_run.2.1 test_asset_run.2.2)
    as (views & w2 & Hlist & []); [by vm_compute|].
  exists views, w2. split; [exact Hlist|]. split.
  - apply shows_assets0. vm_compute. reflexivity.
  - intros v Hv tag. rewrite (proj2 (shows_tags0 v Hv)), test_tags. apply elem_of_singleton.
Defined.
