(* ===== verification/DevCerts.v ===== *)
(** * Development certificates (src/internal/devcerts/devcerts.go)

    The files of the machine as a map from paths to contents, the system calls on them,
    and the generator of the CA, the server and the client certificate of dev mode. *)

From Stdlib Require Import ZArith Lia Ascii.
From Stdlib.Strings Require Import Byte.
From S2P Require Import Prelude GoRuntime CryptoLib Http.
Local Open Scope Z_scope.
Local Open Scope go_scope.

(** ** Files *)
Record File := mkFile { f_Mode : Z; f_Data : bytes }.
Abbreviation Disk := (gmap string File).

(** The operating system: which calls fail is the world's choice. *)
Class OS (W : Type) := {
  (** The error of the next system call, on the given path. *)
  os_error : string → W → option string * W;
  (** How much of a text is written, and the error if it is not all. *)
  os_write : bytes → W → (nat * option string) * W;
  filepath_Join : string → string → string;
  umask : Z;
  os_Getenv : string → string;
  os_UserHomeDir : result string;
  os_TempDir : string;
}.

(** A file name: not empty, not a dot name, without separators. *)
Fixpoint has_separator (s : string) : bool :=
  match s with EmptyString => false | String c s => Ascii.eqb c "/"%char || has_separator s end.
Definition file_name (s : string) : bool :=
  bool_decide (s ∉ [EmptyString; "."; ".."]) && negb (has_separator s).
(** A write without an error is complete; names in one directory are distinct files. *)
Class OSLaws (W : Type) `{OS W} := {
  (** Whether a call may fail at all. *)
  os_faulty : Prop;
  os_error_faulty path w e : (os_error path w).1 = Some e → os_faulty;
  os_write_faulty text w e : (os_write text w).1.2 = Some e → os_faulty;
  os_write_all text w : (os_write text w).1.2 = None → (os_write text w).1.1 = length text;
  filepath_Join_inj dir a b :
    file_name a = true → file_name b = true → filepath_Join dir a = filepath_Join dir b → a = b;
}.

Section files.
Context {W : Type} `{OS W}.

Definition os_MkdirAll (path : string) : M W Disk (result unit) :=
  e ← world (os_error path);
  mret (match e with Some err => Err err | None => Val tt end).
Inductive StatResult := FileExists | FileNotExist | StatError.
Definition os_Stat (path : string) : M W Disk StatResult :=
  e ← world (os_error path);
  disk ← get_state;
  mret (match e with
        | Some _ => StatError
        | None => if decide (is_Some (disk !! path)) then FileExists else FileNotExist
        end).
Definition os_ReadFile (path : string) : M W Disk (result bytes) :=
  e ← world (os_error path);
  disk ← get_state;
  mret (match e, disk !! path with
        | Some err, _ => Err err
        | None, Some f => Val (f_Data f)
        | None, None => Err "no such file or directory"
        end).
Definition os_Chmod (path : string) (mode : Z) : M W Disk (result unit) :=
  e ← world (os_error path);
  disk ← get_state;
  match e, disk !! path with
  | Some err, _ => mret (Err err)
  | None, None => mret (Err "no such file or directory")
  | None, Some f => put_state (<[path := mkFile mode (f_Data f)]> disk);; mret (Val tt)
  end.
(** O_CREATE|O_WRONLY|O_TRUNC: an existing file keeps its mode and is emptied. *)
Definition os_OpenFile (path : string) (mode : Z) : M W Disk (result unit) :=
  e ← world (os_error path);
  match e with
  | Some err => mret (Err err)
  | None =>
      disk ← get_state;
      let mode := from_option f_Mode (Z.ldiff mode umask) (disk !! path) in
      put_state (<[path := mkFile mode []]> disk);;
      mret (Val tt)
  end.
(** Writing [text] to the file at [path], opened just before. *)
Definition write_file (path : string) (text : bytes) : M W Disk (result unit) :=
  r ← world (os_write text);
  disk ← get_state;
  some f := disk !! path else mret (Err "file already closed");;
  put_state (<[path := mkFile (f_Mode f) (take r.1 text)]> disk);;
  mret (match r.2 with Some err => Err err | None => Val tt end).
End files.

(** ** Certificates *)
(** The fields of [x509.Certificate] the code sets. *)
Record X509 := mkX509 {
  x_SerialNumber : Z;
  x_CommonName : string;
  x_NotBefore : Time;
  x_NotAfter : Time;
  x_IsCA : bool;
  x_KeyUsage : Z;
  x_ExtKeyUsage : list Z;
  x_BasicConstraintsValid : bool;
  x_DNSNames : list string;
  x_IPAddresses : list string;
}.
Definition KeyUsageDigitalSignature : Z := 1.
Definition KeyUsageCertSign : Z := 32.
Definition KeyUsageCRLSign : Z := 64.
Definition ExtKeyUsageServerAuth : Z := 1.
Definition ExtKeyUsageClientAuth : Z := 2.

Class CertLib (W : Type) `{CryptoLib W} := {
  (** [x509.CreateCertificate(rand.Reader, template, parent, pub, priv)] *)
  x509_CreateCertificate : X509 → X509 → EcPub → EcPriv → W → result bytes * W;
  x509_Parse : bytes → result X509;
  (** Whether the certificate is for the public key; whether that key's owner signed it. *)
  x509_certifies : bytes → EcPub → Prop;
  x509_signed_by : bytes → EcPub → Prop;
  x509_MarshalECPrivateKey : EcPriv → result bytes;
  (** The text of a PEM block. *)
  pem_text : string → bytes → bytes;
}.
(** What a certificate and its template share: DER keeps times to the second. *)
Definition same_template (c t : X509) : Prop :=
  x_CommonName c = x_CommonName t ∧ x_IsCA c = x_IsCA t ∧ x_KeyUsage c = x_KeyUsage t ∧
  x_ExtKeyUsage c = x_ExtKeyUsage t ∧ x_DNSNames c = x_DNSNames t.
Class CertLaws (W : Type) `{CertLib W} := {
  (** Whether generating a key or signing a certificate may fail. *)
  cert_faulty : Prop;
  ecdsa_key_faulty c w e : (ecdsa_GenerateKey c w).1 = Err e → cert_faulty;
  x509_create_faulty t p pub priv w e :
    (x509_CreateCertificate t p pub priv w).1 = Err e → cert_faulty;
  x509_marshal_faulty k e : x509_MarshalECPrivateKey k = Err e → cert_faulty;
  x509_created template parent pub priv w der :
    (x509_CreateCertificate template parent pub priv w).1 = Val der →
    x509_certifies der pub ∧ x509_signed_by der (ecdsa_Public priv) ∧
    ∃ c, x509_Parse der = Val c ∧ same_template c template;
}.

Record Certs := mkCerts {
  CACert : string;
  ServerCert : string;
  ServerKey : string;
  ClientCert : string;
  ClientKey : string;
  APIKey : string;
}.

Section generate.
Context {W : Type} `{Runtime W} `{!OS W} `{!CryptoLib W} `{!CertLib W}.

(** [pem.Encode] writes the block; the deferred Close changes nothing. *)
Definition writePEM (path blockType : string) (data : bytes) : M W Disk (result unit) :=
  r ← os_OpenFile path 0x180;
  val _f := r else err => mret (Err ("write " +:+ path +:+ ": " +:+ err));;
  write_file path (pem_text blockType data).

Definition caTemplate (notBefore now : Time) : X509 :=
  mkX509 1 "KMIP Dev CA" notBefore (now + 365 * 24 * Hour) true
    (Z.lor KeyUsageCertSign KeyUsageCRLSign) [] true [] [].
Definition serverTemplate (notBefore now : Time) : X509 :=
  mkX509 2 "localhost" notBefore (now + 365 * 24 * Hour) false KeyUsageDigitalSignature
    [ExtKeyUsageServerAuth] false ["localhost"; "kmip-server"] ["127.0.0.1"; "0.0.0.0"].
Definition clientTemplate (notBefore now : Time) : X509 :=
  mkX509 3 "dev-client" notBefore (now + 365 * 24 * Hour) false KeyUsageDigitalSignature
    [ExtKeyUsageClientAuth] false [] [].

Definition Generate (dir : string) : M W Disk (result Certs) :=
  r ← os_MkdirAll dir;
  val _ := r else err => mret (Err ("create cert directory: " +:+ err));;
  r ← world (ecdsa_GenerateKey P256);
  val caKey := r else err => mret (Err ("generate CA key: " +:+ err));;
  notBefore ← world time_Now;
  now ← world time_Now;
  let template := caTemplate notBefore now in
  r ← world (x509_CreateCertificate template template (ecdsa_Public caKey) caKey);
  val caCertDER := r else err => mret (Err ("create CA cert: " +:+ err));;
  val caCert := x509_Parse caCertDER else err => mret (Err ("parse CA cert: " +:+ err));;
  let caCertPath := filepath_Join dir "ca.pem" in
  r ← writePEM caCertPath "CERTIFICATE" caCertDER;
  val _ := r else err => mret (Err err);;
  r ← world (ecdsa_GenerateKey P256);
  val serverKey := r else err => mret (Err ("generate server key: " +:+ err));;
  notBefore ← world time_Now;
  now ← world time_Now;
  r ← world (x509_CreateCertificate (serverTemplate notBefore now) caCert (ecdsa_Public serverKey) caKey);
  val serverCertDER := r else err => mret (Err ("create server cert: " +:+ err));;
  let serverCertPath := filepath_Join dir "server.pem" in
  r ← writePEM serverCertPath "CERTIFICATE" serverCertDER;
  val _ := r else err => mret (Err err);;
  let serverKeyPath := filepath_Join dir "server-key.pem" in
  val serverKeyDER := x509_MarshalECPrivateKey serverKey
  else err => mret (Err ("marshal server key: " +:+ err));;
  r ← writePEM serverKeyPath "EC PRIVATE KEY" serverKeyDER;
  val _ := r else err => mret (Err err);;
  r ← world (ecdsa_GenerateKey P256);
  val clientKey := r else err => mret (Err ("generate client key: " +:+ err));;
  notBefore ← world time_Now;
  now ← world time_Now;
  r ← world (x509_CreateCertificate (clientTemplate notBefore now) caCert (ecdsa_Public clientKey) caKey);
  val clientCertDER := r else err => mret (Err ("create client cert: " +:+ err));;
  let clientCertPath := filepath_Join dir "client.pem" in
  r ← writePEM clientCertPath "CERTIFICATE" clientCertDER;
  val _ := r else err => mret (Err err);;
  let clientKeyPath := filepath_Join dir "client-key.pem" in
  val clientKeyDER := x509_MarshalECPrivateKey clientKey
  else err => mret (Err ("marshal client key: " +:+ err));;
  r ← writePEM clientKeyPath "EC PRIVATE KEY" clientKeyDER;
  val _ := r else err => mret (Err err);;
  apiKeyBytes ← go_make 24;
  r ← world (rand_Read (length apiKeyBytes));
  val apiKeyBytes := r else err => mret (Err ("generate API key: " +:+ err));;
  let text := hex_EncodeToString apiKeyBytes in
  if (String.length text <? 32)%nat then go_panic "slice bounds out of range"
  else
    mret (Val (mkCerts caCertPath serverCertPath serverKeyPath clientCertPath clientKeyPath
      ("dev-" +:+ String.substring 0 32 text))).
End generate.
