(* ===== verification/Startup.v ===== *)
(** * Starting the server (src/cmd/open-kmip/main.go, NewServer, NewSQLiteStore)

    From the flags and the environment to the running server: the checks of the
    configuration, dev mode, the storage, the REST API and the TLS configuration of the
    KMIP listener.  [log.Fatal] ends the start with an error. *)

From Stdlib Require Import ZArith Lia.
From S2P Require Import Prelude GoRuntime Storage MemoryStore SQLiteStore CryptoLib Http DashAuth.
From S2P Require Import AuditLog Connections Handler RestAPI Assets DevCerts.
Local Open Scope Z_scope.
Local Open Scope go_scope.

Record Flags := mkFlags {
  f_dev : bool;
  f_host : string;
  f_port : Z;
  f_apiPort : Z;
  f_apiKey : string;
  f_corsOrigin : string;
  f_cert : string;
  f_key : string;
  f_ca : string;
  f_insecureNoMTLS : bool;
  f_storage : string;
  f_db : string;
}.
Definition set_apiKey (key : string) (f : Flags) : Flags :=
  mkFlags (f_dev f) (f_host f) (f_port f) (f_apiPort f) key (f_corsOrigin f) (f_cert f) (f_key f)
    (f_ca f) (f_insecureNoMTLS f) (f_storage f) (f_db f).
Definition set_certs (cert key ca : string) (f : Flags) : Flags :=
  mkFlags (f_dev f) (f_host f) (f_port f) (f_apiPort f) (f_apiKey f) (f_corsOrigin f) cert key
    ca (f_insecureNoMTLS f) (f_storage f) (f_db f).

(** What crypto/tls and crypto/x509 read from PEM texts, and the database of a file. *)
Class TLSLib (W : Type) := {
  KeyPair : Type;
  tls_X509KeyPair : bytes → bytes → result KeyPair;
  (** The certificates [AppendCertsFromPEM] adds to a pool. *)
  certs_of_pem : bytes → list bytes;
  sql_Open : string → W → result (Database * AssetTables) * W;
}.

Definition VersionTLS12 : Z := 0x0303.
Definition NoClientCert : Z := 0.
Definition RequireAndVerifyClientCert : Z := 4.
Definition cipher_suites : list Z :=
  [0xC030; 0xC02F; 0xC02C; 0xC02B; 0xCCA8; 0xCCA9].

Section startup.
Context {W : Type} `{Runtime W} `{!SqlDriver W} `{!OS W} `{!CryptoLib W} `{!CertLib W} `{!TLSLib W}.

Record TLSConfig := mkTLSConfig {
  config_Certificate : KeyPair;
  MinVersion : Z;
  SessionTicketsDisabled : bool;
  CipherSuites : list Z;
  ClientCAs : option (list bytes);
  ClientAuth : Z;
}.
Record Server := mkServer { s_host : string; s_port : Z; s_config : TLSConfig }.

Definition tls_LoadX509KeyPair (certFile keyFile : string) : M W Disk (result KeyPair) :=
  r ← os_ReadFile certFile;
  val certPEM := r else err => mret (Err err);;
  r ← os_ReadFile keyFile;
  val keyPEM := r else err => mret (Err err);;
  mret (tls_X509KeyPair certPEM keyPEM).

Definition NewServer (host : string) (port : Z) (certFile keyFile caFile : string) :
    M W Disk (result Server) :=
  r ← tls_LoadX509KeyPair certFile keyFile;
  val cert := r else err => mret (Err ("load server certificate: " +:+ err));;
  let tlsConfig := mkTLSConfig cert VersionTLS12 true cipher_suites None NoClientCert in
  if String.eqb caFile EmptyString then mret (Val (mkServer host port tlsConfig))
  else
    r ← os_ReadFile caFile;
    val caPEM := r else err => mret (Err ("read CA certificate: " +:+ err));;
    match certs_of_pem caPEM with
    | [] => mret (Err "parse CA certificate failed")
    | pool => mret (Val (mkServer host port
        (mkTLSConfig cert VersionTLS12 true cipher_suites (Some pool) RequireAndVerifyClientCert)))
    end.

(** The three PRAGMA statements and the modes of the files: their errors are ignored. *)
Definition NewSQLiteStore (dbPath : string) : M W Disk (result (Database * AssetTables)) :=
  r ← world (sql_Open dbPath);
  val db := r else err => mret (Err ("open database: " +:+ err));;
  world sql_exec_err;;
  world sql_exec_err;;
  world sql_exec_err;;
  e ← world sql_exec_err;
  match e with
  | Some err => mret (Err ("create tables: " +:+ err))
  | None =>
      os_Chmod dbPath 0x180;;
      os_Chmod (dbPath +:+ "-wal") 0x180;;
      os_Chmod (dbPath +:+ "-shm") 0x180;;
      mret (Val db)
  end.

(** A failed [Generate] leaves a nil pointer, whose field is read. *)
Definition setupDevMode (f : Flags) : M W Disk (result Flags) :=
  let home := match os_UserHomeDir with Val home => home | Err _ => os_TempDir end in
  let certDir := filepath_Join (filepath_Join home ".open-kmip") "certs" in
  let caCertPath := filepath_Join certDir "ca.pem" in
  let use_key key f := if String.eqb (f_apiKey f) EmptyString then set_apiKey key f else f in
  st ← os_Stat caCertPath;
  match st with
  | FileNotExist =>
      r ← Generate certDir;
      val certs := r else err => mret (Err ("failed to generate dev certs: " +:+ err));;
      mret (Val (use_key (APIKey certs)
        (set_certs (ServerCert certs) (ServerKey certs) (CACert certs) f)))
  | _ =>
      let f := set_certs (filepath_Join certDir "server.pem") (filepath_Join certDir "server-key.pem")
        caCertPath f in
      if String.eqb (f_apiKey f) EmptyString then
        r ← Generate os_TempDir;
        val certs := r else _err => go_panic "invalid memory address or nil pointer dereference";;
        mret (Val (set_apiKey (APIKey certs) f))
      else mret (Val f)
  end.

(** The checks outside dev mode, with the first line of each message. *)
Definition check_flags (f : Flags) : result unit :=
  if String.eqb (f_ca f) EmptyString && negb (f_insecureNoMTLS f)
  then Err "FATAL: --ca is required for mTLS."
  else if String.eqb (f_cert f) EmptyString || String.eqb (f_key f) EmptyString
  then Err "FATAL: --cert and --key are required."
  else if String.eqb (f_apiKey f) EmptyString && (0 <? f_apiPort f)
  then Err "FATAL: --api-key (or KMIP_API_KEY) is required when REST API is enabled."
  else Val tt.

(** The dynamic type of the [storage.Storage] value. *)
Inductive Backend := MemoryBackend (s : MemoryStore) | SQLiteBackend (db : Database * AssetTables).

Record Running := mkRunning {
  run_flags : Flags;
  run_store : Backend;
  run_audit : option Logger;
  (** The REST API and its address. *)
  run_api : option (API Backend * string);
  run_kmip : Server;
}.

Definition open_storage (f : Flags) : M W Disk (result (Backend * option Logger)) :=
  if String.eqb (f_storage f) "memory" then mret (Val (MemoryBackend NewMemoryStore, None))
  else if String.eqb (f_storage f) "sqlite" then
    r ← NewSQLiteStore (f_db f);
    val s := r else err => mret (Err ("failed to open SQLite store: " +:+ err));;
    auditLog ← NewLogger;
    mret (Val (SQLiteBackend s, auditLog))
  else mret (Err ("unknown storage type: " +:+ f_storage f)).

(** The guard of [API.Serve]; its goroutine ends the process when it fails. *)
Definition api_Serve (certFile keyFile : string) : result unit :=
  if String.eqb certFile EmptyString || String.eqb keyFile EmptyString
  then Err "REST API error: TLS cert and key are required for REST API"
  else Val tt.
Definition start_api (f : Flags) (store : Backend) (auditLog : option Logger)
    (tracker : ConnectionTracker) : M W Disk (result (option (API Backend * string))) :=
  if 0 <? f_apiPort f then
    a ← zoom (λ _, tt) (λ _ disk, disk)
      (NewAPI store (f_apiKey f) (f_corsOrigin f) auditLog (Some tracker) (f_dev f));
    val _ := api_Serve (f_cert f) (f_key f) else err => mret (Err err);;
    mret (Val (Some (a, f_host f +:+ ":" +:+ fmt_d (f_apiPort f))))
  else mret (Val None).

(** [main], up to the listeners. *)
Definition main (f : Flags) : M W Disk (result Running) :=
  let envKey := os_Getenv "KMIP_API_KEY" in
  let f := if negb (String.eqb envKey EmptyString) && String.eqb (f_apiKey f) EmptyString
           then set_apiKey envKey f else f in
  r ← (if f_dev f then setupDevMode f
       else mret (match check_flags f with Val _ => Val f | Err err => Err err end));
  val f := r else err => mret (Err err);;
  if String.eqb (f_storage f) "memory" && negb (f_dev f)
  then mret (Err "FATAL: --storage memory disables audit and is only allowed with --dev.")
  else
    r ← open_storage f;
    val st := r else err => mret (Err err);;
    let '(store, auditLog) := st in
    let tracker := NewConnectionTracker in
    r ← start_api f store auditLog tracker;
    val api := r else err => mret (Err err);;
    r ← NewServer (f_host f) (f_port f) (f_cert f) (f_key f) (f_ca f);
    val server := r else err => mret (Err ("failed to create KMIP server: " +:+ err));;
    mret (Val (mkRunning f store auditLog api server)).
End startup.
