(* ===== verification/StartupTheorems.v ===== *)
(** * Properties of the start of the server

    What the certificates of dev mode are, and what a start in production guarantees. *)

From Stdlib Require Import ZArith Lia Ascii.
From Stdlib.Strings Require Import Byte.
From S2P Require Import Prelude GoRuntime Storage MemoryStore SQLiteStore CryptoLib KmipLib Http.
From S2P Require Import Testbed DashAuth AuditLog Connections Handler Requests RestAPI Assets DevCerts Startup.
Local Open Scope Z_scope.
Local Open Scope go_scope.

(** ** Files *)
Section files.
Context {W : Type} `{OSLaws W} `{!CryptoLib W} `{!CertLib W}.
Implicit Types (w : W) (disk : Disk).

Definition private_mode : Z := Z.ldiff 0x180 umask.
Definition has_pem (disk : Disk) (path blockType : string) (data : bytes) : Prop :=
  f_Data <$> disk !! path = Some (pem_text blockType data).
(** Only the files at [paths] may differ, and the new ones only their owner can read. *)
Definition writes (paths : list string) (disk disk' : Disk) : Prop :=
  (∀ p, p ∉ paths → disk' !! p = disk !! p) ∧
  ∀ p f, disk' !! p = Some f →
    f_Mode f = private_mode ∨ ∃ f0, disk !! p = Some f0 ∧ f_Mode f = f_Mode f0.
#[global] Instance writes_preorder paths : PreOrder (writes paths).
Proof.
  split; unfold writes; [intros disk; split; [done|by eauto]|].
  intros d1 d2 d3 [H12 M12] [H23 M23]. split; [intros p Hp; by rewrite H23, H12|].
  intros p f [?|(f2 & Hf2 & ->)]%M23; [by left|]. by apply M12.
Qed.

Lemma writePEM_ok path blockType data w disk :
  wp (writePEM path blockType data) (λ r _ disk', writes [path] disk disk' ∧
    match r with Val _ => has_pem disk' path blockType data | Err _ => os_faulty end) w disk.
Proof.
  apply wp_bind. unfold os_OpenFile. apply wp_bind, wp_world.
  pose proof (os_error_faulty path w) as Hf. destruct (os_error path w) as [[e|] w1]; cbn [fst snd].
  { apply wp_ret, wp_ret. split; [reflexivity|by eapply Hf]. }
  apply wp_bind, wp_get_state, wp_bind, wp_put_state, wp_ret. unfold write_file.
  apply wp_bind, wp_world, wp_bind, wp_get_state. rewrite lookup_insert_eq. cbn [f_Mode].
  apply wp_bind, wp_put_state, wp_ret. split.
  { rewrite insert_insert_eq. split.
    { intros p Hp%not_elem_of_cons. rewrite lookup_insert_ne; [done|]. by destruct Hp. }
    intros p f. rewrite lookup_insert_Some. intros [[<- <-]|[_ Hf']]; [|by eauto]. cbn.
    destruct (disk !! path) as [f0|]; cbn; eauto. }
  pose proof (os_write_faulty (pem_text blockType data) w1) as Hwf.
  pose proof (os_write_all (pem_text blockType data) w1) as Hall.
  destruct (os_write _ w1) as [[n [e|]] w2]; cbn in *; [by eapply Hwf|].
  unfold has_pem. rewrite (Hall eq_refl), take_ge by lia. by rewrite lookup_insert_eq.
Qed.
End files.

(** ** The generator *)
Definition dev_files : list string :=
  ["ca.pem"; "server.pem"; "server-key.pem"; "client.pem"; "client-key.pem"].

Section generate.
Context {W : Type} `{RuntimeLaws W} `{!OS W} `{!OSLaws W} `{!CryptoLib W} `{!CertLib W} `{!CertLaws W}.
Implicit Types (w : W) (disk : Disk).

Definition dev_paths (dir : string) : list string := map (filepath_Join dir) dev_files.
Definition within (dir : string) : relation (W * Disk) := λ σ σ', writes (dev_paths dir) σ.2 σ'.2.
#[local] Instance within_preorder dir : PreOrder (within dir).
Proof. split; unfold within; [intros σ; reflexivity|]. intros σ1 σ2 σ3 ??. by etrans. Qed.
Lemma within_world {A} dir (f : W → A * W) : preserves (within dir) (world (S:=Disk) f).
Proof. apply preserves_world. intros. unfold within. reflexivity. Qed.
Lemma within_writePEM dir name blockType data : name ∈ dev_files →
  preserves (within dir) (writePEM (filepath_Join dir name) blockType data).
Proof.
  intros Hname [w disk]. apply (wp_preserves _ (within dir (w, disk))).
  eapply wp_mono; [apply writePEM_ok|]. intros r w' disk' [[Hframe Hmode] _]. split; [|done].
  intros p Hp. apply Hframe. rewrite list_elem_of_singleton. intros ->.
  apply Hp. by apply list_elem_of_fmap_2.
Qed.
#[local] Hint Resolve within_world : sound.
Lemma within_MkdirAll dir path : preserves (within dir) (os_MkdirAll path).
Proof. unfold os_MkdirAll. preserves_steps. Qed.
Lemma within_make dir n : preserves (within dir) (go_make n).
Proof. unfold go_make. preserves_steps. Qed.
#[local] Hint Resolve within_MkdirAll within_make : sound.
#[local] Hint Extern 1 (preserves _ (writePEM _ _ _)) =>
  apply within_writePEM; apply (bool_decide_unpack _); vm_compute; exact I : sound.

Lemma Generate_within dir : preserves (within dir) (Generate dir).
Proof. unfold Generate. preserves_steps. Qed.

Lemma wp_key c w disk (Q : result EcPriv → W → Disk → Prop) :
  (∀ e w', cert_faulty → Q (Err e) w' disk) → (∀ k w', Q (Val k) w' disk) →
  wp (world (ecdsa_GenerateKey c)) Q w disk.
Proof.
  intros He HQ. apply wp_world. pose proof (ecdsa_key_faulty c w) as Hf.
  destruct (ecdsa_GenerateKey c w) as [[k|e] w']; cbn in *; [apply HQ|by eapply He, Hf].
Qed.

Lemma wp_certificate template parent pub priv w disk (Q : result bytes → W → Disk → Prop) :
  (∀ e w', cert_faulty → Q (Err e) w' disk) →
  (∀ der c w', x509_certifies der pub → x509_signed_by der (ecdsa_Public priv) →
     x509_Parse der = Val c → same_template c template → Q (Val der) w' disk) →
  wp (world (x509_CreateCertificate template parent pub priv)) Q w disk.
Proof.
  intros He HQ. apply wp_world.
  pose proof (x509_create_faulty template parent pub priv w) as Hf.
  pose proof (x509_created template parent pub priv w) as Hc.
  destruct (x509_CreateCertificate _ _ _ _ w) as [[der|e] w']; cbn in *; [|by eapply He, Hf].
  destruct (Hc der eq_refl) as (? & ? & c & ? & ?). by eapply HQ.
Qed.

Lemma wp_pem path blockType data w disk (Q : result unit → W → Disk → Prop) :
  (∀ e w' disk', os_faulty → Q (Err e) w' disk') →
  (∀ w' disk', has_pem disk' path blockType data →
     (∀ p bt d, p ≠ path → has_pem disk p bt d → has_pem disk' p bt d) → Q (Val tt) w' disk') →
  wp (writePEM path blockType data) Q w disk.
Proof.
  intros He HQ. eapply wp_mono; [apply writePEM_ok|].
  intros [[]|e] w' disk' [[Hframe _] Hr]; [|by apply He]. apply HQ; [done|].
  intros p bt d Hp. unfold has_pem. by rewrite Hframe by by rewrite list_elem_of_singleton.
Qed.

Lemma join_ne dir a b : file_name a = true → file_name b = true → a ≠ b →
  filepath_Join dir a ≠ filepath_Join dir b.
Proof. intros Ha Hb Hne Heq. by apply (filepath_Join_inj dir) in Heq. Qed.

(** A certificate and its key on disk: for that key, signed by the CA, for one usage. *)
Definition issued (disk : Disk) (caPub : EcPub) (certPath keyPath name : string) (usage : Z) : Prop :=
  ∃ der c key keyDER,
    has_pem disk certPath "CERTIFICATE" der ∧ has_pem disk keyPath "EC PRIVATE KEY" keyDER ∧
    x509_MarshalECPrivateKey key = Val keyDER ∧ x509_certifies der (ecdsa_Public key) ∧
    x509_signed_by der caPub ∧ x509_Parse der = Val c ∧
    x_CommonName c = name ∧ x_IsCA c = false ∧ x_ExtKeyUsage c = [usage].
(** What [Generate dir] leaves on disk, and returns. *)
Definition generated (dir : string) (disk : Disk) (certs : Certs) : Prop :=
  CACert certs = filepath_Join dir "ca.pem" ∧
  ServerCert certs = filepath_Join dir "server.pem" ∧
  ServerKey certs = filepath_Join dir "server-key.pem" ∧
  ClientCert certs = filepath_Join dir "client.pem" ∧
  ClientKey certs = filepath_Join dir "client-key.pem" ∧
  (∃ random, length random = 24%nat ∧
     APIKey certs = "dev-" +:+ String.substring 0 32 (hex_EncodeToString random)) ∧
  ∃ caKey caDER ca, has_pem disk (CACert certs) "CERTIFICATE" caDER ∧
    x509_certifies caDER (ecdsa_Public caKey) ∧ x509_signed_by caDER (ecdsa_Public caKey) ∧
    x509_Parse caDER = Val ca ∧ x_IsCA ca = true ∧
    issued disk (ecdsa_Public caKey) (ServerCert certs) (ServerKey certs) "localhost" ExtKeyUsageServerAuth ∧
    issued disk (ecdsa_Public caKey) (ClientCert certs) (ClientKey certs) "dev-client" ExtKeyUsageClientAuth.

Lemma hex_length bs : String.length (hex_EncodeToString bs) = (2 * length bs)%nat.
Proof. induction bs as [|b bs IH]; [done|]. cbn in *. rewrite IH. lia. Qed.

(** Runs the generator up to the next point where nothing can fail. *)
Ltac generator_step :=
  cbv zeta;
  lazymatch goal with
  | |- wp (mbind _ (world (ecdsa_GenerateKey _))) _ _ _ =>
      apply wp_bind, wp_key; [by intros; apply wp_ret; right|intros ? ?]
  | |- wp (mbind _ (world (x509_CreateCertificate _ _ _ _))) _ _ _ =>
      let Hparse := fresh "Hparse" in
      apply wp_bind, wp_certificate; [by intros; apply wp_ret; right|intros ? ? ? ? ? Hparse ?];
      try rewrite Hparse
  | |- wp (mbind _ (world time_Now)) _ _ _ => apply wp_bind, wp_world
  | |- wp (mbind _ (writePEM _ _ _)) _ _ _ =>
      apply wp_bind, wp_pem; [by intros; apply wp_ret; left|intros ? ? ? ?]
  | |- wp (match x509_MarshalECPrivateKey ?k with _ => _ end) _ _ _ =>
      destruct (x509_MarshalECPrivateKey k) eqn:?;
        [|by apply wp_ret; right; eapply x509_marshal_faulty]
  end.

(** The files written before are still there. *)
Ltac files :=
  repeat match goal with
  | |- has_pem _ _ _ _ => assumption
  | H : ∀ p bt d, p ≠ _ → has_pem _ p bt d → has_pem ?disk p bt d |- has_pem ?disk _ _ _ =>
      apply H; [by apply join_ne|]
  end.

Lemma Generate_ok dir w disk :
  wp (Generate dir) (λ r _ disk',
    match r with Val certs => generated dir disk' certs | Err _ => os_faulty ∨ cert_faulty end) w disk.
Proof.
  unfold Generate. apply wp_bind. unfold os_MkdirAll. apply wp_bind, wp_world.
  pose proof (os_error_faulty dir w) as Hf. destruct (os_error dir w) as [[e|] w1]; cbn [fst snd].
  { apply wp_ret, wp_ret. left. by eapply Hf. }
  apply wp_ret. repeat generator_step.
  apply wp_bind, wp_go_make; [done|]. apply wp_bind, wp_rand. intros random w13 _ Hlen.
  rewrite length_replicate in Hlen. rewrite hex_length, Hlen. apply wp_ret.
  split_and!; try done; [by exists random|]. exists k, der, c.
  split_and!; try done; [by files|by apply (proj1 (proj2 H3))|exists der0, c0, k0, a|exists der1, c1, k1, a0];
    unfold same_template, serverTemplate, clientTemplate in *; destruct_and?; split_and!; solve [done|files].
Qed.

(** C33: Dev mode's certificates.  [Generate] never panics; it fails only when a call it makes
    fails; when it succeeds the directory holds a self-signed CA certificate and, each
    with its own private key, a server and a client certificate signed by that CA and
    good for that usage only, and the API key is dev- and 32 digits of 24 random bytes.
    In every case no other file changes, and the new files are readable by their owner
    alone. *)
Theorem dev_certificates dir w disk :
  ∃ r w' disk', Generate dir (w, disk) = (Ok r, (w', disk')) ∧
    writes (dev_paths dir) disk disk' ∧
    match r with Val certs => generated dir disk' certs | Err _ => os_faulty ∨ cert_faulty end.
Proof.
  destruct (wp_returns _ _ _ _ (Generate_ok dir w disk)) as (r & w' & disk' & Hrun & Hr).
  exists r, w', disk'. split_and!; [done| |done].
  pose proof (Generate_within dir (w, disk)) as Hw. by rewrite Hrun in Hw.
Qed.
End generate.

(** ** Production *)
Section production.
Context {W : Type} `{Runtime W} `{!SqlDriver W} `{!OS W} `{!CryptoLib W} `{!CertLib W} `{!TLSLib W}.
Implicit Types (w : W) (disk : Disk) (f : Flags).

Lemma wp_ReadFile path w disk (Q : result bytes → W → Disk → Prop) :
  (∀ e w', Q (Err e) w' disk) → (∀ file w', disk !! path = Some file → Q (Val (f_Data file)) w' disk) →
  wp (os_ReadFile path) Q w disk.
Proof.
  intros He HQ. apply wp_bind, wp_world, wp_bind, wp_get_state, wp_ret.
  destruct (os_error path w) as [[e|] w']; cbn; [apply He|].
  destruct (disk !! path) as [file|]; [by apply HQ|apply He].
Qed.

Lemma wp_Chmod path mode w disk (Q : result unit → W → Disk → Prop) :
  (∀ r w' disk', Q r w' disk') → wp (os_Chmod path mode) Q w disk.
Proof.
  intros HQ. apply wp_bind, wp_world, wp_bind, wp_get_state.
  destruct (os_error path w) as [[e|] w'], (disk !! path); cbn; repeat wp_step; apply HQ.
Qed.

(** The configuration of the listener, for the CA file [caFile] ("" for none). *)
Definition listener_config (disk : Disk) (caFile : string) (c : TLSConfig) : Prop :=
  MinVersion c = VersionTLS12 ∧ SessionTicketsDisabled c = true ∧
  if String.eqb caFile EmptyString then ClientCAs c = None ∧ ClientAuth c = NoClientCert
  else ∃ ca, disk !! caFile = Some ca ∧ ClientCAs c = Some (certs_of_pem (f_Data ca)) ∧
    certs_of_pem (f_Data ca) ≠ [] ∧ ClientAuth c = RequireAndVerifyClientCert.

Lemma NewServer_ok host port certFile keyFile caFile w disk :
  wp (NewServer host port certFile keyFile caFile) (λ r _ disk', disk' = disk ∧
    match r with Val s => listener_config disk caFile (s_config s) | Err _ => True end) w disk.
Proof.
  apply wp_bind. unfold tls_LoadX509KeyPair.
  apply wp_bind, wp_ReadFile; [intros; by repeat wp_step|]. intros cert w1 _.
  apply wp_bind, wp_ReadFile; [intros; by repeat wp_step|]. intros key w2 _.
  apply wp_ret. destruct (tls_X509KeyPair _ _); [|by apply wp_ret].
  unfold listener_config. cbv zeta. destruct (String.eqb caFile EmptyString); [by apply wp_ret|].
  apply wp_bind, wp_ReadFile; [intros; by repeat wp_step|]. intros ca w3 Hca.
  destruct (certs_of_pem (f_Data ca)) as [|c cs] eqn:Hcs; apply wp_ret; [done|].
  split_and!; [done..|]. exists ca. by rewrite Hcs.
Qed.

Lemma NewSQLiteStore_ok dbPath w disk : wp (NewSQLiteStore dbPath) (λ _ _ _, True) w disk.
Proof.
  apply wp_bind, wp_world. destruct (sql_Open dbPath w) as [[db|e] w1]; [|by apply wp_ret].
  do 4 apply wp_bind, wp_world. destruct (sql_exec_err _) as [[e|] w2]; [by apply wp_ret|].
  do 3 (apply wp_bind, wp_Chmod; intros). by apply wp_ret.
Qed.

Lemma open_storage_ok f w disk :
  wp (open_storage f) (λ r _ _, match r with
    | Val (MemoryBackend _, _) => f_storage f = "memory"
    | _ => True
    end) w disk.
Proof.
  unfold open_storage. destruct (String.eqb_spec (f_storage f) "memory"); [by apply wp_ret|].
  destruct (String.eqb (f_storage f) "sqlite"); [|by apply wp_ret].
  wp_use NewSQLiteStore_ok as [db|e] w1 disk1 _; [|by apply wp_ret].
  apply wp_bind. unfold NewLogger. apply wp_bind, wp_world. by destruct (sql_exec_err w1).1; apply wp_ret, wp_ret.
Qed.

(** The REST API of a start: none, or one that authenticates with [key]. *)
Lemma start_api_ok f store auditLog tracker w disk :
  f_dev f = false →
  wp (start_api f store auditLog tracker) (λ r _ _, match r with
    | Val None => f_apiPort f ≤ 0
    | Val (Some (a, _)) => 0 < f_apiPort f ∧ d_devMode (dashAuth a) = false ∧
        d_apiKey (dashAuth a) = f_apiKey f ∧ api_handler a = NewHandler store auditLog (Some tracker)
    | Err _ => True
    end) w disk.
Proof.
  intros Hdev. unfold start_api. destruct (Z.ltb_spec 0 (f_apiPort f)); [|by apply wp_ret].
  apply wp_bind, wp_zoom. unfold NewAPI. rewrite Hdev. apply wp_bind, wp_world, wp_ret.
  destruct (api_Serve _ _); by apply wp_ret.
Qed.

Lemma check_flags_ok f : check_flags f = Val tt →
  (f_ca f = EmptyString → f_insecureNoMTLS f = true) ∧ (f_apiKey f = EmptyString → f_apiPort f ≤ 0).
Proof.
  unfold check_flags. destruct (String.eqb_spec (f_ca f) EmptyString), (f_insecureNoMTLS f),
    (_ || _), (String.eqb_spec (f_apiKey f) EmptyString), (Z.ltb_spec 0 (f_apiPort f)); try done;
    intros _; split; intros; (done || lia).
Qed.

(** The flags after the environment. *)
Definition effective_key f : string :=
  if String.eqb (f_apiKey f) EmptyString then os_Getenv "KMIP_API_KEY" else f_apiKey f.

(** C32: No insecure start in production.  Outside dev mode the start never panics, and when
    it reaches the listeners: KMIP speaks TLS 1.2 or later without session tickets and
    requires client certificates of the CA file whenever one is given (next to
    --insecure-no-mtls, too), and one is given unless --insecure-no-mtls is; the store
    is SQLite; and the REST API runs exactly when its port is positive, on the same
    store, and asks for a key that is not empty. *)
Theorem production_start_guarded f w disk :
  f_dev f = false →
  ∃ r w' disk', main f (w, disk) = (Ok r, (w', disk')) ∧
    ∀ run, r = Val run →
      listener_config disk' (f_ca f) (s_config (run_kmip run)) ∧
      (f_ca f = EmptyString → f_insecureNoMTLS f = true) ∧
      (∃ db, run_store run = SQLiteBackend db) ∧
      (run_api run = None ↔ f_apiPort f ≤ 0) ∧
      ∀ a addr, run_api run = Some (a, addr) →
        IsDevMode (dashAuth a) = false ∧ d_apiKey (dashAuth a) = effective_key f ∧
        effective_key f ≠ EmptyString ∧ store (api_handler a) = run_store run.
Proof.
  intros Hdev. apply wp_returns. unfold main. cbv zeta.
  set (f1 := if negb _ && _ then _ else f).
  assert (f_dev f1 = false ∧ f_ca f1 = f_ca f ∧ f_insecureNoMTLS f1 = f_insecureNoMTLS f ∧
    f_apiPort f1 = f_apiPort f ∧ f_apiKey f1 = effective_key f) as (Hdev1 & Hca & Hins & Hport & Hkey).
  { unfold f1, effective_key. destruct (String.eqb_spec (f_apiKey f) EmptyString) as [He|]; cbn.
    - destruct (String.eqb_spec (os_Getenv "KMIP_API_KEY") EmptyString) as [->|]; cbn; split_and!; done.
    - rewrite andb_false_r. by split_and!. }
  clearbody f1. rewrite Hdev1. apply wp_bind, wp_ret.
  destruct (check_flags f1) as [[]|e] eqn:Hcheck; [|by apply wp_ret].
  apply check_flags_ok in Hcheck as [Hmtls Hauth]. rewrite Hdev1, andb_true_r.
  destruct (String.eqb_spec (f_storage f1) "memory") as [|Hmem]; [by apply wp_ret|].
  wp_use open_storage_ok as [[[m|db] auditLog]|e] w1 disk1 Hst; [done| |by apply wp_ret].
  wp_use start_api_ok as [api|e] w2 disk2 Hapi; [done| |by apply wp_ret].
  wp_use NewServer_ok as [server|e] w3 disk3 [-> Hserver]; [|by apply wp_ret].
  apply wp_ret. intros run [= <-]. rewrite <-Hca, <-Hins, <-Hport, <-Hkey. cbn.
  split_and!; [done|done|by exists db|destruct api as [[a addr]|]; (split; [done|]); [destruct Hapi; lia|done]|].
  intros a addr ->. destruct Hapi as (Hpos & Hd & Hk & Hh).
  assert (f_apiKey f1 ≠ EmptyString) by (intros He; specialize (Hauth He); lia).
  split_and!; [|done|done|by rewrite Hh]. unfold IsDevMode. rewrite Hd, Hk. by apply String.eqb_neq.
Qed.
End production.

(** ** Witnesses *)
#[global] Instance test_os : OS TestWorld := {
  os_error _ w := (None, w);
  os_write text w := ((length text, None), w);
  filepath_Join dir name := dir +:+ String "/"%char name;
  umask := 0x12;
  os_Getenv _ := EmptyString;
  os_UserHomeDir := Val "/root";
  os_TempDir := "/tmp";
}.
Lemma append_inj (s a b : string) : s +:+ a = s +:+ b → a = b.
Proof. induction s as [|c s IH]; cbn; [done|]. intros [= Heq]. by apply IH. Qed.
#[global] Program Instance test_os_laws : OSLaws TestWorld := { os_faulty := False }.
Next Obligation. done. Qed.
Next Obligation. done. Qed.
Next Obligation. done. Qed.
Next Obligation. intros dir a b _ _ Heq%append_inj. by injection Heq. Qed.

(** A certificate is the code of its fields, the public key and the signer. *)
Abbreviation TestCert := (string * bool * Z * list Z * list string * (Z * Z))%type.
Definition test_der (c : TestCert) : bytes := z_bytes (Zpos (encode c)).
Definition test_cert (der : bytes) : option TestCert :=
  match parse_z der with Some (Zpos p, _) => decode p | _ => None end.
Lemma test_cert_der c : test_cert (test_der c) = Some c.
Proof.
  unfold test_cert, test_der. rewrite <-(app_nil_r (z_bytes _)), parse_z_bytes. apply decode_encode.
Qed.
#[global] Instance test_certs : CertLib TestWorld := {
  x509_CreateCertificate t _ pub priv w :=
    (Val (test_der (x_CommonName t, x_IsCA t, x_KeyUsage t, x_ExtKeyUsage t, x_DNSNames t, (pub, priv))), w);
  x509_Parse der := match test_cert der with
    | Some (cn, ca, ku, eku, dns, _) => Val (mkX509 0 cn 0 0 ca ku eku false dns [])
    | None => Err "x509: malformed certificate"
    end;
  x509_certifies der (pub : Z) := ∃ c, test_cert der = Some c ∧ (snd c).1 = pub;
  x509_signed_by der (pub : Z) := ∃ c, test_cert der = Some c ∧ (snd c).2 = pub;
  x509_MarshalECPrivateKey k := Val (z_bytes k);
  pem_text type data := String.list_byte_of_string type ++ data;
}.
#[global] Program Instance test_cert_laws : CertLaws TestWorld := { cert_faulty := False }.
Next Obligation. done. Qed.
Next Obligation. done. Qed.
Next Obligation. done. Qed.
Next Obligation.
  intros t p pub priv w der [= <-]. split_and!; [eexists; by rewrite test_cert_der..|].
  cbn [x509_Parse test_certs]. rewrite test_cert_der. by eexists.
Qed.

Lemma dev_certificates_witness : ∃ certs w' disk',
  Generate "/root/.open-kmip/certs" (test_world, ∅) = (Ok (Val certs), (w', disk')) ∧
  generated "/root/.open-kmip/certs" disk' certs.
Proof.
  destruct (dev_certificates "/root/.open-kmip/certs" test_world ∅) as ([certs|e] & w' & disk' & Hrun & _ & Hr).
  - exists certs, w', disk'. split; [exact Hrun|exact Hr].
  - destruct Hr as [[]|[]].
Defined.

#[global] Instance test_tls : TLSLib TestWorld := {
  KeyPair := unit;
  tls_X509KeyPair _ _ := Val tt;
  certs_of_pem text := [text];
  sql_Open _ w := (Val (mkDatabase [] [], createAssetTables), w);
}.
Definition test_flags : Flags :=
  mkFlags false "0.0.0.0" 5696 8200 "secret-key" EmptyString "s.pem" "k.pem" "ca.pem" false "sqlite" "open-kmip.db".
Definition test_disk : Disk :=
  <["s.pem" := mkFile 0x180 []]> (<["k.pem" := mkFile 0x180 []]> {["ca.pem" := mkFile 0x180 [Byte.x2a]]}).
Example test_start_succeeds :
  match main test_flags (test_world, test_disk) with (Ok (Val _), _) => true | _ => false end = true.
Proof. vm_compute. reflexivity. Qed.

Lemma production_start_guarded_witness : ∃ run w' disk',
  main test_flags (test_world, test_disk) = (Ok (Val run), (w', disk')) ∧
  ClientAuth (s_config (run_kmip run)) = RequireAndVerifyClientCert ∧
  ∀ a addr, run_api run = Some (a, addr) → IsDevMode (dashAuth a) = false.
Proof.
  destruct (production_start_guarded test_flags test_world test_disk eq_refl)
    as ([run|e] & w' & disk' & Hrun & Hr).
  - destruct (Hr run eq_refl) as ((_ & _ & ca & _ & _ & _ & Hauth) & _ & _ & _ & Hapi).
    exists run, w', disk'. split; [exact Hrun|]. split; [exact Hauth|].
    intros a addr Ha. exact (proj1 (Hapi a addr Ha)).
  - pose proof test_start_succeeds as Hs. rewrite Hrun in Hs. discriminate Hs.
Defined.
